(* ===== verification/_CoqProject ===== *)
-Q . S2P
Prelude.v
Wire.v
StdSet.v
Text.v
Exceptions.v
ThreadGroup.v
Printing.v
HoldBack.v
QueueSpec.v
Net.v
Udp.v
Client.v
Process.v
Mutex.v
Random.v
Sender.v
Multicast.v
Server.v
Descriptors.v
System.v
RunFacts.v
History.v
Projection.v
NodeInv.v
SystemInv.v
SystemSteps.v
TotalOrder.v
TobSpec.v
Progress.v
Liveness.v
Runs.v
Failures.v
Blocking.v
ProcessSpec.v
SystemProps.v
ComponentProps.v
Wrap.v
Args.v
ArgParse.v
ArgsHelp.v
ArgsProps.v
Main.v
MainProps.v
CommandLine.v
CommandRef.v
Deployment.v
