(* ===== verification/Prelude.v ===== *)
(** * Total order multicast: a verification development

    ** The program

    src/ is an implementation of the ISIS total order multicast algorithm over UDP.  Every
    process of a hostfile runs a server and, for each message it multicasts, a sender
    thread.  The thread sends a data message to every process in turn and waits for an
    acknowledgement with a proposed sequence number ([Process::LaunchMulticastSender],
    src/src/process.cc); it takes the largest proposal as the final number and sends it in
    a sequence message to every process in turn.  The server answers data messages with the
    next number of a counter and keeps the message in a hold-back queue as undeliverable;
    a sequence message makes it deliverable, and the queue delivers from its head as long
    as the head is deliverable.  Messages travel over UDP with retransmission and
    exponential back-off (src/src/udp_conn.cc); main (src/src/main.cc) parses the command
    line with the parser of src/include/args.h, reads the hostfile and starts the process.

    ** The files

    - [Prelude]: this file; 32-bit integers, results of code that may throw, automation,
      lemmas on lists.
    - [Wire]: the messages (src/src/message.h) and their encoding (src/src/process.cc), for
      hosts of either byte order.
    - [StdSet]: [std::set], on any comparator that is a [StrictWeakOrder].
    - [Text]: decimal output, [std::stoi], words of a stream.
    - [Exceptions]: the exceptions and their texts; [ThreadGroup]: src/src/thread.h.
    - [HoldBack]: [PendingMessage], its comparator and the class [HoldBackQueue], with the
      invariant [hbq_wf]; [QueueSpec]: the abstract queue and the simulation.
    - [Net], [Udp], [Client]: addresses; sockets, [Client::SendWithAck], [Server::Listen];
      socket addresses and the construction of clients.
    - [Process]: the class [Process]: counter, handlers, callbacks, final number;
      [Random]: its random draws, on any [RandomEngine].
    - [Descriptors]: which sockets are open in the life of a process, on any
      [DescriptorTable]; [Mutex]: the recursive
      mutex of a client.  Both repeat the definitions of [Udp], [Client], [Process] and
      [Server] with that state, and prove that the results are the same.
    - [Sender]: a multicast thread as a state machine; [Multicast]: the sequential code of the
      thread, [Process::LaunchMulticastSender]; [Server]: [Process::TotalOrder].
    - [System]: all processes, threads, client mutexes and the network as a labelled
      transition system: [exec] is the effect of a label, [step] the same as a relation,
      [reachable] the states of runs.  The labels are the points where threads and servers
      interleave (lock a client, send, receive, time out, choose the final number, serve a
      datagram), the network (lose, duplicate, swap, bring datagrams from outside),
      failures, and the exit of a process whose server has failed and whose threads are
      joined.
    - [RunFacts]: what holds on any network; [History]: what a run has brought to each
      process and thread, computed from its labels; [Projection]: on that history the
      processes and threads of the system run [TotalOrder] and [LaunchMulticastSender];
      [NodeInv], [SystemInv], [SystemSteps]: the invariant of a process and of the system,
      and that every label preserves it; [TotalOrder]: its consequences; [TobSpec]: the
      abstract broadcast service and the simulation; [Progress]: that a run can always be
      completed; [Liveness]: that fair runs complete; [Failures], [Blocking]: what a stopped
      server and a stopped sender leave behind.
    - [ProcessSpec]: the interface [HoldBackLaws] that the hold-back queue offers to the
      handlers, the abstract process, and that the server implements it.
    - [Runs]: concrete runs; [SystemProps]: the properties of the system.
    - [ComponentProps]: the properties of the single components.
    - [Args]: flags, positionals and groups of src/include/args.h; [ArgParse]: the parser;
      [Wrap], [ArgsHelp]: its help menu; [ArgsProps]: its properties.
    - [Printing]: what the program prints; [Main]: main.cc; [MainProps]: their properties;
      [CommandLine]: from the options and the hostfile to the process; [CommandRef]: a parser
      written for the six flags of main only, as a reference for the general one.
    - [Deployment]: main on every host of a hostfile, as a configuration of [System].

    ** What the theorems show

    [SystemProps]: on networks that lose and duplicate datagrams and bring datagrams from
    outside that are not messages of the algorithm, but keep the order of the datagrams of
    one client, the logs of all processes are prefixes of one sequence ([total_order]); the
    system refines an abstract total order broadcast ([tob_refinement]); nothing is
    delivered twice or invented ([delivery_integrity]); when all threads have finished, all
    processes have delivered all messages in the same order ([finished_agreement]), and such
    a state can be reached from every state in which the servers still run
    ([completion_possible]) and is reached by every fair run ([fair_delivery]); deliveries
    are ordered by final number ([delivery_sorted]), final numbers agree
    ([final_number_agreement]), counters never exceed the number of proposals made and never
    go back ([counters_bounded]), the client mutexes exclude each other
    ([exchange_exclusive]).  The assumptions are [config_ok]: distinct addresses, distinct
    random message ids of one sender, and fewer than 2^32 proposals in total.  The labelled
    transition system is tied to the sequential code: after every run its processes and
    threads are where [TotalOrder] and [LaunchMulticastSender] get on exactly the datagrams
    and answers that the labels of the run handed to them, and the threads have sent what
    that code sends ([process_runs_TotalOrder], [thread_runs_LaunchMulticastSender]).  On
    networks that also reorder, [reordering_redelivers] and [reordering_blocks] exhibit runs
    that deliver a message twice and that block a queue for good; and
    [forged_message_breaks_order] that a datagram from outside which is a message of the
    algorithm can make two processes deliver in different orders.

    [Deployment]: the same for the program as it is started and for what it prints.  The
    command lines and hosts of a deployment determine a configuration for which [config_ok]
    holds; after every run [main] on each host, on the datagrams and answers of that run
    ([host_world]), has printed the deliveries of its process, the lines on any two hosts
    agree up to how far each has got ([outputs_totally_ordered]), and in fair runs all hosts
    end up having printed one line for every message ([outputs_complete]).  Assumed are the
    sockets and threads the operating system gives, fewer than 2^32 proposals in total, and
    that a process draws no message id twice; [colliding_ids_lose] shows what happens when it does.

    [Blocking]: when a process ends while it collects proposals, the processes that have seen
    its message deliver nothing multicast later ([crashed_sender_blocks]).
    [Descriptors]: the server opens and closes one socket per datagram and leaves none
    behind; a process closes its sockets only after all its threads have ended
    ([descriptors_balanced]).  [Mutex]: the nested locking of [SendWithAck] and [Send]
    never waits for itself and is undone on every way out ([SendWithAck_locks]).

    [Failures]: once a server has stopped, threads that still collect proposals never
    finish, so that a process whose server fails usually never exits
    ([stopped_server_blocks]); a process that does exit has finalised all its messages
    everywhere ([orderly_exit]).  [ProcessSpec]: on any stream of messages of the algorithm
    the server of [TotalOrder] goes through the states of an abstract process and delivers
    what that releases ([server_refines]); the proof uses the queue through [HoldBackLaws]
    only.

    [ComponentProps]: the hold-back queue implements the abstract queue and keeps its
    invariant; its comparator is a strict weak order; the wire format is read back across
    byte orders; the handlers cope with any bytes, answer retransmissions consistently and
    ignore malformed datagrams ([OnReceive_robust], [data_retransmission]); the sender
    records exactly the acknowledged proposals and takes their maximum, and ends when it is
    answered ([multicast_completes]); retransmission ends, backs off and does not overflow;
    addresses are read back.  [ArgsProps]: a parse keeps the shape of the parser and stores
    values of the declared types ([ParseArgs_typed]); what counters, list flags and the
    terminator collect.  [MainProps]: process ids, hostfile, exit codes ([main_exit_codes]: 0
    exactly when help is asked for; an error of the server is reported only after all
    threads have ended), output, and help texts, which are wrapped greedily and keep their
    words ([wrap_keeps_words]).  [CommandLine]: every sequence of options in any of their
    forms is read as what it says ([command_line_options]), main sets up the process it asks
    for or names the error ([options_setup]), a count is taken whatever its range
    ([count_not_validated]), and what is no option is rejected with the error that fits
    ([command_line_rejected]).  [CommandRef]: on every command line the general parser
    agrees with the reference ([command_line_reference]).

    ** Choices

    Integers are [Z] with the wrap-around of their width written out ([u32], [u16], [i32]);
    bytes are [Z] below 256.  Struct members the code does not initialise are the parameter
    [uninit]: the theorems hold for every value.  Exceptions are the [Throw] of [result] or
    an option next to the state the call leaves behind.  Loops that wait for the network run
    on the list of answers they get, so every function is total; the only fuel is the number
    of digits of [print_digits], 20, which is enough for 64 bits, and the size of the
    descriptor table for the search of the lowest free descriptor ([lowest_free]).  The
    disengaged optional that [HandleDataMsg] writes through is modelled as the storage it
    is.  The [int] of a [CounterFlag] wraps around at its width; in C++ its overflow is
    undefined.  [unordered_map] is a finite map: the keys are compared by value
    ([pmk_eqb_eq], [Address_eqb_eq]).  Only [Liveness] reasons classically, about infinite
    runs.

    A call of the parser that throws ends the parse; the status it leaves behind is not
    modelled, as main then prints the menu only, which shows none ([Help_text_shape]).

    ** What is not modelled

    Name resolution, the system calls, the random engines and the clock: their
    answers are arguments, or interfaces with what the code relies on ([RandomEngine],
    [DescriptorTable]).  The hash functions of keys and addresses, on which only the cost of a
    lookup depends.  The interleaving of the two output streams.  In [System],
    datagrams from outside that forge a message of the algorithm or the acknowledgement a
    client waits for: the program has no defence against them.  Of args.h the variant
    without exceptions, which the build does not select, and values of other types than
    [int] and [std::string].  The Go tests. *)

From Stdlib Require Import ZArith Lia Sorted.
From stdpp Require Import base list gmap strings.

(** ** Automation of the development *)

Create HintDb tom.
Create Rewrite HintDb tom.

(** Splits the conjunctions and existentials of the context. *)
Ltac split_hyps :=
  repeat match goal with
    | H : _ /\ _ |- _ => destruct H
    | H : exists _, _ |- _ => destruct H
    end.

(** Turns boolean comparisons of the context and of the goal into propositions. *)
Ltac bool_prop :=
  repeat match goal with
    | H : (_ && _)%bool = true |- _ => apply andb_true_iff in H; destruct H
    | H : (_ <? _)%Z = true |- _ => apply Z.ltb_lt in H
    | H : (_ <? _)%Z = false |- _ => apply Z.ltb_ge in H
    | H : (_ <=? _)%Z = true |- _ => apply Z.leb_le in H
    | H : (_ <=? _)%Z = false |- _ => apply Z.leb_gt in H
    | H : (_ =? _)%Z = true |- _ => apply Z.eqb_eq in H
    | H : (_ =? _)%Z = false |- _ => apply Z.eqb_neq in H
    | H : negb _ = true |- _ => apply negb_true_iff in H
    | H : negb _ = false |- _ => apply negb_false_iff in H
    end.

(** Case analysis on the first [if] or [match] scrutinee of the goal, with its
    equation, followed by [bool_prop]. *)
Ltac case_test :=
  match goal with
  | |- context [if ?b then _ else _] => destruct b eqn:?
  | |- context [match ?x with _ => _ end] => destruct x eqn:?
  end; bool_prop.

Ltac case_test_in H :=
  match type of H with
  | context [if ?b then _ else _] => destruct b eqn:?
  | context [match ?x with _ => _ end] => destruct x eqn:?
  end; bool_prop.

(** ** Machine integers *)

Open Scope Z_scope.

Definition u32_modulus : Z := 4294967296.
Definition UINT32_MAX : Z := 4294967295.

(** Wrap-around of an unsigned 32-bit integer. *)
Definition u32 (z : Z) : Z := z mod u32_modulus.

Definition is_u32 (z : Z) : Prop := 0 <= z < u32_modulus.

#[export] Instance is_u32_dec z : Decision (is_u32 z).
Proof. unfold is_u32. apply _. Defined.

Lemma u32_range z : is_u32 (u32 z).
Proof. unfold u32, is_u32. apply Z.mod_pos_bound. reflexivity. Qed.

Lemma u32_small z : is_u32 z -> u32 z = z.
Proof. apply Z.mod_small. Qed.

(** Conversion to a 32-bit [int]. *)
Definition i32 (z : Z) : Z :=
  if u32 z <? 2147483648 then u32 z else u32 z - u32_modulus.

Lemma i32_range z : -2147483648 <= i32 z <= 2147483647.
Proof.
  pose proof (u32_range z) as H. unfold is_u32, u32_modulus in H. unfold i32, u32_modulus.
  destruct (Z.ltb_spec (u32 z) 2147483648); lia.
Qed.

Lemma i32_small z : -2147483648 <= z <= 2147483647 -> i32 z = z.
Proof.
  intros Hz. unfold i32. destruct (Z.leb_spec 0 z) as [H0|H0].
  - rewrite u32_small by (unfold is_u32, u32_modulus; lia).
    destruct (Z.ltb_spec z 2147483648); lia.
  - assert (u32 z = z + u32_modulus) as ->.
    { unfold u32. rewrite <- (Z.mod_add z 1) by done. apply Z.mod_small. unfold u32_modulus. lia. }
    unfold u32_modulus. destruct (Z.ltb_spec (z + 4294967296) 2147483648); lia.
Qed.

#[export] Hint Resolve u32_range : tom.
#[export] Hint Rewrite u32_small using (assumption || lia) : tom.

(** ** Results of code that may throw *)

Inductive result (E A : Type) : Type :=
| Ok (a : A)
| Throw (e : E).
Arguments Ok {E A} a.
Arguments Throw {E A} e.

Definition result_bind {E A B} (m : result E A) (f : A -> result E B)
  : result E B :=
  match m with
  | Ok a => f a
  | Throw e => Throw e
  end.

Declare Scope tom_scope.
Delimit Scope tom_scope with tom.

Notation "'let!' x ':=' m 'in' k" := (result_bind m (fun x => k))
  (at level 10, x name, m at level 100, k at level 200) : tom_scope.

(** ** Generic lemmas on lists *)

Section Lists.
Context {A : Type}.
Implicit Types (l : list A) (P : A -> Prop).

(** Two strictly sorted lists that are both downward closed in a common
    universe are comparable by [prefix]. *)
Lemma sorted_closed_prefix (R : A -> A -> Prop) l1 l2 :
  (forall x, ~ R x x) ->
  (forall x y z, R x y -> R y z -> R x z) ->
  (forall x y, x ∈ l1 ++ l2 -> y ∈ l1 ++ l2 -> x = y \/ R x y \/ R y x) ->
  StronglySorted R l1 -> StronglySorted R l2 ->
  (forall x y, x ∈ l1 -> y ∈ l2 -> R x y -> x ∈ l2) ->
  (forall x y, x ∈ l2 -> y ∈ l1 -> R x y -> x ∈ l1) ->
  l1 `prefix_of` l2 \/ l2 `prefix_of` l1.
Proof.
  intros Hirr Htrans. revert l2.
  induction l1 as [|x l1 IH]; intros l2 Htot Hs1 Hs2 Hc1 Hc2.
  { left. apply prefix_nil. }
  destruct l2 as [|y l2]; [right; apply prefix_nil|].
  apply StronglySorted_inv in Hs1 as [Hs1 Hx].
  apply StronglySorted_inv in Hs2 as [Hs2 Hy].
  rewrite List.Forall_forall in Hx. rewrite List.Forall_forall in Hy.
  setoid_rewrite <- list_elem_of_In in Hx.
  setoid_rewrite <- list_elem_of_In in Hy.
  assert (x = y) as <-.
  { destruct (Htot x y ltac:(set_solver) ltac:(set_solver)) as [?|[Hxy|Hyx]]; [done|..].
    - pose proof (Hc1 x y ltac:(set_solver) ltac:(set_solver) Hxy) as Hin.
      apply elem_of_cons in Hin as [->|Hin]; [done|].
      destruct (Hirr x). eapply Htrans; [exact Hxy|by apply Hy].
    - pose proof (Hc2 y x ltac:(set_solver) ltac:(set_solver) Hyx) as Hin.
      apply elem_of_cons in Hin as [->|Hin]; [done|].
      destruct (Hirr y). eapply Htrans; [exact Hyx|by apply Hx]. }
  destruct (IH l2) as [Hp|Hp]; [..|left; by apply prefix_cons|right; by apply prefix_cons].
  - intros a b Ha Hb. apply Htot; rewrite elem_of_app in *; set_solver.
  - done.
  - done.
  - intros a b Ha Hb Hab. pose proof (Hc1 a b ltac:(set_solver) ltac:(set_solver) Hab) as Hin.
    apply elem_of_cons in Hin as [->|Hin]; [|done]. exfalso. eapply Hirr, Hx, Ha.
  - intros a b Ha Hb Hab. pose proof (Hc2 a b ltac:(set_solver) ltac:(set_solver) Hab) as Hin.
    apply elem_of_cons in Hin as [->|Hin]; [|done]. exfalso. eapply Hirr, Hy, Ha.
Qed.

Lemma StronglySorted_app_iff (R : A -> A -> Prop) l1 l2 :
  StronglySorted R (l1 ++ l2) <->
  StronglySorted R l1 /\ StronglySorted R l2 /\
  (forall x y, x ∈ l1 -> y ∈ l2 -> R x y).
Proof.
  induction l1 as [|a l1 IH]; simpl.
  { split; [intros; split_and!; [constructor|done|set_solver]|intros (?&?&?); done]. }
  split.
  - intros [Hs Ha]%StronglySorted_inv. apply IH in Hs as (H1&H2&H3).
    rewrite Forall_forall in Ha. split_and!; [|done|].
    + constructor; [done|]. apply Forall_forall. set_solver.
    + intros x y [->|Hx]%elem_of_cons Hy; [apply Ha; set_solver|eauto].
  - intros ([Hs Ha]%StronglySorted_inv & H2 & H3). rewrite Forall_forall in Ha.
    constructor; [apply IH; set_solver|]. apply Forall_forall.
    intros x [Hx|Hx]%elem_of_app; [by apply Ha|apply H3; set_solver].
Qed.

End Lists.

Lemma sum_list_insert (l : list nat) j x y :
  l !! j = Some x -> (sum_list (<[j := y]> l) + x = sum_list l + y)%nat.
Proof.
  revert j. induction l as [|z l IH]; intros [|j] Hj; simplify_eq/=; [lia|].
  specialize (IH j Hj). lia.
Qed.

(** Filtering the images of a list. *)
Lemma filter_fmap {A B} (f : A -> B) (P : B -> Prop) `{forall y, Decision (P y)} (l : list A) :
  filter P (f <$> l) = f <$> filter (fun x => P (f x)) l.
Proof.
  induction l as [|x l IH]; [done|]. rewrite fmap_cons. destruct (decide (P (f x))).
  - rewrite !filter_cons_True by done. by rewrite fmap_cons, IH.
  - rewrite !filter_cons_False by done. exact IH.
Qed.
