(* ===== verification/Wire.v ===== *)
(** * Wire format

    The message structs of src/src/message.h, the host/network byte order
    conversions, and the encoders and decoders of src/src/process.cc
    ([MessageTypeFromBuf], the [*FromBuf] functions and the field-by-field
    conversions of the [Send*Msg] functions).

    A byte is a [Z] between 0 and 255 and a buffer is a list of bytes.  The byte
    order of the host is a parameter [e] of every function that reads or writes
    memory, so the theorems cover hosts of both byte orders and pairs of hosts
    that differ. *)

From Stdlib Require Import ZArith Lia.
From stdpp Require Import base list.
From S2P Require Import Prelude.

Open Scope Z_scope.

(** ** Messages (message.h) *)

Definition kDataMessageType : Z := 1.
Definition kAckMessageType : Z := 2.
Definition kSeqMessageType : Z := 3.
Definition kSeqAckMessageType : Z := 4.

Record DataMessage := mkDataMessage {
  dm_type : Z;
  dm_sender : Z;
  dm_msg_id : Z;
  dm_data : Z
}.

Record AckMessage := mkAckMessage {
  am_type : Z;
  am_sender : Z;
  am_msg_id : Z;
  am_proposed_seq : Z;
  am_proposer : Z
}.

Record SeqMessage := mkSeqMessage {
  sm_type : Z;
  sm_sender : Z;
  sm_msg_id : Z;
  sm_final_seq : Z;
  sm_final_seq_proposer : Z
}.

Record SeqAckMessage := mkSeqAckMessage {
  sam_type : Z;
  sam_sender : Z;
  sam_msg_id : Z
}.

#[export] Instance DataMessage_eq_dec : EqDecision DataMessage.
Proof. solve_decision. Defined.
#[export] Instance AckMessage_eq_dec : EqDecision AckMessage.
Proof. solve_decision. Defined.
#[export] Instance SeqMessage_eq_dec : EqDecision SeqMessage.
Proof. solve_decision. Defined.
#[export] Instance SeqAckMessage_eq_dec : EqDecision SeqAckMessage.
Proof. solve_decision. Defined.

Definition sizeof_uint32 : nat := 4.
Definition sizeof_DataMessage : nat := 16.
Definition sizeof_AckMessage : nat := 20.
Definition sizeof_SeqMessage : nat := 20.
Definition sizeof_SeqAckMessage : nat := 12.

(** ** Memory and byte order *)

Inductive endian := Little | Big.

#[export] Instance endian_eq_dec : EqDecision endian.
Proof. solve_decision. Defined.

(** Byte [i] (counted from the least significant one) of a 32-bit word. *)
Definition byte_of (x : Z) (i : Z) : Z := Z.land (Z.shiftr x (8 * i)) 255.

(** The four bytes a [uint32_t] occupies in memory. *)
Definition store32 (e : endian) (x : Z) : list Z :=
  match e with
  | Little => [byte_of x 0; byte_of x 1; byte_of x 2; byte_of x 3]
  | Big => [byte_of x 3; byte_of x 2; byte_of x 1; byte_of x 0]
  end.

Definition join4 (b3 b2 b1 b0 : Z) : Z :=
  Z.lor (Z.shiftl b3 24)
    (Z.lor (Z.shiftl b2 16) (Z.lor (Z.shiftl b1 8) b0)).

(** Reads a [uint32_t] at byte offset [off]; bytes past the end of the list read
    as zero (every buffer of the program is zeroed before it is filled). *)
Definition load32 (e : endian) (buf : list Z) (off : nat) : Z :=
  let b i := nth (off + i) buf 0 in
  match e with
  | Little => join4 (b 3%nat) (b 2%nat) (b 1%nat) (b 0%nat)
  | Big => join4 (b 0%nat) (b 1%nat) (b 2%nat) (b 3%nat)
  end.

Definition bswap32 (x : Z) : Z :=
  join4 (byte_of x 0) (byte_of x 1) (byte_of x 2) (byte_of x 3).

Definition htonl (e : endian) (x : Z) : Z :=
  match e with Little => bswap32 x | Big => x end.

Definition ntohl (e : endian) (x : Z) : Z :=
  match e with Little => bswap32 x | Big => x end.

(** ** Decoders (process.cc) *)

Definition MessageTypeFromBuf (e : endian) (buf : list Z) (n : nat)
  : option Z :=
  if (n <? sizeof_uint32)%nat then None
  else Some (ntohl e (load32 e buf 0)).

Definition DataMsgFromBuf (e : endian) (buf : list Z) (n : nat)
  : option DataMessage :=
  if negb (n =? sizeof_DataMessage)%nat then None
  else Some {|
    dm_type := ntohl e (load32 e buf 0);
    dm_sender := ntohl e (load32 e buf 4);
    dm_msg_id := ntohl e (load32 e buf 8);
    dm_data := ntohl e (load32 e buf 12)
  |}.

Definition AckMsgFromBuf (e : endian) (buf : list Z) (n : nat)
  : option AckMessage :=
  if negb (n =? sizeof_AckMessage)%nat then None
  else Some {|
    am_type := ntohl e (load32 e buf 0);
    am_sender := ntohl e (load32 e buf 4);
    am_msg_id := ntohl e (load32 e buf 8);
    am_proposed_seq := ntohl e (load32 e buf 12);
    am_proposer := ntohl e (load32 e buf 16)
  |}.

Definition SeqMsgFromBuf (e : endian) (buf : list Z) (n : nat)
  : option SeqMessage :=
  if negb (n =? sizeof_SeqMessage)%nat then None
  else Some {|
    sm_type := ntohl e (load32 e buf 0);
    sm_sender := ntohl e (load32 e buf 4);
    sm_msg_id := ntohl e (load32 e buf 8);
    sm_final_seq := ntohl e (load32 e buf 12);
    sm_final_seq_proposer := ntohl e (load32 e buf 16)
  |}.

Definition SeqAckMsgFromBuf (e : endian) (buf : list Z) (n : nat)
  : option SeqAckMessage :=
  if negb (n =? sizeof_SeqAckMessage)%nat then None
  else Some {|
    sam_type := ntohl e (load32 e buf 0);
    sam_sender := ntohl e (load32 e buf 4);
    sam_msg_id := ntohl e (load32 e buf 8)
  |}.

(** ** Encoders: the bytes the [Send*Msg] functions hand to the UDP client *)

Definition DataMsgToBuf (e : endian) (m : DataMessage) : list Z :=
  store32 e (htonl e kDataMessageType) ++ store32 e (htonl e (dm_sender m)) ++
  store32 e (htonl e (dm_msg_id m)) ++ store32 e (htonl e (dm_data m)).

Definition AckMsgToBuf (e : endian) (m : AckMessage) : list Z :=
  store32 e (htonl e kAckMessageType) ++ store32 e (htonl e (am_sender m)) ++
  store32 e (htonl e (am_msg_id m)) ++
  store32 e (htonl e (am_proposed_seq m)) ++
  store32 e (htonl e (am_proposer m)).

Definition SeqMsgToBuf (e : endian) (m : SeqMessage) : list Z :=
  store32 e (htonl e kSeqMessageType) ++ store32 e (htonl e (sm_sender m)) ++
  store32 e (htonl e (sm_msg_id m)) ++
  store32 e (htonl e (sm_final_seq m)) ++
  store32 e (htonl e (sm_final_seq_proposer m)).

Definition SeqAckMsgToBuf (e : endian) (m : SeqAckMessage) : list Z :=
  store32 e (htonl e kSeqAckMessageType) ++
  store32 e (htonl e (sam_sender m)) ++
  store32 e (htonl e (sam_msg_id m)).

(** ** Validators (process.cc) *)

Definition ValidDataMsg (m : DataMessage) (process_count : Z) : bool :=
  if negb (dm_type m =? kDataMessageType) then false
  else if process_count <=? dm_sender m then false
  else true.

Definition ValidAckMsg (m : AckMessage)
    (exp_sender exp_msg_id exp_proposer : Z) : bool :=
  if negb (am_type m =? kAckMessageType) then false
  else if negb (am_sender m =? exp_sender) then false
  else if negb (am_msg_id m =? exp_msg_id) then false
  else if negb (am_proposer m =? exp_proposer) then false
  else true.

Definition ValidSeqMsg (m : SeqMessage) (process_count : Z) : bool :=
  if negb (sm_type m =? kSeqMessageType) then false
  else if process_count <=? sm_sender m then false
  else if process_count <=? sm_final_seq_proposer m then false
  else true.

Definition ValidSeqAckMsg (m : SeqAckMessage) (seq_msg : SeqMessage) : bool :=
  if negb (sam_type m =? kSeqAckMessageType) then false
  else if negb (sam_sender m =? sm_sender seq_msg) then false
  else if negb (sam_msg_id m =? sm_msg_id seq_msg) then false
  else true.

(** ** Byte-level lemmas *)

Definition is_byte (b : Z) : Prop := 0 <= b < 256.

Lemma byte_of_range x i : is_byte (byte_of x i).
Proof.
  unfold byte_of, is_byte. change 255 with (Z.ones 8).
  rewrite Z.land_ones by lia. apply Z.mod_pos_bound. reflexivity.
Qed.

Lemma testbit_byte_of x i k :
  0 <= i ->
  Z.testbit (byte_of x i) k =
  (((0 <=? k) && (k <? 8)) && Z.testbit x (k + 8 * i))%bool.
Proof.
  intros Hi. unfold byte_of. change 255 with (Z.ones 8).
  destruct (Z.leb_spec 0 k); simpl; [|apply Z.testbit_neg_r; lia].
  rewrite Z.land_spec, Z.shiftr_spec, Z.testbit_ones_nonneg by lia.
  apply andb_comm.
Qed.

(** Bit [k] of four bytes joined into a word. *)
Lemma testbit_join4 b3 b2 b1 b0 k :
  0 <= k ->
  Z.testbit (join4 b3 b2 b1 b0) k =
  (Z.testbit b3 (k - 24) || (Z.testbit b2 (k - 16) ||
   (Z.testbit b1 (k - 8) || Z.testbit b0 k)))%bool.
Proof.
  intros Hk. unfold join4. rewrite !Z.lor_spec, !Z.shiftl_spec by lia. done.
Qed.

Lemma testbit_u32_above x k : is_u32 x -> 32 <= k -> Z.testbit x k = false.
Proof.
  unfold is_u32, u32_modulus. intros Hx Hk. destruct (Z.eq_dec x 0) as [->|].
  { apply Z.bits_0. }
  apply Z.bits_above_log2; [lia|].
  assert (Z.log2 x < 32) by (apply Z.log2_lt_pow2; lia). lia.
Qed.

(** Decides a bit equation between words built from bytes of [x]. *)
Ltac solve_bits k :=
  rewrite ?testbit_byte_of, ?testbit_join4, ?testbit_byte_of by lia;
  repeat match goal with
    | |- context [0 <=? ?a] => destruct (Z.leb_spec 0 a)
    | |- context [?a <? 8] => destruct (Z.ltb_spec a 8)
    end; simpl; rewrite ?orb_false_r; try lia; try (f_equal; lia).

Lemma join4_bytes x :
  is_u32 x ->
  join4 (byte_of x 3) (byte_of x 2) (byte_of x 1) (byte_of x 0) = x.
Proof.
  intros Hx. apply Z.bits_inj'. intros k Hk. solve_bits k.
  symmetry. apply testbit_u32_above; [done|lia].
Qed.

Lemma testbit_byte_above b k : is_byte b -> 8 <= k -> Z.testbit b k = false.
Proof.
  unfold is_byte. intros Hb Hk. destruct (Z.eq_dec b 0) as [->|]; [apply Z.bits_0|].
  apply Z.bits_above_log2; [lia|].
  assert (Z.log2 b < 8) by (apply Z.log2_lt_pow2; lia). lia.
Qed.

Lemma join4_range b3 b2 b1 b0 :
  is_byte b3 -> is_byte b2 -> is_byte b1 -> is_byte b0 ->
  is_u32 (join4 b3 b2 b1 b0).
Proof.
  intros H3 H2 H1 H0. rewrite <- (Z.mod_small (join4 b3 b2 b1 b0) (2 ^ 32)).
  { apply Z.mod_pos_bound. reflexivity. }
  enough (join4 b3 b2 b1 b0 = join4 b3 b2 b1 b0 mod 2 ^ 32) as ->
    by (apply Z.mod_pos_bound; reflexivity).
  apply Z.bits_inj'. intros k Hk. rewrite Z.testbit_mod_pow2 by lia.
  destruct (Z.ltb_spec k 32); [done|]. simpl. rewrite testbit_join4 by lia.
  rewrite !testbit_byte_above by (done || lia). done.
Qed.

Lemma byte_of_bswap32 x i :
  0 <= i <= 3 -> byte_of (bswap32 x) i = byte_of x (3 - i).
Proof.
  intros Hi. apply Z.bits_inj'. intros k Hk. unfold bswap32.
  rewrite (testbit_byte_of _ i), (testbit_byte_of x) by lia.
  destruct (Z.ltb_spec k 8); [|by rewrite !andb_false_r].
  rewrite testbit_join4, !testbit_byte_of by lia.
  assert (i = 0 \/ i = 1 \/ i = 2 \/ i = 3) as [-> | [-> | [-> | -> ]]] by lia; solve_bits k.
Qed.

Lemma bswap32_involutive x : is_u32 x -> bswap32 (bswap32 x) = x.
Proof.
  intros Hx. unfold bswap32 at 1. rewrite !byte_of_bswap32 by lia.
  by apply join4_bytes.
Qed.

(** The bytes written for a field do not depend on the byte order of the host:
    they are the big-endian ones. *)
Lemma store32_htonl e x : store32 e (htonl e x) = store32 Big x.
Proof.
  destruct e; [|done]. unfold store32, htonl. rewrite !byte_of_bswap32 by lia. done.
Qed.

(** Reading a field written in network order at a byte offset. *)
Lemma ntohl_load32_app e buf pre x post off :
  buf = pre ++ store32 Big x ++ post -> length pre = off -> is_u32 x ->
  ntohl e (load32 e buf off) = x.
Proof.
  intros -> <- Hx. unfold load32.
  assert (forall i, nth (length pre + i) (pre ++ store32 Big x ++ post) 0
                    = nth i (store32 Big x ++ post) 0) as Hn.
  { intros i. rewrite app_nth2 by lia. f_equal. lia. }
  rewrite !Hn. destruct e; simpl.
  - by apply bswap32_involutive.
  - by apply join4_bytes.
Qed.

Lemma load32_range e buf off :
  Forall is_byte buf -> is_u32 (ntohl e (load32 e buf off)).
Proof.
  intros Hb. assert (forall i, is_byte (nth i buf 0)) as Hn.
  { intros i. destruct (nth_in_or_default i buf 0) as [Hin| ->]; [|done].
    rewrite List.Forall_forall in Hb. by apply Hb. }
  unfold load32, ntohl. destruct e; [unfold bswap32|]; apply join4_range;
    first [apply byte_of_range | apply Hn].
Qed.

Lemma store32_bytes e x : Forall is_byte (store32 e x).
Proof. destruct e; repeat constructor; apply byte_of_range. Qed.

Lemma length_store32 e x : length (store32 e x) = 4%nat.
Proof. by destruct e. Qed.

(** ** Messages whose fields fit their 32-bit types *)

Definition DataMessage_u32 (m : DataMessage) : Prop :=
  is_u32 (dm_sender m) /\ is_u32 (dm_msg_id m) /\ is_u32 (dm_data m).
Definition AckMessage_u32 (m : AckMessage) : Prop :=
  is_u32 (am_sender m) /\ is_u32 (am_msg_id m) /\
  is_u32 (am_proposed_seq m) /\ is_u32 (am_proposer m).
Definition SeqMessage_u32 (m : SeqMessage) : Prop :=
  is_u32 (sm_sender m) /\ is_u32 (sm_msg_id m) /\
  is_u32 (sm_final_seq m) /\ is_u32 (sm_final_seq_proposer m).
Definition SeqAckMessage_u32 (m : SeqAckMessage) : Prop :=
  is_u32 (sam_sender m) /\ is_u32 (sam_msg_id m).

(** The message a peer reads back: the type tag is the one the sender function
    writes, whatever the (uninitialised) tag of the struct was. *)
Definition stamp_data (m : DataMessage) : DataMessage :=
  mkDataMessage kDataMessageType (dm_sender m) (dm_msg_id m) (dm_data m).
Definition stamp_ack (m : AckMessage) : AckMessage :=
  mkAckMessage kAckMessageType (am_sender m) (am_msg_id m)
    (am_proposed_seq m) (am_proposer m).
Definition stamp_seq (m : SeqMessage) : SeqMessage :=
  mkSeqMessage kSeqMessageType (sm_sender m) (sm_msg_id m)
    (sm_final_seq m) (sm_final_seq_proposer m).
Definition stamp_seqack (m : SeqAckMessage) : SeqAckMessage :=
  mkSeqAckMessage kSeqAckMessageType (sam_sender m) (sam_msg_id m).

(** ** Round trips *)

(** Reads one field of an encoded message, given the field that precedes the
    offset and the value expected there. *)
Ltac read_field :=
  match goal with
  | |- context [load32 ?e (store32 Big ?a ++ ?rest) 0] =>
      rewrite (ntohl_load32_app e _ [] a rest 0) by done
  | |- context [load32 ?e (?a ++ store32 Big ?b ++ ?rest) 4] =>
      rewrite (ntohl_load32_app e _ a b rest 4) by done
  | |- context [load32 ?e (?a ++ ?b ++ store32 Big ?c ++ ?rest) 8] =>
      rewrite (ntohl_load32_app e _ (a ++ b) c rest 8) by done
  | |- context [load32 ?e (?a ++ ?b ++ ?c ++ store32 Big ?d ++ ?rest) 12] =>
      rewrite (ntohl_load32_app e _ (a ++ b ++ c) d rest 12) by done
  | |- context [load32 ?e
        (?a ++ ?b ++ ?c ++ ?d ++ store32 Big ?f ++ ?rest) 16] =>
      rewrite (ntohl_load32_app e _ (a ++ b ++ c ++ d) f rest 16) by done
  end.

Ltac solve_roundtrip :=
  rewrite ?store32_htonl, <- ?app_assoc; repeat read_field; reflexivity.

Lemma DataMsg_roundtrip e e' m post :
  DataMessage_u32 m ->
  DataMsgFromBuf e' (DataMsgToBuf e m ++ post) sizeof_DataMessage
  = Some (stamp_data m).
Proof.
  intros (Hs & Hi & Hd). unfold DataMsgFromBuf, DataMsgToBuf, stamp_data.
  solve_roundtrip.
Qed.

Lemma AckMsg_roundtrip e e' m post :
  AckMessage_u32 m ->
  AckMsgFromBuf e' (AckMsgToBuf e m ++ post) sizeof_AckMessage
  = Some (stamp_ack m).
Proof.
  intros (Hs & Hi & Hp & Hq). unfold AckMsgFromBuf, AckMsgToBuf, stamp_ack.
  solve_roundtrip.
Qed.

Lemma SeqMsg_roundtrip e e' m post :
  SeqMessage_u32 m ->
  SeqMsgFromBuf e' (SeqMsgToBuf e m ++ post) sizeof_SeqMessage
  = Some (stamp_seq m).
Proof.
  intros (Hs & Hi & Hp & Hq). unfold SeqMsgFromBuf, SeqMsgToBuf, stamp_seq.
  solve_roundtrip.
Qed.

Lemma SeqAckMsg_roundtrip e e' m post :
  SeqAckMessage_u32 m ->
  SeqAckMsgFromBuf e' (SeqAckMsgToBuf e m ++ post) sizeof_SeqAckMessage
  = Some (stamp_seqack m).
Proof.
  intros (Hs & Hi). unfold SeqAckMsgFromBuf, SeqAckMsgToBuf, stamp_seqack.
  solve_roundtrip.
Qed.

(** The type tag a server reads from each kind of message. *)
Lemma MessageType_tag e e' n t rest :
  is_u32 t -> (4 <= n)%nat ->
  MessageTypeFromBuf e' (store32 e (htonl e t) ++ rest) n = Some t.
Proof.
  intros Ht Hn. unfold MessageTypeFromBuf, sizeof_uint32.
  rewrite (proj2 (Nat.ltb_ge n 4)) by lia.
  rewrite store32_htonl. read_field. done.
Qed.

Lemma length_DataMsgToBuf e m : length (DataMsgToBuf e m) = sizeof_DataMessage.
Proof. by destruct e. Qed.
Lemma length_AckMsgToBuf e m : length (AckMsgToBuf e m) = sizeof_AckMessage.
Proof. by destruct e. Qed.
Lemma length_SeqMsgToBuf e m : length (SeqMsgToBuf e m) = sizeof_SeqMessage.
Proof. by destruct e. Qed.
Lemma length_SeqAckMsgToBuf e m :
  length (SeqAckMsgToBuf e m) = sizeof_SeqAckMessage.
Proof. by destruct e. Qed.

#[export] Hint Rewrite length_DataMsgToBuf length_AckMsgToBuf
  length_SeqMsgToBuf length_SeqAckMsgToBuf : tom.

(** A buffer of the wrong size is refused, and a decoded field always fits its
    type, whatever bytes the network delivered. *)
Lemma DataMsgFromBuf_inv e buf n m :
  DataMsgFromBuf e buf n = Some m -> Forall is_byte buf ->
  n = sizeof_DataMessage /\ is_u32 (dm_type m) /\ DataMessage_u32 m.
Proof.
  unfold DataMsgFromBuf, DataMessage_u32. intros H Hb. case_test_in H; [done|].
  simplify_eq. split; [by apply Nat.eqb_eq|]. split_and!; simpl; by apply load32_range.
Qed.

Lemma SeqMsgFromBuf_inv e buf n m :
  SeqMsgFromBuf e buf n = Some m -> Forall is_byte buf ->
  n = sizeof_SeqMessage /\ is_u32 (sm_type m) /\ SeqMessage_u32 m.
Proof.
  unfold SeqMsgFromBuf, SeqMessage_u32. intros H Hb. case_test_in H; [done|].
  simplify_eq. split; [by apply Nat.eqb_eq|]. split_and!; simpl; by apply load32_range.
Qed.

Lemma AckMsgFromBuf_inv e buf n m :
  AckMsgFromBuf e buf n = Some m -> Forall is_byte buf ->
  n = sizeof_AckMessage /\ is_u32 (am_type m) /\ AckMessage_u32 m.
Proof.
  unfold AckMsgFromBuf, AckMessage_u32. intros H Hb. case_test_in H; [done|].
  simplify_eq. split; [by apply Nat.eqb_eq|]. split_and!; simpl; by apply load32_range.
Qed.

(** ** Validators as propositions *)

Lemma ValidDataMsg_spec m c :
  ValidDataMsg m c = true <-> dm_type m = kDataMessageType /\ dm_sender m < c.
Proof. unfold ValidDataMsg. repeat case_test; split; (done || lia). Qed.

Lemma ValidAckMsg_spec m s i p :
  ValidAckMsg m s i p = true <->
  am_type m = kAckMessageType /\ am_sender m = s /\ am_msg_id m = i /\
  am_proposer m = p.
Proof. unfold ValidAckMsg. repeat case_test; split; (done || lia). Qed.

Lemma ValidSeqMsg_spec m c :
  ValidSeqMsg m c = true <->
  sm_type m = kSeqMessageType /\ sm_sender m < c /\
  sm_final_seq_proposer m < c.
Proof. unfold ValidSeqMsg. repeat case_test; split; (done || lia). Qed.

Lemma ValidSeqAckMsg_spec m s :
  ValidSeqAckMsg m s = true <->
  sam_type m = kSeqAckMessageType /\ sam_sender m = sm_sender s /\
  sam_msg_id m = sm_msg_id s.
Proof. unfold ValidSeqAckMsg. repeat case_test; split; (done || lia). Qed.
