(* ===== verification/StdSet.v ===== *)
(** * std::set

    The ordered set of the C++ standard library, as the program uses it
    ([insert], [erase] by key, [count], iteration from [begin]).  A set is the list
    of its elements in iteration order; elements that the comparator cannot tell
    apart are the same key.  The comparator is a parameter; the laws it must have
    are the class [StrictWeakOrder]. *)

From Stdlib Require Import Sorted.
From stdpp Require Import base list sets sorting.
From S2P Require Import Prelude.

Class StrictWeakOrder {T : Type} (lt : T -> T -> bool) : Prop := {
  swo_irrefl x : lt x x = false;
  swo_trans x y z : lt x y = true -> lt y z = true -> lt x z = true;
  swo_incomp x y z :
    lt x y = false -> lt y x = false -> lt y z = false -> lt z y = false ->
    lt x z = false /\ lt z x = false
}.

Section OrderedSet.
Context {T : Type} (lt : T -> T -> bool).

(** Two elements are the same key. *)
Definition key_equiv (x y : T) : Prop := lt x y = false /\ lt y x = false.

Definition lt_rel (x y : T) : Prop := lt x y = true.

(** [insert]: no effect when an equivalent element is present. *)
Fixpoint set_insert (x : T) (s : list T) : list T :=
  match s with
  | [] => [x]
  | y :: s' =>
      if lt x y then x :: y :: s'
      else if lt y x then y :: set_insert x s'
      else y :: s'
  end.

(** [erase(key)]: removes the equivalent element, if any. *)
Fixpoint set_erase (x : T) (s : list T) : list T :=
  match s with
  | [] => []
  | y :: s' =>
      if lt x y then y :: s'
      else if lt y x then y :: set_erase x s'
      else s'
  end.

(** [count(key)], as a boolean: a set holds a key at most once. *)
Fixpoint set_count (x : T) (s : list T) : bool :=
  match s with
  | [] => false
  | y :: s' =>
      if lt x y then false
      else if lt y x then set_count x s'
      else true
  end.

(** The representation invariant. *)
Definition set_sorted (s : list T) : Prop := StronglySorted lt_rel s.

Context `{Hswo : !StrictWeakOrder lt}.

#[global] Instance key_equiv_equivalence : Equivalence key_equiv.
Proof.
  split.
  - intros x. split; apply swo_irrefl.
  - intros x y [? ?]. by split.
  - intros x y z [? ?] [? ?]. by apply (swo_incomp x y z).
Qed.

Lemma lt_asym x y : lt x y = true -> lt y x = false.
Proof.
  intros H. destruct (lt y x) eqn:E; [|done].
  pose proof (swo_trans x y x H E) as Hxx. by rewrite swo_irrefl in Hxx.
Qed.

(** The comparator cannot tell equivalent elements apart. *)
#[global] Instance lt_proper : Proper (key_equiv ==> key_equiv ==> eq) lt.
Proof.
  assert (Hone : forall x y z, key_equiv x y -> lt x z = true -> lt y z = true).
  { intros x y z [Hxy Hyx] Hxz. destruct (lt y z) eqn:E; [done|].
    destruct (lt z y) eqn:E2.
    - by rewrite (swo_trans x z y Hxz E2) in Hxy.
    - destruct (swo_incomp x y z) as [? ?]; try done. congruence. }
  assert (Htwo : forall x z w, key_equiv z w -> lt x z = true -> lt x w = true).
  { intros x z w [Hzw Hwz] Hxz. destruct (lt x w) eqn:E; [done|].
    destruct (lt w x) eqn:E2.
    - by rewrite (swo_trans w x z E2 Hxz) in Hwz.
    - destruct (swo_incomp x w z) as [? ?]; try done. congruence. }
  intros x y Hxy z w Hzw.
  destruct (lt x z) eqn:E1, (lt y w) eqn:E2; try done.
  - rewrite (Htwo _ _ _ Hzw (Hone _ _ _ Hxy E1)) in E2. done.
  - symmetry in Hxy, Hzw. rewrite (Htwo _ _ _ Hzw (Hone _ _ _ Hxy E2)) in E1. done.
Qed.

#[global] Instance set_erase_proper : Proper (key_equiv ==> eq ==> eq) set_erase.
Proof.
  intros x y Hxy s ? <-. induction s as [|z s IH]; [done|]. simpl.
  rewrite (lt_proper x y Hxy z z (reflexivity z)),
    (lt_proper z z (reflexivity z) x y Hxy), IH. done.
Qed.

#[global] Instance set_count_proper : Proper (key_equiv ==> eq ==> eq) set_count.
Proof.
  intros x y Hxy s ? <-. induction s as [|z s IH]; [done|]. simpl.
  rewrite (lt_proper x y Hxy z z (reflexivity z)),
    (lt_proper z z (reflexivity z) x y Hxy), IH. done.
Qed.

Lemma set_insert_perm x s : set_count x s = false -> set_insert x s ≡ₚ x :: s.
Proof.
  induction s as [|y s IH]; [done|]. simpl. intros H.
  destruct (lt x y); [done|]. destruct (lt y x); [|done].
  rewrite IH by done. apply Permutation_swap.
Qed.

Lemma set_insert_present x s : set_count x s = true -> set_insert x s = s.
Proof.
  induction s as [|y s IH]; [done|]. simpl. intros H.
  destruct (lt x y); [done|]. destruct (lt y x); [|done]. by rewrite IH.
Qed.

Lemma set_erase_perm x s :
  set_count x s = true -> exists y, key_equiv x y /\ s ≡ₚ y :: set_erase x s.
Proof.
  induction s as [|y s IH]; [done|]. simpl. intros H.
  destruct (lt x y) eqn:E1; [done|]. destruct (lt y x) eqn:E2.
  - destruct (IH H) as (z & Hz & Hp). exists z. split; [done|].
    rewrite Hp at 1. apply Permutation_swap.
  - by exists y.
Qed.

Lemma set_erase_absent x s : set_count x s = false -> set_erase x s = s.
Proof.
  induction s as [|y s IH]; [done|]. simpl. intros H.
  destruct (lt x y); [done|]. destruct (lt y x); [|done]. by rewrite IH.
Qed.

Lemma set_erase_subset x y s : y ∈ set_erase x s -> y ∈ s.
Proof.
  induction s as [|z s IH]; [done|]. simpl.
  destruct (lt x z); [done|]. destruct (lt z x); set_solver.
Qed.

Lemma set_insert_elem_of x y s : y ∈ set_insert x s -> y = x \/ y ∈ s.
Proof.
  destruct (set_count x s) eqn:E.
  - rewrite set_insert_present by done. by right.
  - rewrite set_insert_perm by done. set_solver.
Qed.

Lemma set_insert_sorted x s : set_sorted s -> set_sorted (set_insert x s).
Proof.
  unfold set_sorted. induction s as [|y s IH]; simpl; intros Hs.
  { repeat constructor. }
  pose proof (StronglySorted_inv Hs) as [Hs' Hy].
  rewrite Forall_forall in Hy.
  destruct (lt x y) eqn:E1.
  - constructor; [done|]. apply Forall_forall.
    intros z [->|Hz]%elem_of_cons; [done|].
    eapply swo_trans; [exact E1|by apply Hy].
  - destruct (lt y x) eqn:E2; [|done]. constructor; [by apply IH|].
    apply Forall_forall. intros z [->|Hz]%set_insert_elem_of; [done|by apply Hy].
Qed.

Lemma set_erase_sorted x s : set_sorted s -> set_sorted (set_erase x s).
Proof.
  unfold set_sorted. induction s as [|y s IH]; simpl; intros Hs; [done|].
  pose proof (StronglySorted_inv Hs) as [Hs' Hy].
  rewrite Forall_forall in Hy.
  destruct (lt x y); [done|]. destruct (lt y x); [|done].
  constructor; [by apply IH|]. apply Forall_forall.
  intros z Hz%set_erase_subset. by apply Hy.
Qed.

Lemma set_count_true x s :
  set_sorted s -> set_count x s = true <-> exists y, y ∈ s /\ key_equiv x y.
Proof.
  unfold set_sorted. induction s as [|y s IH]; simpl; intros Hs.
  { split; [done|]. intros (? & ?%elem_of_nil & _). done. }
  apply StronglySorted_inv in Hs as [Hs Hy]. rewrite Forall_forall in Hy.
  specialize (IH Hs).
  destruct (lt x y) eqn:E1.
  { split; [done|]. intros (z & [->|Hz]%elem_of_cons & [Hxz _]); [congruence|].
    pose proof (swo_trans x y z E1 (Hy z Hz)). congruence. }
  destruct (lt y x) eqn:E2.
  - rewrite IH. split; intros (z & Hz & Heq); exists z; [set_solver|].
    apply elem_of_cons in Hz as [->|Hz]; [|done]. destruct Heq. congruence.
  - split; [intros _|done]. exists y. split; [set_solver|done].
Qed.

(** A sorted set holds a key at most once. *)
Lemma set_sorted_distinct s s' x y :
  set_sorted s -> s ≡ₚ y :: s' -> x ∈ s' -> ~ key_equiv x y.
Proof.
  unfold set_sorted. intros Hs Hp Hx [Hxy Hyx].
  apply elem_of_Permutation in Hx as [s'' Hp'']. rewrite Hp'' in Hp. clear Hp'' s'.
  revert s'' Hp. induction Hs as [|z s Hs IH Hz]; intros s'' Hp.
  { by apply Permutation_nil_l in Hp. }
  rewrite Forall_forall in Hz. unfold lt_rel in Hz.
  assert (z ∈ y :: x :: s'') as Hin by (rewrite <- Hp; set_solver).
  apply elem_of_cons in Hin as [->|Hin].
  { apply Permutation_cons_inv in Hp.
    assert (x ∈ s) as Hxs by (rewrite Hp; set_solver). by rewrite (Hz x Hxs) in Hyx. }
  apply elem_of_cons in Hin as [->|Hin].
  { rewrite (Permutation_swap x y) in Hp. apply Permutation_cons_inv in Hp.
    assert (y ∈ s) as Hys by (rewrite Hp; set_solver). by rewrite (Hz y Hys) in Hxy. }
  apply elem_of_Permutation in Hin as [s3 Hp3].
  apply (IH s3). apply (Permutation_cons_inv (a := z)). rewrite Hp, Hp3. solve_Permutation.
Qed.

(** Sorted sets are determined by their elements. *)
Lemma set_sorted_unique s1 s2 :
  set_sorted s1 -> set_sorted s2 -> s1 ≡ₚ s2 -> s1 = s2.
Proof.
  unfold set_sorted. revert s2. induction s1 as [|x s1 IH]; intros s2 H1 H2 Hp.
  { by apply Permutation_nil_l. }
  destruct s2 as [|y s2]; [by apply Permutation_nil_r in Hp|].
  apply StronglySorted_inv in H1 as [H1 Hx]. apply StronglySorted_inv in H2 as [H2 Hy].
  rewrite Forall_forall in Hx, Hy.
  assert (x = y) as <-.
  { assert (x ∈ y :: s2) as [->|Hx2]%elem_of_cons by (rewrite <- Hp; set_solver); [done|].
    assert (y ∈ x :: s1) as [->|Hy1]%elem_of_cons by (rewrite Hp; set_solver); [done|].
    pose proof (lt_asym _ _ (Hx _ Hy1)). pose proof (Hy _ Hx2). unfold lt_rel in *. congruence. }
  f_equal. apply IH; [done..|]. by apply Permutation_cons_inv in Hp.
Qed.

End OrderedSet.
