(* ===== verification/Text.v ===== *)
(** * Text

    What the program uses of the C++ standard library on characters: decimal
    output of integers ([operator<<]), [std::stoi], [std::string::find]/[substr], and
    whitespace-separated extraction of words ([operator>>] into a string). *)

From Stdlib Require Import ZArith Lia Ascii String.
From stdpp Require Import base list strings.
From S2P Require Import Prelude.

Open Scope Z_scope.

(** ** Decimal output *)

Definition digit_char (d : Z) : Ascii.ascii :=
  Ascii.ascii_of_nat (Z.to_nat (48 + d)).

(** Prepends the decimal digits of [n] to [acc]; [fuel] bounds the number of
    digits.  20 digits are enough for every unsigned integer of at most 64 bits
    ([print_unsigned_digits] below needs [n < 10 ^ fuel]). *)
Fixpoint print_digits (fuel : nat) (n : Z) (acc : string) : string :=
  match fuel with
  | O => acc
  | S f =>
      let acc' := String (digit_char (n mod 10)) acc in
      if n <? 10 then acc' else print_digits f (n / 10) acc'
  end.

(** [os << n] for an unsigned integer. *)
Definition print_unsigned (n : Z) : string := print_digits 20 n EmptyString.

(** [os << n] for a signed integer. *)
Definition print_signed (n : Z) : string :=
  if n <? 0 then String "-"%char (print_unsigned (- n)) else print_unsigned n.

(** ** Character classes *)

Definition char_code (c : Ascii.ascii) : Z := Z.of_nat (Ascii.nat_of_ascii c).

(** [isspace] in the C locale. *)
Definition is_space (c : Ascii.ascii) : bool :=
  let n := char_code c in (n =? 32) || ((9 <=? n) && (n <=? 13)).

Definition is_digit (c : Ascii.ascii) : bool :=
  let n := char_code c in (48 <=? n) && (n <=? 57).

Definition digit_value (c : Ascii.ascii) : Z := char_code c - 48.

(** ** Decimal input *)

(** Consumes a run of digits: the value accumulated on top of [v], the number of
    digits read, and the rest of the text. *)
Fixpoint read_digits (v : Z) (k : nat) (s : string) : Z * nat * string :=
  match s with
  | String c s' =>
      if is_digit c then read_digits (v * 10 + digit_value c) (S k) s'
      else (v, k, s)
  | EmptyString => (v, k, s)
  end.

Fixpoint skip_spaces (s : string) : string :=
  match s with
  | String c s' => if is_space c then skip_spaces s' else s
  | EmptyString => s
  end.

(** The optional sign of [strtol]. *)
Definition read_sign (s : string) : Z * string :=
  match s with
  | String "-"%char s' => (-1, s')
  | String "+"%char s' => (1, s')
  | _ => (1, s)
  end.

Definition INT_MAX : Z := 2147483647.
Definition INT_MIN : Z := -2147483648.

Inductive stoi_error := StoiInvalidArgument | StoiOutOfRange.

(** [std::stoi] in base 10: leading whitespace and trailing characters are
    ignored. *)
Definition stoi (s : string) : result stoi_error Z :=
  let '(sg, s1) := read_sign (skip_spaces s) in
  let '(v, k, _) := read_digits 0 0 s1 in
  if (k =? 0)%nat then Throw StoiInvalidArgument
  else
    let r := sg * v in
    if (r <? INT_MIN) || (INT_MAX <? r) then Throw StoiOutOfRange else Ok r.

(** ** Searching and splitting *)

(** [s.find(c)] followed by the two [substr] calls of the program: the text before
    the first [c] and the text after it. *)
Fixpoint split_at (c : Ascii.ascii) (s : string) : option (string * string) :=
  match s with
  | EmptyString => None
  | String d s' =>
      if bool_decide (d = c) then Some (EmptyString, s')
      else match split_at c s' with
           | Some (l, r) => Some (String d l, r)
           | None => None
           end
  end.

(** The words [stream >> word] extracts until end of file: maximal runs of
    non-space characters.  [cur] is the word being read. *)
Fixpoint words_go (cur : string) (s : string) : list string :=
  match s with
  | EmptyString =>
      match cur with EmptyString => [] | _ => [cur] end
  | String c s' =>
      if is_space c then
        match cur with
        | EmptyString => words_go EmptyString s'
        | _ => cur :: words_go EmptyString s'
        end
      else words_go (cur +:+ String c EmptyString) s'
  end.

Definition stream_words (s : string) : list string := words_go EmptyString s.

(** ** Lemmas *)

Lemma char_code_digit d : 0 <= d < 10 -> char_code (digit_char d) = 48 + d.
Proof.
  intros Hd. unfold char_code, digit_char.
  rewrite Ascii.nat_ascii_embedding by lia. lia.
Qed.

Lemma is_digit_digit_char d : 0 <= d < 10 -> is_digit (digit_char d) = true.
Proof.
  intros Hd. unfold is_digit. rewrite char_code_digit by done.
  apply andb_true_iff. split; apply Z.leb_le; lia.
Qed.

Lemma string_app_cons c (s t : string) : String c s +:+ t = String c (s +:+ t).
Proof. done. Qed.

(** Reading back printed digits resumes with the value and the rest. *)
Lemma read_print_digits fuel n k acc :
  (0 < fuel)%nat -> 0 <= n < 10 ^ Z.of_nat fuel ->
  exists j, read_digits 0 k (print_digits fuel n acc) = read_digits n (k + S j) acc.
Proof.
  revert n acc. induction fuel as [|fuel IH]; intros n acc Hf Hn; [lia|].
  simpl print_digits. destruct (Z.ltb_spec n 10).
  - exists 0%nat. simpl. rewrite is_digit_digit_char by (apply Z.mod_pos_bound; lia).
    unfold digit_value. rewrite char_code_digit by (apply Z.mod_pos_bound; lia).
    rewrite Z.mod_small by lia. f_equal; lia.
  - rewrite Nat2Z.inj_succ, Z.pow_succ_r in Hn by lia.
    assert (0 < fuel)%nat by (destruct fuel; [simpl in Hn; lia|lia]).
    destruct (IH (n / 10) (String (digit_char (n mod 10)) acc)) as [j Hj]; [done| |].
    { split; [apply Z.div_pos; lia|apply Z.div_lt_upper_bound; lia]. }
    exists (S j). rewrite Hj. simpl.
    rewrite is_digit_digit_char by (apply Z.mod_pos_bound; lia).
    unfold digit_value. rewrite char_code_digit by (apply Z.mod_pos_bound; lia).
    f_equal; [|lia]. rewrite (Z.div_mod n 10) at 3 by lia. lia.
Qed.

(** No digit follows. *)
Definition no_digit_head (s : string) : Prop :=
  match s with String c _ => is_digit c = false | EmptyString => True end.

Lemma print_digits_app fuel n acc s :
  print_digits fuel n acc +:+ s = print_digits fuel n (acc +:+ s).
Proof.
  revert n acc. induction fuel as [|fuel IH]; intros n acc; [done|].
  simpl. destruct (n <? 10); [done|]. by rewrite IH.
Qed.

(** 64 bits never need more than the 20 digits of [print_unsigned]. *)
Lemma read_print_unsigned n s :
  0 <= n < 2 ^ 64 -> no_digit_head s ->
  exists j, read_digits 0 0 (print_unsigned n +:+ s) = (n, S j, s).
Proof.
  intros Hn Hs. unfold print_unsigned. rewrite print_digits_app.
  destruct (read_print_digits 20 n 0 (EmptyString +:+ s)) as [j Hj]; [lia|lia|].
  exists j. rewrite Hj. simpl. destruct s as [|c s]; [done|]. simpl in Hs.
  simpl. by rewrite Hs.
Qed.

(** Decimal output is injective. *)
Lemma print_unsigned_inj n m :
  0 <= n < 2 ^ 64 -> 0 <= m < 2 ^ 64 ->
  print_unsigned n = print_unsigned m -> n = m.
Proof.
  intros Hn Hm Heq.
  destruct (read_print_unsigned n EmptyString) as [j Hj]; [done..|].
  destruct (read_print_unsigned m EmptyString) as [j' Hj']; [done..|].
  rewrite Heq in Hj. rewrite Hj in Hj'. by simplify_eq.
Qed.

(** Two printed numbers followed by the same non-digit text are aligned. *)
Lemma print_unsigned_app_inj n m s t :
  0 <= n < 2 ^ 64 -> 0 <= m < 2 ^ 64 -> no_digit_head s -> no_digit_head t ->
  print_unsigned n +:+ s = print_unsigned m +:+ t -> n = m /\ s = t.
Proof.
  intros Hn Hm Hs Ht Heq.
  destruct (read_print_unsigned n s) as [j Hj]; [done..|].
  destruct (read_print_unsigned m t) as [j' Hj']; [done..|].
  rewrite Heq in Hj. rewrite Hj in Hj'. by simplify_eq.
Qed.

Lemma string_app_nil_r (s : string) : s +:+ EmptyString = s.
Proof.
  induction s as [|c s IH]; [done|]. rewrite string_app_cons. by rewrite IH.
Qed.

(** The printed form starts with a digit. *)
Lemma print_digits_head fuel n acc :
  (0 < fuel)%nat -> 0 <= n ->
  exists c s, print_digits fuel n acc = String c s /\ is_digit c = true.
Proof.
  revert n acc. induction fuel as [|fuel IH]; intros n acc Hf Hn; [lia|]. simpl.
  assert (is_digit (digit_char (n mod 10)) = true)
    by (apply is_digit_digit_char, Z.mod_pos_bound; lia).
  destruct (Z.ltb_spec n 10); [eauto|].
  destruct fuel as [|fuel]; [simpl; eauto|].
  apply IH; [lia|]. apply Z.div_pos; lia.
Qed.

Lemma digit_not_space c : is_digit c = true -> is_space c = false.
Proof.
  unfold is_digit, is_space. intros H. bool_prop.
  apply orb_false_iff. split; [apply Z.eqb_neq; lia|].
  apply andb_false_iff. right. apply Z.leb_gt. lia.
Qed.

Lemma read_sign_digit c s :
  is_digit c = true -> read_sign (String c s) = (1, String c s).
Proof.
  intros H. unfold read_sign.
  destruct c as [[] [] [] [] [] [] [] []]; try done; vm_compute in H; discriminate.
Qed.

(** [stoi] reads back what [operator<<] wrote, up to a non-digit. *)
Lemma stoi_print n s :
  0 <= n <= INT_MAX -> no_digit_head s -> stoi (print_unsigned n +:+ s) = Ok n.
Proof.
  unfold INT_MAX. intros Hn Hs. unfold stoi.
  destruct (print_digits_head 20 n s) as (c & r & Hc & Hd); [lia|lia|].
  assert (print_unsigned n +:+ s = String c r) as Hp.
  { rewrite <- Hc. unfold print_unsigned. by rewrite print_digits_app. }
  assert (skip_spaces (String c r) = String c r) as Hsk.
  { simpl. by rewrite digit_not_space. }
  rewrite Hp, Hsk, read_sign_digit by done. rewrite <- Hp.
  destruct (read_print_unsigned n s) as [j ->]; [lia|done|]. simpl Nat.eqb. cbv iota.
  rewrite (proj2 (Z.ltb_ge _ _)) by (unfold INT_MIN; lia).
  rewrite (proj2 (Z.ltb_ge _ _)) by (unfold INT_MAX; lia). simpl. by destruct n.
Qed.

(** A separator is found at its first occurrence. *)
Lemma split_at_app c l r :
  (forall l1 l2, l <> l1 +:+ String c l2) -> split_at c (l +:+ String c r) = Some (l, r).
Proof.
  induction l as [|d l IH]; intros Hl; simpl.
  { by rewrite bool_decide_eq_true_2. }
  rewrite bool_decide_eq_false_2.
  - rewrite IH; [done|]. intros l1 l2 ->. by apply (Hl (String d l1) l2).
  - intros ->. by apply (Hl EmptyString l).
Qed.

(** Without a separator there is no split. *)
Lemma split_at_none c l : (forall l1 l2, l <> l1 +:+ String c l2) -> split_at c l = None.
Proof.
  induction l as [|d l IH]; intros Hl; simpl; [done|].
  rewrite bool_decide_eq_false_2.
  - rewrite IH; [done|]. intros l1 l2 ->. by apply (Hl (String d l1) l2).
  - intros ->. by apply (Hl EmptyString l).
Qed.
