(* ===== verification/Exceptions.v ===== *)
(** * Exceptions

    The exceptions the program throws and catches: those of the C++ standard
    library it names, those of src/src/net_exception.h, and those of the argument
    parser (src/include/args.h) that main distinguishes.  [what] is the text each
    one carries. *)

From Stdlib Require Import ZArith String.
From stdpp Require Import base strings.
From S2P Require Import Prelude Text.

Inductive exn :=
| invalid_argument (w : string)
| out_of_range (w : string)
| runtime_error (w : string)
| system_error (w : string)
(* net_exception.h *)
| SocketException (errno : Z)
| HostNotFoundException (host : string)
| BindException (errno : Z)
| SendException (errno : Z)
| ReceiveException (errno : Z)
(* args.h *)
| UsageError (problem : string)
| ParseError (problem : string)
| ValidationError (problem : string)
| MapError (problem : string)
| ExtraError (problem : string)
| Help (flag : string).

Definition what (e : exn) : string :=
  match e with
  | invalid_argument w | out_of_range w | runtime_error w | system_error w => w
  | SocketException n => "Could not create UDP Socket: " +:+ print_signed n
  | HostNotFoundException h => "Could not find host: " +:+ h
  | BindException n => "Could not bind UDP Socket: " +:+ print_signed n
  | SendException n => "Could not send data on socket: " +:+ print_signed n
  | ReceiveException n =>
      "Could not receive data on socket: " +:+ print_signed n
  | UsageError p | ParseError p | ValidationError p | MapError p | ExtraError p | Help p => p
  end.
