(* ===== verification/ThreadGroup.v ===== *)
(** * Groups of threads

    [threadutil::ThreadGroup] (src/src/thread.h): a group holds the threads added to it in
    order, and its destructor waits for every one of them.  What a thread does is a type
    parameter; [ended] tells whether a thread has ended, and the operating system tells
    whether a new one can be started ([None]) or not (the text of the error). *)

From Stdlib Require Import ZArith String.
From stdpp Require Import base list strings.
From S2P Require Import Prelude Exceptions.

Open Scope nat_scope.

Record ThreadGroup {A : Type} := mkThreadGroup { threads_ : list A }.
Arguments ThreadGroup : clear implicits.
Arguments mkThreadGroup {A}.

(** What a call of [JoinAll] comes to: it returns with an empty group, or it waits for
    thread [k] of the group. *)
Inductive join_outcome := Joined | WaitsFor (k : nat).

Section ThreadGroup.
Context {A : Type}.

Definition make_ThreadGroup : ThreadGroup A := mkThreadGroup [].

(** [AddThread]: the constructor of [std::thread] throws when no thread can be started, and
    then nothing is added. *)
Definition AddThread (start_error : option string) (g : ThreadGroup A) (f : A)
  : result exn (ThreadGroup A) :=
  match start_error with
  | Some w => Throw (system_error w)
  | None => Ok (mkThreadGroup (threads_ g ++ [f]))
  end.

(** The loop of [JoinAll], from thread [k] on. *)
Fixpoint join_loop (ended : A -> bool) (k : nat) (l : list A) : join_outcome :=
  match l with
  | [] => Joined
  | f :: l' => if ended f then join_loop ended (S k) l' else WaitsFor k
  end.

(** [JoinAll], and so the destructor. *)
Definition JoinAll (ended : A -> bool) (g : ThreadGroup A) : ThreadGroup A * join_outcome :=
  match join_loop ended 0 (threads_ g) with
  | Joined => (mkThreadGroup [], Joined)
  | o => (g, o)
  end.

(** ** Lemmas *)

Lemma join_loop_spec ended k l :
  match join_loop ended k l with
  | Joined => Forall (fun f => ended f = true) l
  | WaitsFor j =>
      exists i f, j = k + i /\ l !! i = Some f /\ ended f = false /\
        Forall (fun f => ended f = true) (take i l)
  end.
Proof.
  revert k. induction l as [|f l IH]; intros k; simpl; [constructor|].
  destruct (ended f) eqn:Hf; [|by exists 0, f; rewrite Nat.add_0_r].
  specialize (IH (S k)). destruct (join_loop ended (S k) l) as [|j]; [by constructor|].
  destruct IH as (i & g & -> & Hi & Hg & Hall). exists (S i), g.
  split_and!; [by rewrite Nat.add_succ_r|done|done|by constructor].
Qed.

(** [JoinAll] returns exactly when every thread has ended, and waits for the first that has
    not. *)
Lemma JoinAll_spec ended g :
  match JoinAll ended g with
  | (g', Joined) => threads_ g' = [] /\ Forall (fun f => ended f = true) (threads_ g)
  | (g', WaitsFor k) =>
      g' = g /\ exists f, threads_ g !! k = Some f /\ ended f = false
  end.
Proof.
  unfold JoinAll. pose proof (join_loop_spec ended 0 (threads_ g)) as H.
  destruct (join_loop ended 0 (threads_ g)) as [|k]; [done|].
  destruct H as (i & f & -> & Hi & Hf & _). split; [done|]. by exists f.
Qed.

End ThreadGroup.
