(* ===== verification/Printing.v ===== *)
(** * Output of the program

    The stream operators of the messages (src/src/message.cc), the logger
    (src/src/log.h), and the line the callback of main prints for a delivered message
    (src/src/main.cc).  Everything that is printed can be read back: the texts determine
    the messages. *)

From Stdlib Require Import ZArith Lia Ascii String.
From stdpp Require Import base list strings.
From S2P Require Import Prelude Text Wire.

Open Scope Z_scope.

Definition end_of_line : string := String "010"%char EmptyString.

Definition print_DataMessage (m : DataMessage) : string :=
  "{type: " +:+ print_unsigned (dm_type m) +:+
  ", sender: " +:+ print_unsigned (dm_sender m) +:+
  ", msg_id: " +:+ print_unsigned (dm_msg_id m) +:+
  ", data: " +:+ print_unsigned (dm_data m) +:+ "}".

Definition print_AckMessage (m : AckMessage) : string :=
  "{type: " +:+ print_unsigned (am_type m) +:+
  ", sender: " +:+ print_unsigned (am_sender m) +:+
  ", msg_id: " +:+ print_unsigned (am_msg_id m) +:+
  ", proposed_seq: " +:+ print_unsigned (am_proposed_seq m) +:+
  ", proposer: " +:+ print_unsigned (am_proposer m) +:+ "}".

Definition print_SeqMessage (m : SeqMessage) : string :=
  "{type: " +:+ print_unsigned (sm_type m) +:+
  ", sender: " +:+ print_unsigned (sm_sender m) +:+
  ", msg_id: " +:+ print_unsigned (sm_msg_id m) +:+
  ", final_seq: " +:+ print_unsigned (sm_final_seq m) +:+
  ", final_seq_proposer: " +:+ print_unsigned (sm_final_seq_proposer m) +:+ "}".

Definition print_SeqAckMessage (m : SeqAckMessage) : string :=
  "{type: " +:+ print_unsigned (sam_type m) +:+
  ", sender: " +:+ print_unsigned (sam_sender m) +:+
  ", msg_id: " +:+ print_unsigned (sam_msg_id m) +:+ "}".

(** The line printed for a delivered message by process [id_val]; [std::endl] ends it. *)
Definition deliver_line (id_val : Z) (m : SeqMessage) : string :=
  print_signed id_val +:+ ": Processed message " +:+ print_unsigned (sm_msg_id m) +:+
  " from sender " +:+ print_unsigned (sm_sender m) +:+
  " with seq (" +:+ print_unsigned (sm_final_seq m) +:+
  ", " +:+ print_unsigned (sm_final_seq_proposer m) +:+ ")" +:+ end_of_line.

(** ** The logger *)

Record Logger := mkLogger {
  log_output : string;
  log_enabled : bool
}.

Definition make_Logger : Logger := mkLogger EmptyString false.
Definition log_enable (l : Logger) (enable : bool) : Logger := mkLogger (log_output l) enable.

(** [operator<<] of the logger. *)
Definition log_write (l : Logger) (v : string) : Logger :=
  if log_enabled l then mkLogger (log_output l +:+ v) (log_enabled l) else l.

(** ** Lemmas *)

Lemma string_app_inj (p s t : string) : p +:+ s = p +:+ t -> s = t.
Proof.
  induction p as [|c p IH]; [done|]. rewrite !string_app_cons. intros [= H]. by apply IH.
Qed.

(** Strips one field of two equal texts: a literal, then a number. *)
Ltac strip_field H E :=
  apply string_app_inj in H; apply print_unsigned_app_inj in H as [E H]; [|lia|lia|done|done].

Lemma u32_print z : is_u32 z -> 0 <= z < 2 ^ 64.
Proof. unfold is_u32, u32_modulus. lia. Qed.

Lemma print_DataMessage_inj m m' :
  is_u32 (dm_type m) -> is_u32 (dm_type m') -> DataMessage_u32 m -> DataMessage_u32 m' ->
  print_DataMessage m = print_DataMessage m' -> m = m'.
Proof.
  intros Ht%u32_print Ht'%u32_print (H1%u32_print & H2%u32_print & H3%u32_print)
    (H1'%u32_print & H2'%u32_print & H3'%u32_print) H. unfold print_DataMessage in H.
  strip_field H E1. strip_field H E2. strip_field H E3. strip_field H E4.
  destruct m, m'. simpl in *. by subst.
Qed.

Lemma print_AckMessage_inj m m' :
  is_u32 (am_type m) -> is_u32 (am_type m') -> AckMessage_u32 m -> AckMessage_u32 m' ->
  print_AckMessage m = print_AckMessage m' -> m = m'.
Proof.
  intros Ht%u32_print Ht'%u32_print (H1%u32_print & H2%u32_print & H3%u32_print & H4%u32_print)
    (H1'%u32_print & H2'%u32_print & H3'%u32_print & H4'%u32_print) H.
  unfold print_AckMessage in H.
  strip_field H E1. strip_field H E2. strip_field H E3. strip_field H E4. strip_field H E5.
  destruct m, m'. simpl in *. by subst.
Qed.

Lemma print_SeqMessage_inj m m' :
  is_u32 (sm_type m) -> is_u32 (sm_type m') -> SeqMessage_u32 m -> SeqMessage_u32 m' ->
  print_SeqMessage m = print_SeqMessage m' -> m = m'.
Proof.
  intros Ht%u32_print Ht'%u32_print (H1%u32_print & H2%u32_print & H3%u32_print & H4%u32_print)
    (H1'%u32_print & H2'%u32_print & H3'%u32_print & H4'%u32_print) H.
  unfold print_SeqMessage in H.
  strip_field H E1. strip_field H E2. strip_field H E3. strip_field H E4. strip_field H E5.
  destruct m, m'. simpl in *. by subst.
Qed.

(** A line of output determines what was delivered. *)
Lemma deliver_line_inj_lemma id_val m m' :
  SeqMessage_u32 m -> SeqMessage_u32 m' ->
  deliver_line id_val m = deliver_line id_val m' ->
  sm_sender m = sm_sender m' /\ sm_msg_id m = sm_msg_id m' /\
  sm_final_seq m = sm_final_seq m' /\ sm_final_seq_proposer m = sm_final_seq_proposer m'.
Proof.
  intros (H1%u32_print & H2%u32_print & H3%u32_print & H4%u32_print)
    (H1'%u32_print & H2'%u32_print & H3'%u32_print & H4'%u32_print) H.
  unfold deliver_line in H. apply string_app_inj in H.
  strip_field H E1. strip_field H E2. strip_field H E3. strip_field H E4. done.
Qed.
