(* ===== verification/HoldBack.v ===== *)
(** * The hold-back queue

    [PendingMessage] and its ordering, and the class [HoldBackQueue]
    (src/src/process.h, src/src/process.cc): a map from message keys to the
    sequence information of the messages not yet finalised ([pending_seqs_]) and the
    ordered set of all messages not yet delivered ([ordering_]).

    The values of struct members that the code leaves uninitialised are a
    parameter [uninit]: every theorem holds whatever they are. *)

From Stdlib Require Import ZArith Lia Sorted String.
From stdpp Require Import base list gmap countable sets.
From S2P Require Import Prelude Exceptions Wire StdSet.

Open Scope Z_scope.

(** ** Data *)

Record PendingMessageKey := mkPMK {
  pmk_sender : Z;
  pmk_msg_id : Z
}.

Record PendingMessageSeq := mkPMS {
  pms_seq : Z;
  pms_seq_proposer : Z
}.

Record PendingMessage := mkPM {
  pm_pmk : PendingMessageKey;
  pm_pms : PendingMessageSeq;
  pm_data : Z;
  pm_deliverable : bool
}.

#[export] Instance PMK_eq_dec : EqDecision PendingMessageKey.
Proof. solve_decision. Defined.
#[export] Instance PMS_eq_dec : EqDecision PendingMessageSeq.
Proof. solve_decision. Defined.
#[export] Instance PM_eq_dec : EqDecision PendingMessage.
Proof. solve_decision. Defined.

#[export] Instance PMK_countable : Countable PendingMessageKey.
Proof.
  refine (inj_countable' (fun k => (pmk_sender k, pmk_msg_id k))
            (fun p => mkPMK p.1 p.2) _).
  by intros [].
Defined.

(** [PendingMessageKey::operator==]. *)
Definition pmk_eqb (a b : PendingMessageKey) : bool :=
  (pmk_sender a =? pmk_sender b) && (pmk_msg_id a =? pmk_msg_id b).

(** [operator<] on [PendingMessage]. *)
Definition pm_lt (lhs rhs : PendingMessage) : bool :=
  if negb (pms_seq (pm_pms lhs) =? pms_seq (pm_pms rhs)) then
    pms_seq (pm_pms lhs) <? pms_seq (pm_pms rhs)
  else if negb (Bool.eqb (pm_deliverable lhs) (pm_deliverable rhs)) then
    negb (pm_deliverable lhs)
  else if negb (pmk_sender (pm_pmk lhs) =? pmk_sender (pm_pmk rhs)) then
    pmk_sender (pm_pmk lhs) <? pmk_sender (pm_pmk rhs)
  else if negb (pmk_msg_id (pm_pmk lhs) =? pmk_msg_id (pm_pmk rhs)) then
    pmk_msg_id (pm_pmk lhs) <? pmk_msg_id (pm_pmk rhs)
  else false.

Record HoldBackQueue := mkHBQ {
  pending_seqs_ : gmap PendingMessageKey PendingMessageSeq;
  ordering_ : list PendingMessage
}.

Definition empty_queue : HoldBackQueue := mkHBQ ∅ [].

(** ** Operations *)

(** [HoldBackQueue::Lookup]; the type field of the answer is not set. *)
Definition Lookup (uninit : Z) (q : HoldBackQueue) (data_msg : DataMessage)
  : option AckMessage :=
  let pmk := mkPMK (dm_sender data_msg) (dm_msg_id data_msg) in
  match pending_seqs_ q !! pmk with
  | None => None
  | Some old_pms => Some {|
      am_type := uninit;
      am_sender := dm_sender data_msg;
      am_msg_id := dm_msg_id data_msg;
      am_proposed_seq := pms_seq old_pms;
      am_proposer := pms_seq_proposer old_pms
    |}
  end.

(** [HoldBackQueue::InsertUndeliverable]: the queue when the call returns or
    throws, and the exception if it throws. *)
Definition InsertUndeliverable (q : HoldBackQueue) (ack_msg : AckMessage)
    (data : Z) : HoldBackQueue * option exn :=
  let pmk := mkPMK (am_sender ack_msg) (am_msg_id ack_msg) in
  if bool_decide (is_Some (pending_seqs_ q !! pmk)) then
    (q, Some (invalid_argument "existing pending message in HoldBackQueue"))
  else
    let pms := mkPMS (am_proposed_seq ack_msg) (am_proposer ack_msg) in
    let q1 := mkHBQ (<[pmk := pms]> (pending_seqs_ q)) (ordering_ q) in
    let pm := mkPM pmk pms data false in
    if set_count pm_lt pm (ordering_ q1) then
      (q1, Some (invalid_argument "existing pending message in HoldBackQueue"))
    else
      (mkHBQ (pending_seqs_ q1) (set_insert pm_lt pm (ordering_ q1)), None).

(** The message handed to the [deliver] callback; its type is not set. *)
Definition to_deliver (uninit : Z) (pm : PendingMessage) : SeqMessage := {|
  sm_type := uninit;
  sm_sender := pmk_sender (pm_pmk pm);
  sm_msg_id := pmk_msg_id (pm_pmk pm);
  sm_final_seq := pms_seq (pm_pms pm);
  sm_final_seq_proposer := pms_seq_proposer (pm_pms pm)
|}.

(** The delivery loop of [SetDeliverable]: the messages delivered, in order, and
    what is left of the ordered set. *)
Fixpoint deliver_loop (uninit : Z) (ord : list PendingMessage)
  : list SeqMessage * list PendingMessage :=
  match ord with
  | [] => ([], [])
  | pm :: ord' =>
      if negb (pm_deliverable pm) then ([], pm :: ord')
      else
        let '(out, rest) := deliver_loop uninit ord' in
        (to_deliver uninit pm :: out, rest)
  end.

(** [HoldBackQueue::SetDeliverable]: the queue after the call and the messages
    passed to [deliver], in order.  The member [data] of the local [pm] is never
    set. *)
Definition SetDeliverable (uninit : Z) (q : HoldBackQueue)
    (seq_msg : SeqMessage) : HoldBackQueue * list SeqMessage :=
  let pmk := mkPMK (sm_sender seq_msg) (sm_msg_id seq_msg) in
  match pending_seqs_ q !! pmk with
  | None => (q, [])
  | Some old_pms =>
      let pending' := delete pmk (pending_seqs_ q) in
      let pm_old := mkPM pmk old_pms uninit false in
      let ord1 := set_erase pm_lt pm_old (ordering_ q) in
      let pms := mkPMS (sm_final_seq seq_msg) (sm_final_seq_proposer seq_msg) in
      let pm_new := mkPM pmk pms uninit true in
      let ord2 := set_insert pm_lt pm_new ord1 in
      let '(out, rest) := deliver_loop uninit ord2 in
      (mkHBQ pending' rest, out)
  end.

(** Keys are compared by value, so [unordered_map] is a finite map of keys. *)
Lemma pmk_eqb_eq a b : pmk_eqb a b = true <-> a = b.
Proof.
  destruct a, b. unfold pmk_eqb. simpl. rewrite andb_true_iff, !Z.eqb_eq. naive_solver.
Qed.

(** ** The ordering of pending messages *)

(** The comparator is the lexicographic order on (sequence number, undeliverable
    first, sender, message id). *)
Lemma pm_lt_spec a b :
  pm_lt a b = true <->
  pms_seq (pm_pms a) < pms_seq (pm_pms b) \/
  (pms_seq (pm_pms a) = pms_seq (pm_pms b) /\
   ((pm_deliverable a = false /\ pm_deliverable b = true) \/
    (pm_deliverable a = pm_deliverable b /\
     (pmk_sender (pm_pmk a) < pmk_sender (pm_pmk b) \/
      (pmk_sender (pm_pmk a) = pmk_sender (pm_pmk b) /\
       pmk_msg_id (pm_pmk a) < pmk_msg_id (pm_pmk b)))))).
Proof.
  unfold pm_lt.
  destruct a as [[sa ia] [qa pa] da [|]], b as [[sb ib] [qb pb] db [|]]; simpl;
    repeat (case_test; simplify_eq); bool_prop; rewrite ?Z.ltb_lt in *;
    intuition (discriminate || congruence || lia).
Qed.

#[export] Instance pm_lt_swo : StrictWeakOrder pm_lt.
Proof.
  assert (Hf : forall x y, pm_lt x y = false <-> ~ pm_lt x y = true).
  { intros x y. by destruct (pm_lt x y). }
  split.
  - intros x. apply Hf. rewrite pm_lt_spec. intuition (congruence || lia).
  - intros x y z. rewrite !pm_lt_spec. intuition (congruence || lia).
  - intros x y z. rewrite !Hf, !pm_lt_spec.
    destruct (pm_deliverable x), (pm_deliverable y), (pm_deliverable z);
      intuition (discriminate || lia).
Qed.

(** The comparator identifies exactly the entries with the same key, sequence
    number and status. *)
Lemma pm_equiv_spec a b :
  key_equiv pm_lt a b <->
  pm_pmk a = pm_pmk b /\ pms_seq (pm_pms a) = pms_seq (pm_pms b) /\
  pm_deliverable a = pm_deliverable b.
Proof.
  assert (Hf : forall x y, pm_lt x y = false <-> ~ pm_lt x y = true).
  { intros x y. by destruct (pm_lt x y). }
  unfold key_equiv. rewrite !Hf, !pm_lt_spec.
  destruct a as [[sa ia] [qa pa] da [|]], b as [[sb ib] [qb pb] db [|]]; simpl; split.
  all: try (intros (Hk & Hq & Hd); simplify_eq; intuition (discriminate || lia)).
  all: intros [H1 H2].
  all: assert (qa = qb) as -> by (clear -H1 H2; intuition lia).
  all: try (exfalso; intuition lia).
  all: assert (sa = sb) as -> by (clear -H1 H2; intuition lia).
  all: assert (ia = ib) as -> by (clear -H1 H2; intuition lia).
  all: done.
Qed.

(** ** The representation invariant *)

Definition head_blocked (ord : list PendingMessage) : Prop :=
  match ord with
  | [] => True
  | pm :: _ => pm_deliverable pm = false
  end.

(** The map and the set describe the same undeliverable messages, the set is in
    order, and no deliverable message waits at its head. *)
Record hbq_wf (q : HoldBackQueue) : Prop := {
  wf_sorted : set_sorted pm_lt (ordering_ q);
  wf_pending k s :
    pending_seqs_ q !! k = Some s <->
    exists d, mkPM k s d false ∈ ordering_ q;
  wf_head : head_blocked (ordering_ q)
}.

(** [k] was finalised with [s] and waits for delivery. *)
Definition finalised (q : HoldBackQueue) (k : PendingMessageKey)
    (s : PendingMessageSeq) : Prop :=
  exists d, mkPM k s d true ∈ ordering_ q.

Lemma empty_queue_wf : hbq_wf empty_queue.
Proof.
  split; simpl.
  - constructor.
  - intros k s. rewrite lookup_empty. split; [done|]. intros (d & Hd%elem_of_nil). done.
  - done.
Qed.

(** An undeliverable entry is in the set exactly when the map says so. *)
Lemma wf_count_undeliverable q k s d :
  hbq_wf q ->
  set_count pm_lt (mkPM k s d false) (ordering_ q) = true ->
  is_Some (pending_seqs_ q !! k).
Proof.
  intros Hwf. rewrite (set_count_true _ _ _ (wf_sorted q Hwf)).
  intros ([k' s' d' b'] & Hin & (? & ? & ?)%pm_equiv_spec). simpl in *. subst.
  exists s'. apply (wf_pending q Hwf). eauto.
Qed.

(** ** [InsertUndeliverable] *)

(** A key that is already pending is refused and nothing changes; a fresh key is
    always accepted, so the second [throw] of the function is unreachable. *)
Lemma InsertUndeliverable_spec q a d :
  hbq_wf q ->
  let k := mkPMK (am_sender a) (am_msg_id a) in
  let s := mkPMS (am_proposed_seq a) (am_proposer a) in
  match pending_seqs_ q !! k with
  | Some _ =>
      InsertUndeliverable q a d =
      (q, Some (invalid_argument "existing pending message in HoldBackQueue"))
  | None =>
      InsertUndeliverable q a d =
      (mkHBQ (<[k := s]> (pending_seqs_ q))
             (set_insert pm_lt (mkPM k s d false) (ordering_ q)), None) /\
      set_count pm_lt (mkPM k s d false) (ordering_ q) = false
  end.
Proof.
  intros Hwf k s. unfold InsertUndeliverable. fold k s.
  destruct (pending_seqs_ q !! k) eqn:E.
  - rewrite bool_decide_eq_true_2 by eauto. done.
  - rewrite bool_decide_eq_false_2 by (intros [? ?]; congruence). simpl.
    destruct (set_count _ _ _) eqn:Ec; [|done].
    apply wf_count_undeliverable in Ec as [? ?]; [congruence|done].
Qed.

Lemma set_insert_head_blocked x s :
  pm_deliverable x = false -> head_blocked s -> head_blocked (set_insert pm_lt x s).
Proof. destruct s as [|y s]; simpl; intros; [done|]. repeat case_test; done. Qed.

Lemma InsertUndeliverable_wf q a d :
  hbq_wf q -> hbq_wf (InsertUndeliverable q a d).1.
Proof.
  intros Hwf. pose proof (InsertUndeliverable_spec q a d Hwf) as Hs. simpl in Hs.
  destruct (pending_seqs_ q !! _) eqn:E; [by rewrite Hs|].
  destruct Hs as [-> Hc]. split; simpl.
  - apply (set_insert_sorted pm_lt), Hwf.
  - intros k s. setoid_rewrite (set_insert_perm _ _ _ Hc).
    destruct (decide (k = mkPMK (am_sender a) (am_msg_id a))) as [->|Hne].
    + rewrite lookup_insert_eq. split.
      * intros [= <-]. exists d. set_solver.
      * intros [d' [Heq|Hin]%elem_of_cons]; [congruence|].
        assert (pending_seqs_ q !! mkPMK (am_sender a) (am_msg_id a) = Some s)
          by (apply (wf_pending q Hwf); eauto). congruence.
    + rewrite lookup_insert_ne by done. rewrite (wf_pending q Hwf).
      split; intros [d' Hd]; exists d'; [set_solver|].
      apply elem_of_cons in Hd as [?|?]; [congruence|done].
  - apply set_insert_head_blocked; [done|apply Hwf].
Qed.

(** ** The delivery loop *)

(** The loop splits the set into the longest deliverable prefix, which it delivers
    in order, and the rest, whose head is blocked. *)
Lemma deliver_loop_spec u ord :
  exists pre,
    ord = pre ++ (deliver_loop u ord).2 /\
    (deliver_loop u ord).1 = to_deliver u <$> pre /\
    Forall (fun pm => pm_deliverable pm = true) pre /\
    head_blocked (deliver_loop u ord).2.
Proof.
  induction ord as [|pm ord IH]; simpl.
  { exists []. done. }
  destruct (pm_deliverable pm) eqn:E; simpl.
  - destruct IH as (pre & H1 & H2 & H3 & H4).
    destruct (deliver_loop u ord) as [out rest]. simpl in *.
    exists (pm :: pre). rewrite H1 at 1. rewrite H2. repeat split; auto.
  - exists []. done.
Qed.

(** ** [SetDeliverable] *)

Lemma SetDeliverable_unknown u q m :
  pending_seqs_ q !! mkPMK (sm_sender m) (sm_msg_id m) = None ->
  SetDeliverable u q m = (q, []).
Proof. unfold SetDeliverable. by intros ->. Qed.

(** What the call does to a pending message: the entry moves from its proposed to
    its final position and the longest deliverable prefix is delivered. *)
Lemma SetDeliverable_found u q m old :
  let k := mkPMK (sm_sender m) (sm_msg_id m) in
  let new := mkPM k (mkPMS (sm_final_seq m) (sm_final_seq_proposer m)) u true in
  hbq_wf q -> pending_seqs_ q !! k = Some old ->
  exists d ord1 pre rest,
    ordering_ q ≡ₚ mkPM k old d false :: ord1 /\
    set_sorted pm_lt ord1 /\
    set_insert pm_lt new ord1 = pre ++ rest /\
    Forall (fun pm => pm_deliverable pm = true) pre /\ head_blocked rest /\
    SetDeliverable u q m =
      (mkHBQ (delete k (pending_seqs_ q)) rest, to_deliver u <$> pre).
Proof.
  intros k new Hwf Hold. unfold SetDeliverable. fold k. rewrite Hold.
  apply (wf_pending q Hwf) in Hold as [d Hd].
  set (ord1 := set_erase pm_lt _ _).
  assert (set_count pm_lt (mkPM k old u false) (ordering_ q) = true) as Hc.
  { apply (set_count_true pm_lt); [apply Hwf|]. eexists. split; [exact Hd|].
    by apply pm_equiv_spec. }
  apply set_erase_perm in Hc as (y & Hy & Hp).
  assert (y = mkPM k old d false) as ->.
  { assert (y ∈ ordering_ q) as Hin by (rewrite Hp; set_solver).
    apply pm_equiv_spec in Hy as (Hk & Hs & Hdl). simpl in *.
    pose proof (wf_sorted q Hwf) as Hsort.
    apply elem_of_Permutation in Hd as [ord' Hd'].
    assert (key_equiv pm_lt y (mkPM k old d false)) as Heq by (by apply pm_equiv_spec).
    assert (y ∈ mkPM k old d false :: ord') as [?|Hin']%elem_of_cons by (by rewrite <- Hd'); [done|].
    exfalso. apply (set_sorted_distinct pm_lt (ordering_ q) ord' y (mkPM k old d false)); done. }
  destruct (deliver_loop_spec u (set_insert pm_lt new ord1)) as (pre & H1 & H2 & H3 & H4).
  fold new. destruct (deliver_loop u (set_insert pm_lt new ord1)) as [out rest] eqn:E.
  exists d, ord1, pre, rest. simpl in *. rewrite H2. split_and!; try done.
  apply (set_erase_sorted pm_lt), Hwf.
Qed.

Lemma undeliverable_not_in_prefix pre k s d :
  Forall (fun pm => pm_deliverable pm = true) pre -> mkPM k s d false ∉ pre.
Proof. rewrite Forall_forall. intros H Hin. by apply H in Hin. Qed.

(** Removing the entry of [k] leaves the undeliverable entries of other keys. *)
Lemma erase_pending q k old d ord1 k' s' d' :
  hbq_wf q -> ordering_ q ≡ₚ mkPM k old d false :: ord1 ->
  mkPM k' s' d' false ∈ ord1 <-> k' <> k /\ mkPM k' s' d' false ∈ ordering_ q.
Proof.
  intros Hwf Hp. rewrite Hp, elem_of_cons. split.
  - intros Hin. split; [|by right]. intros ->.
    assert (pending_seqs_ q !! k = Some s') as H1
      by (apply (wf_pending q Hwf); exists d'; rewrite Hp; set_solver).
    assert (pending_seqs_ q !! k = Some old) as H2
      by (apply (wf_pending q Hwf); exists d; rewrite Hp; set_solver).
    rewrite H1 in H2. injection H2 as ->.
    eapply (set_sorted_distinct pm_lt); [apply Hwf|exact Hp|exact Hin|].
    by apply pm_equiv_spec.
  - intros [Hne [Heq|Hin]]; [congruence|done].
Qed.

Lemma set_insert_undeliverable x s k p d :
  pm_deliverable x = true ->
  mkPM k p d false ∈ set_insert pm_lt x s <-> mkPM k p d false ∈ s.
Proof.
  intros Hx. destruct (set_count pm_lt x s) eqn:E.
  - by rewrite set_insert_present.
  - rewrite set_insert_perm by done. rewrite elem_of_cons.
    split; [intros [<-|?]; done|auto].
Qed.

Lemma SetDeliverable_wf u q m : hbq_wf q -> hbq_wf (SetDeliverable u q m).1.
Proof.
  intros Hwf. destruct (pending_seqs_ q !! mkPMK (sm_sender m) (sm_msg_id m)) as [old|] eqn:E.
  2: { by rewrite SetDeliverable_unknown. }
  destruct (SetDeliverable_found u q m old Hwf E)
    as (d & ord1 & pre & rest & Hp & Hs1 & Happ & Hpre & Hb & ->). simpl.
  set (new := mkPM _ _ u true) in Happ.
  split; simpl; [| |done].
  - pose proof (set_insert_sorted pm_lt new ord1 Hs1) as Hs.
    rewrite Happ in Hs. by apply StronglySorted_app_iff in Hs as (_ & ? & _).
  - intros k s. rewrite lookup_delete_Some, (wf_pending q Hwf).
    assert (Hrest : forall d', mkPM k s d' false ∈ rest <->
              k <> mkPMK (sm_sender m) (sm_msg_id m) /\ mkPM k s d' false ∈ ordering_ q).
    { intros d'. rewrite <- (erase_pending _ _ _ _ _ k s d' Hwf Hp).
      rewrite <- (set_insert_undeliverable new ord1 k s d') by done. rewrite Happ, elem_of_app.
      split; [by right|]. intros [Hin|?]; [|done].
      by destruct (undeliverable_not_in_prefix pre k s d' Hpre). }
    setoid_rewrite Hrest. split.
    + intros (? & d' & ?). by exists d'.
    + intros (d' & Hne & ?). split; [by apply not_eq_sym|by exists d'].
Qed.

(** ** Delivery order *)

(** The total order in which messages are delivered: final sequence number, then
    sender, then message id. *)
Definition final_lt (a b : SeqMessage) : Prop :=
  sm_final_seq a < sm_final_seq b \/
  (sm_final_seq a = sm_final_seq b /\
   (sm_sender a < sm_sender b \/
    (sm_sender a = sm_sender b /\ sm_msg_id a < sm_msg_id b))).

Lemma final_lt_irrefl a : ~ final_lt a a.
Proof. unfold final_lt. lia. Qed.

Lemma final_lt_trans a b c : final_lt a b -> final_lt b c -> final_lt a c.
Proof. unfold final_lt. lia. Qed.

#[export] Instance final_lt_dec a b : Decision (final_lt a b).
Proof. unfold final_lt. apply _. Defined.

(** Among deliverable messages the comparator of the set is the delivery order. *)
Lemma pm_lt_deliverable u a b :
  pm_deliverable a = true -> pm_deliverable b = true ->
  pm_lt a b = true <-> final_lt (to_deliver u a) (to_deliver u b).
Proof.
  intros Ha Hb. rewrite pm_lt_spec, Ha, Hb. unfold final_lt. simpl.
  intuition (discriminate || lia).
Qed.

(** A deliverable message comes before an undeliverable one exactly when its final
    number is below the proposed one. *)
Lemma pm_lt_deliverable_undeliverable a b :
  pm_deliverable a = true -> pm_deliverable b = false ->
  pm_lt a b = true <-> pms_seq (pm_pms a) < pms_seq (pm_pms b).
Proof.
  intros Ha Hb. rewrite pm_lt_spec, Ha, Hb. intuition (discriminate || lia).
Qed.

Lemma fmap_sorted {A B} (R : A -> A -> Prop) (S : B -> B -> Prop) (f : A -> B) l :
  (forall x y, x ∈ l -> y ∈ l -> R x y -> S (f x) (f y)) ->
  StronglySorted R l -> StronglySorted S (f <$> l).
Proof.
  intros Hf Hs. induction Hs as [|x l Hs IH Hx]; simpl; [constructor|].
  constructor; [apply IH; intros y z ???; apply Hf; [by right..|done]|].
  rewrite Forall_forall in Hx. apply Forall_forall. intros y (z & -> & Hz)%list_elem_of_fmap.
  apply Hf; [by left|by right|by apply Hx].
Qed.
