(* ===== verification/QueueSpec.v ===== *)
(** * What the hold-back queue promises

    An abstract queue: which messages are pending with which proposed number, and
    which are finalised with which final number.  Finalising a message releases
    exactly the finalised messages whose number is below every pending proposal,
    in the delivery order.  [set_deliverable_simulates] shows that the map, the ordered
    set and the scanning loop of [HoldBackQueue::SetDeliverable] implement it. *)

From Stdlib Require Import ZArith Lia Sorted.
From stdpp Require Import base list gmap sorting.
From S2P Require Import Prelude Wire StdSet HoldBack.

Open Scope Z_scope.

Notation entry := (PendingMessageKey * PendingMessageSeq)%type.

(** The delivery order on finalised entries. *)
Definition entry_lt (a b : entry) : Prop :=
  pms_seq a.2 < pms_seq b.2 \/
  (pms_seq a.2 = pms_seq b.2 /\
   (pmk_sender a.1 < pmk_sender b.1 \/
    (pmk_sender a.1 = pmk_sender b.1 /\ pmk_msg_id a.1 < pmk_msg_id b.1))).

Definition entry_le (a b : entry) : Prop := ~ entry_lt b a.

#[export] Instance entry_lt_dec a b : Decision (entry_lt a b).
Proof. unfold entry_lt. apply _. Defined.
#[export] Instance entry_le_dec : RelDecision entry_le.
Proof. unfold entry_le. intros a b. apply _. Defined.
#[export] Instance entry_le_trans : Transitive entry_le.
Proof. intros a b c. unfold entry_le, entry_lt. lia. Qed.
#[export] Instance entry_le_total : Total entry_le.
Proof. intros a b. unfold entry_le, entry_lt. lia. Qed.

Record AbsQueue := mkAQ {
  aq_pending : gmap PendingMessageKey PendingMessageSeq;
  aq_final : gmap PendingMessageKey PendingMessageSeq
}.

(** Below every pending proposal. *)
Definition releasable (pending : gmap PendingMessageKey PendingMessageSeq)
    (s : PendingMessageSeq) : Prop :=
  map_Forall (fun _ p => pms_seq s < pms_seq p) pending.

#[export] Instance releasable_dec p s : Decision (releasable p s).
Proof. unfold releasable. apply _. Defined.

Definition aq_set_deliverable (A : AbsQueue) (k : PendingMessageKey)
    (s : PendingMessageSeq) : AbsQueue * list entry :=
  match aq_pending A !! k with
  | None => (A, [])
  | Some _ =>
      let pending := delete k (aq_pending A) in
      let final := <[k := s]> (aq_final A) in
      (mkAQ pending (filter (fun e => ~ releasable pending e.2) final),
       merge_sort entry_le
         (map_to_list (filter (fun e => releasable pending e.2) final)))
  end.

(** A concrete queue represents an abstract one. *)
Definition represents (q : HoldBackQueue) (A : AbsQueue) : Prop :=
  pending_seqs_ q = aq_pending A /\
  NoDup (pm_pmk <$> ordering_ q) /\
  forall k s, aq_final A !! k = Some s <-> finalised q k s.

Definition entry_of (pm : PendingMessage) : entry := (pm_pmk pm, pm_pms pm).

Definition deliver_entry (u : Z) (e : entry) : SeqMessage :=
  mkSeqMessage u (pmk_sender e.1) (pmk_msg_id e.1) (pms_seq e.2) (pms_seq_proposer e.2).

(** ** The refinement *)

Lemma entry_lt_antisym_key a b :
  entry_le a b -> entry_le b a -> pms_seq a.2 = pms_seq b.2 /\ a.1 = b.1.
Proof.
  destruct a as [[sa ia] [qa pa]], b as [[sb ib] [qb pb]].
  unfold entry_le, entry_lt. simpl. intros H1 H2.
  assert (sa = sb) as -> by lia. assert (ia = ib) as -> by lia. split; [lia|done].
Qed.

(** A list of distinct keys sorted strictly is the merge sort of its elements. *)
Lemma sorted_is_merge_sort (l l' : list entry) :
  StronglySorted entry_lt l -> NoDup l.*1 -> l ≡ₚ l' -> l = merge_sort entry_le l'.
Proof.
  intros Hs Hnd Hp.
  assert (forall x y : entry, x ∈ l -> y ∈ l -> x.1 = y.1 -> x = y) as Hkey.
  { intros x y Hx Hy Hk. apply list_elem_of_lookup in Hx as [i Hi], Hy as [j Hj].
    assert (i = j) as ->; [|congruence].
    apply (NoDup_lookup l.*1 i j x.1); [done|..]; rewrite list_lookup_fmap.
    - by rewrite Hi.
    - rewrite Hj. simpl. by rewrite Hk. }
  assert (StronglySorted entry_le l) as Hle.
  { clear -Hs. induction Hs as [|x l Hs IH Hx]; constructor; [done|].
    eapply Forall_impl; [exact Hx|]. intros y. unfold entry_le, entry_lt. lia. }
  assert (StronglySorted entry_le (merge_sort entry_le l')) as Hms.
  { apply Sorted_StronglySorted; [apply _|]. apply Sorted_merge_sort. apply _. }
  assert (l ≡ₚ merge_sort entry_le l') as Hpm by (by rewrite merge_sort_Permutation).
  clear Hp. revert Hms Hpm. generalize (merge_sort entry_le l'). clear Hs Hnd.
  induction Hle as [|x l Hle IH Hx]; intros m Hms Hpm.
  { by apply Permutation_nil_l in Hpm. }
  destruct m as [|y m]; [by apply Permutation_nil_r in Hpm|].
  apply StronglySorted_inv in Hms as [Hms Hy].
  rewrite Forall_forall in Hx, Hy.
  assert (y ∈ x :: l) as Hyl by (rewrite Hpm; set_solver).
  assert (x ∈ y :: m) as Hxm by (rewrite <- Hpm; set_solver).
  assert (x = y) as <-.
  { apply elem_of_cons in Hyl as [->|Hyl]; [done|].
    apply elem_of_cons in Hxm as [->|Hxm]; [done|].
    apply Hkey; [by left|by right|].
    apply entry_lt_antisym_key; [by apply Hx|by apply Hy]. }
  f_equal. apply IH; [|done|by apply Permutation_cons_inv in Hpm].
  intros a b Ha Hb. apply Hkey; by right.
Qed.

(** The entries delivered are the releasable ones, those left are not. *)
Lemma prefix_releasable pending pre rest :
  set_sorted pm_lt (pre ++ rest) ->
  Forall (fun pm => pm_deliverable pm = true) pre -> head_blocked rest ->
  (forall k p, pending !! k = Some p <-> exists d, mkPM k p d false ∈ rest) ->
  (forall pm, pm ∈ pre -> releasable pending (pm_pms pm)) /\
  (forall pm, pm ∈ rest -> pm_deliverable pm = true ->
              ~ releasable pending (pm_pms pm)).
Proof.
  intros (Hpre & Hrest & Hcross)%StronglySorted_app_iff Hdel Hb Hpend.
  rewrite Forall_forall in Hdel. split.
  - intros pm Hin k p (d & Hd)%Hpend.
    pose proof (Hcross _ _ Hin Hd) as Hlt.
    by apply (pm_lt_deliverable_undeliverable pm (mkPM k p d false)) in Hlt; [|apply Hdel|].
  - intros pm Hin Hd Hrel. destruct rest as [|[k p d b] rest]; [by apply elem_of_nil in Hin|].
    simpl in Hb. subst b. apply elem_of_cons in Hin as [->|Hin]; [done|].
    apply StronglySorted_inv in Hrest as [_ Hh]. rewrite Forall_forall in Hh.
    pose proof (Hh _ Hin) as Hlt.
    assert (pms_seq (pm_pms pm) < pms_seq p) as Hlt2.
    { apply (Hrel k). apply Hpend. exists d. by left. }
    apply (pm_lt_deliverable_undeliverable pm (mkPM k p d false)) in Hlt2; [|done..].
    unfold lt_rel in Hlt. by rewrite (lt_asym pm_lt _ _ Hlt) in Hlt2.
Qed.

(** Reinserting the message at its final position: the entries of the new set. *)
Lemma reinsert_perm q k old d ord1 new :
  hbq_wf q -> NoDup (pm_pmk <$> ordering_ q) ->
  ordering_ q ≡ₚ mkPM k old d false :: ord1 -> pm_pmk new = k ->
  set_insert pm_lt new ord1 ≡ₚ new :: ord1 /\ k ∉ pm_pmk <$> ord1 /\
  NoDup (pm_pmk <$> ord1).
Proof.
  intros Hwf Hnd Hp Hk. rewrite Hp in Hnd. simpl in Hnd.
  apply NoDup_cons in Hnd as [Hk1 Hnd]. split_and!; [|done..].
  apply set_insert_perm. destruct (set_count pm_lt new ord1) eqn:Ec; [|done].
  apply (set_erase_perm pm_lt) in Ec as (y & Hy & Hpy).
  apply pm_equiv_spec in Hy as (Hyk & _ & _). destruct Hk1.
  apply list_elem_of_fmap. exists y. split; [congruence|]. rewrite Hpy. by left.
Qed.

(** The finalised messages before the delivery loop: the old ones and the new one. *)
Lemma reinsert_final A q k old d ord1 s u ord2 :
  (forall k' s', aq_final A !! k' = Some s' <-> finalised q k' s') ->
  ordering_ q ≡ₚ mkPM k old d false :: ord1 -> k ∉ pm_pmk <$> ord1 ->
  ord2 ≡ₚ mkPM k s u true :: ord1 ->
  forall k' s', (<[k:=s]> (aq_final A)) !! k' = Some s' <->
    exists d', mkPM k' s' d' true ∈ ord2.
Proof.
  intros Hfin Hp Hk1 Hins k' s'. setoid_rewrite Hins. rewrite lookup_insert_Some, Hfin.
  unfold finalised. setoid_rewrite Hp. setoid_rewrite elem_of_cons. split.
  - intros [[<- <-]|(Hne & d' & [?|?])]; [by exists u; left|done|by exists d'; right].
  - intros [d' [Heq'|Hin]]; [left; by injection Heq' as -> -> _|].
    right. split; [|by exists d'; right]. intros ->. apply Hk1.
    apply list_elem_of_fmap. by eexists; split; [|exact Hin].
Qed.

(** The delivered prefix is the releasable part of the finalised messages, sorted. *)
Lemma released_sorted (pending final : gmap PendingMessageKey PendingMessageSeq) pre rest :
  set_sorted pm_lt pre -> NoDup (pm_pmk <$> pre) ->
  Forall (fun pm => pm_deliverable pm = true) pre ->
  (forall pm, pm ∈ pre -> releasable pending (pm_pms pm)) ->
  (forall pm, pm ∈ rest -> pm_deliverable pm = true -> ~ releasable pending (pm_pms pm)) ->
  (forall k s, final !! k = Some s <-> exists d, mkPM k s d true ∈ pre ++ rest) ->
  entry_of <$> pre =
  merge_sort entry_le (map_to_list (filter (fun e => releasable pending e.2) final)).
Proof.
  intros Hsp Hndp Hpre Hrel Hnrel Hfinal. rewrite Forall_forall in Hpre.
  apply sorted_is_merge_sort.
  - eapply fmap_sorted; [|exact Hsp]. intros x y Hx Hy Hlt.
    by apply (pm_lt_deliverable 0 x y) in Hlt; [|apply Hpre|apply Hpre].
  - by rewrite <- list_fmap_compose.
  - apply NoDup_Permutation.
    + eapply NoDup_fmap_1 with (f := fst). by rewrite <- list_fmap_compose.
    + apply NoDup_map_to_list.
    + intros [k' s']. rewrite elem_of_map_to_list, map_lookup_filter_Some, Hfinal. simpl.
      rewrite list_elem_of_fmap. setoid_rewrite elem_of_app. split.
      * intros ([k2 s2 d2 b2] & [= -> ->] & Hin). split; [|by apply (Hrel _ Hin)].
        exists d2. left. pose proof (Hpre _ Hin) as Hb2. simpl in Hb2. by subst b2.
      * intros [[d' [Hin|Hin]] Hr]; [by eexists; split; [|exact Hin]|].
        by destruct (Hnrel _ Hin).
Qed.

Lemma set_deliverable_simulates u q A m :
  let k := mkPMK (sm_sender m) (sm_msg_id m) in
  let s := mkPMS (sm_final_seq m) (sm_final_seq_proposer m) in
  hbq_wf q -> represents q A ->
  let '(q', out) := SetDeliverable u q m in
  let '(A', out') := aq_set_deliverable A k s in
  represents q' A' /\ out = deliver_entry u <$> out'.
Proof.
  intros k s Hwf (Hpend & Hnd & Hfin). unfold aq_set_deliverable. rewrite <- Hpend.
  destruct (pending_seqs_ q !! k) as [old|] eqn:E.
  2: { rewrite SetDeliverable_unknown by done. split; [|done]. by split_and!. }
  pose proof (SetDeliverable_wf u q m Hwf) as Hwf'.
  destruct (SetDeliverable_found u q m old Hwf E)
    as (d & ord1 & pre & rest & Hp & Hs1 & Happ & Hpre & Hb & Heq).
  rewrite Heq in Hwf' |- *. simpl in Hwf'. fold k s in Happ.
  destruct (reinsert_perm q k old d ord1 (mkPM k s u true) Hwf Hnd Hp eq_refl)
    as (Hins & Hk1 & Hnd1).
  pose proof (set_insert_sorted pm_lt (mkPM k s u true) ord1 Hs1) as Hsorted.
  rewrite Happ in Hins, Hsorted.
  destruct (prefix_releasable (delete k (pending_seqs_ q)) pre rest Hsorted Hpre Hb)
    as [Hrel Hnrel]; [intros k' p; exact (wf_pending _ Hwf' k' p)|].
  pose proof (reinsert_final A q k old d ord1 s u _ Hfin Hp Hk1 Hins) as Hfinal.
  assert (Hnd2 : NoDup (pm_pmk <$> pre ++ rest)) by (rewrite Hins; simpl; by apply NoDup_cons).
  rewrite fmap_app, NoDup_app in Hnd2. destruct Hnd2 as (Hndp & _ & Hndr).
  apply StronglySorted_app_iff in Hsorted as (Hsp & _).
  split; [split_and!; simpl; [done|done|]|].
  - intros k' s'. rewrite map_lookup_filter_Some, Hfinal. unfold finalised. simpl.
    setoid_rewrite elem_of_app. split.
    + intros [[d' [Hin|Hin]] Hn]; [by destruct Hn; apply (Hrel _ Hin)|by exists d'].
    + intros [d' Hin]. split; [by exists d'; right|by apply (Hnrel _ Hin)].
  - by rewrite <- (released_sorted _ _ pre rest), <- list_fmap_compose.
Qed.

(** [InsertUndeliverable] of a key the queue does not know makes it pending. *)
Definition aq_insert (A : AbsQueue) (k : PendingMessageKey) (s : PendingMessageSeq) : AbsQueue :=
  mkAQ (<[k := s]> (aq_pending A)) (aq_final A).

Lemma insert_undeliverable_simulates q A a d :
  let k := mkPMK (am_sender a) (am_msg_id a) in
  hbq_wf q -> represents q A -> aq_pending A !! k = None -> aq_final A !! k = None ->
  (InsertUndeliverable q a d).2 = None /\
  represents (InsertUndeliverable q a d).1
    (aq_insert A k (mkPMS (am_proposed_seq a) (am_proposer a))).
Proof.
  intros k Hwf (Hpend & Hnd & Hfin) Hk Hf. rewrite <- Hpend in Hk.
  pose proof (InsertUndeliverable_spec q a d Hwf) as Hs. simpl in Hs. fold k in Hs.
  rewrite Hk in Hs. destruct Hs as [-> Hc]. split; [done|].
  apply set_insert_perm in Hc. unfold represents. simpl. split_and!.
  - by rewrite Hpend.
  - rewrite Hc. simpl. apply NoDup_cons. split; [|done].
    intros ([k' s' d' b'] & Heq & Hin)%list_elem_of_fmap. simpl in Heq. subst k'.
    destruct b'.
    + assert (aq_final A !! k = Some s') by (apply Hfin; by exists d'). congruence.
    + assert (pending_seqs_ q !! k = Some s') by (apply (wf_pending q Hwf); by exists d').
      congruence.
  - intros k' s'. rewrite Hfin. unfold finalised. simpl. setoid_rewrite Hc.
    setoid_rewrite elem_of_cons. split; [intros [? ?]; eauto|].
    intros [d' [?|?]]; [done|eauto].
Qed.
