(* ===== verification/Net.v ===== *)
(** * Addresses

    [net::Address] and its parsing and printing (src/src/net.h, src/src/net.cc).
    The name of the host is an argument. *)

From Stdlib Require Import ZArith Lia Ascii String.
From stdpp Require Import base list strings countable.
From S2P Require Import Prelude Text Exceptions.

Open Scope Z_scope.

(** Conversion to [unsigned short]. *)
Definition u16 (z : Z) : Z := z mod 65536.

Record Address := mkAddress {
  hostname : string;
  port : Z
}.

#[export] Instance Address_eq_dec : EqDecision Address.
Proof. solve_decision. Defined.

#[export] Instance Address_countable : Countable Address.
Proof.
  refine (inj_countable' (fun a => (hostname a, port a))
            (fun p => mkAddress p.1 p.2) _).
  by intros [].
Defined.

(** [Address::operator==] and [operator!=]. *)
Definition Address_eqb (a b : Address) : bool :=
  bool_decide (hostname a = hostname b) && (port a =? port b).
Definition Address_neqb (a b : Address) : bool := negb (Address_eqb a b).

(** [operator<<]. *)
Definition print_Address (a : Address) : string :=
  hostname a +:+ String ":"%char (print_unsigned (port a)).

(** [AddressWithDefaultPort]: the text after the first colon is read by
    [std::stoi] and converted to [unsigned short]. *)
Definition AddressWithDefaultPort (addr : string) (default_port : option Z)
  : result exn Address :=
  match split_at ":"%char addr with
  | Some (host, rest) =>
      match stoi rest with
      | Ok p => Ok (mkAddress host (u16 p))
      | Throw StoiInvalidArgument => Throw (invalid_argument "stoi")
      | Throw StoiOutOfRange => Throw (out_of_range "stoi")
      end
  | None =>
      match default_port with
      | Some p => Ok (mkAddress addr p)
      | None =>
          Throw (invalid_argument
            "port not specified in address and no default port provided")
      end
  end.

(** The text of a [char*]: up to the first null character. *)
Fixpoint c_string (s : string) : string :=
  match s with
  | EmptyString => EmptyString
  | String c s' => if bool_decide (c = zero) then EmptyString else String c (c_string s')
  end.

(** The first [n] characters. *)
Fixpoint take_string (n : nat) (s : string) : string :=
  match n, s with
  | S n', String c s' => String c (take_string n' s')
  | _, _ => EmptyString
  end.

(** [GetHostname]: [gethostname] copies the name of the host with its terminator, as far as
    they fit in the buffer; [stack] is what follows the buffer in memory. *)
Definition GetHostname (HOST_NAME_MAX : nat) (name stack : string) : string :=
  c_string (take_string HOST_NAME_MAX (name +:+ String zero EmptyString) +:+ stack).

(** ** Lemmas *)

Definition no_null (s : string) : Prop := c_string s = s.

(** A name that fits with its terminator is returned; one that just does not is followed by
    whatever is on the stack. *)
Lemma GetHostname_fits n name stack :
  no_null name -> (String.length name < n)%nat -> GetHostname n name stack = name.
Proof.
  unfold GetHostname, no_null. revert n. induction name as [|c name IH]; intros n Hz Hl.
  { destruct n; [simpl in Hl; lia|]. done. }
  destruct n as [|n]; simpl in Hl; [lia|]. rewrite string_app_cons. cbn [take_string].
  rewrite string_app_cons. cbn [c_string] in Hz |- *. destruct (bool_decide (c = zero)); [done|].
  f_equal. injection Hz as Hz. apply IH; [done|lia].
Qed.

Lemma GetHostname_overrun name stack :
  no_null name ->
  GetHostname (String.length name) name stack = name +:+ c_string stack.
Proof.
  unfold GetHostname, no_null. induction name as [|c name IH]; intros Hz; [done|].
  cbn [String.length]. rewrite !string_app_cons. cbn [take_string].
  rewrite string_app_cons. cbn [c_string] in Hz |- *. destruct (bool_decide (c = zero)); [done|].
  f_equal. injection Hz as Hz. by apply IH.
Qed.

Lemma Address_eqb_eq a b : Address_eqb a b = true <-> a = b.
Proof.
  unfold Address_eqb. rewrite andb_true_iff, bool_decide_eq_true, Z.eqb_eq.
  destruct a, b; simpl. split; [intros [-> ->]; done|intros [= -> ->]; done].
Qed.

(** A host name without a colon. *)
Definition plain_host (h : string) : Prop :=
  forall l r, h <> l +:+ String ":"%char r.

Lemma Address_roundtrip_lemma a dflt :
  plain_host (hostname a) -> 0 <= port a < 65536 ->
  AddressWithDefaultPort (print_Address a) dflt = Ok a.
Proof.
  intros Hh Hp. unfold AddressWithDefaultPort, print_Address.
  rewrite split_at_app by exact Hh.
  rewrite <- (string_app_nil_r (print_unsigned (port a))), stoi_print.
  - destruct a as [h p]. simpl in *. unfold u16. by rewrite Z.mod_small.
  - unfold INT_MAX. lia.
  - done.
Qed.
