(* ===== verification/Udp.v ===== *)
(** * UDP client and server

    [udp::CreateSocket], [udp::Client] and [udp::Server] (src/src/udp_conn.h,
    src/src/udp_conn.cc).  The operating system (socket, setsockopt, bind, sendto,
    recvfrom) is the environment: its answers are arguments, and a loop that waits
    for the network runs on the list of answers it gets.  Callbacks are functions
    on a state of their own, so that the state they capture is explicit. *)

From Stdlib Require Import ZArith Lia.
From stdpp Require Import base list sets.
From S2P Require Import Prelude Exceptions.

Open Scope Z_scope.

Definition BUFSIZE : nat := 1024.

Inductive ServerAction := Continue | Stop.

#[export] Instance ServerAction_eq_dec : EqDecision ServerAction.
Proof. solve_decision. Defined.

Definition kNoTimeout : Z := 0.
Definition kUnlimitedAttempts : Z := 0.
Definition kMaxBackoffMultiplier : Z := 64.

(** Error numbers of the Linux ABI. *)
Definition EAGAIN : Z := 11.
Definition EWOULDBLOCK : Z := 11.
Definition ECONNREFUSED : Z := 111.

Definition IsErrnoTimeout (errno : Z) : bool :=
  (errno =? EAGAIN) || (errno =? EWOULDBLOCK) || (errno =? ECONNREFUSED).

(** ** Sockets *)

(** The answers of the operating system to the calls that set up a socket. *)
Record sock_env := mkSockEnv {
  se_socket : Z;      (* result of socket *)
  se_reuseaddr : Z;   (* result of setsockopt(SO_REUSEADDR) *)
  se_rcvtimeo : Z;    (* result of setsockopt(SO_RCVTIMEO) *)
  se_bind : Z;        (* result of bind *)
  se_errno : Z
}.

Record timeval := mkTimeval { tv_sec : Z; tv_usec : Z }.

(** A socket: its descriptor and the receive timeout that was set. *)
Record Socket := mkSocket { sockfd : Z; rcvtimeo : option timeval }.

(** [duration_cast<seconds>] of a timeout in microseconds truncates. *)
Definition split_timeout (timeout : Z) : timeval :=
  let secs := Z.quot timeout 1000000 in
  mkTimeval secs (timeout - secs * 1000000).

Definition CreateSocket (env : sock_env) (timeout : Z) : result exn Socket :=
  if se_socket env <? 0 then Throw (SocketException (se_errno env))
  else if negb (se_reuseaddr env =? 0) then
    Throw (SocketException (se_errno env))
  else if 0 <? timeout then
    if negb (se_rcvtimeo env =? 0) then Throw (SocketException (se_errno env))
    else Ok (mkSocket (se_socket env) (Some (split_timeout timeout)))
  else Ok (mkSocket (se_socket env) None).

(** [Server::Server]: the socket is bound to the port. *)
Definition make_Server (env : sock_env) (timeout : Z) : result exn Socket :=
  (let! s := CreateSocket env timeout in
   if se_bind env <? 0 then Throw (BindException (se_errno env)) else Ok s)%tom.

(** ** Receiving *)

(** What [recvfrom] answers: a datagram or an error. *)
Inductive recv_result :=
| RecvPacket (pkt : list Z)
| RecvError (errno : Z).

(** The zeroed buffer after a datagram was read into it, and the count returned:
    a longer datagram is cut. *)
Definition recv_buf (pkt : list Z) : list Z :=
  take BUFSIZE pkt ++ replicate (BUFSIZE - length (take BUFSIZE pkt)) 0.
Definition recv_len (pkt : list Z) : nat := length (take BUFSIZE pkt).

(** ** [Client] *)

(** [Client::Send]: [sendto]'s error number, if it failed. *)
Definition Send (sendto_errno : option Z) : option exn :=
  match sendto_errno with
  | Some errno => Some (SendException errno)
  | None => None
  end.

(** [Client::WaitBackoff]: the milliseconds slept for a draw of the Poisson
    distribution; the product is computed in [unsigned int] and stored back into
    an [int].  A negative duration does not sleep. *)
Definition WaitBackoff (draw multiplier : Z) : Z :=
  if draw <=? 0 then 0 else Z.max 0 (i32 (draw * multiplier)).

Definition next_backoff (backoff_mult : Z) : Z :=
  if backoff_mult <? kMaxBackoffMultiplier then u32 (Z.shiftl backoff_mult 1)
  else backoff_mult.

Section SendWithAck.
Context {St : Type}.
Context (validAck : St -> list Z -> nat -> St * ServerAction).

(** What one loop iteration does once [recvfrom] has answered. *)
Inductive swa_next :=
| SwaAgain (backoff_mult : Z) (st : St)
| SwaReturn (st : St)
| SwaThrow (e : exn).

Definition swa_on_recv (backoff_mult : Z) (st : St) (r : recv_result) : swa_next :=
  match r with
  | RecvError errno =>
      if IsErrnoTimeout errno then SwaAgain (next_backoff backoff_mult) st
      else SwaThrow (ReceiveException errno)
  | RecvPacket pkt =>
      let '(st', action) := validAck st (recv_buf pkt) (recv_len pkt) in
      match action with
      | Stop => SwaReturn st'
      | Continue => SwaAgain backoff_mult st'
      end
  end.

(** How a call of [SendWithAck] ends on a finite list of answers. *)
Inductive swa_outcome :=
| Returned
| Threw (e : exn)
| Waiting.  (* the answers are used up, the loop still runs *)

(** The run of the loop: the state of the callback, the number of datagrams sent,
    the multipliers of the back-off waits, and the outcome. *)
Record swa_run := mkSwaRun {
  run_state : St;
  run_sent : nat;
  run_waits : list Z;
  run_outcome : swa_outcome
}.

(** One answer per iteration: [sendto]'s error, or what [recvfrom] answers. *)
Inductive net_answer :=
| SendFails (errno : Z)
| Answer (r : recv_result).

Fixpoint swa_loop (noLimit : bool) (attempts backoff_mult : Z) (st : St)
    (sent : nat) (waits : list Z) (answers : list net_answer) : swa_run :=
  if negb (noLimit || (0 <? attempts)) then mkSwaRun st sent waits Returned
  else
    match answers with
    | [] => mkSwaRun st sent waits Waiting
    | SendFails errno :: _ => mkSwaRun st sent waits (Threw (SendException errno))
    | Answer r :: answers' =>
        match swa_on_recv backoff_mult st r with
        | SwaReturn st' => mkSwaRun st' (S sent) waits Returned
        | SwaThrow e => mkSwaRun st (S sent) waits (Threw e)
        | SwaAgain b st' =>
            let waits' :=
              match r with
              | RecvError _ => waits ++ [backoff_mult]
              | RecvPacket _ => waits
              end in
            swa_loop noLimit (u32 (attempts - 1)) b st' (S sent) waits' answers'
        end
    end.

Definition SendWithAck (attempts : Z) (st : St) (answers : list net_answer)
  : swa_run :=
  swa_loop (attempts =? kUnlimitedAttempts) attempts 1 st 0 [] answers.

End SendWithAck.

(** ** [Server::Listen] *)

Section Listen.
Context {St : Type}.
Context (rcv : St -> list Z -> nat -> St * result exn ServerAction).
Context (timeout : option (St -> St * ServerAction)).

Inductive listen_outcome :=
| ListenReturned
| ListenThrew (e : exn)
| Listening.

(** Each answer of [recvfrom] comes with the answers of the operating system for
    the socket of the reply client. *)
Fixpoint Listen (st : St) (events : list (recv_result * sock_env))
  : St * listen_outcome :=
  match events with
  | [] => (st, Listening)
  | (RecvError errno, _) :: events' =>
      match IsErrnoTimeout errno, timeout with
      | true, Some on_timeout =>
          let '(st', action) := on_timeout st in
          match action with
          | Continue => Listen st' events'
          | Stop => (st', ListenReturned)
          end
      | _, _ => (st, ListenThrew (ReceiveException errno))
      end
  | (RecvPacket pkt, env) :: events' =>
      match CreateSocket env kNoTimeout with
      | Throw e => (st, ListenThrew e)
      | Ok _ =>
          let '(st', r) := rcv st (recv_buf pkt) (recv_len pkt) in
          match r with
          | Throw e => (st', ListenThrew e)
          | Ok Stop => (st', ListenReturned)
          | Ok Continue => Listen st' events'
          end
      end
  end.

End Listen.

(** ** Properties of the send loop *)

Section SendWithAckFacts.
Context {St : Type}.
Context (validAck : St -> list Z -> nat -> St * ServerAction).

(** A limited loop sends at most [attempts] datagrams, and after that many answers
    it has ended. *)
Lemma swa_loop_limited attempts b st sent waits answers :
  0 <= attempts < u32_modulus ->
  let r := swa_loop validAck false attempts b st sent waits answers in
  Z.of_nat (run_sent r) <= Z.of_nat sent + attempts /\
  (attempts <= Z.of_nat (length answers) -> run_outcome r <> Waiting).
Proof.
  revert attempts b st sent waits.
  induction answers as [|a answers IH]; intros attempts b st sent waits Ha;
    simpl; destruct (Z.ltb_spec 0 attempts); simpl; try (split; [lia|done]).
  - split; [lia|]. intros. lia.
  - destruct a as [errno|r]; simpl; [split; [lia|done]|].
    destruct (swa_on_recv validAck b st r) eqn:E; simpl; try (split; [lia|done]).
    rewrite u32_small by (unfold is_u32; lia).
    specialize (IH (attempts - 1) backoff_mult st0 (S sent)
      match r with RecvPacket _ => waits | RecvError _ => waits ++ [b] end).
    simpl in IH. destruct IH as [IH1 IH2]; [lia|].
    split; [lia|]. intros. apply IH2. lia.
Qed.

(** The counter plays no role in an unlimited loop, so its wrap-around below zero
    is harmless. *)
Lemma swa_loop_unlimited_counter a a' b st sent waits answers :
  swa_loop validAck true a b st sent waits answers =
  swa_loop validAck true a' b st sent waits answers.
Proof.
  revert a a' b st sent waits. induction answers as [|x answers IH]; intros; simpl; [done|].
  destruct x as [errno|r]; [done|]. destruct (swa_on_recv validAck b st r); [|done..].
  apply IH.
Qed.

(** An answer that ends the call with an exception. *)
Definition fatal (a : net_answer) : bool :=
  match a with
  | SendFails _ => true
  | Answer (RecvError errno) => negb (IsErrnoTimeout errno)
  | Answer (RecvPacket _) => false
  end.

(** Callbacks of the program read something from a datagram they accept and record it,
    and leave their state alone otherwise. *)
Context {X : Type} (dec : list Z -> nat -> option X) (upd : X -> St -> St).
Hypothesis validAck_dec : forall st buf n,
  validAck st buf n =
  match dec buf n with Some x => (upd x st, Stop) | None => (st, Continue) end.

Definition accepted (a : net_answer) : option X :=
  match a with
  | Answer (RecvPacket pkt) => dec (recv_buf pkt) (recv_len pkt)
  | _ => None
  end.

(** An unlimited loop returns exactly at the first datagram that is accepted; until then
    it sends once for each answer. *)
Lemma swa_loop_unlimited attempts b st sent waits answers :
  Forall (fun x => fatal x = false) answers ->
  let r := swa_loop validAck true attempts b st sent waits answers in
  match omap accepted answers with
  | x :: _ => run_outcome r = Returned /\ run_state r = upd x st
  | [] => run_outcome r = Waiting /\ run_state r = st /\
          run_sent r = (sent + length answers)%nat
  end.
Proof.
  intros Hnf. revert attempts b sent waits.
  induction Hnf as [|x answers Hf Hnf IH]; intros attempts b sent waits; simpl.
  { by rewrite Nat.add_0_r. }
  destruct x as [errno|[pkt|errno]]; simpl in *; [done| |].
  - rewrite validAck_dec. destruct (dec _ _); [done|].
    rewrite Nat.add_succ_r, <- Nat.add_succ_l. apply IH.
  - rewrite negb_false_iff in Hf. rewrite Hf, Nat.add_succ_r, <- Nat.add_succ_l. apply IH.
Qed.

Lemma SendWithAck_unlimited_lemma st answers :
  Forall (fun x => fatal x = false) answers ->
  let r := SendWithAck validAck kUnlimitedAttempts st answers in
  match omap accepted answers with
  | x :: _ => run_outcome r = Returned /\ run_state r = upd x st
  | [] => run_outcome r = Waiting /\ run_state r = st /\ run_sent r = length answers
  end.
Proof. apply swa_loop_unlimited. Qed.

End SendWithAckFacts.

(** ** Back-off *)

(** The multiplier after [k] timeouts. *)
Definition backoff_after (k : nat) : Z := Z.min 64 (2 ^ Z.of_nat k).

Lemma next_backoff_after k : next_backoff (backoff_after k) = backoff_after (S k).
Proof.
  unfold next_backoff, backoff_after, kMaxBackoffMultiplier.
  assert (0 < 2 ^ Z.of_nat k) by (apply Z.pow_pos_nonneg; lia).
  rewrite Nat2Z.inj_succ, Z.pow_succ_r by lia.
  destruct (Z.ltb_spec (Z.min 64 (2 ^ Z.of_nat k)) 64).
  - assert (2 ^ Z.of_nat k < 2 ^ 6) as Hk%Z.pow_lt_mono_r_iff by lia; [|lia..].
    assert (2 ^ Z.of_nat k <= 2 ^ 5) by (apply Z.pow_le_mono_r; lia).
    rewrite Z.shiftl_mul_pow2, u32_small by (unfold is_u32, u32_modulus; lia). lia.
  - lia.
Qed.

(** The waits of a run double from 1 up to 64 and then stay there. *)
Lemma swa_loop_waits {St} (validAck : St -> list Z -> nat -> St * ServerAction)
    noLimit attempts k st sent answers :
  exists j,
    run_waits (swa_loop validAck noLimit attempts (backoff_after k) st sent
                 (backoff_after <$> seq 0 k) answers)
    = backoff_after <$> seq 0 j.
Proof.
  revert attempts k st sent. induction answers as [|a answers IH]; intros; simpl;
    destruct (noLimit || (0 <? attempts)); simpl; eauto.
  destruct a as [errno|[pkt|errno]]; simpl; [by eauto| |].
  - destruct (validAck st _ _) as [st' []]; simpl; [apply IH|eauto].
  - destruct (IsErrnoTimeout errno); [|simpl; by eauto].
    rewrite next_backoff_after.
    destruct (IH (u32 (attempts - 1)) (S k) st (S sent)) as [j Hj].
    exists j. rewrite <- Hj. f_equal. f_equal. rewrite seq_S, fmap_app. done.
Qed.

(** ** Timeouts *)

Lemma split_timeout_spec t :
  0 <= t ->
  let tv := split_timeout t in
  tv_sec tv * 1000000 + tv_usec tv = t /\ 0 <= tv_sec tv /\
  0 <= tv_usec tv < 1000000.
Proof.
  intros Ht. unfold split_timeout. simpl.
  pose proof (Z.quot_rem t 1000000 ltac:(lia)).
  pose proof (Z.rem_bound_pos t 1000000 ltac:(lia) ltac:(lia)).
  pose proof (Z.quot_pos t 1000000 ltac:(lia) ltac:(lia)). lia.
Qed.
