(* ===== verification/Client.v ===== *)
(** * Clients and socket addresses

    [udp::SocketAddress] and the constructors of [udp::Client] (src/src/udp_conn.h,
    src/src/udp_conn.cc).  Name resolution is the environment: [gethostbyname] gives the
    bytes of the address of a host, [gethostbyaddr] the name of the host with an address,
    and [this_host] is the answer of [GetHostname]. *)

From Stdlib Require Import ZArith Lia String.
From stdpp Require Import base list strings.
From S2P Require Import Prelude Text Exceptions Wire Net Udp.

Open Scope Z_scope.

(** ** Ports in network byte order *)

Definition bswap16 (x : Z) : Z := Z.lor (Z.shiftl (byte_of x 0) 8) (byte_of x 1).

Definition htons (e : endian) (x : Z) : Z :=
  match e with Big => x | Little => bswap16 x end.
Definition ntohs (e : endian) (x : Z) : Z := htons e x.

(** ** Addresses of sockets *)

(** The [sockaddr_in]: the bytes of the address, and the port as it is stored. *)
Record SocketAddress := mkSocketAddress {
  sin_addr : list Z;
  sin_port : Z
}.

(** The constructor from an address. *)
Definition make_SocketAddress (e : endian) (gethostbyname : string -> option (list Z))
    (addr : Address) : result exn SocketAddress :=
  match gethostbyname (hostname addr) with
  | None => Throw (HostNotFoundException (hostname addr))
  | Some h_addr => Ok (mkSocketAddress h_addr (htons e (port addr)))
  end.

Definition SocketAddress_Hostname (gethostbyaddr : list Z -> option string)
    (this_host : string) (sa : SocketAddress) : result exn string :=
  match gethostbyaddr (sin_addr sa) with
  | None => Throw (HostNotFoundException EmptyString)
  | Some h_name => Ok (if bool_decide (h_name = "localhost"%string) then this_host else h_name)
  end.

Definition SocketAddress_Port (e : endian) (sa : SocketAddress) : Z := ntohs e (sin_port sa).

(** ** Clients *)

Record Client := mkClient {
  client_socket : Socket;
  remote_address_ : SocketAddress
}.

(** [Client::Client]: the socket is created before the address is resolved. *)
Definition make_Client (e : endian) (gethostbyname : string -> option (list Z)) (env : sock_env)
    (addr : Address) (timeout : Z) : result exn Client :=
  (let! s := CreateSocket env timeout in
   let! sa := make_SocketAddress e gethostbyname addr in
   Ok (mkClient s sa))%tom.

(** The client for the sender of a datagram. *)
Definition reply_Client (env : sock_env) (sockaddr : SocketAddress) : result exn Client :=
  (let! s := CreateSocket env kNoTimeout in Ok (mkClient s sockaddr))%tom.

Definition RemoteAddress (e : endian) (gethostbyaddr : list Z -> option string)
    (this_host : string) (c : Client) : result exn Address :=
  (let! h := SocketAddress_Hostname gethostbyaddr this_host (remote_address_ c) in
   Ok (mkAddress h (SocketAddress_Port e (remote_address_ c))))%tom.

(** ** Lemmas *)

Lemma testbit_bswap16 x k :
  0 <= k ->
  Z.testbit (bswap16 x) k =
  if k <? 8 then Z.testbit x (k + 8)
  else if k <? 16 then Z.testbit x (k - 8) else false.
Proof.
  intros Hk. unfold bswap16. rewrite Z.lor_spec, Z.shiftl_spec, !testbit_byte_of by lia.
  repeat match goal with
    | |- context [0 <=? ?a] => destruct (Z.leb_spec 0 a)
    | |- context [?a <? ?b] => destruct (Z.ltb_spec a b)
    end; simpl; rewrite ?orb_false_r; try lia; f_equal; lia.
Qed.

Lemma bswap16_involutive x : 0 <= x < 65536 -> bswap16 (bswap16 x) = x.
Proof.
  intros Hx. apply Z.bits_inj'. intros k Hk. rewrite testbit_bswap16 by done.
  destruct (Z.ltb_spec k 8); [|destruct (Z.ltb_spec k 16)].
  - rewrite testbit_bswap16 by lia. destruct (Z.ltb_spec (k + 8) 8), (Z.ltb_spec (k + 8) 16); try lia.
    f_equal. lia.
  - rewrite testbit_bswap16 by lia. destruct (Z.ltb_spec (k - 8) 8); [|lia]. f_equal. lia.
  - symmetry. apply Z.bits_above_log2; [lia|].
    destruct (decide (x = 0)) as [->|]; [simpl; lia|]. apply Z.log2_lt_pow2; [lia|].
    assert (2 ^ 16 <= 2 ^ k) by (apply Z.pow_le_mono_r; lia). lia.
Qed.

(** The port of the remote address is the port the client was made for. *)
Lemma ntohs_htons e x : 0 <= x < 65536 -> ntohs e (htons e x) = x.
Proof. intros Hx. destruct e; [by apply bswap16_involutive|done]. Qed.

(** A client is made exactly when the socket can be created and the host is known. *)
Lemma make_Client_spec e ghbn env addr timeout :
  match CreateSocket env timeout, ghbn (hostname addr) with
  | Ok s, Some bytes =>
      make_Client e ghbn env addr timeout =
      Ok (mkClient s (mkSocketAddress bytes (htons e (port addr))))
  | Ok _, None =>
      make_Client e ghbn env addr timeout = Throw (HostNotFoundException (hostname addr))
  | Throw ex, _ => make_Client e ghbn env addr timeout = Throw ex
  end.
Proof.
  unfold make_Client, make_SocketAddress. destruct (CreateSocket env timeout); [|done]. simpl.
  by destruct (ghbn (hostname addr)).
Qed.
