(* ===== verification/Process.v ===== *)
(** * A process

    The class [process::Process] (src/src/process.h, src/src/process.cc): its
    sequence counter, the handlers of incoming messages, the server callback that
    dispatches on the message type, and the pieces of a multicast sender (the
    acknowledgement callbacks and the choice of the final sequence number).

    Members that the code leaves uninitialised are the parameter [uninit].
    [sendto] is the error number of the reply's [sendto], if it fails. *)

From Stdlib Require Import ZArith Lia.
From stdpp Require Import base list gmap strings.
From S2P Require Import Prelude Text Exceptions Wire Printing StdSet HoldBack Net Udp.

Open Scope Z_scope.

Definition kAckTimeout : Z := 250000.  (* microseconds *)

Record Process := mkProcess {
  processes_ : list Address;
  id_ : Z;
  delays_ : bool;
  hold_back_queue_ : HoldBackQueue;
  seq_counter_ : Z
}.

(** The constructor. *)
Definition make_Process (processes : list Address) (id : Z) (delays : bool)
  : Process := mkProcess processes id delays empty_queue 0.

Definition set_queue (p : Process) (q : HoldBackQueue) : Process :=
  mkProcess (processes_ p) (id_ p) (delays_ p) q (seq_counter_ p).
Definition set_counter (p : Process) (c : Z) : Process :=
  mkProcess (processes_ p) (id_ p) (delays_ p) (hold_back_queue_ p) c.

Definition process_count (p : Process) : Z := Z.of_nat (length (processes_ p)).

(** ** Clients *)

Fixpoint emplace_clients {C} (make : Address -> result exn C)
    (processes : list Address) (clients : gmap Address C)
  : result exn (gmap Address C) :=
  match processes with
  | [] => Ok clients
  | addr :: rest =>
      (let! c := make addr in
       emplace_clients make rest
         (match clients !! addr with
          | Some _ => clients
          | None => <[addr := c]> clients
          end))%tom
  end.

(** [ClientsForProcessList]: one client per distinct address; [make] constructs a
    client with the acknowledgement timeout. *)
Definition ClientsForProcessList {C} (make : Address -> Z -> result exn C)
    (processes : list Address) : result exn (gmap Address C) :=
  emplace_clients (fun a => make a kAckTimeout) processes ∅.

(** [ClientForId]: both [at] calls throw when they find nothing. *)
Definition ClientForId {C} (clients : gmap Address C)
    (processes : list Address) (pid : nat) : result exn C :=
  match processes !! pid with
  | None => Throw (out_of_range "at"%string)
  | Some addr =>
      match clients !! addr with
      | None => Throw (out_of_range "at"%string)
      | Some c => Ok c
      end
  end.

(** ** The sequence counter *)

Definition NextSeqNum (p : Process) : Process * Z :=
  let c := u32 (seq_counter_ p + 1) in (set_counter p c, c).

Definition ForwardSeqNum (p : Process) (seen : Z) : Process :=
  if seq_counter_ p <? seen then set_counter p seen else p.

(** ** Handlers *)

(** What a handler does outside the process, in order. *)
Inductive action :=
| AReply (pkt : list Z)      (* a datagram to the client that sent the message *)
| ADeliver (m : SeqMessage)  (* a call of the deliver callback *)
| ALog (text : string).      (* a text for the logger *)

Definition log_received (msg : string) : action :=
  ALog ("Received message " +:+ msg +:+ end_of_line).

Definition SendAckMsg (e : endian) (sendto : option Z) (ack_msg : AckMessage)
  : list action * option exn :=
  match Send sendto with
  | Some ex => ([], Some ex)
  | None => ([AReply (AckMsgToBuf e ack_msg)], None)
  end.

Definition SendSeqAckMsg (e : endian) (sendto : option Z)
    (seqack_msg : SeqAckMessage) : list action * option exn :=
  match Send sendto with
  | Some ex => ([], Some ex)
  | None => ([AReply (SeqAckMsgToBuf e seqack_msg)], None)
  end.

(** [Process::HandleDataMsg].  When the message is new the code writes the fields of
    the (disengaged) optional's storage; its type field keeps the value found
    there. *)
Definition HandleDataMsg (e : endian) (uninit : Z) (sendto : option Z)
    (p : Process) (buf : list Z) (n : nat)
  : Process * list action * option exn :=
  match DataMsgFromBuf e buf n with
  | None => (p, [], None)
  | Some data_msg =>
      if negb (ValidDataMsg data_msg (process_count p)) then (p, [], None)
      else
        let log := log_received (print_DataMessage data_msg) in
        match Lookup uninit (hold_back_queue_ p) data_msg with
        | Some ack_msg =>
            let '(out, ex) := SendAckMsg e sendto ack_msg in (p, log :: out, ex)
        | None =>
            let '(p1, proposed) := NextSeqNum p in
            let ack_msg := {|
              am_type := uninit;
              am_sender := dm_sender data_msg;
              am_msg_id := dm_msg_id data_msg;
              am_proposed_seq := proposed;
              am_proposer := id_ p1
            |} in
            let '(q, thrown) :=
              InsertUndeliverable (hold_back_queue_ p1) ack_msg
                (dm_data data_msg) in
            let p2 := set_queue p1 q in
            match thrown with
            | Some ex => (p2, [log], Some ex)
            | None =>
                let '(out, ex) := SendAckMsg e sendto ack_msg in (p2, log :: out, ex)
            end
        end
  end.

(** What [SetDeliverable] logs: the messages it does not know. *)
Definition SetDeliverable_log (q : HoldBackQueue) (seq_msg : SeqMessage) : list action :=
  match pending_seqs_ q !! mkPMK (sm_sender seq_msg) (sm_msg_id seq_msg) with
  | None => [ALog ("Unknown SeqMessage " +:+ print_SeqMessage seq_msg +:+ "..." +:+ end_of_line)]
  | Some _ => []
  end.

(** [Process::HandleSeqMsg]. *)
Definition HandleSeqMsg (e : endian) (uninit : Z) (sendto : option Z)
    (p : Process) (buf : list Z) (n : nat)
  : Process * list action * option exn :=
  match SeqMsgFromBuf e buf n with
  | None => (p, [], None)
  | Some seq_msg =>
      if negb (ValidSeqMsg seq_msg (process_count p)) then (p, [], None)
      else
        let log := log_received (print_SeqMessage seq_msg) in
        let p1 := ForwardSeqNum p (sm_final_seq seq_msg) in
        let seqack_msg :=
          mkSeqAckMessage uninit (sm_sender seq_msg) (sm_msg_id seq_msg) in
        let '(out, thrown) := SendSeqAckMsg e sendto seqack_msg in
        match thrown with
        | Some ex => (p1, log :: out, Some ex)
        | None =>
            let '(q, delivered) :=
              SetDeliverable uninit (hold_back_queue_ p1) seq_msg in
            (set_queue p1 q,
             log :: out ++ SetDeliverable_log (hold_back_queue_ p1) seq_msg ++
               (ADeliver <$> delivered), None)
        end
  end.

(** The callback [TotalOrder] passes to the server: it always answers [Continue]. *)
Definition OnReceive (e : endian) (uninit : Z) (sendto : option Z)
    (p : Process) (buf : list Z) (n : nat)
  : Process * list action * option exn :=
  match MessageTypeFromBuf e buf n with
  | None => (p, [ALog ("Received message with incomplete type" +:+ end_of_line)], None)
  | Some data_type =>
      if data_type =? kDataMessageType then HandleDataMsg e uninit sendto p buf n
      else if data_type =? kSeqMessageType then
        HandleSeqMsg e uninit sendto p buf n
      else if (data_type =? kAckMessageType) || (data_type =? kSeqAckMessageType) then
        (p, [ALog ("Received ack message when one was not expected" +:+ end_of_line)], None)
      else
        (p, [ALog ("Received message with unknown type: " +:+ print_unsigned data_type +:+
                   end_of_line)], None)
  end.

(** ** Multicast senders *)

(** [handle_ack] of [LaunchMulticastSender]: the vector [seqs] is its state.  The
    store is out of range for no [pid] the code uses; there [insert] would do
    nothing. *)
Definition handle_ack (e : endian) (id msg_id : Z) (pid : nat)
    (seqs : list Z) (buf : list Z) (n : nat) : list Z * ServerAction :=
  match AckMsgFromBuf e buf n with
  | None => (seqs, Continue)
  | Some ack_msg =>
      if negb (ValidAckMsg ack_msg id msg_id (Z.of_nat pid)) then
        (seqs, Continue)
      else (<[pid := am_proposed_seq ack_msg]> seqs, Stop)
  end.

(** [isValidAck] of [SendSeqMsg]. *)
Definition isValidAck (e : endian) (orig_seq_msg : SeqMessage)
    (st : unit) (buf : list Z) (n : nat) : unit * ServerAction :=
  match SeqAckMsgFromBuf e buf n with
  | None => (st, Continue)
  | Some seqack_msg =>
      if negb (ValidSeqAckMsg seqack_msg orig_seq_msg) then (st, Continue)
      else (st, Stop)
  end.

(** The loop that selects the final sequence number and its proposer. *)
Fixpoint final_loop (pid : Z) (seqs : list Z) (final_seq final_proposer : Z)
  : Z * Z :=
  match seqs with
  | [] => (final_seq, final_proposer)
  | seq :: seqs' =>
      if final_seq <? seq then final_loop (pid + 1) seqs' seq pid
      else final_loop (pid + 1) seqs' final_seq final_proposer
  end.

Definition select_final (seqs : list Z) : Z * Z := final_loop 0 seqs 0 0.

(** [SendDataMsg] and [SendSeqMsg]: one blocking exchange with a peer, on the answers
    the network gives. *)
Definition SendDataMsg (e : endian) (id : Z) (pid : nat) (data_msg : DataMessage)
    (seqs : list Z) (answers : list net_answer) : list Z * swa_run :=
  (DataMsgToBuf e data_msg,
   SendWithAck (handle_ack e id (dm_msg_id data_msg) pid) kUnlimitedAttempts
     seqs answers).

Definition SendSeqMsg (e : endian) (seq_msg : SeqMessage)
    (answers : list net_answer) : list Z * swa_run :=
  (SeqMsgToBuf e seq_msg,
   SendWithAck (isValidAck e seq_msg) kUnlimitedAttempts tt answers).

(** What the two callbacks accept: the proposal of an acknowledgement of this message
    by this process, and an acknowledgement of the sequence message. *)
Definition ack_proposal (e : endian) (id msg_id : Z) (pid : nat) (buf : list Z) (n : nat)
  : option Z :=
  match AckMsgFromBuf e buf n with
  | Some a => if ValidAckMsg a id msg_id (Z.of_nat pid) then Some (am_proposed_seq a) else None
  | None => None
  end.

Definition is_seqack (e : endian) (m : SeqMessage) (buf : list Z) (n : nat) : option unit :=
  match SeqAckMsgFromBuf e buf n with
  | Some a => if ValidSeqAckMsg a m then Some tt else None
  | None => None
  end.

(** [MaybeDelaySend]: the tenths of a second slept, for a draw of the uniform
    distribution (below one half or not) and one of the Poisson distribution. *)
Definition MaybeDelaySend (p : Process) (below_half : bool) (poisson : Z) : Z :=
  if negb (delays_ p) then 0
  else if below_half then 0
  else if poisson <=? 0 then 0
  else poisson.

(** ** The sequence counter: lemmas *)

Lemma NextSeqNum_greater p :
  is_u32 (seq_counter_ p) -> seq_counter_ p <> UINT32_MAX ->
  (NextSeqNum p).2 = seq_counter_ p + 1 /\
  seq_counter_ (NextSeqNum p).1 = seq_counter_ p + 1.
Proof.
  unfold is_u32, UINT32_MAX, u32_modulus. intros H Hne. unfold NextSeqNum. simpl.
  rewrite u32_small by (unfold is_u32, u32_modulus; lia). done.
Qed.

Lemma ForwardSeqNum_counter p seen :
  seq_counter_ (ForwardSeqNum p seen) = Z.max (seq_counter_ p) seen.
Proof. unfold ForwardSeqNum. case_test; simpl; lia. Qed.

Lemma ForwardSeqNum_other p seen :
  hold_back_queue_ (ForwardSeqNum p seen) = hold_back_queue_ p /\
  processes_ (ForwardSeqNum p seen) = processes_ p /\
  id_ (ForwardSeqNum p seen) = id_ p.
Proof. unfold ForwardSeqNum. by case_test. Qed.

(** ** The final sequence number: lemmas *)

Lemma final_loop_spec pid seqs f fp :
  let r := final_loop pid seqs f fp in
  f <= r.1 /\ (forall x, x ∈ seqs -> x <= r.1) /\
  (r = (f, fp) \/
   exists i, seqs !! i = Some r.1 /\ r.2 = pid + Z.of_nat i /\ f < r.1 /\
             forall j x, (j < i)%nat -> seqs !! j = Some x -> x < r.1).
Proof.
  revert pid f fp. induction seqs as [|s seqs IH]; intros pid f fp; simpl.
  { split_and!; [lia|by intros x ?%elem_of_nil|by left]. }
  destruct (Z.ltb_spec f s) as [Hlt|Hge].
  - destruct (IH (pid + 1) s pid) as (H1 & H2 & H3). split_and!; [lia| |].
    { intros x [->|Hx]%elem_of_cons; [done|by apply H2]. }
    right. destruct H3 as [->|(i & Hi & Hp & Hf & Hj)].
    + exists 0%nat. simpl. split_and!; [done|lia|lia|]. intros j x Hj. lia.
    + exists (S i). simpl. split_and!; [done|lia|lia|].
      intros [|j] x Hji Hx; simpl in Hx; [simplify_eq; lia|]. apply (Hj j); [lia|done].
  - destruct (IH (pid + 1) f fp) as (H1 & H2 & H3). split_and!; [lia| |].
    { intros x [->|Hx]%elem_of_cons; [lia|by apply H2]. }
    destruct H3 as [->|(i & Hi & Hp & Hf & Hj)]; [by left|right].
    exists (S i). simpl. split_and!; [done|lia|lia|].
    intros [|j] x Hji Hx; simpl in Hx; [simplify_eq; lia|]. apply (Hj j); [lia|done].
Qed.

(** The final number is the largest proposal, and its proposer the smallest process
    that made it. *)
Lemma select_final_spec seqs x0 :
  x0 ∈ seqs -> 0 < x0 ->
  exists f i, select_final seqs = (f, Z.of_nat i) /\ seqs !! i = Some f /\ 0 < f /\
    (forall x, x ∈ seqs -> x <= f) /\
    (forall j x, (j < i)%nat -> seqs !! j = Some x -> x < f).
Proof.
  intros Hx0 Hpos. unfold select_final.
  destruct (final_loop_spec 0 seqs 0 0) as (H1 & H2 & H3).
  destruct (final_loop 0 seqs 0 0) as [f fp] eqn:E. simpl in *.
  pose proof (H2 _ Hx0). destruct H3 as [[= -> ->]|(i & Hi & -> & Hf & Hj)]; [lia|].
  exists f, i. by split_and!.
Qed.

(** ** Clients: lemmas *)

Lemma emplace_clients_spec {C} (make : Address -> result exn C) processes clients clients' :
  emplace_clients make processes clients = Ok clients' ->
  (forall a c, clients !! a = Some c -> make a = Ok c) ->
  (forall a c, clients' !! a = Some c -> make a = Ok c) /\
  (forall a, a ∈ processes \/ is_Some (clients !! a) -> is_Some (clients' !! a)).
Proof.
  revert clients. induction processes as [|addr rest IH]; intros clients H Hin; simpl in H.
  { simplify_eq. split; [done|]. intros a [?%elem_of_nil|?]; done. }
  destruct (make addr) as [c|ex] eqn:Em; [|done]. simpl in H.
  apply IH in H as [H1 H2].
  - split; [done|]. intros a Ha. apply H2.
    destruct (decide (a = addr)) as [->|Hne].
    + right. destruct (clients !! addr) eqn:E; [by rewrite E|]. by rewrite lookup_insert_eq.
    + destruct Ha as [[?|?]%elem_of_cons|Ha]; [done|by left|right].
      destruct (clients !! addr); [done|]. by rewrite lookup_insert_ne.
  - intros a c'. destruct (clients !! addr) eqn:E; [by apply Hin|].
    rewrite lookup_insert_Some. intros [[<- <-]|[_ ?]]; [done|by apply Hin].
Qed.

Lemma ClientsForProcessList_spec {C} (make : Address -> Z -> result exn C)
    processes clients :
  ClientsForProcessList make processes = Ok clients ->
  forall a, a ∈ processes ->
  exists c, clients !! a = Some c /\ make a kAckTimeout = Ok c.
Proof.
  intros H a Ha. apply emplace_clients_spec in H as [H1 H2]; [|done].
  destruct (H2 a) as [c Hc]; [by left|]. exists c. split; [done|by apply H1].
Qed.

(** When every client can be made, the list of clients can. *)
Lemma ClientsForProcessList_ok {C} (make : Address -> Z -> result exn C) processes :
  (forall a, exists c, make a kAckTimeout = Ok c) ->
  exists clients, ClientsForProcessList make processes = Ok clients.
Proof.
  intros Hm. unfold ClientsForProcessList. generalize (∅ : gmap Address C).
  induction processes as [|a processes IH]; intros m; simpl; [by eexists|].
  destruct (Hm a) as [c ->]. simpl. apply IH.
Qed.

Lemma ClientForId_ok {C} (make : Address -> Z -> result exn C) processes clients pid addr :
  ClientsForProcessList make processes = Ok clients -> processes !! pid = Some addr ->
  exists c, ClientForId clients processes pid = Ok c /\ make addr kAckTimeout = Ok c.
Proof.
  intros Hc E. unfold ClientForId. rewrite E. apply list_elem_of_lookup_2 in E.
  destruct (ClientsForProcessList_spec make processes clients Hc addr E) as (c & Hl & Hm).
  exists c. by rewrite Hl.
Qed.

Lemma ClientForId_total {C} (make : Address -> Z -> result exn C) processes clients pid :
  ClientsForProcessList make processes = Ok clients -> (pid < length processes)%nat ->
  exists c, ClientForId clients processes pid = Ok c.
Proof.
  intros Hc [addr Ha]%lookup_lt_is_Some_2.
  destruct (ClientForId_ok make _ _ _ _ Hc Ha) as (c & ? & _). by exists c.
Qed.

(** ** The exchanges of a sender *)

Lemma handle_ack_dec e id msg_id pid seqs buf n :
  handle_ack e id msg_id pid seqs buf n =
  match ack_proposal e id msg_id pid buf n with
  | Some x => (<[pid := x]> seqs, Stop)
  | None => (seqs, Continue)
  end.
Proof.
  unfold handle_ack, ack_proposal. destruct (AckMsgFromBuf _ _ _); [|done].
  by destruct (ValidAckMsg _ _ _ _).
Qed.

Lemma isValidAck_dec e m st buf n :
  isValidAck e m st buf n =
  match is_seqack e m buf n with Some _ => (st, Stop) | None => (st, Continue) end.
Proof.
  unfold isValidAck, is_seqack. destruct (SeqAckMsgFromBuf _ _ _); [|done].
  by destruct (ValidSeqAckMsg _ _).
Qed.

(** ** Robustness of the server callback *)

(** What every reachable process satisfies, whatever datagrams it received. *)
Record process_wf (p : Process) : Prop := {
  pwf_queue : hbq_wf (hold_back_queue_ p);
  pwf_counter : is_u32 (seq_counter_ p)
}.

(** A key the lookup does not find is accepted by the insertion. *)
Lemma Lookup_None_insert u q dm a d :
  hbq_wf q -> Lookup u q dm = None ->
  am_sender a = dm_sender dm -> am_msg_id a = dm_msg_id dm ->
  (InsertUndeliverable q a d).2 = None.
Proof.
  intros Hwf Hl Hs Hi. pose proof (InsertUndeliverable_spec q a d Hwf) as Hspec. simpl in Hspec.
  unfold Lookup in Hl. rewrite Hs, Hi in Hspec.
  destruct (pending_seqs_ q !! _); [done|]. by destruct Hspec as [-> _].
Qed.

Lemma HandleDataMsg_wf e u sendto p buf n :
  process_wf p ->
  let '(p', _, ex) := HandleDataMsg e u sendto p buf n in
  process_wf p' /\ (ex = Send sendto \/ ex = None).
Proof.
  intros [Hq Hc]. unfold HandleDataMsg.
  destruct (DataMsgFromBuf e buf n) as [dm|]; [|by split; [split|right]].
  destruct (negb _); [by split; [split|right]|].
  destruct (Lookup u (hold_back_queue_ p) dm) as [ack|] eqn:El.
  { unfold SendAckMsg. destruct (Send sendto); by split; [split|left]. }
  unfold NextSeqNum. simpl.
  match goal with |- context [InsertUndeliverable ?q ?a ?d] =>
    pose proof (InsertUndeliverable_wf q a d Hq) as Hwf;
    pose proof (Lookup_None_insert u q dm a d Hq El eq_refl eq_refl) as Hex;
    destruct (InsertUndeliverable q a d) as [q' ex] end.
  simpl in *. subst ex. unfold SendAckMsg.
  destruct (Send sendto); (split; [|by left]); split; simpl; auto with tom.
Qed.

Lemma HandleSeqMsg_wf e u sendto p buf n :
  Forall is_byte buf -> process_wf p ->
  let '(p', _, ex) := HandleSeqMsg e u sendto p buf n in
  process_wf p' /\ (ex = Send sendto \/ ex = None).
Proof.
  intros Hb [Hq Hc]. unfold HandleSeqMsg.
  destruct (SeqMsgFromBuf e buf n) as [sm|] eqn:Ed; [|by split; [split|right]].
  destruct (negb _); [by split; [split|right]|].
  apply SeqMsgFromBuf_inv in Ed as (_ & _ & _ & _ & Hf & _); [|done].
  destruct (ForwardSeqNum_other p (sm_final_seq sm)) as (HQ & _ & _).
  assert (is_u32 (seq_counter_ (ForwardSeqNum p (sm_final_seq sm)))) as Hc'.
  { rewrite ForwardSeqNum_counter. unfold is_u32 in *. lia. }
  unfold SendSeqAckMsg. destruct (Send sendto) eqn:Es.
  { split; [|by left]. split; [by rewrite HQ|done]. }
  pose proof (SetDeliverable_wf u (hold_back_queue_ p) sm Hq) as Hwf.
  rewrite HQ. destruct (SetDeliverable u _ sm) as [q' out]. simpl in Hwf.
  split; [|by right]. by split.
Qed.

Lemma OnReceive_wf_lemma e u sendto p buf n :
  Forall is_byte buf -> process_wf p ->
  let '(p', _, ex) := OnReceive e u sendto p buf n in
  process_wf p' /\ (ex = Send sendto \/ ex = None).
Proof.
  intros Hb Hp. unfold OnReceive.
  destruct (MessageTypeFromBuf e buf n) as [ty|]; [|by split; [|right]].
  destruct (ty =? _); [by apply HandleDataMsg_wf|].
  destruct (ty =? _); [by apply HandleSeqMsg_wf|].
  destruct (_ || _); by split; [|right].
Qed.

(** The counter goes up, or the number after it is proposed for a message that enters the
    queue. *)
Lemma OnReceive_counter e u sendto p buf n :
  hbq_wf (hold_back_queue_ p) ->
  let p' := (OnReceive e u sendto p buf n).1.1 in
  seq_counter_ p <= seq_counter_ p' \/
  seq_counter_ p' = u32 (seq_counter_ p + 1) /\
  exists pm, pm ∈ ordering_ (hold_back_queue_ p') /\ pms_seq (pm_pms pm) = seq_counter_ p'.
Proof.
  intros Hq. unfold OnReceive. destruct (MessageTypeFromBuf e buf n) as [ty|]; [|left; simpl; lia].
  destruct (ty =? _).
  { unfold HandleDataMsg. destruct (DataMsgFromBuf e buf n) as [dm|]; [|left; simpl; lia].
    destruct (negb _); [left; simpl; lia|].
    destruct (Lookup u (hold_back_queue_ p) dm) as [ack|] eqn:El.
    { left. destruct (SendAckMsg _ _ _). simpl. lia. }
    right. unfold NextSeqNum. simpl.
    match goal with |- context [InsertUndeliverable ?q ?a ?d] =>
      pose proof (InsertUndeliverable_spec q a d Hq) as Hi end.
    unfold Lookup in El. simpl in Hi. destruct (pending_seqs_ _ !! _); [done|].
    destruct Hi as [-> Hc]. destruct (SendAckMsg _ _ _). simpl. split; [done|].
    eexists. split; [rewrite (set_insert_perm pm_lt _ _ Hc); by left|done]. }
  destruct (ty =? _); [|left; destruct (_ || _); simpl; lia].
  left. unfold HandleSeqMsg. destruct (SeqMsgFromBuf e buf n) as [sm|]; [|simpl; lia].
  destruct (negb _); [simpl; lia|].
  pose proof (ForwardSeqNum_counter p (sm_final_seq sm)) as Hf.
  destruct (SendSeqAckMsg _ _ _) as [out [ex|]]; simpl; [lia|].
  destruct (SetDeliverable _ _ _). simpl. lia.
Qed.

(** ** What the server does with the messages peers send *)

Lemma recv_buf_short pkt :
  (length pkt <= BUFSIZE)%nat ->
  recv_buf pkt = pkt ++ replicate (BUFSIZE - length pkt) 0 /\
  recv_len pkt = length pkt.
Proof. intros H. unfold recv_buf, recv_len. by rewrite take_ge. Qed.

(** The acknowledgement of a data message. *)
Definition ack_for (u : Z) (m : DataMessage) (s : PendingMessageSeq) : AckMessage :=
  mkAckMessage u (dm_sender m) (dm_msg_id m) (pms_seq s) (pms_seq_proposer s).

Definition data_key (m : DataMessage) : PendingMessageKey :=
  mkPMK (dm_sender m) (dm_msg_id m).
Definition seq_key (m : SeqMessage) : PendingMessageKey :=
  mkPMK (sm_sender m) (sm_msg_id m).

Lemma DataMsg_dispatch e e' u sendto p m :
  DataMessage_u32 m -> dm_sender m < process_count p ->
  let pkt := DataMsgToBuf e m in
  OnReceive e' u sendto p (recv_buf pkt) (recv_len pkt) =
  HandleDataMsg e' u sendto p (recv_buf pkt) (recv_len pkt) /\
  DataMsgFromBuf e' (recv_buf pkt) (recv_len pkt) = Some (stamp_data m) /\
  ValidDataMsg (stamp_data m) (process_count p) = true.
Proof.
  intros Hm Hs pkt. pose proof (length_DataMsgToBuf e m) as Hl.
  fold pkt in Hl. destruct (recv_buf_short pkt) as [Hb Hn].
  { rewrite Hl. unfold sizeof_DataMessage, BUFSIZE. lia. }
  rewrite Hb, Hn, Hl. split_and!.
  - unfold OnReceive, pkt, DataMsgToBuf. rewrite <- app_assoc.
    rewrite MessageType_tag; [done|done|unfold sizeof_DataMessage; lia].
  - by apply DataMsg_roundtrip.
  - by apply ValidDataMsg_spec.
Qed.

(** What the handlers log of a message as its sender stamped it. *)
Definition data_log (m : DataMessage) : action :=
  log_received (print_DataMessage (stamp_data m)).
Definition seq_log (m : SeqMessage) : action :=
  log_received (print_SeqMessage (stamp_seq m)).

(** The reply, when [sendto] succeeds. *)
Definition reply_of (sendto : option Z) (pkt : list Z) : list action :=
  match sendto with None => [AReply pkt] | Some _ => [] end.

Lemma SendAckMsg_spec e sendto a :
  SendAckMsg e sendto a = (reply_of sendto (AckMsgToBuf e a), Send sendto).
Proof. by destruct sendto. Qed.

(** A data message that is pending is answered with the number proposed for it
    before, and nothing changes. *)
Lemma OnReceive_data_known e e' u sendto p m s :
  DataMessage_u32 m -> dm_sender m < process_count p ->
  pending_seqs_ (hold_back_queue_ p) !! data_key m = Some s ->
  let pkt := DataMsgToBuf e m in
  OnReceive e' u sendto p (recv_buf pkt) (recv_len pkt) =
  (p, data_log m :: reply_of sendto (AckMsgToBuf e' (ack_for u m s)), Send sendto).
Proof.
  intros Hm Hs Hk pkt. destruct (DataMsg_dispatch e e' u sendto p m Hm Hs) as (Hon & Hd & Hv).
  fold pkt in Hon, Hd. rewrite Hon. unfold HandleDataMsg. rewrite Hd, Hv. simpl.
  unfold Lookup. simpl. unfold data_key in Hk. by rewrite Hk, SendAckMsg_spec.
Qed.

(** A new data message gets the next sequence number and is queued undeliverable. *)
Lemma OnReceive_data_new e e' u sendto p m :
  let c := u32 (seq_counter_ p + 1) in
  let s := mkPMS c (id_ p) in
  let pm := mkPM (data_key m) s (dm_data m) false in
  let q := hold_back_queue_ p in
  DataMessage_u32 m -> dm_sender m < process_count p -> hbq_wf q ->
  pending_seqs_ q !! data_key m = None ->
  let pkt := DataMsgToBuf e m in
  OnReceive e' u sendto p (recv_buf pkt) (recv_len pkt) =
  (set_queue (set_counter p c)
     (mkHBQ (<[data_key m := s]> (pending_seqs_ q)) (set_insert pm_lt pm (ordering_ q))),
   data_log m :: reply_of sendto (AckMsgToBuf e' (ack_for u m s)), Send sendto) /\
  set_insert pm_lt pm (ordering_ q) ≡ₚ pm :: ordering_ q /\
  hbq_wf (mkHBQ (<[data_key m := s]> (pending_seqs_ q)) (set_insert pm_lt pm (ordering_ q))).
Proof.
  intros c s pm q Hm Hs Hwf Hk pkt.
  destruct (DataMsg_dispatch e e' u sendto p m Hm Hs) as (Hon & Hd & Hv).
  fold pkt in Hon, Hd. rewrite Hon. unfold HandleDataMsg. rewrite Hd, Hv. simpl.
  unfold Lookup. simpl. fold q. unfold data_key in Hk. rewrite Hk.
  pose proof (InsertUndeliverable_spec q (ack_for u m s) (dm_data m) Hwf) as Hi.
  pose proof (InsertUndeliverable_wf q (ack_for u m s) (dm_data m) Hwf) as Hwf'.
  simpl in Hi. rewrite Hk in Hi. destruct Hi as [Hi Hc].
  fold c. change (mkAckMessage u _ _ c (id_ p)) with (ack_for u m s). rewrite Hi, SendAckMsg_spec.
  rewrite Hi in Hwf'. split_and!; [done|by apply set_insert_perm|done].
Qed.

Lemma SeqMsg_dispatch e e' u sendto p m :
  SeqMessage_u32 m -> sm_sender m < process_count p ->
  sm_final_seq_proposer m < process_count p ->
  let pkt := SeqMsgToBuf e m in
  OnReceive e' u sendto p (recv_buf pkt) (recv_len pkt) =
  HandleSeqMsg e' u sendto p (recv_buf pkt) (recv_len pkt) /\
  SeqMsgFromBuf e' (recv_buf pkt) (recv_len pkt) = Some (stamp_seq m) /\
  ValidSeqMsg (stamp_seq m) (process_count p) = true.
Proof.
  intros Hm Hs Hp pkt. pose proof (length_SeqMsgToBuf e m) as Hl.
  fold pkt in Hl. destruct (recv_buf_short pkt) as [Hb Hn].
  { rewrite Hl. unfold sizeof_SeqMessage, BUFSIZE. lia. }
  rewrite Hb, Hn, Hl. split_and!.
  - unfold OnReceive, pkt, SeqMsgToBuf. rewrite <- app_assoc.
    rewrite MessageType_tag; [done|done|unfold sizeof_SeqMessage; lia].
  - by apply SeqMsg_roundtrip.
  - by apply ValidSeqMsg_spec.
Qed.

(** A sequence message forwards the counter, is acknowledged, and then finalises its
    message in the queue. *)
Lemma OnReceive_seq e e' u p m :
  SeqMessage_u32 m -> sm_sender m < process_count p ->
  sm_final_seq_proposer m < process_count p ->
  let pkt := SeqMsgToBuf e m in
  let r := SetDeliverable u (hold_back_queue_ p) m in
  OnReceive e' u None p (recv_buf pkt) (recv_len pkt) =
  (set_queue (ForwardSeqNum p (sm_final_seq m)) r.1,
   seq_log m :: AReply (SeqAckMsgToBuf e' (mkSeqAckMessage u (sm_sender m) (sm_msg_id m)))
     :: SetDeliverable_log (hold_back_queue_ p) (stamp_seq m) ++ (ADeliver <$> r.2), None).
Proof.
  intros Hm Hs Hp pkt r. destruct (SeqMsg_dispatch e e' u None p m Hm Hs Hp) as (Hon & Hd & Hv).
  fold pkt in Hon, Hd. rewrite Hon. unfold HandleSeqMsg. rewrite Hd, Hv. simpl.
  destruct (ForwardSeqNum_other p (sm_final_seq m)) as (-> & _ & _).
  change (SetDeliverable u (hold_back_queue_ p) (stamp_seq m)) with r.
  by destruct r.
Qed.

(** When the acknowledgement cannot be sent, only the counter has moved. *)
Lemma OnReceive_seq_fail e e' u errno p m :
  SeqMessage_u32 m -> sm_sender m < process_count p ->
  sm_final_seq_proposer m < process_count p ->
  let pkt := SeqMsgToBuf e m in
  OnReceive e' u (Some errno) p (recv_buf pkt) (recv_len pkt) =
  (ForwardSeqNum p (sm_final_seq m), [seq_log m], Some (SendException errno)).
Proof.
  intros Hm Hs Hp pkt.
  destruct (SeqMsg_dispatch e e' u (Some errno) p m Hm Hs Hp) as (Hon & Hd & Hv).
  fold pkt in Hon, Hd. rewrite Hon. unfold HandleSeqMsg. by rewrite Hd, Hv.
Qed.

(** A datagram that is not a message of the algorithm: too short, of another type or size, or
    naming an unknown process. *)
Definition is_noise (e : endian) (p : Process) (buf : list Z) (n : nat) : bool :=
  match MessageTypeFromBuf e buf n with
  | None => true
  | Some data_type =>
      if data_type =? kDataMessageType then
        match DataMsgFromBuf e buf n with
        | None => true
        | Some m => negb (ValidDataMsg m (process_count p))
        end
      else if data_type =? kSeqMessageType then
        match SeqMsgFromBuf e buf n with
        | None => true
        | Some m => negb (ValidSeqMsg m (process_count p))
        end
      else true
  end.

(** It is logged at most. *)
Lemma OnReceive_noise e u sendto p buf n :
  is_noise e p buf n = true ->
  exists logs, OnReceive e u sendto p buf n = (p, ALog <$> logs, None).
Proof.
  unfold is_noise, OnReceive. destruct (MessageTypeFromBuf e buf n) as [ty|].
  2: { intros _. by eexists [_]. }
  destruct (ty =? kDataMessageType); [|destruct (ty =? kSeqMessageType)].
  - unfold HandleDataMsg. destruct (DataMsgFromBuf e buf n); [|by exists []].
    intros ->. by exists [].
  - unfold HandleSeqMsg. destruct (SeqMsgFromBuf e buf n); [|by exists []].
    intros ->. by exists [].
  - intros _. destruct (_ || _); by eexists [_].
Qed.
