(* ===== verification/Mutex.v ===== *)
(** * The mutex of a client

    [sockfd_mutex_] of [udp::Client] (src/src/udp_conn.h) is a [std::recursive_mutex];
    [Client::Send] and [Client::SendWithAck] (src/src/udp_conn.cc) each hold it with a
    [std::lock_guard], and the second calls the first.  Here both run with the mutex as
    state. *)

From Stdlib Require Import ZArith Lia.
From stdpp Require Import base list.
From S2P Require Import Prelude Exceptions Udp.

Open Scope Z_scope.

(** ** Mutexes *)

(** The thread that owns the mutex, and how often it has locked it. *)
Record mutex := mkMutex { mx_owner : option nat; mx_count : nat }.

Definition free_mutex : mutex := mkMutex None 0.

(** What a thread that calls [lock] meets: the mutex is its own now, or it waits.  A mutex of
    another kind is a different [lock]. *)
Definition lock_fn : Type := nat -> mutex -> option mutex.

(** [std::recursive_mutex::lock]. *)
Definition recursive_lock : lock_fn := fun t m =>
  match mx_owner m with
  | None => Some (mkMutex (Some t) 1)
  | Some u => if decide (u = t) then Some (mkMutex (Some t) (S (mx_count m))) else None
  end.

(** [std::mutex::lock], which waits for the owner also when that is the thread itself. *)
Definition plain_lock : lock_fn := fun t m =>
  match mx_owner m with
  | None => Some (mkMutex (Some t) 1)
  | Some _ => None
  end.

Definition unlock (m : mutex) : mutex :=
  match mx_count m with
  | S (S n) => mkMutex (mx_owner m) (S n)
  | _ => free_mutex
  end.

(** ** [Send] and [SendWithAck] *)

Section Client.
Context (lock : lock_fn) (t : nat).

(** [None] when the thread waits for the mutex for ever. *)
Definition Send_locked (m : mutex) (sendto_errno : option Z) : option (option exn * mutex) :=
  match lock t m with
  | None => None
  | Some m1 => Some (Send sendto_errno, unlock m1)
  end.

Context {St : Type} (validAck : St -> list Z -> nat -> St * ServerAction).

(** What the loop comes to: the run, and the mutex as the loop leaves it; or the run up to a
    call of [Send] that waits for the mutex. *)
Inductive locked_run :=
| Ran (r : swa_run (St := St)) (m : mutex)
| Deadlocked (sent : nat).

Definition sendto_error (a : net_answer) : option Z :=
  match a with SendFails errno => Some errno | Answer _ => None end.

Fixpoint swa_loop_locked (m : mutex) (noLimit : bool) (attempts backoff_mult : Z) (st : St)
    (sent : nat) (waits : list Z) (answers : list net_answer) : locked_run :=
  if negb (noLimit || (0 <? attempts)) then Ran (mkSwaRun st sent waits Returned) m
  else
    match answers with
    | [] => Ran (mkSwaRun st sent waits Waiting) m
    | a :: answers' =>
        match Send_locked m (sendto_error a) with
        | None => Deadlocked sent
        | Some (Some ex, m1) => Ran (mkSwaRun st sent waits (Threw ex)) m1
        | Some (None, m1) =>
            match a with
            | SendFails _ => Deadlocked sent
            | Answer r =>
                match swa_on_recv validAck backoff_mult st r with
                | SwaReturn st' => Ran (mkSwaRun st' (S sent) waits Returned) m1
                | SwaThrow e => Ran (mkSwaRun st (S sent) waits (Threw e)) m1
                | SwaAgain b st' =>
                    let waits' :=
                      match r with
                      | RecvError _ => waits ++ [backoff_mult]
                      | RecvPacket _ => waits
                      end in
                    swa_loop_locked m1 noLimit (u32 (attempts - 1)) b st' (S sent) waits' answers'
                end
            end
        end
    end.

(** The guard of [SendWithAck] is released when the call returns or throws. *)
Definition SendWithAck_locked (m : mutex) (attempts : Z) (st : St) (answers : list net_answer)
  : locked_run :=
  match lock t m with
  | None => Deadlocked 0
  | Some m1 =>
      match swa_loop_locked m1 (attempts =? kUnlimitedAttempts) attempts 1 st 0 [] answers with
      | Ran r m2 =>
          Ran r (match run_outcome r with Waiting => m2 | _ => unlock m2 end)
      | d => d
      end
  end.

End Client.

(** ** Lemmas *)

(** The mutex in the hands of a thread. *)
Definition held_by (t : nat) (m : mutex) : Prop :=
  mx_owner m = Some t /\ (0 < mx_count m)%nat.

Lemma recursive_lock_held t m :
  held_by t m -> exists m1, recursive_lock t m = Some m1 /\ held_by t m1 /\ unlock m1 = m.
Proof.
  destruct m as [o n]. intros [Ho Hn]. simpl in *. subst o. unfold recursive_lock. simpl.
  rewrite decide_True by done. eexists. split_and!; [done|split; simpl; [done|lia]|].
  destruct n; [lia|done].
Qed.

Lemma recursive_lock_other t u m : held_by t m -> u <> t -> recursive_lock u m = None.
Proof.
  intros [Ho _] Hne. unfold recursive_lock. rewrite Ho. by rewrite decide_False.
Qed.

Section Runs.
Context (t : nat) {St : Type} (validAck : St -> list Z -> nat -> St * ServerAction).

(** The loop, inside the guard, runs as it does without the mutex, and leaves it as it was. *)
Lemma swa_loop_locked_same m noLimit attempts b st sent waits answers :
  held_by t m ->
  swa_loop_locked recursive_lock t validAck m noLimit attempts b st sent waits answers =
  Ran (swa_loop validAck noLimit attempts b st sent waits answers) m.
Proof.
  intros Hm. revert attempts b st sent waits.
  destruct (recursive_lock_held t m Hm) as (m1 & Hl & _ & Hu).
  induction answers as [|[errno|r] answers IH]; intros attempts b st sent waits; simpl.
  - by destruct (negb _).
  - destruct (negb _); [done|]. unfold Send_locked. by rewrite Hl, Hu.
  - destruct (negb _); [done|]. unfold Send_locked. rewrite Hl, Hu. simpl.
    by destruct (swa_on_recv validAck b st r).
Qed.

Lemma SendWithAck_locked_same m attempts st answers :
  m = free_mutex \/ held_by t m ->
  exists m', recursive_lock t m = Some m' /\ held_by t m' /\
    SendWithAck_locked recursive_lock t validAck m attempts st answers =
    Ran (SendWithAck validAck attempts st answers)
      (match run_outcome (SendWithAck validAck attempts st answers) with
       | Waiting => m'
       | _ => m
       end).
Proof.
  intros Hm. assert (exists m', recursive_lock t m = Some m' /\ held_by t m' /\ unlock m' = m)
    as (m' & Hl & Hh & Hu).
  { destruct Hm as [->|Hm]; [|by apply recursive_lock_held].
    exists (mkMutex (Some t) 1). split_and!; [done|split; simpl; [done|lia]|done]. }
  exists m'. split_and!; [done..|]. unfold SendWithAck_locked. rewrite Hl.
  rewrite swa_loop_locked_same by done. rewrite Hu. done.
Qed.

End Runs.

(** C24: the recursive mutex.  A thread that finds the mutex of a client free, or holds it
    already, runs [SendWithAck] to the same end as if there were none, with the nested locking
    by [Send]; it leaves the mutex as it found it when the call returns or throws, and
    while it waits for an acknowledgement no other thread gets the mutex.  With a mutex that
    is not recursive the first [Send] would wait for its own caller for ever. *)
Theorem SendWithAck_locks t {St} (validAck : St -> list Z -> nat -> St * ServerAction)
    m attempts st answers :
  m = free_mutex \/ held_by t m ->
  let r := SendWithAck validAck attempts st answers in
  (exists m', SendWithAck_locked recursive_lock t validAck m attempts st answers = Ran r m' /\
     match run_outcome r with
     | Waiting => forall u, u <> t -> recursive_lock u m' = None
     | _ => m' = m
     end) /\
  (m = free_mutex -> is_u32 attempts -> answers <> [] ->
   SendWithAck_locked plain_lock t validAck m attempts st answers = Deadlocked 0).
Proof.
  intros Hm r. split.
  - destruct (SendWithAck_locked_same t validAck m attempts st answers Hm) as (m' & _ & Hh & ->).
    eexists. split; [done|]. fold r. destruct (run_outcome r); try done.
    intros u Hu. by apply recursive_lock_other with (t := t).
  - intros -> [Hpos _] Ha. destruct answers as [|a answers]; [done|].
    unfold SendWithAck_locked. simpl.
    assert ((attempts =? kUnlimitedAttempts) || (0 <? attempts) = true) as ->; [|done].
    apply orb_true_iff. unfold kUnlimitedAttempts. rewrite Z.eqb_eq, Z.ltb_lt. lia.
Qed.

(** One answer that is not the acknowledgement, and then none: the thread waits, and holds the
    mutex. *)
Lemma SendWithAck_locks_witness :
  let v (st : nat) (_ : list Z) (_ : nat) := (S st, Continue) in
  SendWithAck_locked recursive_lock 4 v free_mutex 0 0%nat [Answer (RecvPacket [1])] =
    Ran (SendWithAck v 0 0%nat [Answer (RecvPacket [1])]) (mkMutex (Some 4%nat) 1) /\
  SendWithAck_locked plain_lock 4 v free_mutex 0 0%nat [Answer (RecvPacket [1])] = Deadlocked 0.
Proof.
  intros v. split; [vm_compute; reflexivity|].
  refine (proj2 (SendWithAck_locks 4 v free_mutex 0 0%nat [Answer (RecvPacket [1])]
    (or_introl eq_refl)) eq_refl _ _); [|done].
  unfold is_u32, u32_modulus. lia.
Defined.
