(* ===== verification/Random.v ===== *)
(** * Random draws

    [RandomUint32], [UniqueID] and [RandomData] (src/src/process.cc): a thread seeds its own
    engine with five values of the random device the first time it draws, and keeps the
    engine for the draws that follow.  Which engine [std::default_random_engine] is, is up to
    the library; what the code relies on is the interface below. *)

From Stdlib Require Import ZArith Lia.
From stdpp Require Import base list.
From S2P Require Import Prelude Wire.

Open Scope Z_scope.

(** A random engine with [std::seed_seq] and [std::uniform_int_distribution]: a draw
    is in the closed interval asked for. *)
Class RandomEngine (E : Type) := {
  engine_seed : list Z -> E;
  engine_uniform : E -> Z -> Z -> Z * E;
  engine_range e a b : a <= b -> a <= (engine_uniform e a b).1 <= b
}.

(** The [static thread_local] variables of [RandomUint32]: not yet initialised, or the
    engine. *)
Record thread_locals {E : Type} := mkThreadLocals { tl_random_engine : option E }.
Arguments thread_locals : clear implicits.
Arguments mkThreadLocals {E}.

Section Random.
Context `{RandomEngine E}.

(** The initialisation at the first call; [r] are the values of the random device. *)
Definition random_engine (r : nat -> Z) (tl : thread_locals E) : E :=
  match tl_random_engine tl with
  | Some e => e
  | None => engine_seed [r 0%nat; r 1%nat; r 2%nat; r 3%nat; r 4%nat]
  end.

Definition RandomUint32 (r : nat -> Z) (tl : thread_locals E) : Z * thread_locals E :=
  let '(v, e) := engine_uniform (random_engine r tl) 0 UINT32_MAX in
  (v, mkThreadLocals (Some e)).

Definition UniqueID (r : nat -> Z) (tl : thread_locals E) : Z * thread_locals E :=
  RandomUint32 r tl.
Definition RandomData (r : nat -> Z) (tl : thread_locals E) : Z * thread_locals E :=
  RandomUint32 r tl.

(** What a new multicast thread draws: the message id, then the data. *)
Definition message_draws (r : nat -> Z) : Z * Z :=
  let '(msg_id, tl) := UniqueID r (mkThreadLocals None) in
  let '(data, _) := RandomData r tl in
  (msg_id, data).

(** ** Lemmas *)

Lemma RandomUint32_u32 r tl : is_u32 (RandomUint32 r tl).1.
Proof.
  unfold RandomUint32.
  pose proof (engine_range (random_engine r tl) 0 UINT32_MAX ltac:(done)) as Hr.
  destruct (engine_uniform _ _ _) as [v e]. unfold is_u32, u32_modulus, UINT32_MAX in *.
  simpl in *. lia.
Qed.

(** The engine is seeded once: later draws do not depend on the device. *)
Lemma RandomUint32_seeded_once r r' r'' tl :
  RandomUint32 r' (RandomUint32 r tl).2 = RandomUint32 r'' (RandomUint32 r tl).2.
Proof. unfold RandomUint32 at 2 4. by destruct (engine_uniform _ _ _) as [v e]. Qed.

Lemma message_draws_u32 r : is_u32 (message_draws r).1 /\ is_u32 (message_draws r).2.
Proof.
  unfold message_draws, UniqueID, RandomData.
  pose proof (RandomUint32_u32 r (mkThreadLocals None)) as H1.
  destruct (RandomUint32 r (mkThreadLocals None)) as [v tl].
  pose proof (RandomUint32_u32 r tl) as H2. by destruct (RandomUint32 r tl).
Qed.

End Random.

(** An engine of the kind: the linear congruential generator [minstd_rand0], two steps for a
    draw. *)
Definition minstd_next (x : Z) : Z := (16807 * x) mod 2147483647.

Definition minstd_uniform (x a b : Z) : Z * Z :=
  let y := minstd_next x in
  let z := minstd_next y in
  (a + (y * 2147483646 + z) mod (b - a + 1), z).

Lemma minstd_range x a b : a <= b -> a <= (minstd_uniform x a b).1 <= b.
Proof.
  intros Hab. unfold minstd_uniform. simpl.
  pose proof (Z.mod_pos_bound (minstd_next x * 2147483646 + minstd_next (minstd_next x))
    (b - a + 1) ltac:(lia)). lia.
Qed.

#[export] Instance minstd_engine : RandomEngine Z := {
  engine_seed l := 1 + fold_left (fun acc v => (acc * 31 + v) mod 2147483646) l 0;
  engine_uniform := minstd_uniform;
  engine_range := minstd_range
}.
