(* ===== verification/Sender.v ===== *)
(** * Multicast sender threads

    The thread that [Process::LaunchMulticastSender] starts (src/src/process.cc), as a
    state machine: it exchanges the data message with every process in turn,
    chooses the final sequence number, and exchanges the sequence message with
    every process in turn.  An exchange is a call of [Client::SendWithAck]
    with unlimited attempts; its iterations are the transitions between [Sending] and
    [Waiting], built from the same [swa_on_recv] as [Udp.SendWithAck].  Before an exchange
    the thread takes the mutex of the client, and it keeps it until the exchange
    ends. *)

From Stdlib Require Import ZArith Lia.
From stdpp Require Import base list.
From S2P Require Import Prelude Exceptions Wire Udp HoldBack Process.

Open Scope Z_scope.

(** Which of the two loops over the processes the thread is in. *)
Inductive job :=
| JData (seqs : list Z)
| JSeq (seq_msg : SeqMessage).

(** Where the thread is in the exchange with the current process. *)
Inductive conn :=
| Unlocked
| Sending (backoff_mult : Z)
| WaitingAck (backoff_mult : Z).

#[export] Instance conn_eq_dec : EqDecision conn.
Proof. solve_decision. Defined.

Record thread := mkThread {
  t_proc : nat;          (* the process the thread belongs to *)
  t_msg : DataMessage;
  t_job : job;
  t_peer : nat;          (* the loop variable pid *)
  t_conn : conn
}.

(** The start of the thread: [count] is the number of processes, [msg_id] and [data] are
    the random draws. *)
Definition launch (count id : nat) (uninit msg_id data : Z) : thread :=
  mkThread id (mkDataMessage uninit (Z.of_nat id) msg_id data)
    (JData (replicate count 0)) 0 Unlocked.

Definition set_conn (th : thread) (c : conn) : thread :=
  mkThread (t_proc th) (t_msg th) (t_job th) (t_peer th) c.

(** The datagram of the current exchange. *)
Definition thread_packet (e : endian) (th : thread) : list Z :=
  match t_job th with
  | JData _ => DataMsgToBuf e (t_msg th)
  | JSeq seq_msg => SeqMsgToBuf e seq_msg
  end.

(** The thread after [recvfrom] answered; an exception ends the process. *)
Definition thread_recv (e : endian) (th : thread) (r : recv_result)
  : result exn thread :=
  match t_conn th with
  | WaitingAck b =>
      match t_job th with
      | JData seqs =>
          match swa_on_recv
                  (handle_ack e (dm_sender (t_msg th)) (dm_msg_id (t_msg th))
                     (t_peer th)) b seqs r with
          | SwaAgain b' seqs' =>
              Ok (mkThread (t_proc th) (t_msg th) (JData seqs') (t_peer th)
                    (Sending b'))
          | SwaReturn seqs' =>
              Ok (mkThread (t_proc th) (t_msg th) (JData seqs') (S (t_peer th))
                    Unlocked)
          | SwaThrow ex => Throw ex
          end
      | JSeq seq_msg =>
          match swa_on_recv (isValidAck e seq_msg) b tt r with
          | SwaAgain b' _ => Ok (set_conn th (Sending b'))
          | SwaReturn _ =>
              Ok (mkThread (t_proc th) (t_msg th) (JSeq seq_msg) (S (t_peer th))
                    Unlocked)
          | SwaThrow ex => Throw ex
          end
      end
  | _ => Ok th
  end.

(** A datagram that the callback of the current exchange does not accept. *)
Definition stray (e : endian) (th : thread) (pkt : list Z) : bool :=
  match t_job th with
  | JData _ =>
      match ack_proposal e (dm_sender (t_msg th)) (dm_msg_id (t_msg th)) (t_peer th)
              (recv_buf pkt) (recv_len pkt) with
      | None => true
      | Some _ => false
      end
  | JSeq seq_msg =>
      match is_seqack e seq_msg (recv_buf pkt) (recv_len pkt) with
      | None => true
      | Some _ => false
      end
  end.

(** It makes the thread send again. *)
Lemma thread_recv_stray e th b pkt :
  t_conn th = WaitingAck b -> stray e th pkt = true ->
  thread_recv e th (RecvPacket pkt) = Ok (set_conn th (Sending b)).
Proof.
  unfold stray, thread_recv. intros ->. destruct th as [p m [seqs|sm] k cn]; simpl.
  - rewrite handle_ack_dec. by destruct (ack_proposal _ _ _ _ _ _).
  - rewrite isValidAck_dec. by destruct (is_seqack _ _ _ _).
Qed.

(** Between the two loops: the sequence message is made from the proposals. *)
Definition thread_finish (uninit : Z) (th : thread) : thread :=
  match t_job th with
  | JData seqs =>
      let '(f, fp) := select_final seqs in
      mkThread (t_proc th) (t_msg th)
        (JSeq (mkSeqMessage uninit (dm_sender (t_msg th)) (dm_msg_id (t_msg th)) f fp))
        0 Unlocked
  | JSeq _ => th
  end.

(** A step of the thread that the code takes by itself or on an answer of the network;
    [count] is the number of processes. *)
Inductive thread_move (e : endian) (count : nat) (th : thread) : thread -> Prop :=
| move_lock :
    t_conn th = Unlocked -> (t_peer th < count)%nat ->
    thread_move e count th (set_conn th (Sending 1))
| move_sent b :
    t_conn th = Sending b -> thread_move e count th (set_conn th (WaitingAck b))
| move_recv b r th' :
    t_conn th = WaitingAck b -> thread_recv e th r = Ok th' -> thread_move e count th th'
| move_finish seqs u :
    t_job th = JData seqs -> t_conn th = Unlocked -> t_peer th = count ->
    thread_move e count th (thread_finish u th).

(** ** Lemmas on the acknowledgement callbacks *)

Section Callbacks.
Context (e e' : endian).

Lemma handle_ack_ack id msg_id pid seqs a :
  AckMessage_u32 a ->
  let pkt := AckMsgToBuf e' a in
  handle_ack e id msg_id pid seqs (recv_buf pkt) (recv_len pkt) =
  if ValidAckMsg (stamp_ack a) id msg_id (Z.of_nat pid)
  then (<[pid := am_proposed_seq a]> seqs, Stop) else (seqs, Continue).
Proof.
  intros Ha pkt. pose proof (length_AckMsgToBuf e' a) as Hl. fold pkt in Hl.
  destruct (recv_buf_short pkt) as [Hb Hn].
  { rewrite Hl. unfold sizeof_AckMessage, BUFSIZE. lia. }
  unfold handle_ack. rewrite Hb, Hn, Hl. unfold pkt. rewrite AckMsg_roundtrip by done.
  by destruct (ValidAckMsg _ _ _ _).
Qed.

Lemma handle_ack_other id msg_id pid seqs pkt :
  (length pkt < sizeof_AckMessage)%nat ->
  handle_ack e id msg_id pid seqs (recv_buf pkt) (recv_len pkt) = (seqs, Continue).
Proof.
  intros Hl. unfold handle_ack, AckMsgFromBuf.
  assert (recv_len pkt <> sizeof_AckMessage) as Hn.
  { unfold recv_len. rewrite length_take. lia. }
  apply Nat.eqb_neq in Hn. by rewrite Hn.
Qed.

Lemma isValidAck_seqack m a :
  SeqAckMessage_u32 a ->
  let pkt := SeqAckMsgToBuf e' a in
  isValidAck e m tt (recv_buf pkt) (recv_len pkt) =
  (tt, if ValidSeqAckMsg (stamp_seqack a) m then Stop else Continue).
Proof.
  intros Ha pkt. pose proof (length_SeqAckMsgToBuf e' a) as Hl. fold pkt in Hl.
  destruct (recv_buf_short pkt) as [Hb Hn].
  { rewrite Hl. unfold sizeof_SeqAckMessage, BUFSIZE. lia. }
  unfold isValidAck. rewrite Hb, Hn, Hl. unfold pkt. rewrite SeqAckMsg_roundtrip by done.
  by destruct (ValidSeqAckMsg _ _).
Qed.

Lemma isValidAck_other m pkt :
  (sizeof_SeqAckMessage < length pkt)%nat ->
  isValidAck e m tt (recv_buf pkt) (recv_len pkt) = (tt, Continue).
Proof.
  intros Hl. unfold isValidAck, SeqAckMsgFromBuf.
  assert (recv_len pkt <> sizeof_SeqAckMessage) as Hn.
  { unfold recv_len. rewrite length_take. unfold sizeof_SeqAckMessage, BUFSIZE in *. lia. }
  apply Nat.eqb_neq in Hn. by rewrite Hn.
Qed.

End Callbacks.
