(* ===== verification/Multicast.v ===== *)
(** * The body of a multicast thread

    [Process::LaunchMulticastSender] (src/src/process.cc) as the function of the answers of
    the network that its sequential code is: two loops over the processes, each
    iteration a blocking exchange, and the choice of the final number between them.  The
    state machine of [Sender] is related to it: [code_at] says that the sequential code, on
    given answers, gets where the machine is, and it is kept by the moves of the machine.

    [MaybeDelaySend], called before each loop, only sleeps. *)

From Stdlib Require Import ZArith Lia.
From stdpp Require Import functions base list gmap.
From S2P Require Import Prelude Exceptions Wire StdSet HoldBack Net Udp Process Sender.

Open Scope Z_scope.

(** How the code of the thread stands on finite answers. *)
Inductive sender_outcome :=
| SenderDone
| SenderThrew (ex : exn)
| SenderWaiting.

(** ** The loops *)

(** A run of one of the loops: the state of the callbacks, the loop variable, the
    datagrams sent (with the process each went to), and how it stands. *)
Record loop_run {St : Type} := mkLoop {
  lr_state : St;
  lr_peer : nat;
  lr_sent : list (nat * list Z);
  lr_outcome : sender_outcome
}.
Arguments loop_run : clear implicits.

Section Loop.
Context {C St : Type} (clients : gmap Address C) (processes : list Address).
Context (exchange : nat -> St -> list net_answer -> list Z * swa_run (St := St)).
Context (answers : nat -> list net_answer).

(** [n] iterations from process [pid] on. *)
Fixpoint pid_loop (n pid : nat) (st : St) : loop_run St :=
  match n with
  | O => mkLoop _ st pid [] SenderDone
  | S n' =>
      match ClientForId clients processes pid with
      | Throw ex => mkLoop _ st pid [] (SenderThrew ex)
      | Ok _ =>
          let '(pkt, run) := exchange pid st (answers pid) in
          let sent := replicate (run_sent run) (pid, pkt) in
          match run_outcome run with
          | Returned =>
              let r := pid_loop n' (S pid) (run_state run) in
              mkLoop _ (lr_state r) (lr_peer r) (sent ++ lr_sent r) (lr_outcome r)
          | Threw ex => mkLoop _ (run_state run) pid sent (SenderThrew ex)
          | Waiting => mkLoop _ (run_state run) pid sent SenderWaiting
          end
      end
  end.

End Loop.

(** ** The thread *)

(** Where the thread is (which loop, which process), what it has sent, how it stands. *)
Record sender_run := mkSenderRun {
  sr_job : job;
  sr_peer : nat;
  sr_sent : list (nat * list Z);
  sr_outcome : sender_outcome
}.

(** [LaunchMulticastSender]: [msg_id] and [data] are the random draws, [uninit] and
    [uninit'] the type fields the code does not set, [data_answers] and [seq_answers] what
    the network answers to the exchanges of the first and of the second loop. *)
Definition LaunchMulticastSender {C} (e : endian) (clients : gmap Address C)
    (processes : list Address) (id uninit uninit' msg_id data : Z)
    (data_answers seq_answers : nat -> list net_answer) : sender_run :=
  let count := length processes in
  let data_msg := mkDataMessage uninit id msg_id data in
  let r1 := pid_loop clients processes (fun pid => SendDataMsg e id pid data_msg)
              data_answers count 0 (replicate count 0) in
  match lr_outcome r1 with
  | SenderDone =>
      let '(final_seq, final_seq_proposer) := select_final (lr_state r1) in
      let seq_msg := mkSeqMessage uninit' id msg_id final_seq final_seq_proposer in
      let r2 := pid_loop clients processes (fun _ _ => SendSeqMsg e seq_msg)
                  seq_answers count 0 tt in
      mkSenderRun (JSeq seq_msg) (lr_peer r2) (lr_sent r1 ++ lr_sent r2) (lr_outcome r2)
  | o => mkSenderRun (JData (lr_state r1)) (lr_peer r1) (lr_sent r1) o
  end.

(** ** Exchanges in progress *)

Section Exchange.
Context {St : Type} (v : St -> list Z -> nat -> St * ServerAction).

(** After [answers] the exchange that started in [st0] goes on with back-off [b] and
    state [st]; it has sent [sent] datagrams that were answered. *)
Definition swa_at (st0 : St) (answers : list net_answer) (b : Z) (st : St) (sent : nat) : Prop :=
  exists waits, forall more,
    SendWithAck v kUnlimitedAttempts st0 (answers ++ more) =
    swa_loop v true 0 b st sent waits more.

Lemma swa_at_start st0 : swa_at st0 [] 1 st0 0.
Proof. exists []. intros more. apply swa_loop_unlimited_counter. Qed.

Lemma swa_at_again st0 answers b st sent r b' st' :
  swa_at st0 answers b st sent -> swa_on_recv v b st r = SwaAgain b' st' ->
  swa_at st0 (answers ++ [Answer r]) b' st' (S sent).
Proof.
  intros (waits & H) Hr. eexists. intros more.
  rewrite <- app_assoc, H. simpl. rewrite Hr. apply swa_loop_unlimited_counter.
Qed.

Lemma swa_at_waiting st0 answers b st sent :
  swa_at st0 answers b st sent ->
  let run := SendWithAck v kUnlimitedAttempts st0 answers in
  run_outcome run = Waiting /\ run_state run = st /\ run_sent run = sent.
Proof. intros (waits & H). specialize (H []). rewrite app_nil_r in H. by rewrite H. Qed.

Lemma swa_at_return st0 answers b st sent r st' :
  swa_at st0 answers b st sent -> swa_on_recv v b st r = SwaReturn st' ->
  let run := SendWithAck v kUnlimitedAttempts st0 (answers ++ [Answer r]) in
  run_outcome run = Returned /\ run_state run = st' /\ run_sent run = S sent.
Proof. intros (waits & H) Hr. rewrite H. simpl. by rewrite Hr. Qed.

(** The same, with the position of the thread in the exchange. *)
Definition conn_at (st0 : St) (answers : list net_answer) (cn : conn) (st : St) (sent : nat)
  : Prop :=
  match cn with
  | Unlocked => answers = [] /\ st = st0 /\ sent = 0%nat
  | Sending b | WaitingAck b => swa_at st0 answers b st sent
  end.

Lemma conn_at_waiting st0 answers cn st sent :
  conn_at st0 answers cn st sent ->
  let run := SendWithAck v kUnlimitedAttempts st0 answers in
  run_outcome run = Waiting /\ run_state run = st /\ run_sent run = sent.
Proof. destruct cn; [intros (-> & -> & ->); done|apply swa_at_waiting..]. Qed.

(** An answer that ends an exchange with an exception. *)
Definition breaks (cn : conn) (st : St) (a : net_answer) (ex : exn) : Prop :=
  match cn, a with
  | Sending _, SendFails errno => ex = SendException errno
  | WaitingAck b, Answer r => swa_on_recv v b st r = SwaThrow ex
  | _, _ => False
  end.

Lemma conn_at_breaks st0 answers cn st sent a ex :
  conn_at st0 answers cn st sent -> breaks cn st a ex ->
  let run := SendWithAck v kUnlimitedAttempts st0 (answers ++ [a]) in
  run_outcome run = Threw ex /\ run_state run = st.
Proof.
  destruct cn as [|b|b], a as [errno|r]; simpl; try done; intros (waits & H) Hb; rewrite H.
  - by subst.
  - simpl. by rewrite Hb.
Qed.

End Exchange.

(** ** Loops in progress *)

Section LoopFacts.
Context {C St : Type} (clients : gmap Address C) (processes : list Address).
Context (exchange : nat -> St -> list net_answer -> list Z * swa_run (St := St)) (st0 : St).

(** The loop has come to process [k], with state [st], and has sent [sent]. *)
Inductive loop_at (answers : nat -> list net_answer) : nat -> St -> list (nat * list Z) -> Prop :=
| loop_at_start : loop_at answers 0 st0 []
| loop_at_next k st sent :
    loop_at answers k st sent ->
    run_outcome (exchange k st (answers k)).2 = Returned ->
    loop_at answers (S k) (run_state (exchange k st (answers k)).2)
      (sent ++ replicate (run_sent (exchange k st (answers k)).2) (k, (exchange k st (answers k)).1)).

Lemma loop_at_ext answers answers' k st sent :
  (forall j, (j < k)%nat -> answers' j = answers j) ->
  loop_at answers k st sent -> loop_at answers' k st sent.
Proof.
  intros Heq Hl. revert Heq. induction Hl as [|k st sent Hl IH Hr]; intros Heq; [constructor|].
  rewrite <- (Heq k) in Hr |- * by lia. constructor; [|done]. apply IH. intros j Hj.
  apply Heq. lia.
Qed.

Context (answers : nat -> list net_answer).
Hypothesis Hclients : forall k, (k < length processes)%nat ->
  exists cl, ClientForId clients processes k = Ok cl.

Notation run := (pid_loop clients processes exchange answers (length processes) 0 st0).

Lemma loop_at_run k st sent :
  loop_at answers k st sent -> (k <= length processes)%nat ->
  let r := pid_loop clients processes exchange answers (length processes - k) k st in
  run = mkLoop _ (lr_state r) (lr_peer r) (sent ++ lr_sent r) (lr_outcome r).
Proof.
  induction 1 as [|k st sent Hl IH Hr]; intros Hk.
  { rewrite Nat.sub_0_r. by destruct run. }
  specialize (IH ltac:(lia)). destruct (Hclients k) as [cl Hcl]; [lia|].
  simpl in IH. replace (length processes - k)%nat with (S (length processes - S k)) in IH by lia.
  simpl in IH. rewrite Hcl in IH. destruct (exchange k st (answers k)) as [pkt ru].
  simpl in *. rewrite Hr in IH. simpl in IH. by rewrite app_assoc in IH.
Qed.

(** The exchange with process [k] has not returned. *)
Lemma loop_at_stops k st sent o :
  loop_at answers k st sent -> (k < length processes)%nat ->
  let x := exchange k st (answers k) in
  match run_outcome x.2 with
  | Waiting => o = SenderWaiting
  | Threw ex => o = SenderThrew ex
  | Returned => False
  end ->
  lr_outcome run = o /\ lr_peer run = k /\ lr_state run = run_state x.2 /\
  lr_sent run = sent ++ replicate (run_sent x.2) (k, x.1).
Proof.
  intros Hl Hk x Hw. rewrite (loop_at_run k st sent Hl) by lia.
  destruct (Hclients k Hk) as [cl Hcl].
  replace (length processes - k)%nat with (S (length processes - S k)) by lia. simpl.
  rewrite Hcl. unfold x in *. destruct (exchange k st (answers k)) as [pkt ru]. simpl in *.
  destruct (run_outcome ru); [done|by subst..].
Qed.

Lemma loop_at_done st sent :
  loop_at answers (length processes) st sent ->
  lr_outcome run = SenderDone /\ lr_peer run = length processes /\ lr_state run = st /\
  lr_sent run = sent.
Proof.
  intros Hl. rewrite (loop_at_run _ st sent Hl) by lia.
  rewrite Nat.sub_diag. simpl. by rewrite app_nil_r.
Qed.

End LoopFacts.

(** ** The state machine runs the code *)

Section Refinement.
Context {C : Type} (e : endian) (clients : gmap Address C) (processes : list Address).
Context (proc : nat) (uninit msg_id data : Z).
Hypothesis Hclients : forall k, (k < length processes)%nat ->
  exists cl, ClientForId clients processes k = Ok cl.

Notation count := (length processes).
Notation id := (Z.of_nat proc).
Notation data_msg := (mkDataMessage uninit id msg_id data).
Notation seqs0 := (replicate count 0).
Notation data_exchange := (fun pid => SendDataMsg e id pid data_msg).
Notation seq_exchange sm := (fun (_ : nat) (_ : unit) => SendSeqMsg e sm).

(** The answers to the exchanges so far: those to the data message and those to the
    sequence message, by process. *)
Definition no_answers_from (k : nat) (answers : nat -> list net_answer) : Prop :=
  forall j, (k <= j)%nat -> answers j = [].

Definition final_msg (uninit' : Z) (seqs : list Z) : SeqMessage :=
  mkSeqMessage uninit' id msg_id (select_final seqs).1 (select_final seqs).2.

(** The sequential code is where the thread is, and has sent [sent]; a datagram that the
    thread has sent and that is not answered yet is not counted. *)
Definition code_at (uninit' : Z) (D S : nat -> list net_answer) (sent : list (nat * list Z))
    (th : thread) : Prop :=
  t_proc th = proc /\ t_msg th = data_msg /\ (t_peer th <= count)%nat /\
  (t_conn th <> Unlocked -> (t_peer th < count)%nat) /\
  match t_job th with
  | JData seqs =>
      exists seqs1 sent1 n,
        loop_at data_exchange seqs0 D (t_peer th) seqs1 sent1 /\
        conn_at (handle_ack e id msg_id (t_peer th)) seqs1 (D (t_peer th)) (t_conn th) seqs n /\
        no_answers_from (Datatypes.S (t_peer th)) D /\ no_answers_from 0 S /\
        sent = sent1 ++ replicate n (t_peer th, thread_packet e th)
  | JSeq sm =>
      exists seqs sent1 sent2 n,
        loop_at data_exchange seqs0 D count seqs sent1 /\ sm = final_msg uninit' seqs /\
        loop_at (seq_exchange sm) tt S (t_peer th) tt sent2 /\
        conn_at (isValidAck e sm) tt (S (t_peer th)) (t_conn th) tt n /\
        no_answers_from (Datatypes.S (t_peer th)) S /\
        sent = sent1 ++ sent2 ++ replicate n (t_peer th, thread_packet e th)
  end.

Lemma code_at_launch D S u :
  no_answers_from 0 D -> no_answers_from 0 S ->
  code_at u D S [] (launch count proc uninit msg_id data).
Proof.
  intros HD HS. split_and!; try done; simpl; [lia|]. exists seqs0, [], 0%nat.
  split_and!; try done; [constructor|apply HD; lia|]. intros j Hj. apply HD. lia.
Qed.

(** Before the final number is chosen it does not matter how its message is made. *)
Lemma code_at_data u u' D S sent th seqs :
  t_job th = JData seqs -> code_at u D S sent th -> code_at u' D S sent th.
Proof. unfold code_at. by intros ->. Qed.

(** Only the answers matter. *)
Lemma code_at_ext u D D' S S' sent th :
  (forall k, D' k = D k) -> (forall k, S' k = S k) ->
  code_at u D S sent th -> code_at u D' S' sent th.
Proof.
  intros HD HS (? & ? & ? & ? & Hc). split_and!; try done.
  destruct (t_job th) as [seqs|sm].
  - destruct Hc as (seqs1 & sent1 & n & Hl & Hcn & HD1 & HS1 & ->). exists seqs1, sent1, n.
    rewrite HD. split_and!; try done; [by apply (loop_at_ext _ _ D)| |];
      intros k Hk; rewrite ?HD, ?HS; auto.
  - destruct Hc as (seqs & sent1 & sent2 & n & Hl & -> & Hl2 & Hcn & HS1 & ->).
    exists seqs, sent1, sent2, n. rewrite HS.
    split_and!; try done; [by apply (loop_at_ext _ _ D)|by apply (loop_at_ext _ _ S)|].
    intros k Hk. rewrite HS. auto.
Qed.

(** [A'] has one more answer than [A], to the exchange with process [k]. *)
Definition answers_more (k : nat) (a : net_answer) (A A' : nat -> list net_answer) : Prop :=
  A' k = A k ++ [a] /\ forall j, j <> k -> A' j = A j.

Lemma answers_more_from k a A A' :
  answers_more k a A A' -> no_answers_from (Datatypes.S k) A ->
  no_answers_from (Datatypes.S k) A'.
Proof. intros [_ Hne] H j Hj. rewrite Hne by lia. by apply H. Qed.

Lemma loop_at_more {St} (exchange : nat -> St -> list net_answer -> list Z * swa_run)
    st0 A A' k a st sent :
  answers_more k a A A' -> loop_at exchange st0 A k st sent -> loop_at exchange st0 A' k st sent.
Proof. intros [_ Hne]. apply loop_at_ext. intros j Hj. apply Hne. lia. Qed.

Lemma replicate_more {X} n (x : X) l : (l ++ replicate n x) ++ [x] = l ++ replicate (Datatypes.S n) x.
Proof. by rewrite <- app_assoc, <- replicate_S_end. Qed.

(** The data loop takes an answer. *)
Lemma code_at_data_recv u D D' S sent th b r th' seqs :
  code_at u D S sent th -> t_job th = JData seqs -> t_conn th = WaitingAck b ->
  thread_recv e th r = Ok th' -> answers_more (t_peer th) (Answer r) D D' ->
  code_at u D' S (sent ++ [(t_peer th, thread_packet e th)]) th'.
Proof.
  intros (Hp & Hm & Hle & Hlt & Hc) Hj Hcn Hr Hmore. rewrite Hj, Hcn in Hc.
  destruct Hc as (seqs1 & sent1 & n & Hl & Hsw & HD & HS & ->). simpl in Hsw.
  specialize (Hlt ltac:(by rewrite Hcn)). unfold thread_packet at 1 2. rewrite Hj.
  unfold thread_recv in Hr. rewrite Hcn, Hj, Hm in Hr. simpl in Hr.
  apply (loop_at_more _ _ _ _ _ _ _ _ Hmore) in Hl as Hl'. pose proof Hmore as [Heq Hne].
  rewrite replicate_more.
  destruct (swa_on_recv _ b seqs r) as [b' seqs'|seqs'|ex] eqn:Es; simplify_eq; simpl;
    split_and!; simpl; try done; try lia.
  - exists seqs1, sent1, (Datatypes.S n). rewrite Heq.
    split_and!; [done| |by eapply answers_more_from|done|by rewrite ?Hm].
    by eapply swa_at_again.
  - destruct (swa_at_return _ _ _ _ _ _ _ _ Hsw Es) as (H1 & H2 & H3). simpl in *.
    rewrite <- Heq in H1, H2, H3.
    eexists seqs', _, 0%nat. split; [|split; [|split; [|split; [done|]]]].
    + rewrite <- H2. apply (loop_at_next data_exchange); [done|exact H1].
    + split_and!; [|done|done]. rewrite Hne by lia. apply HD. lia.
    + intros j Hj'. apply (answers_more_from _ _ _ _ Hmore HD). lia.
    + simpl. rewrite H3, Hm. by rewrite app_nil_r.
Qed.

(** The sequence loop takes an answer. *)
Lemma code_at_seq_recv u D S S' sent th b r th' sm :
  code_at u D S sent th -> t_job th = JSeq sm -> t_conn th = WaitingAck b ->
  thread_recv e th r = Ok th' -> answers_more (t_peer th) (Answer r) S S' ->
  code_at u D S' (sent ++ [(t_peer th, thread_packet e th)]) th'.
Proof.
  intros (Hp & Hm & Hle & Hlt & Hc) Hj Hcn Hr Hmore. rewrite Hj, Hcn in Hc.
  destruct Hc as (seqs & sent1 & sent2 & n & HD & Hsm & Hl & Hsw & HS & ->). simpl in Hsw.
  specialize (Hlt ltac:(by rewrite Hcn)). unfold thread_packet at 1 2. rewrite Hj.
  unfold thread_recv in Hr. rewrite Hcn, Hj in Hr.
  apply (loop_at_more _ _ _ _ _ _ _ _ Hmore) in Hl as Hl'. pose proof Hmore as [Heq Hne].
  rewrite <- app_assoc, replicate_more.
  destruct (swa_on_recv _ b tt r) as [b' []|[]|ex] eqn:Es; simplify_eq; simpl;
    split_and!; simpl; try done; try lia; rewrite ?Hj.
  - exists seqs, sent1, sent2, (Datatypes.S n). rewrite Heq.
    split_and!; try done; [|by eapply answers_more_from|].
    + by eapply swa_at_again.
    + unfold thread_packet. simpl. by rewrite Hj.
  - destruct (swa_at_return _ _ _ _ _ _ _ _ Hsw Es) as (H1 & H2 & H3). simpl in *.
    rewrite <- Heq in H1, H2, H3.
    eexists seqs, sent1, _, 0%nat. split; [done|]. split; [done|]. split; [|split; [|split]].
    + pose proof (loop_at_next (seq_exchange (final_msg u seqs)) tt S' (t_peer th) tt sent2 Hl' H1)
        as Hn. simpl in Hn. rewrite H2 in Hn. exact Hn.
    + split_and!; [|done|done]. rewrite Hne by lia. apply HS. lia.
    + intros j Hj'. apply (answers_more_from _ _ _ _ Hmore HS). lia.
    + simpl. by rewrite H3, app_nil_r.
Qed.

(** The thread locks a client. *)
Lemma code_at_lock u D S sent th :
  code_at u D S sent th -> t_conn th = Unlocked -> (t_peer th < count)%nat ->
  code_at u D S sent (set_conn th (Sending 1)).
Proof.
  intros (? & ? & ? & ? & Hc) Hcn Hlt. split_and!; simpl; try done.
  rewrite Hcn in Hc. unfold thread_packet in *. simpl. destruct (t_job th) as [seqs|sm]; simpl in *.
  - destruct Hc as (seqs1 & sent1 & n & Hl & (HD & -> & ->) & HD' & HS & ->).
    exists seqs1, sent1, 0%nat. rewrite HD. split_and!; [done|apply swa_at_start|done..].
  - destruct Hc as (seqs & sent1 & sent2 & n & ? & ? & ? & (HS & _ & ->) & ? & ->).
    exists seqs, sent1, sent2, 0%nat. rewrite HS. split_and!; [done..|apply swa_at_start|done|done].
Qed.

(** It sends; the datagram counts once it is answered. *)
Lemma code_at_sent u D S sent th b :
  code_at u D S sent th -> t_conn th = Sending b -> code_at u D S sent (set_conn th (WaitingAck b)).
Proof.
  intros (? & ? & ? & Hlt & Hc) Hcn. split_and!; simpl; try done.
  - intros _. apply Hlt. by rewrite Hcn.
  - unfold thread_packet in *. simpl. by rewrite Hcn in Hc.
Qed.

(** It chooses the final number. *)
Lemma code_at_finish u u' D S sent th seqs :
  code_at u D S sent th -> t_job th = JData seqs -> t_conn th = Unlocked -> t_peer th = count ->
  code_at u' D S sent (thread_finish u' th).
Proof.
  intros (Hproc & Hm & ? & ? & Hc) Hj Hcn Hp. rewrite Hj, Hcn in Hc.
  destruct Hc as (seqs1 & sent1 & n & Hl & (_ & -> & ->) & _ & HS & ->).
  unfold thread_finish. rewrite Hj, Hm. destruct (select_final seqs1) as [f fp] eqn:E.
  split_and!; simpl; try done; [lia|]. exists seqs1, sent1, [], 0%nat. rewrite Hp in Hl.
  split; [done|]. split; [unfold final_msg; by rewrite E|]. split; [constructor|].
  split; [split_and!; [by apply HS; lia|done..]|]. split; [|done]. intros j Hj'. apply HS. lia.
Qed.

(** The thread after the internal step between the loops, if that is due. *)
Definition settled (u : Z) (th : thread) : thread :=
  match t_job th with
  | JData _ => if bool_decide (t_peer th = count) then thread_finish u th else th
  | JSeq _ => th
  end.

(** Both loops are done. *)
Definition sender_done (th : thread) : bool :=
  match t_job th with JData _ => false | JSeq _ => bool_decide (t_peer th = count) end.

Lemma seq_loop_at S sm k st cn n sent :
  (k <= count)%nat -> (cn <> Unlocked -> (k < count)%nat) ->
  loop_at (seq_exchange sm) tt S k st sent -> conn_at (isValidAck e sm) tt (S k) cn tt n ->
  let r := pid_loop clients processes (seq_exchange sm) S count 0 tt in
  lr_peer r = k /\ lr_sent r = sent ++ replicate n (k, SeqMsgToBuf e sm) /\
  lr_outcome r = if bool_decide (k = count) then SenderDone else SenderWaiting.
Proof.
  intros Hle Hlt Hl Hcn. cbv zeta. case_bool_decide as Hk.
  - subst. destruct (loop_at_done clients processes _ _ _ Hclients _ _ Hl) as (-> & -> & _ & ->).
    destruct (decide (cn = Unlocked)) as [->|Hne]; [|specialize (Hlt Hne); lia].
    destruct Hcn as (_ & _ & ->). by rewrite app_nil_r.
  - apply conn_at_waiting in Hcn as (Hw & _ & Hn).
    destruct (loop_at_stops clients processes (seq_exchange sm) _ _ Hclients _ _ _ SenderWaiting Hl)
      as (-> & -> & _ & ->); [lia|by simpl; rewrite Hw|]. simpl. by rewrite Hn.
Qed.

Lemma code_at_run u D S sent th :
  code_at u D S sent th ->
  let r := LaunchMulticastSender e clients processes id uninit u msg_id data D S in
  let th' := settled u th in
  sr_job r = t_job th' /\ sr_peer r = t_peer th' /\ sr_sent r = sent /\
  sr_outcome r = if sender_done th' then SenderDone else SenderWaiting.
Proof.
  intros (Hp & Hm & Hle & Hlt & Hc). unfold settled, LaunchMulticastSender.
  unfold thread_packet in Hc. destruct (t_job th) as [seqs|sm] eqn:Hj.
  - destruct Hc as (seqs1 & sent1 & n & Hl & Hcn & _ & HS & ->). case_bool_decide as Hpe.
    + assert (t_conn th = Unlocked) as Hun.
      { destruct (decide (t_conn th = Unlocked)) as [?|Hne]; [done|].
        specialize (Hlt Hne). lia. }
      rewrite Hun in Hcn. destruct Hcn as (_ & -> & ->). rewrite Hpe in Hl.
      destruct (loop_at_done clients processes _ _ _ Hclients _ _ Hl) as (-> & _ & -> & ->).
      unfold thread_finish. rewrite Hj, Hm. destruct (select_final seqs1) as [f fp].
      set (sm := mkSeqMessage u id msg_id f fp). unfold sender_done. simpl.
      destruct (seq_loop_at S sm 0 tt Unlocked 0 []) as (H1 & H2 & H3);
        [lia|done|constructor|by split_and!; [apply HS| |]|].
      rewrite H1, H2, H3. by split_and!.
    + assert (t_peer th < count)%nat as Hk by lia.
      apply conn_at_waiting in Hcn as (Hw & Hst & Hn).
      destruct (loop_at_stops clients processes data_exchange _ _ Hclients _ _ _ SenderWaiting Hl Hk)
        as (-> & -> & -> & ->); [by simpl; rewrite Hw|].
      simpl. unfold sender_done. rewrite Hj, Hm, <- Hst, Hn. done.
  - destruct Hc as (seqs & sent1 & sent2 & n & Hl & -> & Hl2 & Hcn & HS & ->).
    destruct (loop_at_done clients processes _ _ _ Hclients _ _ Hl) as (-> & _ & -> & ->).
    unfold sender_done. rewrite Hj. unfold final_msg in *.
    destruct (select_final seqs) as [f fp]. simpl in *.
    destruct (seq_loop_at S _ _ _ _ _ _ Hle Hlt Hl2 Hcn) as (H1 & H2 & H3). by rewrite H1, H2, H3.
Qed.

(** An answer at which the code of the thread throws. *)
Definition thread_breaks (th : thread) (a : net_answer) (ex : exn) : Prop :=
  match t_job th with
  | JData seqs => breaks (handle_ack e id msg_id (t_peer th)) (t_conn th) seqs a ex
  | JSeq sm => breaks (isValidAck e sm) (t_conn th) tt a ex
  end.

Lemma code_at_breaks u D S D' S' sent th a ex :
  code_at u D S sent th -> thread_breaks th a ex ->
  match t_job th with
  | JData _ => answers_more (t_peer th) a D D'
  | JSeq _ => answers_more (t_peer th) a S S' /\ forall k, D' k = D k
  end ->
  let r := LaunchMulticastSender e clients processes id uninit u msg_id data D' S' in
  sr_job r = t_job th /\ sr_peer r = t_peer th /\ sr_outcome r = SenderThrew ex.
Proof.
  intros (Hp & Hm & Hle & Hlt & Hc) Hb Hmore. unfold thread_breaks, LaunchMulticastSender in *.
  assert (Hk : (t_peer th < count)%nat).
  { apply Hlt. intros Hun. by destruct (t_job th); rewrite Hun in Hb. }
  destruct (t_job th) as [seqs|sm] eqn:Hj.
  - destruct Hc as (seqs1 & sent1 & n & Hl & Hcn & _).
    apply (loop_at_more _ _ _ _ _ _ _ _ Hmore) in Hl. destruct Hmore as [Heq _].
    destruct (conn_at_breaks _ _ _ _ _ _ _ _ Hcn Hb) as [H1 H2]. rewrite <- Heq in H1, H2.
    destruct (loop_at_stops clients processes data_exchange _ _ Hclients _ _ _ (SenderThrew ex) Hl Hk)
      as (-> & -> & -> & _); [by simpl; rewrite H1|]. simpl. by rewrite H2.
  - destruct Hc as (seqs & sent1 & sent2 & n & Hl & -> & Hl2 & Hcn & _).
    destruct Hmore as [Hmore HD].
    apply (loop_at_ext _ _ _ D') in Hl; [|by intros].
    destruct (loop_at_done clients processes _ _ _ Hclients _ _ Hl) as (-> & _ & -> & _).
    apply (loop_at_more _ _ _ _ _ _ _ _ Hmore) in Hl2. destruct Hmore as [Heq _].
    destruct (conn_at_breaks _ _ _ _ _ _ _ _ Hcn Hb) as [H1 H2]. rewrite <- Heq in H1, H2.
    unfold final_msg in *. destruct (select_final seqs) as [f fp]. simpl in *.
    destruct (loop_at_stops clients processes
      (seq_exchange (mkSeqMessage u id msg_id f fp)) _ _ Hclients _ _ _ (SenderThrew ex) Hl2 Hk)
      as (-> & -> & _ & _); [by simpl; rewrite H1|done].
Qed.

End Refinement.

(** ** What the thread sends and chooses *)

(** [ns] says how often [pkt] goes to each process, from process [pid] on. *)
Fixpoint rounds (pkt : list Z) (pid : nat) (ns : list nat) : list (nat * list Z) :=
  match ns with
  | [] => []
  | n :: ns' => replicate n (pid, pkt) ++ rounds pkt (S pid) ns'
  end.

(** A call that returned has sent something. *)
Lemma swa_loop_sent {St} (v : St -> list Z -> nat -> St * ServerAction) a b st sent waits answers :
  let r := swa_loop v true a b st sent waits answers in
  run_outcome r = Returned -> (sent < run_sent r)%nat.
Proof.
  revert a b st sent waits.
  induction answers as [|[errno|r] answers IH]; intros a b st sent waits; simpl; [done..|].
  destruct (swa_on_recv v b st r); simpl; [|lia|done]. intros H. apply IH in H. lia.
Qed.

Section Sent.
Context {C St : Type} (clients : gmap Address C) (processes : list Address).
Context (exchange : nat -> St -> list net_answer -> list Z * swa_run (St := St)).
Context (answers : nat -> list net_answer) (pkt : list Z).
Hypothesis exchange_packet : forall pid st l, (exchange pid st l).1 = pkt.
Hypothesis exchange_sent : forall pid st l,
  run_outcome (exchange pid st l).2 = Returned -> (0 < run_sent (exchange pid st l).2)%nat.

(** A loop that is done has sent its message to every process in turn, at least once. *)
Lemma pid_loop_sent n pid st :
  let r := pid_loop clients processes exchange answers n pid st in
  lr_outcome r = SenderDone ->
  exists ns, length ns = n /\ Forall (fun k => 0 < k)%nat ns /\ lr_sent r = rounds pkt pid ns.
Proof.
  revert pid st. induction n as [|n IH]; intros pid st; simpl; [by exists []|].
  destruct (ClientForId clients processes pid); [|done].
  pose proof (exchange_packet pid st (answers pid)) as Hp.
  pose proof (exchange_sent pid st (answers pid)) as Hs.
  destruct (exchange pid st (answers pid)) as [p ru]. simpl in *. subst p.
  destruct (run_outcome ru); [|done..]. simpl. intros Hd.
  destruct (IH _ _ Hd) as (ns & <- & Hns & ->). exists (run_sent ru :: ns).
  split_and!; [done| |done]. constructor; auto.
Qed.

End Sent.

Section Correct.
Context {C : Type} (e : endian) (clients : gmap Address C) (processes : list Address).
Context (id uninit uninit' msg_id data : Z) (D S : nat -> list net_answer).
Hypothesis Hclients : forall k, (k < length processes)%nat ->
  exists cl, ClientForId clients processes k = Ok cl.

Notation count := (length processes).
Notation data_msg := (mkDataMessage uninit id msg_id data).

(** Answers that contain no error, and what the callback accepts first. *)
Definition answered {X} (dec : list Z -> nat -> option X) (l : list net_answer) (x : X) : Prop :=
  Forall (fun a => fatal a = false) l /\ head (omap (accepted dec) l) = Some x.

Lemma data_loop_at (proposals : list Z) :
  length proposals = count ->
  (forall pid x, proposals !! pid = Some x ->
     answered (ack_proposal e id msg_id pid) (D pid) x) ->
  forall k, (k <= count)%nat -> exists sent,
  loop_at (fun pid => SendDataMsg e id pid data_msg) (replicate count 0) D k
    (take k proposals ++ replicate (count - k) 0) sent.
Proof.
  intros Hlen Hans. induction k as [|k IH]; intros Hk.
  { rewrite Nat.sub_0_r. eexists. constructor. }
  destruct (IH ltac:(lia)) as [sent IH']. destruct (lookup_lt_is_Some_2 proposals k) as [x Hx]; [lia|].
  destruct (Hans k x Hx) as [Hf Hacc].
  set (st := take k proposals ++ replicate (count - k) 0) in *.
  pose proof (SendWithAck_unlimited_lemma (handle_ack e id msg_id k)
    (ack_proposal e id msg_id k) (fun x => <[k := x]>)
    (fun seqs buf n => handle_ack_dec e id msg_id k seqs buf n) st (D k) Hf) as Hrun.
  destruct (omap _ (D k)) as [|x' l]; [done|]. simpl in Hacc. injection Hacc as ->.
  destruct Hrun as [H1 H2].
  assert (take (Datatypes.S k) proposals ++ replicate (count - Datatypes.S k) 0
          = <[k := x]> st) as ->.
  { unfold st. rewrite (take_S_r _ _ _ Hx). replace (count - k)%nat with (Datatypes.S (count - Datatypes.S k)) by lia.
    rewrite insert_app_r_alt by (rewrite length_take; lia).
    rewrite length_take, Nat.min_l by lia. rewrite Nat.sub_diag, <- app_assoc. done. }
  rewrite <- H2. eexists.
  by apply (loop_at_next (fun pid => SendDataMsg e id pid data_msg)); [exact IH'|].
Qed.

Lemma seq_loop_ready sm :
  (forall pid, (pid < count)%nat -> answered (is_seqack e sm) (S pid) tt) ->
  forall k, (k <= count)%nat -> exists sent,
  loop_at (fun (_ : nat) (_ : unit) => SendSeqMsg e sm) tt S k tt sent.
Proof.
  intros Hans. induction k as [|k IH]; intros Hk; [eexists; constructor|].
  destruct (IH ltac:(lia)) as [sent IH']. destruct (Hans k) as [Hf Hacc]; [lia|].
  pose proof (SendWithAck_unlimited_lemma (isValidAck e sm) (is_seqack e sm) (fun _ st => st)
    (fun st buf n => isValidAck_dec e sm st buf n) tt (S k) Hf) as Hrun.
  destruct (omap _ (S k)) as [|x' l]; [done|]. destruct Hrun as [H1 H2].
  pose proof (loop_at_next (fun (_ : nat) (_ : unit) => SendSeqMsg e sm) tt S k tt
    sent IH' H1) as Hn. simpl in Hn. rewrite H2 in Hn. by eexists.
Qed.

(** With answers to every exchange the thread ends; it has sent the data message to every
    process and then the sequence message to every process. *)
Lemma LaunchMulticastSender_ends proposals :
  let sm := mkSeqMessage uninit' id msg_id (select_final proposals).1
              (select_final proposals).2 in
  let r := LaunchMulticastSender e clients processes id uninit uninit' msg_id data D S in
  length proposals = count ->
  (forall pid x, proposals !! pid = Some x ->
     answered (ack_proposal e id msg_id pid) (D pid) x) ->
  (forall pid, (pid < count)%nat -> answered (is_seqack e sm) (S pid) tt) ->
  sr_outcome r = SenderDone /\ sr_job r = JSeq sm /\
  exists ns ms, length ns = count /\ length ms = count /\
    Forall (fun k => 0 < k)%nat (ns ++ ms) /\
    sr_sent r = rounds (DataMsgToBuf e data_msg) 0 ns ++ rounds (SeqMsgToBuf e sm) 0 ms.
Proof.
  intros sm r Hlen HD HS. unfold r, LaunchMulticastSender.
  destruct (data_loop_at proposals Hlen HD count ltac:(lia)) as [sent1 Hl1].
  destruct (seq_loop_ready sm HS count ltac:(lia)) as [sent2 Hl2].
  rewrite Nat.sub_diag, app_nil_r, take_ge in Hl1 by lia.
  destruct (loop_at_done clients processes _ _ _ Hclients _ _ Hl1) as (Ho1 & _ & Hst1 & _).
  destruct (loop_at_done clients processes _ _ _ Hclients _ _ Hl2) as (Ho2 & _).
  rewrite Ho1, Hst1. unfold sm in *. destruct (select_final proposals) as [f fp]. simpl in *.
  rewrite Ho2. split_and!; [done|done|].
  apply (pid_loop_sent _ _ _ _ (DataMsgToBuf e data_msg)) in Ho1 as (ns & Hn1 & Hn2 & ->).
  - apply (pid_loop_sent _ _ _ _ (SeqMsgToBuf e (mkSeqMessage uninit' id msg_id f fp)))
      in Ho2 as (ms & Hm1 & Hm2 & ->).
    + exists ns, ms. split_and!; try done. by apply Forall_app_2.
    + done.
    + intros pid st l. apply swa_loop_sent.
  - done.
  - intros pid st l. apply swa_loop_sent.
Qed.

End Correct.
