(* ===== verification/Server.v ===== *)
(** * The server of a process

    [Process::TotalOrder] (src/src/process.cc): the multicast threads it launches and the
    callback it hands to [udp::Server::Listen].  The run of the server is a function of
    the datagrams that arrive and of the answers of the operating system; [sendto k] is
    the error of the reply to datagram [k], if it fails, and [uninit k] the value of what
    the code leaves uninitialised while it handles datagram [k]. *)

From Stdlib Require Import ZArith Lia String.
From stdpp Require Import base list strings.
From S2P Require Import Prelude Exceptions ThreadGroup Wire StdSet HoldBack Net Udp Process Sender.

Open Scope Z_scope.

(** The process, what its callback did so far, and the datagrams it has handled. *)
Record server_state := mkServerState {
  ss_proc : Process;
  ss_actions : list action;
  ss_handled : nat
}.

Section Server.
Context (e : endian) (uninit : nat -> Z) (sendto : nat -> option Z).

Definition server_callback (st : server_state) (buf : list Z) (n : nat)
  : server_state * result exn ServerAction :=
  let '(p, acts, ex) :=
    OnReceive e (uninit (ss_handled st)) (sendto (ss_handled st)) (ss_proc st) buf n in
  (mkServerState p (ss_actions st ++ acts) (S (ss_handled st)),
   match ex with Some x => Throw x | None => Ok Continue end).

(** The loop of [TotalOrder] over the launches: [n] more of them, from launch [i] on.
    [start i] is the error of starting thread [i], if it fails; [draws i] are the random
    message id and data of launch [i], after the type field it leaves uninitialised. *)
Fixpoint launch_loop (start : nat -> option string) (draws : nat -> Z * Z * Z) (p : Process)
    (n i : nat) (g : ThreadGroup thread) : ThreadGroup thread * option exn :=
  match n with
  | O => (g, None)
  | S n' =>
      let '(u, msg_id, data) := draws i in
      match AddThread (start i) g
              (launch (length (processes_ p)) (Z.to_nat (id_ p)) u msg_id data) with
      | Ok g' => launch_loop start draws p n' (S i) g'
      | Throw ex => (g, Some ex)
      end
  end.

(** [TotalOrder]: the threads it has launched and the run of the server, which starts when
    all of them are launched. *)
Definition TotalOrder (start : nat -> option string) (send_count : nat)
    (draws : nat -> Z * Z * Z) (p : Process) (events : list (recv_result * sock_env))
  : ThreadGroup thread * (server_state * listen_outcome) :=
  let st := mkServerState p [] 0 in
  match launch_loop start draws p send_count 0 make_ThreadGroup with
  | (g, Some ex) => (g, (st, ListenThrew ex))
  | (g, None) => (g, Listen server_callback None st events)
  end.

(** ** Lemmas *)

(** The threads launched: all of them, unless one could not be started. *)
Lemma launch_loop_spec start draws p n i g :
  let '(g', ex) := launch_loop start draws p n i g in
  exists m, (m <= n)%nat /\
    threads_ g' = threads_ g ++
      ((fun k => let '(u, msg_id, data) := draws k in
                 launch (length (processes_ p)) (Z.to_nat (id_ p)) u msg_id data)
         <$> seq i m) /\
    match ex with
    | None => m = n
    | Some x => (m < n)%nat /\ exists w, start (i + m)%nat = Some w /\ x = system_error w
    end.
Proof.
  revert i g. induction n as [|n IH]; intros i g; simpl.
  { exists 0%nat. by rewrite app_nil_r. }
  destruct (draws i) as [[u msg_id] data] eqn:Hd. unfold AddThread.
  destruct (start i) as [w|] eqn:Hs.
  { exists 0%nat. rewrite app_nil_r. split_and!; [lia|done|lia|].
    exists w. by rewrite Nat.add_0_r. }
  match goal with |- context [launch_loop _ _ _ _ _ ?g0] => specialize (IH (S i) g0) end.
  destruct (launch_loop _ _ _ _ _ _) as [g' ex]. destruct IH as (m & Hm & Ht & Hex).
  exists (S m). split_and!; [lia| |].
  - rewrite Ht. simpl. by rewrite Hd, <- app_assoc.
  - destruct ex as [x|]; [|lia]. destruct Hex as [? Hx]. split; [lia|].
    by rewrite Nat.add_succ_r.
Qed.

Lemma launch_loop_starts start draws p n i g :
  (forall k, start k = None) -> (launch_loop start draws p n i g).2 = None.
Proof.
  intros Hs. pose proof (launch_loop_spec start draws p n i g) as H.
  destruct (launch_loop _ _ _ _ _ _) as [g' [x|]]; [|done].
  destruct H as (m & _ & _ & _ & w & Hw & _). by rewrite Hs in Hw.
Qed.

(** When every thread can be started, [TotalOrder] is the run of the server. *)
Lemma TotalOrder_server start n draws p events :
  (forall k, start k = None) ->
  (TotalOrder start n draws p events).2 =
  Listen server_callback None (mkServerState p [] 0) events.
Proof.
  intros Hs. unfold TotalOrder.
  pose proof (launch_loop_starts start draws p n 0 make_ThreadGroup Hs) as H.
  by destruct (launch_loop _ _ _ _ _ _) as [g [x|]].
Qed.

(** The callback never stops the server; only an exception ends it. *)
Lemma Listen_never_returns st events :
  (Listen server_callback None st events).2 <> ListenReturned.
Proof.
  revert st. induction events as [|[[pkt|errno] env] events IH]; intros st; simpl.
  - done.
  - destruct (CreateSocket env kNoTimeout); [|done].
    unfold server_callback. destruct (OnReceive _ _ _ _ _ _) as [[p acts] [x|]]; [done|].
    apply IH.
  - by destruct (IsErrnoTimeout errno).
Qed.

Lemma TotalOrder_never_returns start n draws p events :
  (TotalOrder start n draws p events).2.2 <> ListenReturned.
Proof.
  unfold TotalOrder. destruct (launch_loop _ _ _ _ _ _) as [g [x|]]; [done|].
  apply Listen_never_returns.
Qed.

(** An event the operating system delivers without error. *)
Definition clean_event (ev : recv_result * sock_env) : Prop :=
  match ev.1 with RecvPacket pkt => Forall is_byte pkt | RecvError _ => False end /\
  0 <= se_socket ev.2 /\ se_reuseaddr ev.2 = 0.

Lemma clean_socket env :
  0 <= se_socket env -> se_reuseaddr env = 0 ->
  CreateSocket env kNoTimeout = Ok (mkSocket (se_socket env) None).
Proof.
  intros H1 H2. unfold CreateSocket. rewrite (proj2 (Z.ltb_ge _ _)) by lia. by rewrite H2.
Qed.

Lemma recv_buf_bytes pkt : Forall is_byte pkt -> Forall is_byte (recv_buf pkt).
Proof.
  intros H. unfold recv_buf. apply Forall_app_2; [by apply Forall_take|].
  apply Forall_replicate. unfold is_byte. lia.
Qed.

(** Whatever datagrams arrive, the server handles all of them and stays up. *)
Lemma Listen_clean st events :
  (forall k, sendto k = None) -> Forall clean_event events -> process_wf (ss_proc st) ->
  let r := Listen server_callback None st events in
  r.2 = Listening /\ process_wf (ss_proc r.1) /\
  ss_handled r.1 = (ss_handled st + length events)%nat.
Proof.
  intros Hs Hev. revert st.
  induction Hev as [|[[pkt|errno] env] events [Hb [H1 H2]] Hev IH]; intros st Hp; simpl.
  - by rewrite Nat.add_0_r.
  - simpl in *. rewrite clean_socket by done.
    pose proof (OnReceive_wf_lemma e (uninit (ss_handled st)) (sendto (ss_handled st)) (ss_proc st)
      (recv_buf pkt) (recv_len pkt) (recv_buf_bytes pkt Hb) Hp) as Hon.
    destruct (server_callback st (recv_buf pkt) (recv_len pkt)) as [st' r] eqn:Ec.
    unfold server_callback in Ec. destruct (OnReceive _ _ _ _ _ _) as [[p acts] ex].
    destruct Hon as [Hwf Hex].
    assert (ex = None) as -> by (destruct Hex as [-> | ->]; [by rewrite Hs|done]).
    injection Ec as <- <-. destruct (IH (mkServerState p (ss_actions st ++ acts) (S (ss_handled st))) Hwf)
      as (IH1 & IH2 & IH3).
    split_and!; [done..|]. rewrite IH3. simpl. lia.
  - done.
Qed.

End Server.
