(* ===== verification/Descriptors.v ===== *)
(** * File descriptors

    Who opens and closes sockets: [CreateSocket], the constructors and destructors of
    [udp::Client] and [udp::Server] (src/src/udp_conn.h, src/src/udp_conn.cc), the clients
    of a process, the reply client that [Server::Listen] makes for every datagram, and the
    destruction of a process (src/src/process.h), which first waits for its threads.  The
    definitions repeat those of [Udp], [Client], [Process] and [Server] with the set of open
    descriptors as state; they give the same results, and here it is counted what stays
    open. *)

From Stdlib Require Import ZArith Lia String.
From stdpp Require Import base list list_numbers gmap sets strings.
From S2P Require Import Prelude Exceptions ThreadGroup Wire Net Udp Client StdSet HoldBack Process.
From S2P Require Import Sender Server.

Open Scope Z_scope.

(** The operating system gives out a descriptor that is not open. *)
Class DescriptorTable := {
  alloc : gset Z -> Z;
  alloc_fresh open : alloc open ∉ open;
  alloc_nonneg open : 0 <= alloc open
}.

(** ** Code that opens and closes descriptors *)

Definition os (A : Type) : Type := gset Z -> result exn A * gset Z.

Definition os_ret {A} (a : A) : os A := fun fds => (Ok a, fds).
Definition os_throw {A} (e : exn) : os A := fun fds => (Throw e, fds).
Definition os_bind {A B} (m : os A) (f : A -> os B) : os B :=
  fun fds => match m fds with
             | (Ok a, fds') => f a fds'
             | (Throw e, fds') => (Throw e, fds')
             end.
Definition os_lift {A} (r : result exn A) : os A := fun fds => (r, fds).

Notation "'let+' x ':=' m 'in' k" := (os_bind m (fun x => k))
  (at level 10, x name, m at level 100, k at level 200) : tom_scope.
Local Open Scope tom_scope.

(** The object that owns descriptors [held] is destroyed when [m] throws. *)
Definition os_guard {A} (held : gset Z) (m : os A) : os A :=
  fun fds => match m fds with
             | (Ok a, fds') => (Ok a, fds')
             | (Throw e, fds') => (Throw e, fds' ∖ held)
             end.

Definition os_close (fd : Z) : os unit := fun fds => (Ok tt, fds ∖ {[fd]}).

Section Descriptors.
Context `{DescriptorTable}.

Definition os_socket (env : sock_env) : os Z :=
  fun fds =>
    if se_socket env <? 0 then (Throw (SocketException (se_errno env)), fds)
    else (Ok (alloc fds), {[alloc fds]} ∪ fds).

(** [CreateSocket]; on the paths that throw after the socket was made nobody closes it. *)
Definition CreateSocket_fd (env : sock_env) (timeout : Z) : os Socket :=
  let+ fd := os_socket env in
  if negb (se_reuseaddr env =? 0) then os_throw (SocketException (se_errno env))
  else if 0 <? timeout then
    if negb (se_rcvtimeo env =? 0) then os_throw (SocketException (se_errno env))
    else os_ret (mkSocket fd (Some (split_timeout timeout)))
  else os_ret (mkSocket fd None).

(** The constructors; a constructor that throws runs no destructor of its own class. *)
Definition make_Client_fd (e : endian) (gethostbyname : string -> option (list Z))
    (env : sock_env) (addr : Address) (timeout : Z) : os Client :=
  let+ s := CreateSocket_fd env timeout in
  let+ sa := os_lift (make_SocketAddress e gethostbyname addr) in
  os_ret (mkClient s sa).

Definition make_Server_fd (env : sock_env) (timeout : Z) : os Socket :=
  let+ s := CreateSocket_fd env timeout in
  if se_bind env <? 0 then os_throw (BindException (se_errno env)) else os_ret s.

(** The destructors. *)
Definition destroy_Client (c : Client) : os unit := os_close (sockfd (client_socket c)).
Definition destroy_Server (s : Socket) : os unit := os_close (sockfd s).

(** ** The clients of a process *)

Definition client_fds (clients : gmap Address Client) : gset Z :=
  map_fold (fun _ c fds => {[sockfd (client_socket c)]} ∪ fds) ∅ clients.

(** [emplace] drops the new client when there is one for the address already; an exception
    destroys the clients made before.  [make i] makes the client of line [i]. *)
Fixpoint emplace_clients_fd (make : nat -> Address -> os Client) (i : nat)
    (processes : list Address) (clients : gmap Address Client)
  : os (gmap Address Client) :=
  match processes with
  | [] => os_ret clients
  | addr :: rest =>
      let+ c := os_guard (client_fds clients) (make i addr) in
      match clients !! addr with
      | Some _ =>
          let+ _ := destroy_Client c in emplace_clients_fd make (S i) rest clients
      | None => emplace_clients_fd make (S i) rest (<[addr := c]> clients)
      end
  end.

Definition ClientsForProcessList_fd (make : nat -> Address -> Z -> os Client)
    (processes : list Address) : os (gmap Address Client) :=
  emplace_clients_fd (fun i a => make i a kAckTimeout) 0 processes ∅.

(** ** The server loop *)

Section Listen.
Context {St : Type}.
Context (rcv : St -> list Z -> nat -> St * result exn ServerAction).
Context (timeout : option (St -> St * ServerAction)).

(** The reply client of a datagram lives until the callback has returned or thrown. *)
Fixpoint Listen_fd (st : St) (events : list (recv_result * sock_env)) (fds : gset Z)
  : (St * listen_outcome) * gset Z :=
  match events with
  | [] => ((st, Listening), fds)
  | (RecvError errno, _) :: events' =>
      match IsErrnoTimeout errno, timeout with
      | true, Some on_timeout =>
          let '(st', action) := on_timeout st in
          match action with
          | Continue => Listen_fd st' events' fds
          | Stop => ((st', ListenReturned), fds)
          end
      | _, _ => ((st, ListenThrew (ReceiveException errno)), fds)
      end
  | (RecvPacket pkt, env) :: events' =>
      match CreateSocket_fd env kNoTimeout fds with
      | (Throw e, fds1) => ((st, ListenThrew e), fds1)
      | (Ok s, fds1) =>
          let '(st', r) := rcv st (recv_buf pkt) (recv_len pkt) in
          let fds2 := (os_close (sockfd s) fds1).2 in
          match r with
          | Throw e => ((st', ListenThrew e), fds2)
          | Ok Stop => ((st', ListenReturned), fds2)
          | Ok Continue => Listen_fd st' events' fds2
          end
      end
  end.

End Listen.

(** ** The life of a process *)

(** The constructor of [Process]: the clients, then the server; an exception of the second
    destroys the clients. *)
Definition make_Process_fd (make : nat -> Address -> Z -> os Client) (server_env : sock_env)
    (processes : list Address) : os (gmap Address Client * Socket) :=
  let+ clients := ClientsForProcessList_fd make processes in
  let+ server := os_guard (client_fds clients) (make_Server_fd server_env kNoTimeout) in
  os_ret (clients, server).

(** [TotalOrder]: launching threads opens nothing, the server loop runs when all of them are
    launched. *)
Definition TotalOrder_fd (e : endian) (uninit : nat -> Z) (sendto : nat -> option Z)
    (start : nat -> option string) (send_count : nat) (draws : nat -> Z * Z * Z) (p : Process)
    (events : list (recv_result * sock_env)) (fds : gset Z)
  : (ThreadGroup thread * (server_state * listen_outcome)) * gset Z :=
  let st := mkServerState p [] 0 in
  match launch_loop start draws p send_count 0 make_ThreadGroup with
  | (g, Some ex) => ((g, (st, ListenThrew ex)), fds)
  | (g, None) =>
      let '(r, fds') := Listen_fd (server_callback e uninit sendto) None st events fds in
      ((g, r), fds')
  end.

(** The destructor of [Process] destroys the members in the reverse order: the thread group,
    which waits for the threads, before the server and the clients.  [ended] tells which
    threads end. *)
Definition destroy_Process (ended : thread -> bool) (g : ThreadGroup thread)
    (clients : gmap Address Client) (server : Socket) (fds : gset Z) : join_outcome * gset Z :=
  match (JoinAll ended g).2 with
  | Joined => (Joined, (fds ∖ {[sockfd server]}) ∖ client_fds clients)
  | o => (o, fds)
  end.

(** The process as main makes it, runs it, and destroys it when an exception has left
    [TotalOrder]; [None] while [TotalOrder] has not ended. *)
Definition Process_fd (make : nat -> Address -> Z -> os Client) (server_env : sock_env)
    (e : endian) (uninit : nat -> Z) (sendto : nat -> option Z) (start : nat -> option string)
    (send_count : nat) (draws : nat -> Z * Z * Z) (ended : thread -> bool)
    (processes : list Address) (id : Z) (delays : bool) (events : list (recv_result * sock_env))
  : os (ThreadGroup thread * (server_state * listen_outcome) * option join_outcome) :=
  let+ made := make_Process_fd make server_env processes in
  fun fds =>
    let '((g, (st, outcome)), fds1) :=
      TotalOrder_fd e uninit sendto start send_count draws (make_Process processes id delays)
        events fds in
    match outcome with
    | Listening => (Ok (g, (st, outcome), None), fds1)
    | _ =>
        let '(o, fds2) := destroy_Process ended g made.1 made.2 fds1 in
        (Ok (g, (st, outcome), Some o), fds2)
    end.

(** ** What stays open *)

(** At most one descriptor more is open than before. *)
Definition leaks (fds fds' : gset Z) : Prop :=
  exists lost, (size lost <= 1)%nat /\ lost ## fds /\ fds' = lost ∪ fds.

Lemma leaks_nothing fds : leaks fds fds.
Proof. exists ∅. rewrite size_empty. split_and!; [lia|set_solver|set_solver]. Qed.

Lemma leaks_one fds : leaks fds ({[alloc fds]} ∪ fds).
Proof.
  exists {[alloc fds]}. rewrite size_singleton. pose proof (alloc_fresh fds).
  split_and!; [lia|set_solver|done].
Qed.

Lemma leaks_shrink held fds fds' :
  held ## fds -> leaks (held ∪ fds) fds' -> leaks fds (fds' ∖ held).
Proof.
  intros Hd (lost & Hs & Hl & ->). exists lost. split_and!; [done|set_solver|]. set_solver.
Qed.

(** The code makes an object that owns one new descriptor, or throws. *)
Definition creates {A} (fd_of : A -> Z) (m : os A) : Prop :=
  forall fds, match m fds with
    | (Ok a, fds') => fd_of a ∉ fds /\ fds' = {[fd_of a]} ∪ fds
    | (Throw _, fds') => leaks fds fds'
    end.

Local Hint Resolve leaks_nothing leaks_one alloc_fresh : core.

Lemma CreateSocket_creates env timeout : creates sockfd (CreateSocket_fd env timeout).
Proof.
  intros fds. unfold CreateSocket_fd, os_bind, os_socket.
  destruct (se_socket env <? 0); [auto|]. destruct (negb _); [simpl; auto|].
  destruct (0 <? timeout); [destruct (negb _)|]; simpl; auto.
Qed.

(** A constructor that makes a socket and then does something that may throw. *)
Lemma creates_then {A} (fd_of : A -> Z) (m : os Socket) (f : Socket -> result exn A) :
  creates sockfd m -> (forall s a, f s = Ok a -> fd_of a = sockfd s) ->
  creates fd_of (os_bind m (fun s => os_lift (f s))).
Proof.
  intros Hm Hf fds. specialize (Hm fds). unfold os_bind, os_lift.
  destruct (m fds) as [[s|ex] fds']; [|done]. destruct Hm as [Hfr ->].
  destruct (f s) as [a|ex] eqn:E; simpl.
  - by rewrite (Hf s a E).
  - exists {[sockfd s]}. rewrite size_singleton. split_and!; [lia|set_solver|done].
Qed.

Lemma make_Client_creates e ghbn env addr timeout :
  creates (fun c => sockfd (client_socket c)) (make_Client_fd e ghbn env addr timeout).
Proof.
  intros fds.
  pose proof (creates_then (fun c => sockfd (client_socket c)) _
    (fun s => (let! sa := make_SocketAddress e ghbn addr in Ok (mkClient s sa)))
    (CreateSocket_creates env timeout)) as Hc.
  assert (make_Client_fd e ghbn env addr timeout fds = os_bind (CreateSocket_fd env timeout)
    (fun s => os_lift (let! sa := make_SocketAddress e ghbn addr in Ok (mkClient s sa))) fds)
    as ->.
  { unfold make_Client_fd, os_bind, os_lift, os_ret.
    destruct (CreateSocket_fd env timeout fds) as [[sk|] ?]; [|done].
    by destruct (make_SocketAddress e ghbn addr). }
  apply Hc. intros s a. destruct (make_SocketAddress e ghbn addr); [|done]. by intros [= <-].
Qed.

Lemma make_Server_creates env timeout : creates sockfd (make_Server_fd env timeout).
Proof.
  intros fds.
  pose proof (creates_then sockfd _
    (fun s => if se_bind env <? 0 then Throw (BindException (se_errno env)) else Ok s)
    (CreateSocket_creates env timeout)) as Hc.
  assert (make_Server_fd env timeout fds = os_bind (CreateSocket_fd env timeout)
    (fun s => os_lift (if se_bind env <? 0 then Throw (BindException (se_errno env)) else Ok s)) fds)
    as ->.
  { unfold make_Server_fd, os_bind, os_lift, os_ret, os_throw.
    destruct (CreateSocket_fd env timeout fds) as [[sk|] ?]; [|done].
    by destruct (se_bind env <? 0). }
  apply Hc. intros s a. destruct (_ <? 0); [done|]. by intros [= <-].
Qed.

(** ** The clients *)

(** The clients own their descriptors, one each, next to those open before. *)
Definition owns (clients : gmap Address Client) (base fds : gset Z) : Prop :=
  client_fds clients ## base /\ fds = client_fds clients ∪ base /\
  size (client_fds clients) = size clients.

Lemma owns_none fds : owns ∅ fds fds.
Proof.
  assert (client_fds ∅ = ∅) as He by apply map_fold_empty.
  unfold owns. rewrite He. split_and!; [set_solver|set_solver|]. by rewrite size_empty, map_size_empty.
Qed.

Lemma client_fds_insert a c clients :
  clients !! a = None ->
  client_fds (<[a := c]> clients) = {[sockfd (client_socket c)]} ∪ client_fds clients.
Proof.
  intros Ha. unfold client_fds. rewrite map_fold_insert_L; [done| |done].
  intros j1 j2 z1 z2 y _ _ _. set_solver.
Qed.

Lemma emplace_clients_owns make base :
  (forall i a, creates (fun c => sockfd (client_socket c)) (make i a)) ->
  forall processes i clients fds, owns clients base fds ->
  match emplace_clients_fd make i processes clients fds with
  | (Ok clients', fds') =>
      owns clients' base fds' /\ dom clients' = dom clients ∪ list_to_set processes
  | (Throw _, fds') => leaks base fds'
  end.
Proof.
  intros Hm. induction processes as [|a rest IH]; intros i clients fds Ho.
  { simpl. split; [done|set_solver]. }
  destruct Ho as (Hd & -> & Hsz). simpl. unfold os_bind at 1, os_guard.
  specialize (Hm i a (client_fds clients ∪ base)).
  destruct (make i a (client_fds clients ∪ base)) as [[c|ex] fds']; [|by apply leaks_shrink].
  destruct Hm as [Hfr ->]. destruct (clients !! a) eqn:Ea.
  - unfold os_bind, destroy_Client, os_close.
    assert (({[sockfd (client_socket c)]} ∪ (client_fds clients ∪ base))
      ∖ {[sockfd (client_socket c)]} = client_fds clients ∪ base) as -> by set_solver.
    specialize (IH (S i) clients (client_fds clients ∪ base) (conj Hd (conj eq_refl Hsz))).
    destruct (emplace_clients_fd _ _ _ _ _) as [[clients'|ex] fds']; [|done].
    destruct IH as [IH1 ->]. split; [done|].
    assert (a ∈ dom clients) by (apply elem_of_dom; eauto). set_solver.
  - specialize (IH (S i) (<[a := c]> clients)
      ({[sockfd (client_socket c)]} ∪ (client_fds clients ∪ base))).
    pose proof (client_fds_insert a c clients Ea) as Hins.
    destruct (emplace_clients_fd _ _ _ _ _) as [[clients'|ex] fds'].
    + destruct IH as [IH1 ->]; [|split; [done|set_solver]].
      split_and!; rewrite Hins; [set_solver|set_solver|].
      rewrite map_size_insert_None, size_union, size_singleton, Hsz by (done || set_solver). lia.
    + apply IH. split_and!; rewrite Hins; [set_solver|set_solver|].
      rewrite map_size_insert_None, size_union, size_singleton, Hsz by (done || set_solver). lia.
Qed.

(** ** The server loop *)

(** The same run as without descriptors. *)
Lemma CreateSocket_fd_result env timeout fds :
  match CreateSocket_fd env timeout fds, CreateSocket env timeout with
  | (Ok s, _), Ok s' => rcvtimeo s = rcvtimeo s'
  | (Throw e, _), Throw e' => e = e'
  | _, _ => False
  end.
Proof.
  unfold CreateSocket_fd, CreateSocket, os_bind, os_socket.
  destruct (se_socket env <? 0); [done|]. destruct (negb _); [done|].
  destruct (0 <? timeout); [|done]. by destruct (negb _).
Qed.

Lemma Listen_fd_result {St} (rcv : St -> list Z -> nat -> St * result exn ServerAction) timeout
    st events fds :
  (Listen_fd rcv timeout st events fds).1 = Listen rcv timeout st events.
Proof.
  revert st fds. induction events as [|[[pkt|errno] env] events IH]; intros st fds; simpl.
  - done.
  - pose proof (CreateSocket_fd_result env kNoTimeout fds) as Hc.
    destruct (CreateSocket_fd env kNoTimeout fds) as [[s|ex] fds1],
      (CreateSocket env kNoTimeout) as [s'|ex']; [|done|done|by subst].
    destruct (rcv st _ _) as [st' [[]|ex]]; [apply IH|done..].
  - destruct (IsErrnoTimeout errno), timeout as [on_timeout|]; try done.
    destruct (on_timeout st) as [st' []]; [apply IH|done].
Qed.

(** While the loop runs every reply client has been closed again; when it has ended, at most
    the socket that could not be set up is still open. *)
Lemma Listen_fd_open {St} (rcv : St -> list Z -> nat -> St * result exn ServerAction) timeout
    st events fds :
  let '((_, outcome), fds') := Listen_fd rcv timeout st events fds in
  match outcome with
  | ListenThrew (SocketException _) => leaks fds fds'
  | _ => fds' = fds
  end.
Proof.
  revert st fds. induction events as [|[[pkt|errno] env] events IH]; intros st fds; simpl.
  - done.
  - pose proof (CreateSocket_creates env kNoTimeout fds) as Hc.
    assert (Hthrow : forall ex fds1, CreateSocket_fd env kNoTimeout fds = (Throw ex, fds1) ->
      exists errno, ex = SocketException errno).
    { intros ex fds1. unfold CreateSocket_fd, os_bind, os_socket.
      destruct (_ <? 0); [intros [= <- _]; eauto|]. destruct (negb _); intros [= <- _]; eauto. }
    destruct (CreateSocket_fd env kNoTimeout fds) as [[s|ex] fds1].
    2: { destruct (Hthrow ex fds1 eq_refl) as [errno ->]. done. }
    destruct Hc as [Hfr ->].
    assert (({[sockfd s]} ∪ fds) ∖ {[sockfd s]} = fds) as Heq by set_solver.
    destruct (rcv st _ _) as [st' [[]|ex]]; rewrite ?Heq; [apply IH|done|].
    destruct ex; try done; by apply leaks_nothing.
  - destruct (IsErrnoTimeout errno), timeout as [on_timeout|]; try done.
    destruct (on_timeout st) as [st' []]; [apply IH|done].
Qed.

End Descriptors.

(** The lowest free descriptor, as POSIX prescribes it. *)
Fixpoint lowest_from (n : nat) (fd : Z) (fds : gset Z) : Z :=
  match n with
  | O => fd
  | S n' => if decide (fd ∈ fds) then lowest_from n' (fd + 1) fds else fd
  end.

Lemma lowest_from_spec n fd fds :
  0 <= fd ->
  0 <= lowest_from n fd fds /\
  (lowest_from n fd fds ∉ fds \/ forall k, fd <= k < fd + Z.of_nat n -> k ∈ fds).
Proof.
  revert fd. induction n as [|n IH]; intros fd Hfd; simpl.
  { split; [done|]. right. lia. }
  case_decide as Hin; [|by split; [|left]].
  destruct (IH (fd + 1)) as [Hn [Hf|Hall]]; [lia|by split; [|left]|].
  split; [done|]. right. intros k Hk. destruct (decide (k = fd)) as [->|]; [done|].
  apply Hall. lia.
Qed.

#[export] Instance lowest_free : DescriptorTable.
Proof.
  refine {| alloc fds := lowest_from (S (size fds)) 0 fds |}.
  - intros fds. destruct (lowest_from_spec (S (size fds)) 0 fds) as [_ [?|Hall]]; [lia|done|].
    exfalso. assert (list_to_set (seqZ 0 (Z.of_nat (S (size fds)))) ⊆ fds) as Hsub.
    { intros k. rewrite elem_of_list_to_set, elem_of_seqZ. intros. apply Hall. lia. }
    apply subseteq_size in Hsub. rewrite size_list_to_set, length_seqZ in Hsub.
    + lia.
    + apply NoDup_seqZ.
  - intros fds. by apply lowest_from_spec.
Defined.

(** The constructor opens one descriptor for each distinct address and one for the server. *)
Lemma make_Process_owns `{DescriptorTable} make server_env processes fds :
  (forall i a, creates (fun c => sockfd (client_socket c)) (make i a kAckTimeout)) ->
  match make_Process_fd make server_env processes fds with
  | (Ok (clients, server), fds') =>
      client_fds clients ## fds /\ sockfd server ∉ client_fds clients ∪ fds /\
      fds' = {[sockfd server]} ∪ (client_fds clients ∪ fds) /\
      size (client_fds clients) = size (list_to_set processes : gset Address)
  | (Throw _, fds') => leaks fds fds'
  end.
Proof.
  intros Hm. unfold make_Process_fd, os_bind at 1.
  pose proof (emplace_clients_owns (fun i a => make i a kAckTimeout) fds Hm processes 0 ∅ fds) as Hcl.
  unfold ClientsForProcessList_fd. destruct (emplace_clients_fd _ _ _ _ _) as [[clients|ex] fds1].
  2: { apply Hcl, owns_none. }
  destruct (Hcl (owns_none fds)) as [(Hd & -> & Hsz) Hdom].
  unfold os_bind, os_guard.
  pose proof (make_Server_creates server_env kNoTimeout (client_fds clients ∪ fds)) as Hsv.
  destruct (make_Server_fd _ _ _) as [[server|ex] fds2]; [|by apply leaks_shrink].
  destruct Hsv as [Hfr ->]. simpl. split_and!; try done.
  by rewrite Hsz, <- size_dom, Hdom, dom_empty_L, union_empty_l_L.
Qed.

(** [TotalOrder] leaves at most the socket open that could not be set up. *)
Lemma TotalOrder_fd_open `{DescriptorTable} e u w start n draws p events fds :
  let '(r, fds') := TotalOrder_fd e u w start n draws p events fds in
  r = TotalOrder e u w start n draws p events /\
  match r.2.2 with Listening => fds' = fds | _ => leaks fds fds' end.
Proof.
  unfold TotalOrder_fd, TotalOrder. destruct (launch_loop _ _ _ _ _ _) as [g [ex|]].
  { split; [done|]. apply leaks_nothing. }
  pose proof (Listen_fd_result (server_callback e u w) None (mkServerState p [] 0) events fds) as Hr.
  pose proof (Listen_fd_open (server_callback e u w) None (mkServerState p [] 0) events fds) as Hl.
  destruct (Listen_fd _ _ _ _ _) as [[st o] fds']. simpl in Hr. rewrite <- Hr. split; [done|].
  simpl. destruct o as [|ex|]; [by subst; apply leaks_nothing| |done].
  destruct ex; try (subst; apply leaks_nothing); done.
Qed.

(** C23: descriptors.  While the server of a process runs, the descriptors open besides those
    that were open before are one for each distinct address of the process list and one for
    the server, however many datagrams have been handled.  When the server has ended, the
    process is destroyed: while a thread it has launched does not end all of them stay open, and
    when all threads have ended all of them are closed; in both cases, and when the process
    could not be set up, at most one that should have been closed is left open. *)
Theorem descriptors_balanced `{DescriptorTable} e gethostbyname client_env server_env uninit sendto
    start send_count draws ended processes id delays events fds :
  let make i a := make_Client_fd e gethostbyname (client_env i) a in
  let p := make_Process processes id delays in
  match Process_fd make server_env e uninit sendto start send_count draws ended processes id delays
          events fds with
  | (Throw _, fds') => leaks fds fds'
  | (Ok (g, r, destroyed), fds') =>
      (g, r) = TotalOrder e uninit sendto start send_count draws p events /\
      exists held, held ## fds /\ size held = S (size (list_to_set processes : gset Address)) /\
      match r.2, destroyed with
      | Listening, None => fds' = held ∪ fds
      | ListenThrew _, Some (WaitsFor k) =>
          leaks (held ∪ fds) fds' /\ exists th, threads_ g !! k = Some th /\ ended th = false
      | ListenThrew _, Some Joined =>
          leaks fds fds' /\ Forall (fun th => ended th = true) (threads_ g)
      | _, _ => False
      end
  end.
Proof.
  intros make p. unfold Process_fd, os_bind.
  pose proof (make_Process_owns make server_env processes fds
    (fun i a => make_Client_creates e gethostbyname (client_env i) a kAckTimeout)) as Hmk.
  destruct (make_Process_fd _ _ _ _) as [[[clients server]|ex] fds1]; [|done].
  destruct Hmk as (Hd & Hfr & -> & Hsz). cbn [fst snd].
  pose proof (TotalOrder_fd_open e uninit sendto start send_count draws p events
    ({[sockfd server]} ∪ (client_fds clients ∪ fds))) as Ht.
  pose proof (TotalOrder_never_returns e uninit sendto start send_count draws p events) as Hnr.
  fold p. destruct (TotalOrder_fd _ _ _ _ _ _ _ _ _) as [[g [st o]] fds2].
  destruct Ht as [Hr Ho]. rewrite <- Hr in Hnr. cbn [fst snd] in Ho, Hnr.
  assert (Hheld : {[sockfd server]} ∪ client_fds clients ## fds /\
    size ({[sockfd server]} ∪ client_fds clients) = S (size (list_to_set processes : gset Address))).
  { split; [set_solver|]. by rewrite size_union, size_singleton, Hsz by set_solver. }
  destruct Hheld as [Hh1 Hh2].
  destruct o as [|ex|]; [done| |].
  - unfold destroy_Process. pose proof (JoinAll_spec ended g) as Hj.
    destruct (JoinAll ended g) as [g' [|k]]; simpl; (split; [exact Hr|]);
      exists ({[sockfd server]} ∪ client_fds clients); (split; [done|]); (split; [done|]).
    + split; [|by destruct Hj]. apply leaks_shrink; [done|]. apply leaks_shrink; [set_solver|done].
    + split; [by rewrite <- (assoc_L (∪))|]. by destruct Hj as (_ & ?).
  - split; [exact Hr|]. exists ({[sockfd server]} ∪ client_fds clients).
    split_and!; [done|done|]. rewrite Ho. by rewrite (assoc_L (∪)).
Qed.

(** A process of two, the second of which has the address of the first on another port, with one
    thread: after two datagrams it has three sockets more; when its server then fails they stay
    open if the thread does not end, and are closed if it does; and when bind fails, one is
    left. *)
Lemma descriptors_balanced_witness :
  let ok := mkSockEnv 3 0 0 0 0 in
  let life env ended more :=
    Process_fd (fun i a => make_Client_fd Little (fun _ => Some [127; 0; 0; 1]) ok a) env Little
      (fun _ => 0) (fun _ => None) (fun _ => None) 1 (fun _ => (0, 7, 8)) (fun _ => ended)
      [mkAddress "a" 1; mkAddress "a" 2; mkAddress "a" 1] 0 false
      ([(RecvPacket [1], ok); (RecvPacket [2], ok)] ++ more) {[0; 1; 2]} in
  elements (life ok false []).2 ≡ₚ [0; 1; 2; 3; 4; 5] /\
  elements (life ok false [(RecvError 5, ok)]).2 ≡ₚ [0; 1; 2; 3; 4; 5] /\
  elements (life ok true [(RecvError 5, ok)]).2 ≡ₚ [0; 1; 2] /\
  elements (life (mkSockEnv 3 0 0 (-1) 98) true []).2 ≡ₚ [0; 1; 2; 5] /\
  leaks {[0; 1; 2]} (life (mkSockEnv 3 0 0 (-1) 98) true []).2.
Proof.
  intros ok life.
  do 4 (split; [apply (bool_decide_eq_true_1 _); vm_compute; reflexivity|]).
  pose proof (descriptors_balanced Little (fun _ => Some [127; 0; 0; 1]) (fun _ => ok)
    (mkSockEnv 3 0 0 (-1) 98) (fun _ => 0) (fun _ => None) (fun _ => None) 1 (fun _ => (0, 7, 8))
    (fun _ => true) [mkAddress "a" 1; mkAddress "a" 2; mkAddress "a" 1] 0 false
    ([(RecvPacket [1], ok); (RecvPacket [2], ok)] ++ []) {[0; 1; 2]}) as Hb.
  cbv zeta in Hb.
  assert ((life (mkSockEnv 3 0 0 (-1) 98) true []).1 = Throw (BindException 98)) as Ht
    by (vm_compute; reflexivity).
  unfold life in Ht |- *.
  destruct (Process_fd _ _ _ _ _ _ _ _ _ _ _ _ _ _) as [[[[g r] d]|ex] fds']; [discriminate|exact Hb].
Defined.
