(* ===== verification/System.v ===== *)
(** * The system of processes

    All processes of the hostfile, their sender threads and the network between
    them, as a labelled transition system.  A link [(i, j)] carries the datagrams that
    the client of process [i] for process [j] sends to the server of [j]; the
    replies travel back to that client and may be lost, duplicated and reordered.
    On links datagrams may be lost and duplicated, and also reordered when the
    parameter [reorder] is set.  Datagrams from outside that are not messages of the
    algorithm may arrive at any server, and at any client datagrams that are not the
    acknowledgement it waits for. *)

From Stdlib Require Import ZArith Lia.
From stdpp Require Import base list functions.
From S2P Require Import Prelude Exceptions Wire Net Udp HoldBack Process Sender.

Open Scope Z_scope.

(** How far a process has got: its server runs; the server has thrown, and the
    destructor of the thread group waits for the multicast threads; or the process has
    ended (an exception that leaves a thread ends it at once). *)
Inductive node_status := Running | Joining | Down.

#[export] Instance node_status_eq_dec : EqDecision node_status.
Proof. solve_decision. Defined.

(** A process with what it has delivered. *)
Record node := mkNode {
  n_proc : Process;
  n_log : list SeqMessage;
  n_status : node_status
}.

Record sys := mkSys {
  s_nodes : list node;
  s_threads : list thread;
  s_links : nat * nat -> list (list Z);
  s_acks : nat * nat -> list (list Z);
  s_locks : nat * nat -> option nat   (* the holder of the client's mutex *)
}.

Definition set_threads (s : sys) (l : list thread) : sys :=
  mkSys (s_nodes s) l (s_links s) (s_acks s) (s_locks s).
Definition set_nodes (s : sys) (l : list node) : sys :=
  mkSys l (s_threads s) (s_links s) (s_acks s) (s_locks s).
Definition set_links (s : sys) (f : nat * nat -> list (list Z)) : sys :=
  mkSys (s_nodes s) (s_threads s) f (s_acks s) (s_locks s).
Definition set_acks (s : sys) (f : nat * nat -> list (list Z)) : sys :=
  mkSys (s_nodes s) (s_threads s) (s_links s) f (s_locks s).
Definition set_locks (s : sys) (f : nat * nat -> option nat) : sys :=
  mkSys (s_nodes s) (s_threads s) (s_links s) (s_acks s) f.

(** ** The configuration *)

(** One [LaunchMulticastSender] call: the process and its random draws. *)
Record launch_cfg := mkLaunch {
  lc_proc : nat;
  lc_msg_id : Z;
  lc_data : Z;
  lc_uninit : Z
}.

Record config := mkConfig {
  cf_addresses : list Address;
  cf_launches : list launch_cfg;
  cf_endian : nat -> endian;
  cf_delays : nat -> bool;
  cf_reorder : bool
}.

Definition cf_count (c : config) : nat := length (cf_addresses c).

Definition init_node (c : config) (i : nat) : node :=
  mkNode (make_Process (cf_addresses c) (Z.of_nat i) (cf_delays c i)) [] Running.

Definition init_sys (c : config) : sys :=
  mkSys (init_node c <$> seq 0 (cf_count c))
    ((fun l => launch (cf_count c) (lc_proc l) (lc_uninit l) (lc_msg_id l) (lc_data l))
       <$> cf_launches c)
    (fun _ => []) (fun _ => []) (fun _ => None).

(** ** Transitions *)

Inductive label :=
| LAcquire (t : nat)                            (* lock the client's mutex *)
| LSend (t : nat) (sendto : option Z)           (* sendto in SendWithAck *)
| LAck (t : nat) (k : nat) (keep : bool)        (* recvfrom reads reply k *)
| LStray (t : nat) (pkt : list Z)               (* recvfrom reads a datagram from outside *)
| LRecvError (t : nat) (errno : Z)              (* recvfrom fails or times out *)
| LFinish (t : nat) (uninit : Z)                (* choose the final number *)
| LServe (i j : nat) (uninit : Z) (sendto : option Z)  (* the server of j *)
| LServerFail (j : nat)                         (* recvfrom or the reply socket fails *)
| LForeign (j : nat) (pkt : list Z) (uninit : Z) (sendto : option Z)
                                                (* the server of j, a datagram from outside *)
| LLose (i j k : nat)
| LDuplicate (i j k : nat)
| LSwap (i j k : nat)
| LLoseAck (i j k : nat)
| LExit (j : nat)                               (* the threads of j are joined *)
| LCrash (i : nat).                             (* any other end of process i *)

Definition crash (s : sys) (i : nat) : sys :=
  set_nodes s (alter (fun nd => mkNode (n_proc nd) (n_log nd) Down) i (s_nodes s)).

Definition is_up (s : sys) (i : nat) : bool :=
  match s_nodes s !! i with
  | Some nd => match n_status nd with Down => false | _ => true end
  | None => false
  end.

Definition replies (acts : list action) : list (list Z) :=
  omap (fun a => match a with AReply p => Some p | _ => None end) acts.
Definition deliveries (acts : list action) : list SeqMessage :=
  omap (fun a => match a with ADeliver m => Some m | _ => None end) acts.

(** [recvfrom] answers thread [t]: the new state of the thread and of the mutex. *)
Definition thread_answer (c : config) (s : sys) (t : nat) (th : thread)
    (r : recv_result) : sys :=
  match thread_recv (cf_endian c (t_proc th)) th r with
  | Throw _ => crash s (t_proc th)
  | Ok th' =>
      let s' := set_threads s (<[t := th']> (s_threads s)) in
      match t_conn th' with
      | Unlocked => set_locks s' (<[(t_proc th, t_peer th) := None]> (s_locks s'))
      | _ => s'
      end
  end.

(** Reply [k] of a link is read; the network may keep a copy of it. *)
Definition take_ack (s : sys) (ij : nat * nat) (k : nat) (keep : bool) : sys :=
  if keep then s else set_acks s (<[ij := delete k (s_acks s ij)]> (s_acks s)).

(** The server of [j] handles the datagram [pkt] of process [i]. *)
Definition serve (c : config) (s : sys) (i j : nat) (nd : node) (pkt : list Z)
    (uninit : Z) (sendto : option Z) : sys :=
  let '(p', acts, ex) :=
    OnReceive (cf_endian c j) uninit sendto (n_proc nd) (recv_buf pkt) (recv_len pkt) in
  let nd' := mkNode p' (n_log nd ++ deliveries acts)
               (match ex with Some _ => Joining | None => n_status nd end) in
  mkSys (<[j := nd']> (s_nodes s)) (s_threads s) (s_links s)
    (<[(i, j) := s_acks s (i, j) ++ replies acts]> (s_acks s)) (s_locks s).

(** The server of [j] handles a datagram that comes from none of the processes; a reply
    would leave the system. *)
Definition serve_foreign (c : config) (s : sys) (j : nat) (nd : node) (pkt : list Z)
    (uninit : Z) (sendto : option Z) : sys :=
  let '(p', acts, ex) :=
    OnReceive (cf_endian c j) uninit sendto (n_proc nd) (recv_buf pkt) (recv_len pkt) in
  set_nodes s
    (<[j := mkNode p' (n_log nd ++ deliveries acts)
              (match ex with Some _ => Joining | None => n_status nd end)]> (s_nodes s)).

Definition swap_at {A} (k : nat) (l : list A) : list A :=
  match l !! k, l !! S k with
  | Some a, Some b => <[k := b]> (<[S k := a]> l)
  | _, _ => l
  end.

(** The thread has been acknowledged by every process in both of its loops. *)
Definition finished (c : config) (th : thread) : Prop :=
  t_peer th = cf_count c /\ match t_job th with JSeq _ => True | JData _ => False end.

#[export] Instance finished_dec c th : Decision (finished c th).
Proof. unfold finished. destruct (t_job th); apply _. Defined.

(** [JoinAll] returns in process [j]: every thread it launched has ended. *)
Definition joinable (c : config) (s : sys) (j : nat) : Prop :=
  Forall (fun th => t_proc th = j -> finished c th) (s_threads s).

#[export] Instance joinable_dec c s j : Decision (joinable c s j).
Proof. apply _. Defined.

(** The effect of a label, when it is enabled. *)
Definition exec (c : config) (l : label) (s : sys) : option sys :=
  match l with
  | LAcquire t =>
      match s_threads s !! t with
      | Some th =>
          match t_conn th, s_locks s (t_proc th, t_peer th) with
          | Unlocked, None =>
              if is_up s (t_proc th) && bool_decide (t_peer th < cf_count c)%nat then
                Some (set_locks
                  (set_threads s (<[t := set_conn th (Sending 1)]> (s_threads s)))
                  (<[(t_proc th, t_peer th) := Some t]> (s_locks s)))
              else None
          | _, _ => None
          end
      | None => None
      end
  | LSend t sendto =>
      match s_threads s !! t with
      | Some th =>
          match t_conn th with
          | Sending b =>
              if is_up s (t_proc th) then
                match Send sendto with
                | Some _ => Some (crash s (t_proc th))
                | None =>
                    Some (set_links
                      (set_threads s (<[t := set_conn th (WaitingAck b)]> (s_threads s)))
                      (<[(t_proc th, t_peer th) :=
                          s_links s (t_proc th, t_peer th) ++
                          [thread_packet (cf_endian c (t_proc th)) th]]> (s_links s)))
                end
              else None
          | _ => None
          end
      | None => None
      end
  | LAck t k keep =>
      match s_threads s !! t with
      | Some th =>
          match t_conn th, s_acks s (t_proc th, t_peer th) !! k with
          | WaitingAck _, Some pkt =>
              if is_up s (t_proc th) then
                Some (thread_answer c (take_ack s (t_proc th, t_peer th) k keep) t th
                        (RecvPacket pkt))
              else None
          | _, _ => None
          end
      | None => None
      end
  | LStray t pkt =>
      match s_threads s !! t with
      | Some th =>
          match t_conn th with
          | WaitingAck _ =>
              if is_up s (t_proc th) && stray (cf_endian c (t_proc th)) th pkt then
                Some (thread_answer c s t th (RecvPacket pkt))
              else None
          | _ => None
          end
      | None => None
      end
  | LRecvError t errno =>
      match s_threads s !! t with
      | Some th =>
          match t_conn th with
          | WaitingAck _ =>
              if is_up s (t_proc th) then
                Some (thread_answer c s t th (RecvError errno))
              else None
          | _ => None
          end
      | None => None
      end
  | LFinish t uninit =>
      match s_threads s !! t with
      | Some th =>
          match t_job th, t_conn th with
          | JData _, Unlocked =>
              if is_up s (t_proc th) && bool_decide (t_peer th = cf_count c) then
                Some (set_threads s (<[t := thread_finish uninit th]> (s_threads s)))
              else None
          | _, _ => None
          end
      | None => None
      end
  | LServe i j uninit sendto =>
      match s_nodes s !! j, s_links s (i, j) with
      | Some nd, pkt :: rest =>
          match n_status nd with
          | Running =>
              Some (serve c (set_links s (<[(i, j) := rest]> (s_links s))) i j nd pkt
                      uninit sendto)
          | _ => None
          end
      | _, _ => None
      end
  | LServerFail j =>
      match s_nodes s !! j with
      | Some nd =>
          match n_status nd with
          | Running =>
              Some (set_nodes s (<[j := mkNode (n_proc nd) (n_log nd) Joining]> (s_nodes s)))
          | _ => None
          end
      | None => None
      end
  | LExit j =>
      match s_nodes s !! j with
      | Some nd =>
          match n_status nd with
          | Joining =>
              if bool_decide (joinable c s j) then Some (crash s j) else None
          | _ => None
          end
      | None => None
      end
  | LForeign j pkt uninit sendto =>
      match s_nodes s !! j with
      | Some nd =>
          match n_status nd with
          | Running =>
              if is_noise (cf_endian c j) (n_proc nd) (recv_buf pkt) (recv_len pkt) then
                Some (serve_foreign c s j nd pkt uninit sendto)
              else None
          | _ => None
          end
      | None => None
      end
  | LLose i j k =>
      Some (set_links s (<[(i, j) := delete k (s_links s (i, j))]> (s_links s)))
  | LDuplicate i j k =>
      match s_links s (i, j) !! k with
      | Some pkt =>
          let l := s_links s (i, j) in
          Some (set_links s (<[(i, j) := take k l ++ pkt :: drop k l]> (s_links s)))
      | None => None
      end
  | LSwap i j k =>
      if cf_reorder c then
        Some (set_links s (<[(i, j) := swap_at k (s_links s (i, j))]> (s_links s)))
      else None
  | LLoseAck i j k =>
      Some (set_acks s (<[(i, j) := delete k (s_acks s (i, j))]> (s_acks s)))
  | LCrash i => Some (crash s i)
  end.

(** The same as a relation, one rule for each way a label acts. *)
Inductive step (c : config) (s : sys) : label -> sys -> Prop :=
| step_acquire t th :
    s_threads s !! t = Some th -> t_conn th = Unlocked ->
    s_locks s (t_proc th, t_peer th) = None -> is_up s (t_proc th) = true ->
    (t_peer th < cf_count c)%nat ->
    step c s (LAcquire t)
      (set_locks (set_threads s (<[t := set_conn th (Sending 1)]> (s_threads s)))
         (<[(t_proc th, t_peer th) := Some t]> (s_locks s)))
| step_send t th b sendto :
    s_threads s !! t = Some th -> t_conn th = Sending b -> is_up s (t_proc th) = true ->
    Send sendto = None ->
    step c s (LSend t sendto)
      (set_links (set_threads s (<[t := set_conn th (WaitingAck b)]> (s_threads s)))
         (<[(t_proc th, t_peer th) :=
             s_links s (t_proc th, t_peer th) ++
             [thread_packet (cf_endian c (t_proc th)) th]]> (s_links s)))
| step_send_fails t th b sendto ex :
    s_threads s !! t = Some th -> t_conn th = Sending b -> is_up s (t_proc th) = true ->
    Send sendto = Some ex -> step c s (LSend t sendto) (crash s (t_proc th))
| step_ack t th b k keep pkt :
    s_threads s !! t = Some th -> t_conn th = WaitingAck b ->
    s_acks s (t_proc th, t_peer th) !! k = Some pkt -> is_up s (t_proc th) = true ->
    step c s (LAck t k keep)
      (thread_answer c (take_ack s (t_proc th, t_peer th) k keep) t th (RecvPacket pkt))
| step_stray t th b pkt :
    s_threads s !! t = Some th -> t_conn th = WaitingAck b -> is_up s (t_proc th) = true ->
    stray (cf_endian c (t_proc th)) th pkt = true ->
    step c s (LStray t pkt) (thread_answer c s t th (RecvPacket pkt))
| step_recv_error t th b errno :
    s_threads s !! t = Some th -> t_conn th = WaitingAck b -> is_up s (t_proc th) = true ->
    step c s (LRecvError t errno) (thread_answer c s t th (RecvError errno))
| step_finish t th seqs u :
    s_threads s !! t = Some th -> t_job th = JData seqs -> t_conn th = Unlocked ->
    is_up s (t_proc th) = true -> t_peer th = cf_count c ->
    step c s (LFinish t u) (set_threads s (<[t := thread_finish u th]> (s_threads s)))
| step_serve i j nd pkt rest u sendto :
    s_nodes s !! j = Some nd -> n_status nd = Running -> s_links s (i, j) = pkt :: rest ->
    step c s (LServe i j u sendto)
      (serve c (set_links s (<[(i, j) := rest]> (s_links s))) i j nd pkt u sendto)
| step_server_fail j nd :
    s_nodes s !! j = Some nd -> n_status nd = Running ->
    step c s (LServerFail j)
      (set_nodes s (<[j := mkNode (n_proc nd) (n_log nd) Joining]> (s_nodes s)))
| step_exit j nd :
    s_nodes s !! j = Some nd -> n_status nd = Joining -> joinable c s j ->
    step c s (LExit j) (crash s j)
| step_foreign j nd pkt u sendto :
    s_nodes s !! j = Some nd -> n_status nd = Running ->
    is_noise (cf_endian c j) (n_proc nd) (recv_buf pkt) (recv_len pkt) = true ->
    step c s (LForeign j pkt u sendto) (serve_foreign c s j nd pkt u sendto)
| step_lose i j k :
    step c s (LLose i j k)
      (set_links s (<[(i, j) := delete k (s_links s (i, j))]> (s_links s)))
| step_duplicate i j k pkt :
    s_links s (i, j) !! k = Some pkt ->
    step c s (LDuplicate i j k)
      (set_links s
         (<[(i, j) := take k (s_links s (i, j)) ++ pkt :: drop k (s_links s (i, j))]>
            (s_links s)))
| step_swap i j k :
    cf_reorder c = true ->
    step c s (LSwap i j k)
      (set_links s (<[(i, j) := swap_at k (s_links s (i, j))]> (s_links s)))
| step_lose_ack i j k :
    step c s (LLoseAck i j k)
      (set_acks s (<[(i, j) := delete k (s_acks s (i, j))]> (s_acks s)))
| step_crash i : step c s (LCrash i) (crash s i).

(** Splits the tests of [exec]. *)
Ltac exec_cases He :=
  repeat match type of He with
  | context [match ?x with _ => _ end] => destruct x eqn:?; try discriminate He
  end.

(** The two agree. *)
Lemma exec_step c l s s' : exec c l s = Some s' -> step c s l s'.
Proof.
  destruct l; cbn [exec]; intros He; exec_cases He; injection He as <-;
    repeat match goal with
    | H : _ && _ = true |- _ => apply andb_true_iff in H as [? ?]
    | H : bool_decide _ = true |- _ => apply bool_decide_eq_true in H
    end; econstructor; eauto.
Qed.

Lemma step_exec c l s s' : step c s l s' -> exec c l s = Some s'.
Proof.
  destruct 1; cbn [exec];
    repeat match goal with H : _ = _ |- _ => rewrite H end;
    rewrite ?bool_decide_eq_true_2 by done; done.
Qed.

(** Foreign datagrams change nothing. *)
Lemma serve_foreign_same c s j nd pkt u sendto :
  s_nodes s !! j = Some nd ->
  is_noise (cf_endian c j) (n_proc nd) (recv_buf pkt) (recv_len pkt) = true ->
  serve_foreign c s j nd pkt u sendto = s.
Proof.
  intros Hj Hn. unfold serve_foreign.
  destruct (OnReceive_noise _ u sendto _ _ _ Hn) as [logs ->].
  assert (deliveries (ALog <$> logs) = []) as -> by (induction logs as [|x logs IH]; done).
  rewrite app_nil_r. destruct nd, s. unfold set_nodes. simpl in *. by rewrite list_insert_id.
Qed.

Inductive reachable (c : config) : sys -> Prop :=
| reach_init : reachable c (init_sys c)
| reach_step l s s' : reachable c s -> exec c l s = Some s' -> reachable c s'.

(** Runs a list of labels. *)
Fixpoint exec_all (c : config) (ls : list label) (s : sys) : option sys :=
  match ls with
  | [] => Some s
  | l :: ls' => match exec c l s with Some s' => exec_all c ls' s' | None => None end
  end.

Lemma exec_all_reachable c ls s s' :
  reachable c s -> exec_all c ls s = Some s' -> reachable c s'.
Proof.
  revert s. induction ls as [|l ls IH]; intros s Hr He; simpl in He; [by simplify_eq|].
  destruct (exec c l s) eqn:E; [|done]. eauto using reach_step.
Qed.

(** What a delivery shows: sender, message id, final number and its proposer (the
    type field of the message handed to the callback is not initialised). *)
Definition shown (m : SeqMessage) : Z * Z * Z * Z :=
  (sm_sender m, sm_msg_id m, sm_final_seq m, sm_final_seq_proposer m).

Definition delivered (nd : node) : list (Z * Z * Z * Z) := shown <$> n_log nd.
