(* ===== verification/RunFacts.v ===== *)
(** * Facts about every run

    What holds of the transitions of [System.exec] whatever the network does,
    reordering included: threads keep their message, deliveries are never
    retracted, and the mutex of a client is held by exactly the thread that is in an
    exchange on it. *)

From Stdlib Require Import ZArith Lia.
From stdpp Require Import base list functions.
From S2P Require Import Prelude Exceptions Wire Net Udp HoldBack Process Sender System.

Open Scope Z_scope.

(** The part of a thread that never changes. *)
Definition thread_ident (th : thread) : nat * DataMessage := (t_proc th, t_msg th).

(** The messages of the launches, by key. *)
Definition launch_key (l : launch_cfg) : PendingMessageKey :=
  mkPMK (Z.of_nat (lc_proc l)) (lc_msg_id l).

(** What process [q] has delivered so far, as its callback shows it. *)
Definition log_of (s : sys) (q : nat) : list (Z * Z * Z * Z) :=
  match s_nodes s !! q with Some nd => delivered nd | None => [] end.

(** The client on which the thread is in an exchange, as (process, peer). *)
Definition held (th : thread) : option (nat * nat) :=
  match t_conn th with
  | Unlocked => None
  | Sending _ | WaitingAck _ => Some (t_proc th, t_peer th)
  end.

(** The mutex of a client is held by a thread exactly while the thread is in an
    exchange on that client. *)
Definition lock_inv (s : sys) : Prop :=
  forall t ij,
    s_locks s ij = Some t <-> exists th, s_threads s !! t = Some th /\ held th = Some ij.

(** ** How a step changes the threads, the logs and the mutexes *)

(** At most one thread moves. *)
Definition threads_step (c : config) (s s' : sys) : Prop :=
  s_threads s' = s_threads s \/
  exists t th th', s_threads s !! t = Some th /\
    thread_move (cf_endian c (t_proc th)) (cf_count c) th th' /\
    s_threads s' = <[t := th']> (s_threads s).

Lemma thread_recv_ident e th r th' :
  thread_recv e th r = Ok th' -> thread_ident th' = thread_ident th.
Proof.
  unfold thread_recv. intros H. destruct (t_conn th); [by simplify_eq..|].
  destruct (t_job th); destruct (swa_on_recv _ _ _ _); by simplify_eq.
Qed.

Lemma thread_finish_ident u th : thread_ident (thread_finish u th) = thread_ident th.
Proof. unfold thread_finish. destruct (t_job th); [|done]. by destruct (select_final _). Qed.

Lemma thread_move_ident e n th th' :
  thread_move e n th th' -> thread_ident th' = thread_ident th.
Proof.
  intros [| |b r th1 _ Hr|]; [done|done| |apply thread_finish_ident].
  by eapply thread_recv_ident.
Qed.

Lemma thread_answer_threads c s t th b r :
  s_threads s !! t = Some th -> t_conn th = WaitingAck b ->
  threads_step c s (thread_answer c s t th r).
Proof.
  intros Ht Hcn. unfold thread_answer.
  destruct (thread_recv _ _ _) as [th'|] eqn:E; [|by left].
  right. exists t, th, th'. split_and!; [done|by eapply move_recv|].
  by destruct (t_conn th').
Qed.

Lemma serve_threads c s i j nd pkt u w :
  s_threads (serve c s i j nd pkt u w) = s_threads s.
Proof. unfold serve. by destruct (OnReceive _ _ _ _ _ _) as [[? ?] ?]. Qed.

Lemma serve_locks c s i j nd pkt u w :
  s_locks (serve c s i j nd pkt u w) = s_locks s.
Proof. unfold serve. by destruct (OnReceive _ _ _ _ _ _) as [[? ?] ?]. Qed.

Lemma exec_threads c l s s' : exec c l s = Some s' -> threads_step c s s'.
Proof.
  assert (Hm : forall t th th', s_threads s !! t = Some th ->
    thread_move (cf_endian c (t_proc th)) (cf_count c) th th' ->
    s_threads s' = <[t := th']> (s_threads s) -> threads_step c s s').
  { intros t th th' ???. right. by exists t, th, th'. }
  intros Hs%exec_step. destruct Hs.
  - by eapply Hm; [|apply move_lock|].
  - by eapply Hm; [|apply move_sent|].
  - by left.
  - destruct keep; [by eapply thread_answer_threads|].
    by eapply (thread_answer_threads c (set_acks s _)).
  - by eapply thread_answer_threads.
  - by eapply thread_answer_threads.
  - by eapply Hm; [|eapply move_finish|].
  - left. by rewrite (serve_threads c (set_links s _)).
  - by left.
  - by left.
  - left. by rewrite serve_foreign_same.
  - by left.
  - by left.
  - by left.
  - by left.
  - by left.
Qed.

Lemma exec_threads_length c l s s' :
  exec c l s = Some s' -> length (s_threads s') = length (s_threads s).
Proof.
  intros [->|(t & th & th' & _ & _ & ->)]%exec_threads; [done|]. apply length_insert.
Qed.

Lemma reachable_ident c s :
  reachable c s ->
  thread_ident <$> s_threads s = thread_ident <$> s_threads (init_sys c).
Proof.
  induction 1 as [|l s s' _ IH He]; [done|]. rewrite <- IH.
  apply exec_threads in He as [->|(t & th & th' & Ht & Hi%thread_move_ident & ->)]; [done|].
  rewrite list_fmap_insert, Hi. apply list_insert_id. by rewrite list_lookup_fmap, Ht.
Qed.

(** The messages of the threads are the launched ones. *)
Lemma reachable_keys c s :
  reachable c s ->
  (fun th => data_key (t_msg th)) <$> s_threads s = launch_key <$> cf_launches c.
Proof.
  intros Hr%reachable_ident.
  apply (f_equal (fmap (fun x => data_key x.2))) in Hr.
  rewrite <- !list_fmap_compose in Hr. simpl in Hr. rewrite <- list_fmap_compose in Hr.
  exact Hr.
Qed.

(** ** Deliveries are final *)

Lemma log_of_crash s i q : log_of (crash s i) q = log_of s q.
Proof.
  unfold log_of, crash. simpl. rewrite list_lookup_alter. case_decide; [|done]. subst.
  by destruct (s_nodes s !! q).
Qed.

Lemma log_of_answer c s t th r q : log_of (thread_answer c s t th r) q = log_of s q.
Proof.
  unfold thread_answer. destruct (thread_recv _ _ _) as [th'|]; [|apply log_of_crash].
  by destruct (t_conn th').
Qed.

(** The only label that delivers is [LServe]. *)
Lemma exec_log c l s s' :
  exec c l s = Some s' ->
  (forall q, log_of s' q = log_of s q) \/
  exists j nd nd', s_nodes s !! j = Some nd /\
    n_log nd `prefix_of` n_log nd' /\ s_nodes s' = <[j := nd']> (s_nodes s).
Proof.
  intros Hs%exec_step.
  destruct Hs; try (left; intros q; by rewrite ?log_of_crash, ?log_of_answer, ?serve_foreign_same).
  - left. intros q. rewrite log_of_answer. by destruct keep.
  - right. exists j, nd. unfold serve. destruct (OnReceive _ _ _ _ _ _) as [[p acts] ex]. eexists.
    split_and!; [done| |reflexivity]. by eexists.
  - right. exists j, nd. eexists. split_and!; [done| |reflexivity]. done.
Qed.

(** A step extends the log of at most one process. *)
Lemma exec_log_change c l s s' :
  exec c l s = Some s' ->
  (forall q, log_of s' q = log_of s q) \/
  exists j, (j < length (s_nodes s))%nat /\ log_of s j `prefix_of` log_of s' j /\
    forall q, q <> j -> log_of s' q = log_of s q.
Proof.
  intros [?|(j & nd & nd' & Hj & [ext Hp] & Hs')]%exec_log; [by left|right].
  exists j. unfold log_of. rewrite Hs'.
  assert (j < length (s_nodes s))%nat as Hlt by (by eapply lookup_lt_Some).
  rewrite list_lookup_insert_eq, Hj by done. split_and!; [done| |].
  - unfold delivered. rewrite Hp, fmap_app. by exists (shown <$> ext).
  - intros q Hne. by rewrite list_lookup_insert_ne.
Qed.

Lemma exec_log_prefix c l s s' q :
  exec c l s = Some s' -> log_of s q `prefix_of` log_of s' q.
Proof.
  intros [->|(j & _ & Hp & Hne)]%exec_log_change; [done|].
  destruct (decide (q = j)) as [->|Hq]; [done|by rewrite Hne].
Qed.

(** ** Mutual exclusion *)

Lemma lock_inv_update s s' t th th' :
  lock_inv s -> s_threads s !! t = Some th ->
  s_threads s' = <[t := th']> (s_threads s) ->
  (forall u ij, s_locks s' ij = Some u <->
     (u = t /\ held th' = Some ij) \/ (u <> t /\ s_locks s ij = Some u)) ->
  lock_inv s'.
Proof.
  intros Hl Ht Hs' Hlk u ij. rewrite Hlk, Hs'. destruct (decide (u = t)) as [->|Hne].
  - rewrite list_lookup_insert_eq by (by eapply lookup_lt_Some). naive_solver.
  - rewrite list_lookup_insert_ne by done. rewrite (Hl u ij). naive_solver.
Qed.

(** The thread keeps what it holds. *)
Lemma lock_inv_same s s' t th th' :
  lock_inv s -> s_threads s !! t = Some th -> held th' = held th ->
  s_threads s' = <[t := th']> (s_threads s) -> s_locks s' = s_locks s -> lock_inv s'.
Proof.
  intros Hl Ht Hh Hs' Hlk. eapply lock_inv_update; [done..|]. intros u ij.
  rewrite Hlk, Hh. pose proof (Hl u ij) as H. split.
  - intros Hu. destruct (decide (u = t)) as [->|]; [left|by right].
    apply H in Hu as (x & Hx & ?). by simplify_eq.
  - intros [[-> Hu]|[_ Hu]]; [apply H; eauto|done].
Qed.

(** The thread locks a free mutex. *)
Lemma lock_inv_acquire s s' t th th' ij :
  lock_inv s -> s_threads s !! t = Some th -> held th = None -> held th' = Some ij ->
  s_locks s ij = None ->
  s_threads s' = <[t := th']> (s_threads s) ->
  s_locks s' = <[ij := Some t]> (s_locks s) -> lock_inv s'.
Proof.
  intros Hl Ht Hh Hh' Hfree Hs' Hlk. eapply lock_inv_update; [done..|]. intros u ij'.
  rewrite Hlk, Hh'. destruct (decide (ij = ij')) as [<-|Hne].
  - rewrite fn_lookup_insert. naive_solver congruence.
  - rewrite fn_lookup_insert_ne by done. split; [|naive_solver congruence].
    intros Hu. right. split; [|done]. intros ->. apply Hl in Hu as (x & Hx & ?).
    by simplify_eq.
Qed.

(** The thread unlocks the mutex it holds. *)
Lemma lock_inv_release s s' t th th' ij :
  lock_inv s -> s_threads s !! t = Some th -> held th = Some ij -> held th' = None ->
  s_threads s' = <[t := th']> (s_threads s) ->
  s_locks s' = <[ij := None]> (s_locks s) -> lock_inv s'.
Proof.
  intros Hl Ht Hh Hh' Hs' Hlk. eapply lock_inv_update; [done..|]. intros u ij'.
  rewrite Hlk, Hh'. destruct (decide (ij = ij')) as [<-|Hne].
  - rewrite fn_lookup_insert. split; [done|]. intros [[_ ?]|[Hu Hx]]; [done|].
    assert (s_locks s ij = Some t) by (apply Hl; eauto). congruence.
  - rewrite fn_lookup_insert_ne by done. split; [|naive_solver].
    intros Hu. right. split; [|done]. intros ->. apply Hl in Hu as (x & Hx & ?).
    congruence.
Qed.

Lemma thread_recv_peer e th r th' :
  thread_recv e th r = Ok th' ->
  t_proc th' = t_proc th /\ (t_conn th' = Unlocked \/ t_peer th' = t_peer th).
Proof.
  unfold thread_recv. intros H. destruct (t_conn th) eqn:E; [by simplify_eq; auto..|].
  destruct (t_job th); destruct (swa_on_recv _ _ _ _); simplify_eq; simpl; auto.
Qed.

Lemma lock_inv_answer c s t th b r :
  lock_inv s -> s_threads s !! t = Some th -> t_conn th = WaitingAck b ->
  lock_inv (thread_answer c s t th r).
Proof.
  intros Hl Ht Hc. unfold thread_answer. destruct (thread_recv _ _ _) as [th'|] eqn:E; [|done].
  destruct (thread_recv_peer _ _ _ _ E) as [Hp Hq].
  assert (held th = Some (t_proc th, t_peer th)) as Hh by (unfold held; by rewrite Hc).
  destruct (t_conn th') eqn:Ec.
  - eapply (lock_inv_release s _ t th th'); try done. unfold held. by rewrite Ec.
  - eapply (lock_inv_same s _ t th th'); try done. destruct Hq as [?|Hq]; [done|].
    rewrite Hh. unfold held. by rewrite Ec, Hp, Hq.
  - eapply (lock_inv_same s _ t th th'); try done. destruct Hq as [?|Hq]; [done|].
    rewrite Hh. unfold held. by rewrite Ec, Hp, Hq.
Qed.

Lemma exec_lock_inv c l s s' : lock_inv s -> exec c l s = Some s' -> lock_inv s'.
Proof.
  intros Hl Hs%exec_step. destruct Hs as
    [t th Ht Ec El _ _|t th b w Ht Ec _ _| |t th b k keep pkt Ht Ec _ _|t th b r Ht Ec _ _|t th b r Ht Ec _
    |t th seqs u Ht Ej Ec _ _|i j nd pkt rest u w _ _ _| | | | | | | |]; try done.
  - eapply (lock_inv_acquire s _ t th (set_conn th (Sending 1)) (t_proc th, t_peer th));
      try done. unfold held. by rewrite Ec.
  - eapply (lock_inv_same s _ t th (set_conn th (WaitingAck b))); try done.
    unfold held. by rewrite Ec.
  - by destruct keep; eapply lock_inv_answer.
  - by eapply lock_inv_answer.
  - by eapply lock_inv_answer.
  - eapply (lock_inv_same s _ t th (thread_finish u th)); try done.
    unfold held, thread_finish. rewrite Ec, Ej. by destruct (select_final _).
  - unfold lock_inv. by rewrite (serve_threads c (set_links s _)), (serve_locks c (set_links s _)).
  - by rewrite serve_foreign_same.
Qed.

Lemma reachable_lock_inv c s : reachable c s -> lock_inv s.
Proof.
  induction 1; [|by eapply exec_lock_inv]. intros t ij. simpl. split; [done|].
  intros (th & Ht & Hh). apply list_lookup_fmap_Some in Ht as (l & -> & _). done.
Qed.
