(* ===== verification/History.v ===== *)
(** * What the parts of a system have seen of a run

    A run of [System.exec] is a list of labels.  Here are the histories it leaves with each
    part: the datagrams that the server of a process has received, the answers that a
    multicast thread has got, and the datagrams that the thread has put on the network.
    They are computed from the run: each label contributes what it hands over in the state
    in which it is executed. *)

From Stdlib Require Import ZArith Lia.
From stdpp Require Import functions base list gmap.
From S2P Require Import Prelude Exceptions Wire HoldBack Net Udp Process Sender.
From S2P Require Import Multicast Server System RunFacts.

Open Scope Z_scope.

(** ** Histories *)

(** [f l s] is what label [l] contributes when it is executed in state [s]. *)
Fixpoint history {X} (c : config) (f : label -> sys -> list X) (ls : list label) (s : sys)
  : list X :=
  match ls with
  | [] => []
  | l :: ls' => f l s ++ match exec c l s with Some s' => history c f ls' s' | None => [] end
  end.

Lemma exec_all_snoc c ls l s :
  exec_all c (ls ++ [l]) s = match exec_all c ls s with Some s' => exec c l s' | None => None end.
Proof.
  revert s. induction ls as [|x ls IH]; intros s; cbn [exec_all app].
  - by destruct (exec c l s).
  - by destruct (exec c x s).
Qed.

Lemma history_snoc {X} c (f : label -> sys -> list X) ls l s s' :
  exec_all c ls s = Some s' -> history c f (ls ++ [l]) s = history c f ls s ++ f l s'.
Proof.
  revert s. induction ls as [|x ls IH]; intros s He; cbn [exec_all app history] in *.
  - injection He as ->. by destruct (exec c l s'); rewrite app_nil_r.
  - destruct (exec c x s) as [s1|]; [|done]. by rewrite (IH s1 He), app_assoc.
Qed.

(** A run, seen from its last label. *)
Lemma run_ind c (P : list label -> sys -> Prop) :
  P [] (init_sys c) ->
  (forall ls s l s', exec_all c ls (init_sys c) = Some s -> P ls s -> exec c l s = Some s' ->
     P (ls ++ [l]) s') ->
  forall ls s, exec_all c ls (init_sys c) = Some s -> P ls s.
Proof.
  intros H0 Hstep ls. induction ls as [|l ls IH] using rev_ind; intros s He.
  - by injection He as <-.
  - rewrite exec_all_snoc in He. destruct (exec_all c ls (init_sys c)) as [s1|] eqn:E; [|done].
    eapply Hstep; [exact E|by apply IH|done].
Qed.

Lemma run_reach c ls s : exec_all c ls (init_sys c) = Some s -> reachable c s.
Proof. apply exec_all_reachable, reach_init. Qed.

(** ** Servers *)

(** One turn of the server loop: the datagram received and the process it comes from, or a
    failure; the value of what the handler leaves uninitialised, and the error of the reply. *)
Record turn := mkTurn {
  tn_from : option nat;
  tn_packet : option (list Z);
  tn_uninit : Z;
  tn_sendto : option Z
}.

Definition server_turns (j : nat) (l : label) (s : sys) : list turn :=
  match l with
  | LServe i j' u w =>
      if decide (j' = j) then
        match s_links s (i, j) with pkt :: _ => [mkTurn (Some i) (Some pkt) u w] | [] => [] end
      else []
  | LForeign j' pkt u w => if decide (j' = j) then [mkTurn None (Some pkt) u w] else []
  | LServerFail j' => if decide (j' = j) then [mkTurn None None 0 None] else []
  | _ => []
  end.

Definition server_history (c : config) (j : nat) (ls : list label) : list turn :=
  history c (server_turns j) ls (init_sys c).

(** The history as what [Listen] and the callback of [TotalOrder] are given; [errno] is the
    error of [recvfrom] in a server that has failed. *)
Definition good_socket : sock_env := mkSockEnv 3 0 0 0 0.

Definition turn_event (errno : Z) (x : turn) : recv_result * sock_env :=
  (match tn_packet x with Some pkt => RecvPacket pkt | None => RecvError errno end, good_socket).
Definition turn_events (errno : Z) (h : list turn) : list (recv_result * sock_env) :=
  turn_event errno <$> h.
Definition turn_uninit (h : list turn) (k : nat) : Z :=
  match h !! k with Some x => tn_uninit x | None => 0 end.
Definition turn_sendto (h : list turn) (k : nat) : option Z :=
  match h !! k with Some x => tn_sendto x | None => None end.

(** ** Threads *)

(** An answer that a thread has got: in which of its loops, from which process. *)
Record heard := mkHeard {
  hd_seq : bool;
  hd_peer : nat;
  hd_answer : net_answer
}.

Definition in_seq_loop (th : thread) : bool :=
  match t_job th with JData _ => false | JSeq _ => true end.

Definition hears (th : thread) (a : net_answer) : heard := mkHeard (in_seq_loop th) (t_peer th) a.

Definition thread_hears (t : nat) (l : label) (s : sys) : list heard :=
  match s_threads s !! t with
  | None => []
  | Some th =>
      match l with
      | LSend t' (Some errno) => if decide (t' = t) then [hears th (SendFails errno)] else []
      | LAck t' k _ =>
          if decide (t' = t) then
            match s_acks s (t_proc th, t_peer th) !! k with
            | Some pkt => [hears th (Answer (RecvPacket pkt))]
            | None => []
            end
          else []
      | LStray t' pkt => if decide (t' = t) then [hears th (Answer (RecvPacket pkt))] else []
      | LRecvError t' errno => if decide (t' = t) then [hears th (Answer (RecvError errno))] else []
      | _ => []
      end
  end.

Definition thread_history (c : config) (t : nat) (ls : list label) : list heard :=
  history c (thread_hears t) ls (init_sys c).

(** The answers to the exchanges of the two loops, by process. *)
Definition answers_in (seq : bool) (h : list heard) (pid : nat) : list net_answer :=
  hd_answer <$> filter (fun x => hd_seq x = seq /\ hd_peer x = pid) h.
Definition data_answers : list heard -> nat -> list net_answer := answers_in false.
Definition seq_answers : list heard -> nat -> list net_answer := answers_in true.

(** The datagrams that the thread has put on the network, with the process each is for. *)
Definition thread_sends (c : config) (t : nat) (l : label) (s : sys) : list (nat * list Z) :=
  match s_threads s !! t, l with
  | Some th, LSend t' None =>
      if decide (t' = t) then [(t_peer th, thread_packet (cf_endian c (t_proc th)) th)] else []
  | _, _ => []
  end.

Definition thread_sent (c : config) (t : nat) (ls : list label) : list (nat * list Z) :=
  history c (thread_sends c t) ls (init_sys c).

(** What the thread has found in the type field of its sequence message. *)
Definition finish_value (t : nat) (l : label) : option Z :=
  match l with LFinish t' u => if decide (t' = t) then Some u else None | _ => None end.

Definition thread_uninit (t : nat) (ls : list label) : Z := default 0 (last (omap (finish_value t) ls)).

(** ** Lemmas on histories *)

Lemma answers_in_snoc seq h x pid :
  answers_in seq (h ++ [x]) pid =
  answers_in seq h pid ++ (if decide (hd_seq x = seq /\ hd_peer x = pid) then [hd_answer x] else []).
Proof.
  unfold answers_in. rewrite filter_app, fmap_app. f_equal. case_decide.
  - by rewrite filter_cons_True.
  - by rewrite filter_cons_False.
Qed.

Lemma answers_in_more seq h x :
  hd_seq x = seq -> answers_more (hd_peer x) (hd_answer x) (answers_in seq h) (answers_in seq (h ++ [x])).
Proof.
  intros Hs. split; [|intros j Hj]; rewrite answers_in_snoc.
  - by rewrite decide_True.
  - rewrite decide_False by naive_solver. by rewrite app_nil_r.
Qed.

Lemma answers_in_other seq h x pid : hd_seq x <> seq -> answers_in seq (h ++ [x]) pid = answers_in seq h pid.
Proof. intros Hs. rewrite answers_in_snoc, decide_False by naive_solver. by rewrite app_nil_r. Qed.

Lemma thread_uninit_snoc t ls l :
  thread_uninit t (ls ++ [l]) = match finish_value t l with Some u => u | None => thread_uninit t ls end.
Proof.
  unfold thread_uninit. rewrite omap_app. simpl. destruct (finish_value t l).
  - by rewrite last_snoc.
  - by rewrite app_nil_r.
Qed.
