(* ===== verification/Projection.v ===== *)
(** * Every run of the system is a run of the code of its parts

    [System.exec] interleaves the steps of all processes, threads and links.  Here it is
    tied to the sequential definitions of the code: after every run, on any network, each
    process is where [TotalOrder] gets on the history of its server, and each thread is where
    [LaunchMulticastSender] gets on its own ([History]); what a server has received from
    another process was sent by a thread of that process. *)

From Stdlib Require Import ZArith Lia.
From stdpp Require Import functions base list gmap.
From S2P Require Import Prelude Exceptions Wire StdSet HoldBack Net Udp Process Sender.
From S2P Require Import Multicast Server System RunFacts History.

Open Scope Z_scope.

(** ** The server loop, one more event at a time *)

Lemma Listen_app {St} (rcv : St -> list Z -> nat -> St * result exn ServerAction) timeout
    st events more :
  (Listen rcv timeout st events).2 = Listening ->
  Listen rcv timeout st (events ++ more) = Listen rcv timeout (Listen rcv timeout st events).1 more.
Proof.
  revert st. induction events as [|[[pkt|errno] env] events IH]; intros st; simpl; [done| |].
  - destruct (CreateSocket env kNoTimeout); [|done].
    destruct (rcv st _ _) as [st' [[]|ex]]; [apply IH|done..].
  - destruct (IsErrnoTimeout errno), timeout as [on_timeout|]; try done.
    destruct (on_timeout st) as [st' []]; [apply IH|done].
Qed.

Section ServerRuns.
Context (e : endian).

Lemma Listen_handled u w st events :
  let r := Listen (server_callback e u w) None st events in
  r.2 = Listening -> ss_handled r.1 = (ss_handled st + length events)%nat.
Proof.
  revert st. induction events as [|[[pkt|errno] env] events IH]; intros st; simpl.
  - intros _. lia.
  - destruct (CreateSocket env kNoTimeout); [|done].
    unfold server_callback at 1 3. destruct (OnReceive _ _ _ _ _ _) as [[p acts] [x|]]; [done|].
    intros H. rewrite (IH _ H). simpl. lia.
  - by destruct (IsErrnoTimeout errno).
Qed.

(** The run depends only on what concerns the datagrams it has handled. *)
Lemma Listen_ext u u' w w' st events :
  (forall k, (k < ss_handled st + length events)%nat -> u' k = u k /\ w' k = w k) ->
  Listen (server_callback e u' w') None st events = Listen (server_callback e u w) None st events.
Proof.
  revert st. induction events as [|[[pkt|errno] env] events IH]; intros st Heq; simpl; [done| |done].
  destruct (CreateSocket env kNoTimeout); [|done].
  unfold server_callback at 1 3. destruct (Heq (ss_handled st)) as [-> ->]; [simpl; lia|].
  destruct (OnReceive _ _ _ _ _ _) as [[p acts] [x|]]; [done|].
  apply IH. intros k Hk. apply Heq. simpl in *. lia.
Qed.

End ServerRuns.

(** ** Processes *)

(** What a step does to a process; [arrived] are the datagrams its server can receive. *)
Inductive node_move (e : endian) (arrived : list Z -> Prop) (nd : node) : node -> Prop :=
| move_crash : node_move e arrived nd (mkNode (n_proc nd) (n_log nd) Down)
| move_fail :
    n_status nd = Running ->
    node_move e arrived nd (mkNode (n_proc nd) (n_log nd) Joining)
| move_serve u w pkt p acts ex :
    n_status nd = Running -> arrived pkt ->
    OnReceive e u w (n_proc nd) (recv_buf pkt) (recv_len pkt) = (p, acts, ex) ->
    node_move e arrived nd (mkNode p (n_log nd ++ deliveries acts)
                      (match ex with Some _ => Joining | None => Running end)).

Definition first_of_link (s : sys) (j : nat) (pkt : list Z) : Prop :=
  exists i rest, s_links s (i, j) = pkt :: rest.

Definition nodes_step (c : config) (s s' : sys) : Prop :=
  s_nodes s' = s_nodes s \/
  exists j nd nd', s_nodes s !! j = Some nd /\
    node_move (cf_endian c j) (first_of_link s j) nd nd' /\
    s_nodes s' = <[j := nd']> (s_nodes s).

Lemma crash_nodes c s i : nodes_step c s (crash s i).
Proof.
  unfold nodes_step, crash. simpl. destruct (s_nodes s !! i) as [nd|] eqn:E.
  - right. exists i, nd, (mkNode (n_proc nd) (n_log nd) Down).
    split_and!; [done|constructor|]. apply list_eq. intros k.
    rewrite list_lookup_alter. case_decide as Hk; [subst k|by rewrite list_lookup_insert_ne].
    rewrite list_lookup_insert_eq by (by eapply lookup_lt_Some). by rewrite E.
  - left. apply list_eq. intros k. rewrite list_lookup_alter. case_decide; [|done].
    subst. by rewrite E.
Qed.

Lemma answer_nodes c s t th r : nodes_step c s (thread_answer c s t th r).
Proof.
  unfold thread_answer. destruct (thread_recv _ _ _) as [th'|]; [|apply crash_nodes].
  left. by destruct (t_conn th').
Qed.

Lemma exec_nodes c l s s' : exec c l s = Some s' -> nodes_step c s s'.
Proof.
  intros Hs%exec_step.
  destruct Hs as [| | |t th b k keep pkt| | | |i j nd pkt rest u w Hj Hst Hl|j nd Hj Hst| | | | | | |];
    try (by left); try apply crash_nodes; try apply answer_nodes.
  - destruct keep; [apply answer_nodes|apply (answer_nodes c (set_acks s _))].
  - right. unfold serve. destruct (OnReceive _ _ _ _ _ _) as [[p acts] ex] eqn:Eo.
    eexists j, nd, _. split_and!; [done| |simpl; by rewrite Hst].
    eapply move_serve; [done| |done]. by exists i, rest.
  - right. eexists j, nd, _. split_and!; [done|by apply move_fail|done].
  - left. by rewrite serve_foreign_same.
Qed.

Lemma exec_nodes_length c l s s' :
  exec c l s = Some s' -> length (s_nodes s') = length (s_nodes s).
Proof.
  intros [->|(j & nd & nd' & _ & _ & ->)]%exec_nodes; [done|]. apply length_insert.
Qed.

(** ** Processes: the history of the server *)

(** What a step does to process [j]: nothing or a crash when its server takes no turn, and
    otherwise what the callback does with the datagram, or a failure. *)
Lemma exec_server c l s s' j nd :
  exec c l s = Some s' -> s_nodes s !! j = Some nd ->
  exists nd', s_nodes s' !! j = Some nd' /\
  match server_turns j l s with
  | [] => n_proc nd' = n_proc nd /\ n_log nd' = n_log nd /\
          (n_status nd' = n_status nd \/ n_status nd' = Down)
  | x :: more => more = [] /\ n_status nd = Running /\
      match tn_packet x with
      | None => nd' = mkNode (n_proc nd) (n_log nd) Joining
      | Some pkt =>
          let '(p, acts, ex) := OnReceive (cf_endian c j) (tn_uninit x) (tn_sendto x)
                                  (n_proc nd) (recv_buf pkt) (recv_len pkt) in
          nd' = mkNode p (n_log nd ++ deliveries acts)
                  (match ex with Some _ => Joining | None => Running end)
      end
  end.
Proof.
  intros Hs%exec_step Hj.
  assert (Hsame : s_nodes s' = s_nodes s -> exists nd', s_nodes s' !! j = Some nd' /\
    n_proc nd' = n_proc nd /\ n_log nd' = n_log nd /\
    (n_status nd' = n_status nd \/ n_status nd' = Down)).
  { intros ->. exists nd. auto. }
  assert (Hcrash : forall s0 i, s_nodes s0 = s_nodes s -> exists nd',
    s_nodes (crash s0 i) !! j = Some nd' /\ n_proc nd' = n_proc nd /\ n_log nd' = n_log nd /\
    (n_status nd' = n_status nd \/ n_status nd' = Down)).
  { intros s0 i Heq. unfold crash. simpl. rewrite Heq, list_lookup_alter. case_decide.
    - subst. rewrite Hj. simpl. eexists. split; [done|]. auto.
    - exists nd. auto. }
  assert (Hans : forall s0 t th r, s_nodes s0 = s_nodes s -> exists nd',
    s_nodes (thread_answer c s0 t th r) !! j = Some nd' /\ n_proc nd' = n_proc nd /\
    n_log nd' = n_log nd /\ (n_status nd' = n_status nd \/ n_status nd' = Down)).
  { intros s0 t th r Heq. unfold thread_answer. destruct (thread_recv _ _ _) as [th'|]; [|by apply Hcrash].
    exists nd. split; [|auto]. destruct (t_conn th'); simpl; by rewrite Heq. }
  destruct Hs as [| | |t th b k keep pkt| | | |i j' nd0 pkt rest u w Hj' Hst Hl|j' nd0 Hj' Hst| |
    j' nd0 pkt u w Hj' Hst Hn| | | | |]; cbn [server_turns]; auto.
  - apply Hans. by destruct keep.
  - destruct (decide (j' = j)) as [->|Hne].
    + rewrite Hj in Hj'. injection Hj' as <-. rewrite Hl. cbn [tn_packet tn_uninit tn_sendto].
      unfold serve. destruct (OnReceive _ _ _ _ _ _) as [[p acts] ex]. simpl.
      rewrite list_lookup_insert_eq by (by eapply lookup_lt_Some). rewrite Hst. by eexists.
    + exists nd. split; [|auto]. unfold serve. destruct (OnReceive _ _ _ _ _ _) as [[p acts] ex].
      simpl. by rewrite list_lookup_insert_ne.
  - destruct (decide (j' = j)) as [->|Hne]; cbn [tn_packet].
    + rewrite Hj in Hj'. injection Hj' as <-. eexists. split; [|done]. simpl.
      by rewrite list_lookup_insert_eq by (by eapply lookup_lt_Some).
    + exists nd. split; [|auto]. simpl. by rewrite list_lookup_insert_ne.
  - destruct (decide (j' = j)) as [->|Hne]; cbn [tn_packet tn_uninit tn_sendto];
      unfold serve_foreign.
    + rewrite Hj in Hj'. injection Hj' as <-.
      destruct (OnReceive _ _ _ _ _ _) as [[p acts] ex]. simpl.
      rewrite list_lookup_insert_eq by (by eapply lookup_lt_Some). rewrite Hst. by eexists.
    + exists nd. split; [|auto]. destruct (OnReceive _ _ _ _ _ _) as [[p acts] ex].
      simpl. by rewrite list_lookup_insert_ne.
Qed.

(** The server of the process, as [TotalOrder] runs it on history [h], has come to the state
    of the node; [p0] is the process when it starts. *)
Definition server_at (e : endian) (p0 : Process) (errno : Z) (h : list turn) (nd : node) : Prop :=
  let r := Listen (server_callback e (turn_uninit h) (turn_sendto h)) None
             (mkServerState p0 [] 0) (turn_events errno h) in
  ss_proc r.1 = n_proc nd /\ deliveries (ss_actions r.1) = n_log nd /\
  match n_status nd with
  | Running => r.2 = Listening
  | Joining => exists ex, r.2 = ListenThrew ex
  | Down => True
  end.

(** One more turn of a server that runs. *)
Lemma Listen_turn e p0 errno h x :
  let st0 := mkServerState p0 [] 0 in
  let r := Listen (server_callback e (turn_uninit h) (turn_sendto h)) None st0 (turn_events errno h) in
  r.2 = Listening ->
  let h' := h ++ [x] in
  let r' := Listen (server_callback e (turn_uninit h') (turn_sendto h')) None st0
              (turn_events errno h') in
  match tn_packet x with
  | None => r' = (r.1, ListenThrew (ReceiveException errno))
  | Some pkt =>
      let '(p, acts, ex) :=
        OnReceive e (tn_uninit x) (tn_sendto x) (ss_proc r.1) (recv_buf pkt) (recv_len pkt) in
      ss_proc r'.1 = p /\ ss_actions r'.1 = ss_actions r.1 ++ acts /\
      r'.2 = match ex with Some y => ListenThrew y | None => Listening end
  end.
Proof.
  intros st0 r Hr h' r'.
  assert (Heq : Listen (server_callback e (turn_uninit h') (turn_sendto h')) None st0
    (turn_events errno h) = r).
  { apply Listen_ext. intros k Hk. unfold turn_events in Hk. rewrite length_fmap in Hk. simpl in Hk.
    unfold turn_uninit, turn_sendto, h'. by rewrite lookup_app_l. }
  assert (Hh : ss_handled r.1 = length h).
  { unfold r. rewrite (Listen_handled e _ _ _ _ Hr). unfold turn_events. by rewrite length_fmap. }
  assert (Hx : h' !! length h = Some x) by (unfold h'; by rewrite list_lookup_middle).
  assert (r' = Listen (server_callback e (turn_uninit h') (turn_sendto h')) None r.1 [turn_event errno x])
    as ->.
  { unfold r', turn_events. unfold h' at 3. rewrite fmap_app. fold (turn_events errno h).
    rewrite Listen_app by (by rewrite Heq). by rewrite Heq. }
  clearbody r. clear Heq. destruct r as [st o]. simpl in *. subst o.
  unfold turn_event. destruct (tn_packet x) as [pkt|].
  - unfold server_callback. simpl. rewrite Hh. unfold turn_uninit, turn_sendto. rewrite Hx.
    destruct (OnReceive _ _ _ _ _ _) as [[p acts] [y|]]; done.
  - simpl. by destruct (IsErrnoTimeout errno).
Qed.

Lemma run_server c errno ls s j nd :
  exec_all c ls (init_sys c) = Some s -> s_nodes s !! j = Some nd ->
  server_at (cf_endian c j) (make_Process (cf_addresses c) (Z.of_nat j) (cf_delays c j)) errno
    (server_history c j ls) nd.
Proof.
  intros He. revert nd. revert ls s He. apply (run_ind c (fun ls s => forall nd,
    s_nodes s !! j = Some nd -> server_at _ _ errno (server_history c j ls) nd)).
  - intros nd Hj. simpl in Hj. apply list_lookup_fmap_Some in Hj as (i & -> & [-> _]%lookup_seq).
    done.
  - intros ls s l s' He IH Hl nd' Hj'.
    assert (is_Some (s_nodes s !! j)) as [nd Hj].
    { apply lookup_lt_is_Some. rewrite <- (exec_nodes_length c l s s' Hl). by eapply lookup_lt_Some. }
    destruct (exec_server c l s s' j nd Hl Hj) as (nd1 & Hj1 & Hm). rewrite Hj' in Hj1.
    injection Hj1 as <-. specialize (IH nd Hj).
    unfold server_history in *. rewrite (history_snoc c _ ls l _ s He).
    destruct (server_turns j l s) as [|x more].
    + rewrite app_nil_r. destruct Hm as (Hp & Hlg & Hst), IH as (IH1 & IH2 & IH3).
      split_and!; [by rewrite Hp|by rewrite Hlg|]. destruct Hst as [-> | ->]; done.
    + destruct Hm as (-> & Hrun & Hm), IH as (IH1 & IH2 & IH3). rewrite Hrun in IH3.
      pose proof (Listen_turn _ _ errno _ x IH3) as Ht. destruct (tn_packet x) as [pkt|].
      * rewrite IH1 in Ht. destruct (OnReceive _ _ _ _ _ _) as [[p acts] ex]. subst nd'.
        destruct Ht as (H1 & H2 & H3). unfold server_at. rewrite H1, H2, H3.
        split_and!; [done| |by destruct ex; simpl; eauto].
        unfold deliveries in *. by rewrite omap_app, IH2.
      * subst nd'. unfold server_at. rewrite Ht. simpl. split_and!; eauto.
Qed.

(** ** Threads *)

(** What a thread does with a step of its own: what it hears, what it sends, what it finds
    in the type field of its sequence message, and where it gets. *)
Inductive own_move (e : endian) (count : nat) (th : thread)
  : list heard -> list (nat * list Z) -> option Z -> thread -> Prop :=
| own_lock :
    t_conn th = Unlocked -> (t_peer th < count)%nat ->
    own_move e count th [] [] None (set_conn th (Sending 1))
| own_send b :
    t_conn th = Sending b ->
    own_move e count th [] [(t_peer th, thread_packet e th)] None (set_conn th (WaitingAck b))
| own_answer b r th' :
    t_conn th = WaitingAck b -> thread_recv e th r = Ok th' ->
    own_move e count th [hears th (Answer r)] [] None th'
| own_finish seqs u :
    t_job th = JData seqs -> t_conn th = Unlocked -> t_peer th = count ->
    own_move e count th [] [] (Some u) (thread_finish u th).

(** The answer ends the thread with an exception. *)
Definition answer_breaks (e : endian) (th : thread) (a : net_answer) : Prop :=
  match t_conn th, a with
  | Sending _, SendFails _ => True
  | WaitingAck _, Answer r => exists ex, thread_recv e th r = Throw ex
  | _, _ => False
  end.

Lemma is_up_crash s i : is_up (crash s i) i = false.
Proof.
  unfold is_up, crash. simpl. rewrite list_lookup_alter, decide_True by done.
  by destruct (s_nodes s !! i).
Qed.

Lemma is_up_stays c l s s' i : exec c l s = Some s' -> is_up s i = false -> is_up s' i = false.
Proof.
  intros He. unfold is_up. destruct (s_nodes s !! i) as [nd|] eqn:Ei.
  - destruct (exec_server c l s s' i nd He Ei) as (nd' & -> & Hm).
    destruct (server_turns i l s) as [|x more].
    + destruct Hm as (_ & _ & [-> | ->]); done.
    + destruct Hm as (_ & -> & _). done.
  - assert (s_nodes s' !! i = None) as ->; [|done].
    apply lookup_ge_None. rewrite (exec_nodes_length c l s s' He). by apply lookup_ge_None.
Qed.

(** Every step leaves a thread alone, moves it, or breaks it and ends its process. *)
Definition thread_change (c : config) (l : label) (s s' : sys) (t : nat) (th : thread) : Prop :=
  let e := cf_endian c (t_proc th) in
  (thread_hears t l s = [] /\ thread_sends c t l s = [] /\ finish_value t l = None /\
   s_threads s' !! t = Some th) \/
  (is_up s (t_proc th) = true /\ exists th', s_threads s' !! t = Some th' /\
   own_move e (cf_count c) th (thread_hears t l s) (thread_sends c t l s) (finish_value t l) th') \/
  (is_up s (t_proc th) = true /\ is_up s' (t_proc th) = false /\ s_threads s' !! t = Some th /\
   exists a, thread_hears t l s = [hears th a] /\ thread_sends c t l s = [] /\
     finish_value t l = None /\ answer_breaks e th a).

(** The step of thread [t] is one of its own, the others leave it alone. *)
Lemma answer_change c l s s0 t t' th0 b r th :
  s_threads s !! t = Some th -> s_threads s !! t' = Some th0 -> t_conn th0 = WaitingAck b ->
  is_up s (t_proc th0) = true -> s_threads s0 = s_threads s ->
  thread_sends c t l s = [] -> finish_value t l = None ->
  thread_hears t l s = (if decide (t' = t) then [hears th (Answer r)] else []) ->
  thread_change c l s (thread_answer c s0 t' th0 r) t th.
Proof.
  intros Ht Ht' Hcn Hup Heq Hs Hf Hh. unfold thread_change, thread_answer. rewrite Hs, Hf, Hh.
  destruct (decide (t' = t)) as [->|Hne].
  - rewrite Ht in Ht'. injection Ht' as <-. right. destruct (thread_recv _ _ _) as [th'|ex] eqn:E.
    + left. split; [done|]. exists th'. split; [|by eapply own_answer].
      assert (<[t:=th']> (s_threads s) !! t = Some th')
        by (apply list_lookup_insert_eq; by eapply lookup_lt_Some).
      destruct (t_conn th'); simpl; by rewrite Heq.
    + right. split; [done|]. split; [apply is_up_crash|]. split; [simpl; by rewrite Heq|].
      exists (Answer r). unfold answer_breaks. rewrite Hcn. eauto.
  - left. split_and!; try done. destruct (thread_recv _ _ _) as [th'|]; [|simpl; by rewrite Heq].
    assert (<[t':=th']> (s_threads s) !! t = Some th) by (by rewrite list_lookup_insert_ne).
    destruct (t_conn th'); simpl; by rewrite Heq.
Qed.

Lemma exec_thread c l s s' t th :
  exec c l s = Some s' -> s_threads s !! t = Some th -> thread_change c l s s' t th.
Proof.
  intros Hs%exec_step Ht.
  assert (Hins : forall t' x, s_threads s !! t' = Some th ->
    <[t' := x]> (s_threads s) !! t' = Some x)
    by (intros; apply list_lookup_insert_eq; by eapply lookup_lt_Some).
  assert (Hquiet : thread_hears t l s = [] -> thread_sends c t l s = [] ->
    finish_value t l = None -> s_threads s' = s_threads s -> thread_change c l s s' t th).
  { intros H1 H2 H3 H4. left. by rewrite H4. }
  destruct Hs as
    [t' th0 Ht' Ec El Hup Hlt|t' th0 b w Ht' Ec Hup Hw|t' th0 b w ex Ht' Ec Hup Hw
    |t' th0 b k keep pkt Ht' Ec Hk Hup|t' th0 b pkt Ht' Ec Hup Hst|t' th0 b r Ht' Ec Hup
    |t' th0 seqs u Ht' Ej Ec Hup Hp| | | | | | | | |];
    try (apply Hquiet; [unfold thread_hears; by rewrite Ht|unfold thread_sends; by rewrite Ht|done|done]).
  - destruct (decide (t' = t)) as [->|Hne].
    + rewrite Ht in Ht'. injection Ht' as <-. right. left. split; [done|]. eexists. split; [simpl; by apply Hins|].
      unfold thread_hears, thread_sends. rewrite Ht. by apply own_lock.
    + left. unfold thread_hears, thread_sends. rewrite Ht. split_and!; try done.
      simpl. by rewrite list_lookup_insert_ne.
  - destruct w as [|]; [done|]. unfold thread_change, thread_hears, thread_sends. rewrite Ht.
    destruct (decide (t' = t)) as [->|Hne].
    + rewrite Ht in Ht'. injection Ht' as <-. right. left. split; [done|]. eexists. split; [simpl; by apply Hins|].
      by eapply own_send.
    + left. split_and!; try done. simpl. by rewrite list_lookup_insert_ne.
  - destruct w as [errno|]; [|done]. unfold thread_change, thread_hears, thread_sends. rewrite Ht.
    destruct (decide (t' = t)) as [->|Hne].
    + rewrite Ht in Ht'. injection Ht' as <-. right. right. split; [done|]. split; [apply is_up_crash|]. split; [done|].
      exists (SendFails errno). unfold answer_breaks. by rewrite Ec.
    + by left.
  - eapply answer_change; try done; [by destruct keep|by unfold thread_sends; rewrite Ht|].
    unfold thread_hears. rewrite Ht. destruct (decide (t' = t)) as [->|]; [|done].
    rewrite Ht in Ht'. injection Ht' as <-. by rewrite Hk.
  - eapply answer_change; try done; [by unfold thread_sends; rewrite Ht|].
    unfold thread_hears. by rewrite Ht.
  - eapply answer_change; try done; [by unfold thread_sends; rewrite Ht|].
    unfold thread_hears. by rewrite Ht.
  - unfold thread_change, thread_hears, thread_sends. rewrite Ht. cbn [finish_value].
    destruct (decide (t' = t)) as [->|Hne].
    + rewrite Ht in Ht'. injection Ht' as <-. right. left. split; [done|]. eexists. split; [simpl; by apply Hins|].
      by eapply own_finish.
    + left. split_and!; try done. simpl. by rewrite list_lookup_insert_ne.
  - apply Hquiet; [unfold thread_hears; by rewrite Ht|unfold thread_sends; by rewrite Ht|done|].
    apply (serve_threads c (set_links s _)).
  - apply Hquiet; [unfold thread_hears; by rewrite Ht|unfold thread_sends; by rewrite Ht|done|].
    by rewrite serve_foreign_same.
Qed.

(** A datagram the thread has sent and that has not been answered yet. *)
Definition in_flight (e : endian) (th : thread) : list (nat * list Z) :=
  match t_conn th with WaitingAck _ => [(t_peer th, thread_packet e th)] | _ => [] end.

(** The code of the thread, on what the thread has heard in the run [ls], is where the thread
    is; or it has thrown at the last answer, and the process has ended. *)
Section SenderRuns.
Context (c : config) (t : nat) (lc : launch_cfg).
Notation e := (cf_endian c (lc_proc lc)).
Notation code_at := (code_at e (cf_addresses c) (lc_proc lc) (lc_uninit lc) (lc_msg_id lc) (lc_data lc)).

Definition sender_at (ls : list label) (s : sys) (th : thread) : Prop :=
  let u := thread_uninit t ls in
  t_proc th = lc_proc lc /\
  ((exists sent, code_at u (data_answers (thread_history c t ls)) (seq_answers (thread_history c t ls))
      sent th /\ thread_sent c t ls = sent ++ in_flight e th) \/
   (is_up s (lc_proc lc) = false /\ exists h a sent,
      thread_history c t ls = h ++ [hears th a] /\
      code_at u (data_answers h) (seq_answers h) sent th /\ answer_breaks e th a)).

(** A move of its own keeps the code where the thread is. *)
Lemma code_at_own u u' h th hs snt fv th' sent :
  code_at u (data_answers h) (seq_answers h) sent th ->
  own_move e (cf_count c) th hs snt fv th' ->
  u' = match fv with Some v => v | None => u end ->
  exists sent',
    code_at u' (data_answers (h ++ hs)) (seq_answers (h ++ hs)) sent' th' /\
    (sent ++ in_flight e th) ++ snt = sent' ++ in_flight e th'.
Proof.
  intros Hc Hm ->. destruct Hm as [Hcn Hlt|b Hcn|b r th' Hcn Hr|seqs v Hj Hcn Hp];
    unfold in_flight; rewrite ?app_nil_r, Hcn, ?app_nil_r.
  - exists sent. split; [by apply code_at_lock|]. simpl. by rewrite app_nil_r.
  - exists sent. split; [by apply code_at_sent|done].
  - exists (sent ++ [(t_peer th, thread_packet e th)]). split.
    + destruct (t_job th) as [seqs|sm] eqn:Hj.
      * assert (hd_seq (hears th (Answer r)) = false) as Hs by (unfold hears, in_seq_loop; by rewrite Hj).
        eapply code_at_ext; [intros; reflexivity| |eapply code_at_data_recv; try done].
        -- intros k. apply answers_in_other. by rewrite Hs.
        -- by apply (answers_in_more false h (hears th (Answer r))).
      * assert (hd_seq (hears th (Answer r)) = true) as Hs by (unfold hears, in_seq_loop; by rewrite Hj).
        eapply code_at_ext; [|intros; reflexivity|eapply code_at_seq_recv; try done].
        -- intros k. apply answers_in_other. by rewrite Hs.
        -- by apply (answers_in_more true h (hears th (Answer r))).
    + assert (in_flight e th' = []) as Hnil.
      { unfold in_flight. unfold thread_recv in Hr. rewrite Hcn in Hr.
        destruct (t_job th); destruct (swa_on_recv _ _ _ _); by simplify_eq. }
      unfold in_flight in Hnil. rewrite Hnil. by rewrite app_nil_r.
  - exists sent. split; [by eapply code_at_finish|]. unfold thread_finish. rewrite Hj.
    destruct (select_final seqs). simpl. by rewrite app_nil_r.
Qed.

Lemma run_sender ls s th :
  cf_launches c !! t = Some lc -> exec_all c ls (init_sys c) = Some s ->
  s_threads s !! t = Some th -> sender_at ls s th.
Proof.
  intros Hlc He. revert th. revert ls s He.
  apply (run_ind c (fun ls s => forall th, s_threads s !! t = Some th -> sender_at ls s th)).
  - intros th Ht. simpl in Ht. rewrite list_lookup_fmap, Hlc in Ht. injection Ht as <-.
    split; [done|]. left. exists []. split; [|done]. by apply code_at_launch.
  - intros ls s l s' He IH Hl th' Ht'.
    assert (is_Some (s_threads s !! t)) as [th Ht].
    { apply lookup_lt_is_Some. rewrite <- (exec_threads_length c l s s' Hl). by eapply lookup_lt_Some. }
    destruct (IH th Ht) as [Hpr IHc]. clear IH.
    unfold sender_at, thread_history, thread_sent in *.
    rewrite !(history_snoc c _ ls l _ s He), thread_uninit_snoc.
    pose proof (exec_thread c l s s' t th Hl Ht) as Hch. unfold thread_change in Hch.
    rewrite Hpr in Hch. destruct Hch as
      [(H1 & H2 & H3 & H4)|[(Hup & x & Hx & Hm)|(Hup & Hdown & Hx & a & H1 & H2 & H3 & Hb)]].
    + rewrite H4 in Ht'. injection Ht' as <-. rewrite H1, H2, H3, !app_nil_r. split; [done|].
      destruct IHc as [?|[Hd ?]]; [by left|right]. split; [by eapply is_up_stays|done].
    + rewrite Hx in Ht'. injection Ht' as <-. destruct IHc as [(sent & Hc & Hs)|[Hd _]]; [|congruence].
      destruct (code_at_own _ _ _ _ _ _ _ _ _ Hc Hm eq_refl) as (sent' & Hc' & Hs').
      split; [by destruct Hc'|]. left. exists sent'. by rewrite Hs.
    + rewrite Hx in Ht'. injection Ht' as <-. destruct IHc as [(sent & Hc & Hs)|[Hd _]]; [|congruence].
      split; [done|]. right. split; [done|]. rewrite H1, H3. by eexists _, a, sent.
Qed.

(** The sequential code on the history of the thread. *)
Definition sender_code {C} (clients : gmap Address C) (ls : list label) : sender_run :=
  LaunchMulticastSender e clients (cf_addresses c) (Z.of_nat (lc_proc lc)) (lc_uninit lc)
    (thread_uninit t ls) (lc_msg_id lc) (lc_data lc)
    (data_answers (thread_history c t ls)) (seq_answers (thread_history c t ls)).

Lemma sender_at_run {C} (clients : gmap Address C) ls s th :
  (forall k, (k < length (cf_addresses c))%nat ->
     exists cl, ClientForId clients (cf_addresses c) k = Ok cl) ->
  sender_at ls s th ->
  let r := sender_code clients ls in
  let th' := settled (cf_addresses c) (thread_uninit t ls) th in
  sr_job r = t_job th' /\ sr_peer r = t_peer th' /\
  match sr_outcome r with
  | SenderThrew _ => is_up s (lc_proc lc) = false
  | o => o = (if sender_done (cf_addresses c) th' then SenderDone else SenderWaiting) /\
         thread_sent c t ls = sr_sent r ++ in_flight e th
  end.
Proof.
  intros Hcl [Hpr [(sent & Hc & Hs)|(Hd & h & a & sent & Hh & Hc & Hb)]] r th'.
  - destruct (code_at_run e clients (cf_addresses c) _ _ _ _ Hcl _ _ _ _ _ Hc) as (H1 & H2 & H3 & H4).
    unfold r, sender_code. rewrite H3, H4. split_and!; [done..|]. by destruct (sender_done _ _).
  - assert (exists ex, thread_breaks e (lc_proc lc) (lc_msg_id lc) th a ex) as [ex Hex].
    { unfold answer_breaks in Hb. unfold thread_breaks, breaks.
      destruct (t_conn th) as [|b|b] eqn:Hcn, a as [errno|rr]; try done.
      - exists (SendException errno). by destruct (t_job th).
      - destruct Hb as [ex Hr]. exists ex. unfold thread_recv in Hr. rewrite Hcn in Hr.
        destruct Hc as (_ & Hm & _). rewrite Hm in Hr.
        destruct (t_job th); simpl in Hr; destruct (swa_on_recv _ _ _ _); by simplify_eq. }
    pose proof (code_at_breaks e clients (cf_addresses c) _ _ _ _ Hcl _ _ _
      (data_answers (thread_history c t ls)) (seq_answers (thread_history c t ls)) _ _ _ _ Hc Hex) as Hr.
    destruct Hr as (H1 & H2 & H3).
    { rewrite Hh. destruct (t_job th) as [seqs|sm] eqn:Hj.
      - apply (answers_in_more false h (hears th a)). unfold hears, in_seq_loop. by rewrite Hj.
      - split; [apply (answers_in_more true h (hears th a)); unfold hears, in_seq_loop; by rewrite Hj|].
        intros k. apply answers_in_other. unfold hears, in_seq_loop. by rewrite Hj. }
    assert (th' = th) as ->.
    { unfold th', settled. destruct (t_job th) eqn:Hj; [|done]. rewrite bool_decide_eq_false_2; [done|].
      destruct Hc as (_ & _ & _ & Hlt & _). intros Heq.
      unfold answer_breaks in Hb. destruct (t_conn th); [done|..]; specialize (Hlt ltac:(done)); lia. }
    unfold r, sender_code. by rewrite H1, H2, H3.
Qed.

End SenderRuns.

(** ** The network brings what was sent *)

Lemma elem_of_insert_inv {A} (l : list A) k x y : y ∈ <[k := x]> l -> y = x \/ y ∈ l.
Proof.
  intros [i Hi]%list_elem_of_lookup. apply list_lookup_insert_Some in Hi as [(_ & -> & _)|[_ Hi]].
  - by left.
  - right. by eapply list_elem_of_lookup_2.
Qed.

Lemma exec_links c l s s' i j pkt :
  exec c l s = Some s' -> pkt ∈ s_links s' (i, j) ->
  pkt ∈ s_links s (i, j) \/
  exists t th, s_threads s !! t = Some th /\ t_proc th = i /\ thread_sends c t l s = [(j, pkt)].
Proof.
  intros Hs%exec_step Hin.
  assert (Hans : forall s0 t th r, s_links (thread_answer c s0 t th r) = s_links s0).
  { intros s0 t th r. unfold thread_answer. destruct (thread_recv _ _ _) as [th'|]; [|done].
    by destruct (t_conn th'). }
  destruct Hs as [|t th b w Ht Ec Hup Hw| |t th b k keep pk| | | |i' j' nd pk rest u w Hj Hst Hl| | | |
    i' j' k|i' j' k pk Hk|i' j' k| |]; rewrite ?Hans in Hin; auto.
  - simpl in Hin. destruct (decide ((t_proc th, t_peer th) = (i, j))) as [Heq|Hne].
    + rewrite Heq, fn_lookup_insert in Hin. apply elem_of_app in Hin as [?|Hp%list_elem_of_singleton];
        [by left|right]. injection Heq as <- <-. exists t, th. destruct w; [done|].
      unfold thread_sends. by rewrite Ht, decide_True, Hp by done.
    + rewrite fn_lookup_insert_ne in Hin by done. by left.
  - left. by destruct keep.
  - left. unfold serve in Hin. destruct (OnReceive _ _ _ _ _ _) as [[p acts] ex]. simpl in Hin.
    destruct (decide ((i', j') = (i, j))) as [Heq|Hne].
    + rewrite Heq, fn_lookup_insert in Hin. injection Heq as <- <-. rewrite Hl. by right.
    + by rewrite fn_lookup_insert_ne in Hin by done.
  - left. by rewrite serve_foreign_same in Hin.
  - left. simpl in Hin. destruct (decide ((i', j') = (i, j))) as [Heq|Hne].
    + rewrite Heq, fn_lookup_insert in Hin. injection Heq as <- <-. revert Hin. apply sublist_subseteq, sublist_delete.
    + by rewrite fn_lookup_insert_ne in Hin by done.
  - left. simpl in Hin. destruct (decide ((i', j') = (i, j))) as [Heq|Hne].
    + rewrite Heq, fn_lookup_insert in Hin. injection Heq as <- <-.
      rewrite elem_of_app, elem_of_cons in Hin. destruct Hin as [Hin|[->|Hin]].
      * revert Hin. apply sublist_subseteq, sublist_take.
      * by eapply list_elem_of_lookup_2.
      * revert Hin. apply sublist_subseteq, sublist_drop.
    + by rewrite fn_lookup_insert_ne in Hin by done.
  - left. simpl in Hin. destruct (decide ((i', j') = (i, j))) as [Heq|Hne].
    + rewrite Heq, fn_lookup_insert in Hin. injection Heq as <- <-.
      unfold swap_at in Hin. destruct (s_links s (i', j') !! k) as [x|] eqn:E1; [|done].
      destruct (s_links s (i', j') !! S k) as [y|] eqn:E2; [|done].
      apply elem_of_insert_inv in Hin as [->|Hin]; [by eapply list_elem_of_lookup_2|].
      apply elem_of_insert_inv in Hin as [->|Hin]; [by eapply list_elem_of_lookup_2|done].
    + by rewrite fn_lookup_insert_ne in Hin by done.
Qed.

(** A datagram was sent to process [j] by a thread of process [i]. *)
Definition sent_by (c : config) (i j : nat) (ls : list label) (pkt : list Z) : Prop :=
  exists t lc, cf_launches c !! t = Some lc /\ lc_proc lc = i /\ (j, pkt) ∈ thread_sent c t ls.

Lemma sent_by_snoc c i j ls l s pkt :
  exec_all c ls (init_sys c) = Some s -> sent_by c i j ls pkt -> sent_by c i j (ls ++ [l]) pkt.
Proof.
  intros He (t & lc & H1 & H2 & H3). exists t, lc. split_and!; [done..|].
  unfold thread_sent in *. rewrite (history_snoc c _ ls l _ s He). apply elem_of_app. by left.
Qed.

Lemma links_sent c ls s i j pkt :
  exec_all c ls (init_sys c) = Some s -> pkt ∈ s_links s (i, j) -> sent_by c i j ls pkt.
Proof.
  intros He. revert ls s He.
  apply (run_ind c (fun ls s => pkt ∈ s_links s (i, j) -> sent_by c i j ls pkt)).
  - by intros ?%elem_of_nil.
  - intros ls s l s' He IH Hl Hin.
    destruct (exec_links c l s s' i j pkt Hl Hin) as [Hold|(t & th & Ht & Hp & Hsd)].
    + by eapply sent_by_snoc, IH.
    + assert (is_Some (cf_launches c !! t)) as [lc Hlc].
      { apply lookup_lt_is_Some. rewrite <- (length_fmap launch_key), <- (reachable_keys c s), length_fmap
          by (by eapply run_reach). by eapply lookup_lt_Some. }
      destruct (run_sender c t lc ls s th Hlc He Ht) as [Hpr _].
      exists t, lc. split_and!; [done|congruence|].
      unfold thread_sent. rewrite (history_snoc c _ ls l _ s He), Hsd. apply elem_of_app. right.
      by left.
Qed.

(** What the server of [j] has received from process [i] was sent to it by a thread of [i]. *)
Lemma received_sent c ls s i j pkt x :
  exec_all c ls (init_sys c) = Some s -> x ∈ server_history c j ls ->
  tn_from x = Some i -> tn_packet x = Some pkt -> sent_by c i j ls pkt.
Proof.
  intros He Hx Hi Hp. revert ls s He Hx.
  apply (run_ind c (fun ls s => x ∈ server_history c j ls -> sent_by c i j ls pkt)).
  - by intros ?%elem_of_nil.
  - intros ls s l s' He IH Hl Hin. eapply sent_by_snoc; [done|].
    unfold server_history in *. rewrite (history_snoc c _ ls l _ s He) in Hin.
    apply elem_of_app in Hin as [?|Hin]; [by apply IH|]. destruct l; try by apply elem_of_nil in Hin.
    + simpl in Hin. destruct (decide _) as [->|]; [|by apply elem_of_nil in Hin].
      destruct (s_links s (i0, j)) as [|pk rest] eqn:El; [by apply elem_of_nil in Hin|].
      apply list_elem_of_singleton in Hin as ->. simpl in *. simplify_eq.
      eapply links_sent; [done|]. rewrite El. by left.
    + simpl in Hin. destruct (decide _) as [->|]; [|by apply elem_of_nil in Hin].
      by apply list_elem_of_singleton in Hin as ->.
    + simpl in Hin. destruct (decide _) as [->|]; [|by apply elem_of_nil in Hin].
      by apply list_elem_of_singleton in Hin as ->.
Qed.
