(* ===== verification/NodeInv.v ===== *)
(** * The invariant of one process

    What holds of the queue, the counter and the deliveries of a process of the
    system, and how the two messages a server handles preserve it.  The facts about a
    message at a process are its status: pending with the process's proposal, or done
    (finalised, delivered or not). *)

From Stdlib Require Import ZArith Lia Sorted.
From stdpp Require Import base list gmap.
From S2P Require Import Prelude Wire StdSet HoldBack Process System.

Open Scope Z_scope.

Definition n_queue (nd : node) : HoldBackQueue := hold_back_queue_ (n_proc nd).
Definition n_ord (nd : node) : list PendingMessage := ordering_ (n_queue nd).

Definition seq_info (m : SeqMessage) : PendingMessageSeq :=
  mkPMS (sm_final_seq m) (sm_final_seq_proposer m).

(** [k] is undeliverable at the node, with the proposal [s]. *)
Definition n_pending (nd : node) (k : PendingMessageKey) (s : PendingMessageSeq) : Prop :=
  pending_seqs_ (n_queue nd) !! k = Some s.

Definition in_log (nd : node) (k : PendingMessageKey) (s : PendingMessageSeq) : Prop :=
  exists m, m ∈ n_log nd /\ seq_key m = k /\ seq_info m = s.

(** [k] was finalised with [s] at the node. *)
Definition n_done (nd : node) (k : PendingMessageKey) (s : PendingMessageSeq) : Prop :=
  finalised (n_queue nd) k s \/ in_log nd k s.

(** The messages a node knows, each once. *)
Definition node_keys (nd : node) : list PendingMessageKey :=
  (pm_pmk <$> n_ord nd) ++ (seq_key <$> n_log nd).

Record node_ok (count : nat) (q : nat) (nd : node) : Prop := {
  ok_wf : hbq_wf (n_queue nd);
  ok_id : id_ (n_proc nd) = Z.of_nat q;
  ok_count : length (processes_ (n_proc nd)) = count;
  ok_keys : NoDup (node_keys nd);
  ok_log : StronglySorted final_lt (n_log nd);
  ok_undeliverable pm :
    pm ∈ n_ord nd -> pm_deliverable pm = false ->
    pms_seq_proposer (pm_pms pm) = Z.of_nat q /\
    forall m, m ∈ n_log nd -> sm_final_seq m < pms_seq (pm_pms pm);
  ok_deliverable pm :
    pm ∈ n_ord nd -> pm_deliverable pm = true ->
    forall m, m ∈ n_log nd -> final_lt m (to_deliver 0 pm);
  ok_ord_counter pm :
    pm ∈ n_ord nd -> 0 < pms_seq (pm_pms pm) <= seq_counter_ (n_proc nd);
  ok_log_counter m : m ∈ n_log nd -> sm_final_seq m <= seq_counter_ (n_proc nd);
  ok_counter : 0 <= seq_counter_ (n_proc nd)
}.

(** ** Statuses *)

Section Status.
Context {count q : nat} {nd : node} (Hok : node_ok count q nd).

Lemma pending_entry k s :
  n_pending nd k s <-> exists d, mkPM k s d false ∈ n_ord nd.
Proof. apply (wf_pending _ (ok_wf _ _ _ Hok)). Qed.

Lemma pending_key k s : n_pending nd k s -> k ∈ pm_pmk <$> n_ord nd.
Proof.
  intros [d Hd]%pending_entry. apply list_elem_of_fmap. by eexists; split; [|exact Hd].
Qed.

Lemma key_status k : k ∈ node_keys nd -> exists s, n_pending nd k s \/ n_done nd k s.
Proof.
  unfold node_keys. rewrite elem_of_app, !list_elem_of_fmap.
  intros [([k' s d []] & -> & Hin)|(m & -> & Hm)].
  - exists s. right. left. by exists d.
  - exists s. left. apply pending_entry. by exists d.
  - exists (seq_info m). right. right. by exists m.
Qed.

Lemma done_key k s : n_done nd k s -> k ∈ node_keys nd.
Proof.
  unfold node_keys. rewrite elem_of_app, !list_elem_of_fmap. intros [[d Hd]|(m & Hm & <- & _)].
  - left. by eexists; split; [|exact Hd].
  - right. by exists m.
Qed.

(** A key has one entry, in the queue or in the log. *)
Lemma ord_unique pm pm' :
  pm ∈ n_ord nd -> pm' ∈ n_ord nd -> pm_pmk pm = pm_pmk pm' -> pm = pm'.
Proof.
  intros H1 H2 Heq. pose proof (ok_keys _ _ _ Hok) as Hnd.
  apply NoDup_app in Hnd as (Hnd & _ & _).
  apply list_elem_of_lookup in H1 as [i Hi], H2 as [j Hj].
  assert (i = j) as ->; [|congruence].
  apply (NoDup_lookup _ i j (pm_pmk pm) Hnd); rewrite list_lookup_fmap.
  - by rewrite Hi.
  - rewrite Hj. simpl. by rewrite Heq.
Qed.

Lemma log_unique m m' :
  m ∈ n_log nd -> m' ∈ n_log nd -> seq_key m = seq_key m' -> m = m'.
Proof.
  intros H1 H2 Heq. pose proof (ok_keys _ _ _ Hok) as Hnd.
  apply NoDup_app in Hnd as (_ & _ & Hnd).
  apply list_elem_of_lookup in H1 as [i Hi], H2 as [j Hj].
  assert (i = j) as ->; [|congruence].
  apply (NoDup_lookup _ i j (seq_key m) Hnd); rewrite list_lookup_fmap.
  - by rewrite Hi.
  - rewrite Hj. simpl. by rewrite Heq.
Qed.

Lemma ord_log_disjoint pm m : pm ∈ n_ord nd -> m ∈ n_log nd -> pm_pmk pm <> seq_key m.
Proof.
  intros H1 H2 Heq. pose proof (ok_keys _ _ _ Hok) as Hnd.
  apply NoDup_app in Hnd as (_ & Hd & _). apply (Hd (pm_pmk pm)).
  - apply list_elem_of_fmap. by exists pm.
  - rewrite Heq. apply list_elem_of_fmap. by exists m.
Qed.

Lemma log_keys_nodup : NoDup (seq_key <$> n_log nd).
Proof. by destruct (proj1 (NoDup_app _ _) (ok_keys _ _ _ Hok)) as (_ & _ & ?). Qed.

Lemma done_unique k s s' : n_done nd k s -> n_done nd k s' -> s = s'.
Proof.
  intros [[d Hd]|(m & Hm & Hk & <-)] [[d' Hd']|(m' & Hm' & Hk' & <-)].
  - pose proof (ord_unique _ _ Hd Hd' eq_refl). by simplify_eq.
  - by destruct (ord_log_disjoint _ _ Hd Hm').
  - by destruct (ord_log_disjoint _ _ Hd' Hm).
  - by rewrite (log_unique m m' Hm Hm' ltac:(congruence)).
Qed.

Lemma pending_not_done k s s' : n_pending nd k s -> ~ n_done nd k s'.
Proof.
  intros [d Hd]%pending_entry [[d' Hd']|(m & Hm & Hk & _)].
  - by pose proof (ord_unique _ _ Hd Hd' eq_refl).
  - by destruct (ord_log_disjoint _ _ Hd Hm).
Qed.

(** A pending proposal is this node's own and above everything it delivered. *)
Lemma pending_facts k s :
  n_pending nd k s ->
  pms_seq_proposer s = Z.of_nat q /\
  0 < pms_seq s <= seq_counter_ (n_proc nd) /\
  forall m, m ∈ n_log nd -> sm_final_seq m < pms_seq s.
Proof.
  intros [d Hd]%pending_entry.
  destruct (ok_undeliverable _ _ _ Hok _ Hd eq_refl) as [H1 H2].
  pose proof (ok_ord_counter _ _ _ Hok _ Hd). done.
Qed.

End Status.

(** ** A new data message *)

(** The node after it proposed [c] for the message. *)
Definition node_data (nd : node) (m : DataMessage) (c : Z) : node :=
  let s := mkPMS c (id_ (n_proc nd)) in
  mkNode
    (set_queue (set_counter (n_proc nd) c)
       (mkHBQ (<[data_key m := s]> (pending_seqs_ (n_queue nd)))
          (set_insert pm_lt (mkPM (data_key m) s (dm_data m) false) (n_ord nd))))
    (n_log nd) (n_status nd).

Section DataNew.
Context {count q : nat} {nd : node} (Hok : node_ok count q nd).
Context (m : DataMessage).
Let c := seq_counter_ (n_proc nd) + 1.
Let s := mkPMS c (Z.of_nat q).
Let nd' := node_data nd m c.
Hypothesis Hfresh : data_key m ∉ node_keys nd.
Hypothesis Hperm :
  n_ord nd' ≡ₚ mkPM (data_key m) s (dm_data m) false :: n_ord nd.
Hypothesis Hwf' : hbq_wf (n_queue nd').

Lemma node_data_keys : node_keys nd' ≡ₚ data_key m :: node_keys nd.
Proof. unfold node_keys. rewrite Hperm. done. Qed.

Lemma node_data_ok : node_ok count q nd'.
Proof.
  split.
  - done.
  - apply Hok.
  - apply Hok.
  - rewrite node_data_keys. apply NoDup_cons. split; [done|apply Hok].
  - apply Hok.
  - intros pm. rewrite Hperm. intros [->|Hin]%elem_of_cons Hd; simpl.
    + split; [done|]. intros x Hx. pose proof (ok_log_counter _ _ _ Hok x Hx). lia.
    + by apply (ok_undeliverable _ _ _ Hok).
  - intros pm. rewrite Hperm. intros [->|Hin]%elem_of_cons Hd; [done|].
    by apply (ok_deliverable _ _ _ Hok).
  - pose proof (ok_counter _ _ _ Hok).
    intros pm. rewrite Hperm. intros [->|Hin]%elem_of_cons; simpl; [lia|].
    pose proof (ok_ord_counter _ _ _ Hok pm Hin). lia.
  - intros x Hx. pose proof (ok_log_counter _ _ _ Hok x Hx). simpl. lia.
  - pose proof (ok_counter _ _ _ Hok). simpl. lia.
Qed.

Lemma node_data_pending k x :
  n_pending nd' k x <-> n_pending nd k x \/ (k = data_key m /\ x = s).
Proof.
  rewrite (pending_entry node_data_ok), (pending_entry Hok). setoid_rewrite Hperm.
  setoid_rewrite elem_of_cons. split.
  - intros [d [Heq|Hin]]; [right; by simplify_eq|left; eauto].
  - intros [[d Hd]|[-> ->]]; eauto.
Qed.

Lemma node_data_done k x : n_done nd' k x <-> n_done nd k x.
Proof.
  unfold n_done, finalised, in_log. fold (n_ord nd') (n_ord nd). setoid_rewrite Hperm.
  setoid_rewrite elem_of_cons. split.
  - intros [[d [?|?]]|?]; [done|left; eauto|by right].
  - intros [[d ?]|?]; [left; eauto|by right].
Qed.

End DataNew.

(** ** A sequence message *)

(** The node after [SetDeliverable]. *)
Definition node_seq (u : Z) (nd : node) (m : SeqMessage) : node :=
  let r := SetDeliverable u (n_queue nd) m in
  mkNode (set_queue (ForwardSeqNum (n_proc nd) (sm_final_seq m)) r.1)
    (n_log nd ++ r.2) (n_status nd).

Lemma to_deliver_key u pm : seq_key (to_deliver u pm) = pm_pmk pm.
Proof. by destruct pm as [[] [] ? ?]. Qed.
Lemma to_deliver_info u pm : seq_info (to_deliver u pm) = pm_pms pm.
Proof. by destruct pm as [[] [] ? ?]. Qed.

Section SeqFound.
Context {count q : nat} {nd : node} (Hok : node_ok count q nd).
Context (u : Z) (m : SeqMessage) (old : PendingMessageSeq).
Let k := seq_key m.
Let nd' := node_seq u nd m.
Hypothesis Hold : n_pending nd k old.
Hypothesis Hle : pms_seq old <= sm_final_seq m.

(** The set before the delivery loop, the delivered prefix and the rest. *)
Lemma node_seq_split :
  exists d ord1 pre,
    n_ord nd ≡ₚ mkPM k old d false :: ord1 /\
    pre ++ n_ord nd' ≡ₚ mkPM k (seq_info m) u true :: ord1 /\
    set_sorted pm_lt (pre ++ n_ord nd') /\
    Forall (fun pm => pm_deliverable pm = true) pre /\
    n_log nd' = n_log nd ++ (to_deliver u <$> pre).
Proof.
  destruct (SetDeliverable_found u (n_queue nd) m old (ok_wf _ _ _ Hok) Hold)
    as (d & ord1 & pre & rest & Hp & Hs1 & Happ & Hpre & Hb & Heq).
  exists d, ord1, pre. unfold nd', node_seq, n_ord, n_queue. simpl.
  fold (n_queue nd). rewrite Heq. simpl. split_and!; try done.
  - rewrite <- Happ. apply set_insert_perm.
    destruct (set_count _ _ ord1) eqn:Ec; [|done].
    apply (set_erase_perm pm_lt) in Ec as (y & (Hyk & _ & _)%pm_equiv_spec & Hpy).
    simpl in Hyk. pose proof (ok_keys _ _ _ Hok) as Hnd.
    apply NoDup_app in Hnd as (Hnd & _ & _). unfold n_ord in Hnd. rewrite Hp in Hnd.
    simpl in Hnd. apply NoDup_cons in Hnd as [Hni _]. destruct Hni.
    apply list_elem_of_fmap. exists y. split; [done|]. rewrite Hpy. by left.
  - rewrite <- Happ. by apply (set_insert_sorted pm_lt).
Qed.

Lemma node_seq_keys : node_keys nd' ≡ₚ node_keys nd.
Proof.
  destruct node_seq_split as (d & ord1 & pre & Hp & Hp' & _ & _ & Hlog).
  unfold node_keys. rewrite Hlog, Hp, fmap_app.
  assert (seq_key <$> (to_deliver u <$> pre) = pm_pmk <$> pre) as ->.
  { rewrite <- list_fmap_compose. apply list_fmap_ext. intros. apply to_deliver_key. }
  rewrite (Permutation_app_comm (seq_key <$> n_log nd)), app_assoc.
  rewrite (Permutation_app_comm (pm_pmk <$> n_ord nd')), <- fmap_app, Hp'. done.
Qed.

(** What is below the final number of [m] was below its proposal too. *)
Lemma old_below_new x : x ∈ n_log nd -> sm_final_seq x < sm_final_seq m.
Proof.
  intros Hx. destruct (pending_facts Hok k old Hold) as (_ & _ & H).
  specialize (H x Hx). lia.
Qed.

Lemma node_seq_log : StronglySorted final_lt (n_log nd').
Proof.
  destruct node_seq_split as (d & ord1 & pre & Hp & Hp' & Hs & Hpre & ->).
  rewrite Forall_forall in Hpre. apply StronglySorted_app_iff in Hs as (Hs & _ & _).
  apply StronglySorted_app_iff. split_and!; [apply Hok| |].
  - eapply fmap_sorted; [|exact Hs]. intros x y Hx Hy Hlt.
    apply (pm_lt_deliverable u x y); auto.
  - intros x y Hx (pm & -> & Hpm)%list_elem_of_fmap.
    assert (pm ∈ pre ++ n_ord nd') as Hin by set_solver. rewrite Hp' in Hin.
    apply elem_of_cons in Hin as [->|Hin].
    + left. by apply old_below_new.
    + assert (pm ∈ n_ord nd) as Hin2 by (rewrite Hp; by right).
      pose proof (ok_deliverable _ _ _ Hok pm Hin2 (Hpre _ Hpm) x Hx) as Hlt. exact Hlt.
Qed.

(** Entries that stay in the queue are above everything delivered. *)
Lemma node_seq_rest pm x :
  pm ∈ n_ord nd' -> x ∈ n_log nd' ->
  if pm_deliverable pm then final_lt x (to_deliver 0 pm)
  else sm_final_seq x < pms_seq (pm_pms pm).
Proof.
  destruct node_seq_split as (d & ord1 & pre & Hp & Hp' & Hs & Hpre & ->).
  rewrite Forall_forall in Hpre. intros Hpm [Hx|Hx]%elem_of_app.
  - assert (pm ∈ pre ++ n_ord nd') as Hin by set_solver. rewrite Hp' in Hin.
    apply elem_of_cons in Hin as [->|Hin].
    + simpl. left. by apply old_below_new.
    + assert (pm ∈ n_ord nd) as Hin2 by (rewrite Hp; by right).
      destruct (pm_deliverable pm) eqn:E.
      * by apply (ok_deliverable _ _ _ Hok).
      * by apply (ok_undeliverable _ _ _ Hok pm Hin2 E).
  - apply list_elem_of_fmap in Hx as (y & -> & Hy).
    apply StronglySorted_app_iff in Hs as (_ & _ & Hs). specialize (Hs y pm Hy Hpm).
    destruct (pm_deliverable pm) eqn:E.
    + by apply (pm_lt_deliverable 0 y pm) in Hs; [|apply Hpre|].
    + by apply (pm_lt_deliverable_undeliverable y pm) in Hs; [|apply Hpre|].
Qed.

(** Every entry of the new queue and log was there before, or is the new one. *)
Lemma node_seq_entry pm :
  pm ∈ n_ord nd' ->
  pm = mkPM k (seq_info m) u true \/ (pm ∈ n_ord nd /\ pm_pmk pm <> k).
Proof.
  destruct node_seq_split as (d & ord1 & pre & Hp & Hp' & _). intros Hpm.
  assert (pm ∈ pre ++ n_ord nd') as Hin by set_solver. rewrite Hp' in Hin.
  apply elem_of_cons in Hin as [->|Hin]; [by left|right].
  split; [rewrite Hp; by right|]. intros Heq.
  pose proof (ok_keys _ _ _ Hok) as Hnd. apply NoDup_app in Hnd as (Hnd & _ & _).
  rewrite Hp in Hnd. simpl in Hnd. apply NoDup_cons in Hnd as [Hni _].
  destruct Hni. rewrite <- Heq. apply list_elem_of_fmap. by exists pm.
Qed.

Lemma node_seq_counter :
  seq_counter_ (n_proc nd') = Z.max (seq_counter_ (n_proc nd)) (sm_final_seq m).
Proof. apply ForwardSeqNum_counter. Qed.

Lemma node_seq_ok : node_ok count q nd'.
Proof.
  destruct (ForwardSeqNum_other (n_proc nd) (sm_final_seq m)) as (HQ & HP & HI).
  destruct (pending_facts Hok k old Hold) as (_ & Hpos & _).
  split.
  - apply SetDeliverable_wf, Hok.
  - simpl. rewrite HI. apply Hok.
  - simpl. rewrite HP. apply Hok.
  - rewrite node_seq_keys. apply Hok.
  - apply node_seq_log.
  - intros pm Hpm Hd. split.
    + destruct (node_seq_entry pm Hpm) as [->|[Hin _]]; [done|].
      by apply (ok_undeliverable _ _ _ Hok).
    + intros x Hx. pose proof (node_seq_rest pm x Hpm Hx) as H. by rewrite Hd in H.
  - intros pm Hpm Hd x Hx. pose proof (node_seq_rest pm x Hpm Hx) as H. by rewrite Hd in H.
  - intros pm Hpm. rewrite node_seq_counter.
    destruct (node_seq_entry pm Hpm) as [->|[Hin _]]; simpl; [lia|].
    pose proof (ok_ord_counter _ _ _ Hok pm Hin). lia.
  - rewrite node_seq_counter.
    destruct node_seq_split as (d & ord1 & pre & Hp & Hp' & Hs & Hpre & ->).
    intros x [Hx|(pm & -> & Hpm)%list_elem_of_fmap]%elem_of_app.
    { pose proof (ok_log_counter _ _ _ Hok x Hx). lia. }
    assert (pm ∈ pre ++ n_ord nd') as Hin by set_solver. rewrite Hp' in Hin.
    apply elem_of_cons in Hin as [->|Hin]; simpl; [lia|].
    assert (pm ∈ n_ord nd) as Hin2 by (rewrite Hp; by right).
    pose proof (ok_ord_counter _ _ _ Hok pm Hin2). lia.
  - rewrite node_seq_counter. pose proof (ok_counter _ _ _ Hok). lia.
Qed.

Lemma node_seq_pending k' x : n_pending nd' k' x <-> k' <> k /\ n_pending nd k' x.
Proof.
  unfold n_pending, nd', node_seq, n_queue. simpl. unfold SetDeliverable.
  unfold n_pending, k, seq_key in Hold. unfold n_queue in Hold. rewrite Hold.
  destruct (deliver_loop _ _). simpl. rewrite lookup_delete_Some.
  split; intros [? ?]; (split; [by apply not_eq_sym|done]).
Qed.

Lemma node_seq_done k' x :
  n_done nd' k' x <-> n_done nd k' x \/ (k' = k /\ x = seq_info m).
Proof.
  destruct node_seq_split as (d & ord1 & pre & Hp & Hp' & Hs & Hpre & Hlog).
  rewrite Forall_forall in Hpre.
  assert (Hall : forall d', mkPM k' x d' true ∈ pre ++ n_ord nd' <->
            mkPM k' x d' true ∈ n_ord nd \/ (k' = k /\ x = seq_info m /\ d' = u)).
  { intros d'. rewrite Hp', Hp, !elem_of_cons. split.
    - intros [Heq|?]; [right; by simplify_eq|auto].
    - intros [[?|?]|(-> & -> & ->)]; [done|auto|auto]. }
  unfold n_done, finalised, in_log. rewrite Hlog. fold (n_ord nd') (n_ord nd). split.
  - intros [[d' Hd]|(y & [Hy|(pm & -> & Hpm)%list_elem_of_fmap]%elem_of_app & Hk & Hi)].
    + destruct (proj1 (Hall d')) as [?|(? & ? & _)]; [set_solver|left; left; eauto|by right].
    + left. right. eauto.
    + rewrite to_deliver_key in Hk. rewrite to_deliver_info in Hi.
      destruct pm as [k2 s2 d2 b2]. simpl in Hk, Hi. subst.
      pose proof (Hpre _ Hpm) as Hb. simpl in Hb. subst b2.
      destruct (proj1 (Hall d2)) as [?|(? & ? & _)]; [set_solver|left; left; eauto|by right].
  - intros H. assert ((exists d', mkPM k' x d' true ∈ pre ++ n_ord nd') \/ in_log nd k' x) as H2.
    { destruct H as [[[d' Hd]|Hl]|[-> ->]]; [left|by right|left].
      - exists d'. apply Hall. by left.
      - exists u. apply Hall. by right. }
    destruct H2 as [[d' [Hd|Hd]%elem_of_app]|(y & Hy & Hk & Hi)].
    + right. exists (to_deliver u (mkPM k' x d' true)).
      rewrite to_deliver_key, to_deliver_info. split_and!; [|done..].
      apply elem_of_app. right. apply list_elem_of_fmap. eauto.
    + left. eauto.
    + right. exists y. set_solver.
Qed.

End SeqFound.
