(* ===== verification/SystemInv.v ===== *)
(** * The invariant of the system

    For networks that keep the order of the datagrams of a link (they may still lose
    and duplicate them): the status of every message at every process agrees with the
    state of the thread that sends it, what is in flight agrees with both, and no
    sequence counter reaches its 32-bit bound. *)

From Stdlib Require Import ZArith Lia Sorted.
From stdpp Require Import base list gmap functions.
From S2P Require Import Prelude Exceptions Wire Net Udp StdSet HoldBack Process Sender.
From S2P Require Import System NodeInv.

Open Scope Z_scope.

(** ** What the theorems assume of a run *)

Record config_ok (c : config) : Prop := {
  cfg_fifo : cf_reorder c = false;
  (* one server, and so one client, per process *)
  cfg_addresses : NoDup (cf_addresses c);
  cfg_count : Z.of_nat (cf_count c) < u32_modulus;
  (* sequence numbers cannot wrap around *)
  cfg_bound : Z.of_nat (cf_count c * length (cf_launches c)) < u32_modulus;
  cfg_launch l :
    l ∈ cf_launches c ->
    (lc_proc l < cf_count c)%nat /\ is_u32 (lc_msg_id l) /\ is_u32 (lc_data l);
  (* the random message ids of one sender are distinct *)
  cfg_unique : NoDup ((fun l => (lc_proc l, lc_msg_id l)) <$> cf_launches c)
}.

(** ** Order on a link *)

(** No [a] follows a [b]. *)
Fixpoint fifo {A} (a b : A) (l : list A) : Prop :=
  match l with
  | [] => True
  | x :: l' => (x = b -> a ∉ l') /\ fifo a b l'
  end.

Section Fifo.
Context {A : Type} (a b : A).

Lemma fifo_sublist l l' : l' `sublist_of` l -> fifo a b l -> fifo a b l'.
Proof.
  induction 1 as [|x l1 l2 Hs IH|x l1 l2 Hs IH]; simpl; [done| |].
  - intros [H1 H2]. split; [|by apply IH]. intros Hx Hin. apply (H1 Hx).
    by eapply elem_of_sublist.
  - intros [_ H2]. by apply IH.
Qed.

Lemma fifo_absent l : b ∉ l -> fifo a b l.
Proof.
  induction l as [|x l IH]; simpl; [done|]. rewrite not_elem_of_cons. intros [H1 H2].
  split; [by intros ->|by apply IH].
Qed.

Lemma fifo_duplicate l1 x l2 :
  a <> b -> fifo a b (l1 ++ x :: l2) -> fifo a b (l1 ++ x :: x :: l2).
Proof.
  intros Hab. induction l1 as [|y l1 IH]; simpl.
  - intros [H1 H2]. split_and!; auto. intros ->.
    rewrite elem_of_cons. intros [?|?]; [done|by apply H1].
  - intros [H1 H2]. split; [|by apply IH]. intros Hy. specialize (H1 Hy).
    revert H1. rewrite !elem_of_app, !elem_of_cons. tauto.
Qed.

Lemma fifo_snoc l x : fifo a b l -> (x = a -> b ∉ l) -> fifo a b (l ++ [x]).
Proof.
  induction l as [|y l IH]; simpl.
  - intros _ _. split; [|done]. intros _. apply not_elem_of_nil.
  - intros [H1 H2] Hx. split.
    + intros Hy. specialize (H1 Hy). rewrite elem_of_app, elem_of_cons.
      intros [?|[->|?%elem_of_nil]]; [done| |done].
      apply (Hx eq_refl). subst. by left.
    + apply IH; [done|]. intros Hxa Hb. apply (Hx Hxa). by right.
Qed.

End Fifo.

(** ** Messages of threads *)

Definition t_key (th : thread) : PendingMessageKey := data_key (t_msg th).

Definition is_data (th : thread) : Prop :=
  match t_job th with JData _ => True | JSeq _ => False end.

Section Invariant.
Context (c : config).
Notation count := (cf_count c).
Notation enc := (cf_endian c).

Definition data_packet (th : thread) : list Z :=
  DataMsgToBuf (enc (t_proc th)) (t_msg th).
Definition seq_packet (th : thread) (sm : SeqMessage) : list Z :=
  SeqMsgToBuf (enc (t_proc th)) sm.

Record thread_ok (th : thread) : Prop := {
  th_proc : (t_proc th < count)%nat;
  th_sender : dm_sender (t_msg th) = Z.of_nat (t_proc th);
  th_u32 : DataMessage_u32 (t_msg th);
  th_peer : (t_peer th <= count)%nat;
  th_conn : t_conn th <> Unlocked -> (t_peer th < count)%nat;
  th_job :
    match t_job th with
    | JData seqs => length seqs = count
    | JSeq sm =>
        seq_key sm = t_key th /\ 0 < sm_final_seq sm /\
        0 <= sm_final_seq_proposer sm < Z.of_nat count
    end
}.

(** The status of the thread's message at process [q]. *)
Definition cross (th : thread) (q : nat) (nd : node) : Prop :=
  match t_job th with
  | JData seqs =>
      (forall s, ~ n_done nd (t_key th) s) /\
      ((q < t_peer th)%nat ->
       exists s, seqs !! q = Some (pms_seq s) /\ n_pending nd (t_key th) s)
  | JSeq sm =>
      n_done nd (t_key th) (seq_info sm) \/
      ((t_peer th <= q)%nat /\
       exists s, n_pending nd (t_key th) s /\ pms_seq s <= sm_final_seq sm)
  end.

(** What the link to process [q] may still hold of the thread's message. *)
Definition link_ok (th : thread) (nd : node) (l : list (list Z)) : Prop :=
  (forall s, n_done nd (t_key th) s -> data_packet th ∉ l) /\
  (forall sm, t_job th = JSeq sm -> fifo (data_packet th) (seq_packet th sm) l).

Definition is_packet (threads : list thread) (i : nat) (pkt : list Z) : Prop :=
  exists t th, threads !! t = Some th /\ t_proc th = i /\
    (pkt = data_packet th \/
     exists sm, t_job th = JSeq sm /\ pkt = seq_packet th sm).

(** A reply of process [q] to process [i]. *)
Definition ack_ok (s : sys) (i q : nat) (pkt : list Z) : Prop :=
  exists t th nd, s_threads s !! t = Some th /\ t_proc th = i /\
    s_nodes s !! q = Some nd /\
    ((exists u p, pkt = AckMsgToBuf (enc q) (ack_for u (t_msg th) p) /\
        is_u32 (pms_seq p) /\ pms_seq_proposer p = Z.of_nat q /\
        (is_data th -> n_pending nd (t_key th) p)) \/
     (exists u p, pkt = SeqAckMsgToBuf (enc q)
          (mkSeqAckMessage u (dm_sender (t_msg th)) (dm_msg_id (t_msg th))) /\
        n_done nd (t_key th) p)).

(** The proposals made so far. *)
Definition total (nodes : list node) : Z :=
  Z.of_nat (sum_list (length ∘ node_keys <$> nodes)).

Record Inv (s : sys) : Prop := {
  inv_nodes_len : length (s_nodes s) = count;
  inv_threads_len : length (s_threads s) = length (cf_launches c);
  inv_keys : NoDup (t_key <$> s_threads s);
  inv_node q nd : s_nodes s !! q = Some nd -> node_ok count q nd;
  inv_thread t th : s_threads s !! t = Some th -> thread_ok th;
  inv_cross t th q nd :
    s_threads s !! t = Some th -> s_nodes s !! q = Some nd -> cross th q nd;
  inv_link t th q nd :
    s_threads s !! t = Some th -> s_nodes s !! q = Some nd ->
    link_ok th nd (s_links s (t_proc th, q));
  inv_packet i q pkt : pkt ∈ s_links s (i, q) -> is_packet (s_threads s) i pkt;
  inv_ack i q pkt : pkt ∈ s_acks s (i, q) -> ack_ok s i q pkt;
  inv_owned q nd k :
    s_nodes s !! q = Some nd -> k ∈ node_keys nd ->
    exists t th, s_threads s !! t = Some th /\ t_key th = k;
  inv_counter q nd :
    s_nodes s !! q = Some nd -> seq_counter_ (n_proc nd) <= total (s_nodes s);
  inv_final t th sm :
    s_threads s !! t = Some th -> t_job th = JSeq sm ->
    sm_final_seq sm <= total (s_nodes s)
}.

(** ** Consequences of the invariant *)

Lemma data_seq_packet th th' sm : data_packet th <> seq_packet th' sm.
Proof.
  intros Heq. apply (f_equal length) in Heq.
  unfold data_packet, seq_packet in Heq.
  rewrite length_DataMsgToBuf, length_SeqMsgToBuf in Heq. done.
Qed.

Lemma data_packet_inj th th' :
  thread_ok th -> thread_ok th' -> data_packet th = data_packet th' -> t_key th = t_key th'.
Proof.
  intros Hth Hth' Heq. unfold data_packet in Heq.
  pose proof (DataMsg_roundtrip (enc (t_proc th)) Big (t_msg th) [] (th_u32 _ Hth)) as H1.
  pose proof (DataMsg_roundtrip (enc (t_proc th')) Big (t_msg th') [] (th_u32 _ Hth')) as H2.
  rewrite Heq, H2 in H1. unfold t_key, data_key. injection H1 as -> -> _. done.
Qed.

Section Facts.
Context {s : sys} (HI : Inv s) (Hc : config_ok c).

Lemma thread_by_key t t' th th' :
  s_threads s !! t = Some th -> s_threads s !! t' = Some th' ->
  t_key th = t_key th' -> t = t'.
Proof.
  intros H1 H2 Heq. apply (NoDup_lookup _ t t' (t_key th) (inv_keys _ HI));
    rewrite list_lookup_fmap; [by rewrite H1|rewrite H2; simpl; by rewrite Heq].
Qed.

Lemma node_keys_bound q nd :
  s_nodes s !! q = Some nd -> (length (node_keys nd) <= length (cf_launches c))%nat.
Proof.
  intros Hq. rewrite <- (inv_threads_len _ HI), <- (length_fmap t_key).
  apply submseteq_length. apply NoDup_submseteq.
  - apply (ok_keys _ _ _ (inv_node _ HI _ _ Hq)).
  - intros k Hk. destruct (inv_owned _ HI _ _ _ Hq Hk) as (t & th & Ht & <-).
    apply list_elem_of_fmap. exists th. split; [done|]. by eapply list_elem_of_lookup_2.
Qed.

Lemma total_bound_list nodes :
  (forall nd, nd ∈ nodes -> (length (node_keys nd) <= length (cf_launches c))%nat) ->
  total nodes <= Z.of_nat (length nodes * length (cf_launches c)).
Proof.
  unfold total. intros H. apply inj_le. induction nodes as [|nd nodes IH]; simpl; [lia|].
  pose proof (H nd ltac:(by left)).
  assert (sum_list (length ∘ node_keys <$> nodes)
          <= length nodes * length (cf_launches c))%nat by (apply IH; intros; apply H; by right).
  change ((length ∘ node_keys) nd) with (length (node_keys nd)).
  change (list_fmap node nat (length ∘ node_keys) nodes) with (length ∘ node_keys <$> nodes).
  lia.
Qed.

Lemma total_bound_count :
  total (s_nodes s) <= Z.of_nat (count * length (cf_launches c)).
Proof.
  rewrite <- (inv_nodes_len _ HI). apply total_bound_list.
  intros nd [q Hq]%list_elem_of_lookup. by eapply node_keys_bound.
Qed.

Lemma total_bound : total (s_nodes s) < u32_modulus.
Proof. pose proof (cfg_bound _ Hc). pose proof total_bound_count. lia. Qed.

(** The sequence message of a thread fits its wire format and is valid. *)
Lemma thread_seq_ok t th sm :
  s_threads s !! t = Some th -> t_job th = JSeq sm ->
  SeqMessage_u32 sm /\ sm_sender sm = Z.of_nat (t_proc th) /\ seq_key sm = t_key th.
Proof.
  intros Ht Hj. pose proof (inv_thread _ HI _ _ Ht) as Hth.
  pose proof (th_job _ Hth) as Hjob. rewrite Hj in Hjob. destruct Hjob as (Hk & Hf & Hp).
  pose proof (inv_final _ HI _ _ _ Ht Hj). pose proof total_bound.
  pose proof (cfg_count _ Hc). pose proof (th_u32 _ Hth) as (Hu1 & Hu2 & _).
  unfold seq_key, t_key, data_key in Hk. injection Hk as Hs Hi.
  split_and!; [|rewrite Hs; apply Hth|unfold seq_key, t_key, data_key; by rewrite Hs, Hi].
  unfold SeqMessage_u32. rewrite Hs, Hi. unfold is_u32 in *. split_and!; (done || lia).
Qed.

Lemma seq_packet_inj t t' th th' sm sm' :
  s_threads s !! t = Some th -> s_threads s !! t' = Some th' ->
  t_job th = JSeq sm -> t_job th' = JSeq sm' ->
  seq_packet th sm = seq_packet th' sm' -> t_key th = t_key th'.
Proof.
  intros Ht Ht' Hj Hj' Heq. unfold seq_packet in Heq.
  destruct (thread_seq_ok _ _ _ Ht Hj) as (Hu & _ & <-).
  destruct (thread_seq_ok _ _ _ Ht' Hj') as (Hu' & _ & <-).
  pose proof (SeqMsg_roundtrip (enc (t_proc th)) Big sm [] Hu) as H1.
  pose proof (SeqMsg_roundtrip (enc (t_proc th')) Big sm' [] Hu') as H2.
  rewrite Heq, H2 in H1. unfold seq_key. injection H1 as -> -> _ _. done.
Qed.

End Facts.

(** ** The initial state *)

Lemma init_keys :
  config_ok c -> NoDup (t_key <$> s_threads (init_sys c)).
Proof.
  intros Hc. simpl. rewrite <- list_fmap_compose.
  apply (NoDup_fmap_1 (fun k => (Z.to_nat (pmk_sender k), pmk_msg_id k))).
  rewrite <- list_fmap_compose.
  eapply (eq_ind _ NoDup (cfg_unique _ Hc)). apply list_fmap_ext.
  intros i l _. simpl. by rewrite Nat2Z.id.
Qed.

Lemma init_node_lookup q nd :
  s_nodes (init_sys c) !! q = Some nd -> nd = init_node c q /\ (q < count)%nat.
Proof.
  simpl. rewrite list_lookup_fmap_Some. intros (i & -> & [-> Hi]%lookup_seq). done.
Qed.

Lemma init_thread_lookup t th :
  config_ok c -> s_threads (init_sys c) !! t = Some th ->
  thread_ok th /\ t_peer th = 0%nat /\ is_data th.
Proof.
  intros Hc. simpl. rewrite list_lookup_fmap_Some. intros (l & -> & Hl).
  destruct (cfg_launch _ Hc l) as (H1 & H2 & H3); [by eapply list_elem_of_lookup_2|].
  pose proof (cfg_count _ Hc). split_and!; [|done|done]. split; simpl; try done; try lia.
  - unfold DataMessage_u32. simpl. split_and!; try done. unfold is_u32. lia.
  - by rewrite length_replicate.
Qed.

Lemma Inv_init : config_ok c -> Inv (init_sys c).
Proof.
  intros Hc.
  assert (Hempty : forall i k s, ~ n_done (init_node c i) k s).
  { intros i k s [[d Hd%elem_of_nil]|(m & Hm%elem_of_nil & _)]; done. }
  split.
  - simpl. by rewrite length_fmap, length_seq.
  - simpl. by rewrite length_fmap.
  - by apply init_keys.
  - intros q nd [-> Hq]%init_node_lookup. split; simpl; try done; try set_solver.
    + apply empty_queue_wf.
    + constructor.
    + constructor.
  - intros t th Ht. by apply (init_thread_lookup t th).
  - intros t th q nd Ht [-> Hq]%init_node_lookup.
    apply init_thread_lookup in Ht as (Hth & Hp & Hd); [|done].
    unfold cross, is_data in *. destruct (t_job th); [|done].
    split; [apply Hempty|]. rewrite Hp. lia.
  - intros t th q nd Ht [-> Hq]%init_node_lookup. split; [set_solver|done].
  - simpl. set_solver.
  - simpl. set_solver.
  - intros q nd k [-> Hq]%init_node_lookup Hk. unfold node_keys in Hk. simpl in Hk. set_solver.
  - intros q nd [-> Hq]%init_node_lookup. simpl. unfold total. lia.
  - intros t th sm Ht Hj. apply init_thread_lookup in Ht as (_ & _ & Hd); [|done].
    unfold is_data in Hd. by rewrite Hj in Hd.
Qed.

(** ** Steps of threads *)

Lemma Inv_locks s f : Inv s -> Inv (set_locks s f).
Proof. intros []. by split. Qed.

(** A sequence packet of a thread that is still collecting proposals is not in
    flight. *)
Lemma seq_packet_absent s t th sm q :
  config_ok c -> Inv s -> s_threads s !! t = Some th -> is_data th ->
  SeqMessage_u32 sm -> seq_key sm = t_key th ->
  seq_packet th sm ∉ s_links s (t_proc th, q).
Proof.
  intros Hc HI Ht Hd Hu Hk Hin.
  destruct (inv_packet _ HI _ _ _ Hin) as (t' & th' & Ht' & Hp & [Heq|(sm' & Hj & Heq)]).
  { by destruct (data_seq_packet th' th sm). }
  destruct (thread_seq_ok HI Hc _ _ _ Ht' Hj) as (Hu' & _ & Hk').
  assert (t_key th = t_key th') as Hkk.
  { rewrite <- Hk, <- Hk'. unfold seq_packet in Heq.
    pose proof (SeqMsg_roundtrip (enc (t_proc th)) Big sm [] Hu) as H1.
    pose proof (SeqMsg_roundtrip (enc (t_proc th')) Big sm' [] Hu') as H2.
    rewrite Heq, H2 in H1. unfold seq_key. injection H1 as -> -> _ _. done. }
  pose proof (thread_by_key HI _ _ _ _ Ht Ht' Hkk) as ->. simplify_eq.
  unfold is_data in Hd. by rewrite Hj in Hd.
Qed.

(** What stays of the threads when one of them is replaced by a later state of it. *)
Definition later_thread (x y : thread) : Prop :=
  t_proc y = t_proc x /\ t_msg y = t_msg x /\
  (forall sm, t_job x = JSeq sm -> t_job y = JSeq sm).

Lemma later_is_data x y : later_thread x y -> is_data y -> is_data x.
Proof.
  intros (_ & _ & Hj). unfold is_data. destruct (t_job x) eqn:E; [done|].
  by rewrite (Hj _ eq_refl).
Qed.

Lemma later_lookup (threads : list thread) (t : nat) (th th' : thread) (u : nat) x :
  threads !! t = Some th -> later_thread th th' -> threads !! u = Some x ->
  exists y, <[t := th']> threads !! u = Some y /\ later_thread x y.
Proof.
  intros Ht Hl Hu. destruct (decide (u = t)) as [->|Hne].
  - assert (x = th) as -> by congruence.
    exists th'. by rewrite list_lookup_insert_eq by (by eapply lookup_lt_Some).
  - exists x. by rewrite list_lookup_insert_ne.
Qed.

Lemma later_packet (threads : list thread) t th th' i pkt :
  threads !! t = Some th -> later_thread th th' ->
  is_packet threads i pkt -> is_packet (<[t := th']> threads) i pkt.
Proof.
  intros Ht Hl (u & x & Hu & Hi & Hpk).
  destruct (later_lookup _ _ _ _ _ _ Ht Hl Hu) as (y & Hy & Hyp & Hym & Hyj). exists u, y.
  split_and!; [done|congruence|]. unfold data_packet, seq_packet in *. rewrite Hyp, Hym.
  destruct Hpk as [?|(sm & ? & ?)]; [by left|right; eauto].
Qed.

Lemma later_ack s t th th' i q pkt :
  s_threads s !! t = Some th -> later_thread th th' ->
  ack_ok s i q pkt -> ack_ok (set_threads s (<[t := th']> (s_threads s))) i q pkt.
Proof.
  intros Ht Hl (u & x & nd & Hu & Hi & Hq & Ha).
  destruct (later_lookup _ _ _ _ _ _ Ht Hl Hu) as (y & Hy & Hxy).
  pose proof (later_is_data _ _ Hxy) as Hyd. destruct Hxy as (Hyp & Hym & _).
  exists u, y, nd. simpl.
  split_and!; [done|congruence|done|]. unfold t_key. rewrite Hym. fold (t_key x).
  destruct Ha as [(v & p & ? & ? & ? & ?)|?]; [left; exists v, p; split_and!; auto|by right].
Qed.

(** A sequence message that a thread has just chosen is not on its links yet. *)
Lemma later_link s t th th' q nd :
  config_ok c -> Inv s -> s_threads s !! t = Some th -> s_nodes s !! q = Some nd ->
  later_thread th th' -> thread_ok th' ->
  (forall sm, t_job th' = JSeq sm -> sm_final_seq sm <= total (s_nodes s)) ->
  link_ok th' nd (s_links s (t_proc th', q)).
Proof.
  intros Hc HI Ht Hq (Hp & Hm & Hjs) Hok Hfin.
  assert (Hkey : t_key th' = t_key th) by (unfold t_key; by rewrite Hm).
  assert (Hdp : data_packet th' = data_packet th) by (unfold data_packet; by rewrite Hp, Hm).
  destruct (inv_link _ HI _ _ _ _ Ht Hq) as [H1 H2]. rewrite Hp.
  split; [rewrite Hkey, Hdp; exact H1|]. intros sm Hj. rewrite Hdp.
  unfold seq_packet. rewrite Hp. destruct (t_job th) eqn:E.
  - apply fifo_absent. pose proof (th_job _ Hok) as Hjob. rewrite Hj in Hjob.
    destruct Hjob as (Hk & Hf & Hpr). apply (seq_packet_absent s t th sm q Hc HI Ht).
    + unfold is_data. by rewrite E.
    + pose proof (Hfin _ Hj). pose proof (total_bound HI Hc). pose proof (cfg_count _ Hc).
      destruct (th_u32 _ Hok) as (Hu1 & Hu2 & _).
      unfold seq_key, t_key, data_key in Hk. injection Hk as Hk1 Hk2.
      unfold SeqMessage_u32. rewrite Hk1, Hk2. unfold is_u32 in *. split_and!; (done || lia).
    + by rewrite Hk.
  - apply H2. rewrite (Hjs _ eq_refl) in Hj. by simplify_eq.
Qed.

(** A thread may move on when its new state agrees with every process. *)
Lemma Inv_thread_update s t th th' :
  config_ok c -> Inv s -> s_threads s !! t = Some th ->
  t_proc th' = t_proc th -> t_msg th' = t_msg th -> thread_ok th' ->
  (forall q nd, s_nodes s !! q = Some nd -> cross th' q nd) ->
  (forall sm, t_job th = JSeq sm -> t_job th' = JSeq sm) ->
  (forall sm, t_job th' = JSeq sm -> sm_final_seq sm <= total (s_nodes s)) ->
  Inv (set_threads s (<[t := th']> (s_threads s))).
Proof.
  intros Hc HI Ht Hp Hm Hok Hcross Hjs Hfin.
  assert (Hlater : later_thread th th') by done.
  assert (Hlook : forall u x, <[t := th']> (s_threads s) !! u = Some x ->
            (u = t /\ x = th') \/ (u <> t /\ s_threads s !! u = Some x)).
  { intros u x. rewrite list_lookup_insert_Some. naive_solver. }
  split; simpl.
  - apply HI.
  - rewrite length_insert. apply HI.
  - rewrite list_fmap_insert, list_insert_id; [apply HI|].
    rewrite list_lookup_fmap, Ht. unfold t_key. simpl. by rewrite Hm.
  - apply HI.
  - intros u x [[-> ->]|[_ Hx]]%Hlook; [done|by eapply inv_thread].
  - intros u x q nd [[-> ->]|[_ Hx]]%Hlook Hq; [by apply Hcross|by eapply inv_cross].
  - intros u x q nd [[-> ->]|[_ Hx]]%Hlook Hq; [|by eapply inv_link].
    by apply (later_link s t th).
  - intros i q pkt Hin. by eapply later_packet, inv_packet.
  - intros i q pkt Hin. by eapply later_ack, inv_ack.
  - intros q nd k Hq Hk. destruct (inv_owned _ HI _ _ _ Hq Hk) as (u & x & Hu & <-).
    destruct (later_lookup _ _ _ _ _ _ Ht Hlater Hu) as (y & Hy & _ & Hym & _). exists u, y.
    split; [done|]. unfold t_key. by rewrite Hym.
  - apply HI.
  - intros u x sm [[-> ->]|[_ Hx]]%Hlook Hj; [by apply Hfin|by eapply inv_final].
Qed.

Lemma thread_ok_conn th cn :
  thread_ok th -> (cn <> Unlocked -> (t_peer th < count)%nat) -> thread_ok (set_conn th cn).
Proof. intros [] Hcn. by split. Qed.

(** Only the state of the exchange changes. *)
Lemma Inv_conn s t th cn :
  config_ok c -> Inv s -> s_threads s !! t = Some th ->
  (cn <> Unlocked -> (t_peer th < count)%nat) ->
  Inv (set_threads s (<[t := set_conn th cn]> (s_threads s))).
Proof.
  intros Hc HI Ht Hcn. apply (Inv_thread_update s t th); try done.
  - apply thread_ok_conn; [by eapply inv_thread|done].
  - intros q nd Hq. exact (inv_cross _ HI _ _ _ _ Ht Hq).
  - intros sm Hj. exact (inv_final _ HI _ _ _ Ht Hj).
Qed.

(** The proposal of the current process is recorded. *)
Lemma Inv_data_ack s t th seqs p nd :
  config_ok c -> Inv s -> s_threads s !! t = Some th -> t_job th = JData seqs ->
  (t_peer th < count)%nat -> s_nodes s !! t_peer th = Some nd ->
  n_pending nd (t_key th) p ->
  Inv (set_threads s (<[t := mkThread (t_proc th) (t_msg th)
         (JData (<[t_peer th := pms_seq p]> seqs)) (S (t_peer th)) Unlocked]> (s_threads s))).
Proof.
  intros Hc HI Ht Hj Hpeer Hnd Hpend. pose proof (inv_thread _ HI _ _ Ht) as Hth.
  pose proof (th_job _ Hth) as Hlen. rewrite Hj in Hlen.
  apply (Inv_thread_update s t th); simpl; try done.
  - destruct Hth. split; simpl; try done; try lia. by rewrite length_insert.
  - intros q x Hq. pose proof (inv_cross _ HI _ _ _ _ Ht Hq) as Hx.
    unfold cross in *. rewrite Hj in Hx. simpl. destruct Hx as [H1 H2]. split; [done|].
    intros Hlt. destruct (decide (q = t_peer th)) as [->|Hne].
    + simplify_eq. exists p. by rewrite list_lookup_insert_eq by lia.
    + rewrite list_lookup_insert_ne by done. apply H2. lia.
  - by rewrite Hj.
Qed.

(** The current process has finalised the message. *)
Lemma Inv_seq_ack s t th sm p nd :
  config_ok c -> Inv s -> s_threads s !! t = Some th -> t_job th = JSeq sm ->
  (t_peer th < count)%nat -> s_nodes s !! t_peer th = Some nd -> n_done nd (t_key th) p ->
  Inv (set_threads s (<[t := mkThread (t_proc th) (t_msg th) (JSeq sm)
         (S (t_peer th)) Unlocked]> (s_threads s))).
Proof.
  intros Hc HI Ht Hj Hpeer Hnd Hdone. pose proof (inv_thread _ HI _ _ Ht) as Hth.
  apply (Inv_thread_update s t th); simpl; try done.
  - pose proof (th_job _ Hth) as Hjob. rewrite Hj in Hjob.
    destruct Hth. split; simpl; try done; lia.
  - intros q x Hq. pose proof (inv_cross _ HI _ _ _ _ Ht Hq) as Hx.
    unfold cross in *. rewrite Hj in Hx. simpl. destruct Hx as [?|[Hge (s' & Hs & Hle)]]; [by left|].
    right. destruct (decide (q = t_peer th)) as [->|Hne]; [|split; [lia|by exists s']].
    assert (x = nd) as -> by congruence.
    by destruct (pending_not_done (inv_node _ HI _ _ Hnd) _ _ p Hs).
  - intros sm' Hj'. congruence.
  - intros sm' [= <-]. by apply (inv_final _ HI t th).
Qed.

(** All proposals are in: the thread turns to its sequence message. *)
Lemma Inv_finish s t th seqs u :
  config_ok c -> Inv s -> s_threads s !! t = Some th -> t_job th = JData seqs ->
  t_peer th = count ->
  Inv (set_threads s (<[t := thread_finish u th]> (s_threads s))).
Proof.
  intros Hc HI Ht Hj Hpeer. pose proof (inv_thread _ HI _ _ Ht) as Hth.
  pose proof (th_job _ Hth) as Hlen. rewrite Hj in Hlen.
  assert (Hall : forall q nd, s_nodes s !! q = Some nd ->
            exists p, seqs !! q = Some (pms_seq p) /\ n_pending nd (t_key th) p).
  { intros q nd Hq. pose proof (inv_cross _ HI _ _ _ _ Ht Hq) as Hx. unfold cross in Hx.
    rewrite Hj in Hx. apply Hx. rewrite Hpeer, <- (inv_nodes_len _ HI). by eapply lookup_lt_Some. }
  assert (Hnode : forall i x, seqs !! i = Some x -> exists nd p, s_nodes s !! i = Some nd /\
            x = pms_seq p /\ n_pending nd (t_key th) p /\ 0 < x <= total (s_nodes s)).
  { intros i x Hi. destruct (lookup_lt_is_Some_2 (s_nodes s) i) as [nd Hnd].
    { rewrite (inv_nodes_len _ HI), <- Hlen. by eapply lookup_lt_Some. }
    destruct (Hall _ _ Hnd) as (p & Hp & Hpend). exists nd, p.
    pose proof (pending_facts (inv_node _ HI _ _ Hnd) _ _ Hpend) as (_ & Hpos & _).
    pose proof (inv_counter _ HI _ _ Hnd). simplify_eq. split_and!; try done; lia. }
  destruct (lookup_lt_is_Some_2 seqs (t_proc th)) as [x0 Hx0].
  { rewrite Hlen. apply Hth. }
  destruct (select_final_spec seqs x0) as (f & i & Hsel & Hi & Hf & Hmax & _).
  { by eapply list_elem_of_lookup_2. }
  { by destruct (Hnode _ _ Hx0) as (? & ? & _ & _ & _ & ? & _). }
  unfold thread_finish. rewrite Hj, Hsel.
  apply (Inv_thread_update s t th); simpl; try done.
  - apply lookup_lt_Some in Hi. destruct Hth. split; simpl; try done; try lia.
    split_and!; try done; lia.
  - intros q nd Hq. right. simpl. split; [lia|].
    destruct (Hall _ _ Hq) as (p & Hp & Hpend). exists p. split; [done|].
    apply Hmax. by eapply list_elem_of_lookup_2.
  - by rewrite Hj.
  - intros sm [= <-]. simpl. by destruct (Hnode _ _ Hi) as (? & ? & _ & _ & _ & _ & ?).
Qed.

End Invariant.
