(* ===== verification/SystemSteps.v ===== *)
(** * Every step preserves the invariant

    The labels of [System.exec] one by one: crashes, answers to threads, loss and
    duplication on links, and the two messages a server handles. *)

From Stdlib Require Import ZArith Lia Sorted.
From stdpp Require Import base list gmap functions.
From S2P Require Import Prelude Exceptions Wire Net Udp StdSet HoldBack Process Sender.
From S2P Require Import System NodeInv SystemInv.

Open Scope Z_scope.

Section Steps.
Context (c : config) (Hc : config_ok c).
Notation count := (cf_count c).
Notation enc := (cf_endian c).

(** ** Crashes *)

Lemma node_ok_up q nd b :
  node_ok count q nd -> node_ok count q (mkNode (n_proc nd) (n_log nd) b).
Proof. intros []. by split. Qed.

Lemma crash_lookup s i q nd' :
  s_nodes (crash s i) !! q = Some nd' ->
  exists nd, s_nodes s !! q = Some nd /\
    (nd' = nd \/ nd' = mkNode (n_proc nd) (n_log nd) Down).
Proof.
  simpl. rewrite list_lookup_alter. case_decide as Hd.
  - rewrite fmap_Some. intros (x & Hx & ->). subst. exists x. split; [done|by right].
  - intros Hq. exists nd'. split; [done|by left].
Qed.

Lemma crash_lookup_back s i q nd :
  s_nodes s !! q = Some nd ->
  exists nd', s_nodes (crash s i) !! q = Some nd' /\
    (nd' = nd \/ nd' = mkNode (n_proc nd) (n_log nd) Down).
Proof.
  intros Hq. simpl. rewrite list_lookup_alter. case_decide; subst; rewrite Hq; simpl; eauto.
Qed.

Lemma total_crash s i : total (s_nodes (crash s i)) = total (s_nodes s).
Proof.
  unfold total. do 2 f_equal. apply list_eq. intros q. simpl.
  rewrite !list_lookup_fmap, list_lookup_alter. case_decide; [subst|done].
  by destruct (s_nodes s !! q).
Qed.

Lemma Inv_crash s i : Inv c s -> Inv c (crash s i).
Proof.
  intros HI. split.
  - simpl. rewrite length_alter. apply HI.
  - apply HI.
  - apply HI.
  - intros q nd' (nd & Hq & [-> | ->])%crash_lookup; [|apply node_ok_up]; by eapply inv_node.
  - apply HI.
  - intros t th q nd' Ht (nd & Hq & [-> | ->])%crash_lookup; exact (inv_cross _ _ HI _ _ _ _ Ht Hq).
  - intros t th q nd' Ht (nd & Hq & [-> | ->])%crash_lookup; exact (inv_link _ _ HI _ _ _ _ Ht Hq).
  - apply HI.
  - intros j q pkt (t & th & nd & Ht & Hp & Hq & Ha)%(inv_ack _ _ HI).
    destruct (crash_lookup_back s i q nd Hq) as (nd' & Hq' & [-> | ->]);
      exists t, th; eexists; (split_and!; [done..|exact Ha]).
  - intros q nd' k (nd & Hq & [-> | ->])%crash_lookup Hk; exact (inv_owned _ _ HI _ _ _ Hq Hk).
  - rewrite total_crash.
    intros q nd' (nd & Hq & [-> | ->])%crash_lookup; exact (inv_counter _ _ HI _ _ Hq).
  - rewrite total_crash. apply HI.
Qed.

(** ** Replies *)

Lemma Inv_acks_subset s i j l :
  (forall pkt, pkt ∈ l -> pkt ∈ s_acks s (i, j)) -> Inv c s ->
  Inv c (set_acks s (<[(i, j) := l]> (s_acks s))).
Proof.
  intros Hl HI. destruct HI. split; try done.
  intros i' j' pkt. simpl. destruct (decide ((i, j) = (i', j'))) as [[= <- <-]|Hne].
  - rewrite fn_lookup_insert. intros Hin. exact (inv_ack _ _ _ (Hl _ Hin)).
  - rewrite fn_lookup_insert_ne by done. apply inv_ack.
Qed.

(** What a thread makes of a reply: the callback accepts only the acknowledgement of
    this thread's message by the process it waits for. *)
Lemma handle_ack_inv s t th seqs pkt :
  Inv c s -> s_threads s !! t = Some th -> t_job th = JData seqs ->
  ack_ok c s (t_proc th) (t_peer th) pkt ->
  let r := handle_ack (enc (t_proc th)) (dm_sender (t_msg th)) (dm_msg_id (t_msg th))
             (t_peer th) seqs (recv_buf pkt) (recv_len pkt) in
  r = (seqs, Continue) \/
  exists nd p, s_nodes s !! t_peer th = Some nd /\ n_pending nd (t_key th) p /\
    r = (<[t_peer th := pms_seq p]> seqs, Stop).
Proof.
  intros HI Ht Hj (t' & th' & nd & Ht' & Hp & Hq & Ha).
  pose proof (inv_thread _ _ HI _ _ Ht') as Hth'.
  destruct (th_u32 _ _ Hth') as (Hu1 & Hu2 & _). pose proof (cfg_count _ Hc).
  destruct Ha as [(u & p & -> & Hs & Hpr & Hpend)|(u & p & -> & _)]; simpl.
  - assert (t_peer th < count)%nat by (rewrite <- (inv_nodes_len _ _ HI); by eapply lookup_lt_Some).
    rewrite handle_ack_ack.
    2: { unfold AckMessage_u32. simpl. rewrite Hpr. split_and!; try done. unfold is_u32. lia. }
    destruct (ValidAckMsg _ _ _ _) eqn:Ev; [|by left]. right.
    apply ValidAckMsg_spec in Ev as (_ & Hsn & Hid & _). simpl in Hsn, Hid.
    assert (t_key th' = t_key th) as Hk by (unfold t_key, data_key; by rewrite Hsn, Hid).
    pose proof (thread_by_key _ HI _ _ _ _ Ht' Ht Hk) as ->.
    assert (th' = th) as -> by congruence. exists nd, p. split_and!; try done.
    apply Hpend. unfold is_data. by rewrite Hj.
  - left. apply handle_ack_other. rewrite length_SeqAckMsgToBuf.
    unfold sizeof_SeqAckMessage, sizeof_AckMessage. lia.
Qed.

Lemma isValidAck_inv s t th sm pkt :
  Inv c s -> s_threads s !! t = Some th -> t_job th = JSeq sm ->
  ack_ok c s (t_proc th) (t_peer th) pkt ->
  let r := isValidAck (enc (t_proc th)) sm tt (recv_buf pkt) (recv_len pkt) in
  r = (tt, Continue) \/
  (r = (tt, Stop) /\ exists nd p, s_nodes s !! t_peer th = Some nd /\ n_done nd (t_key th) p).
Proof.
  intros HI Ht Hj (t' & th' & nd & Ht' & Hp & Hq & Ha).
  pose proof (inv_thread _ _ HI _ _ Ht') as Hth'.
  destruct (th_u32 _ _ Hth') as (Hu1 & Hu2 & _).
  destruct Ha as [(u & p & -> & _)|(u & p & -> & Hd)]; simpl.
  - left. apply isValidAck_other. rewrite length_AckMsgToBuf.
    unfold sizeof_SeqAckMessage, sizeof_AckMessage. lia.
  - rewrite isValidAck_seqack by done.
    destruct (ValidSeqAckMsg _ _) eqn:Ev; [right|by left]. split; [done|].
    apply ValidSeqAckMsg_spec in Ev as (_ & Hsn & Hid). simpl in Hsn, Hid.
    destruct (thread_seq_ok _ HI Hc _ _ _ Ht Hj) as (_ & _ & Hk).
    assert (t_key th' = t_key th) as Hkk.
    { rewrite <- Hk. unfold t_key, data_key, seq_key. by rewrite Hsn, Hid. }
    pose proof (thread_by_key _ HI _ _ _ _ Ht' Ht Hkk) as ->.
    assert (th' = th) as -> by congruence. by exists nd, p.
Qed.

(** [recvfrom] answers a thread. *)
Lemma Inv_thread_answer s t th b r :
  Inv c s -> s_threads s !! t = Some th -> t_conn th = WaitingAck b ->
  match r with
  | RecvPacket pkt => ack_ok c s (t_proc th) (t_peer th) pkt
  | RecvError _ => True
  end ->
  Inv c (thread_answer c s t th r).
Proof.
  intros HI Ht Hcn Hr. pose proof (inv_thread _ _ HI _ _ Ht) as Hth.
  assert (t_peer th < count)%nat as Hpeer by (apply (th_conn _ _ Hth); by rewrite Hcn).
  assert (Hagain : forall b', Inv c (set_threads s (<[t := set_conn th (Sending b')]> (s_threads s))))
    by (intros b'; by apply Inv_conn).
  unfold thread_answer, thread_recv. rewrite Hcn. destruct (t_job th) as [seqs|sm] eqn:Hj.
  - assert (Hagain' : forall b', Inv c (set_threads s
      (<[t := mkThread (t_proc th) (t_msg th) (JData seqs) (t_peer th) (Sending b')]> (s_threads s)))).
    { intros b'. rewrite <- Hj. apply Hagain. }
    destruct r as [pkt|errno]; simpl.
    + destruct (handle_ack_inv s t th seqs pkt HI Ht Hj Hr) as [->|(nd & p & Hnd & Hp & ->)].
      * apply Hagain'.
      * simpl. apply Inv_locks. by eapply Inv_data_ack.
    + destruct (IsErrnoTimeout errno); [apply Hagain'|by apply Inv_crash].
  - destruct r as [pkt|errno]; simpl.
    + destruct (isValidAck_inv s t th sm pkt HI Ht Hj Hr) as [->|(-> & nd & p & Hnd & Hp)].
      * apply Hagain.
      * simpl. apply Inv_locks. by eapply Inv_seq_ack.
    + destruct (IsErrnoTimeout errno); [apply Hagain|by apply Inv_crash].
Qed.

(** ** Links *)

Lemma Inv_links s i j l :
  (forall pkt, pkt ∈ l -> pkt ∈ s_links s (i, j) \/ is_packet c (s_threads s) i pkt) ->
  (forall t th nd, s_threads s !! t = Some th -> t_proc th = i -> s_nodes s !! j = Some nd ->
     link_ok c th nd (s_links s (i, j)) -> link_ok c th nd l) ->
  Inv c s -> Inv c (set_links s (<[(i, j) := l]> (s_links s))).
Proof.
  intros Hp Hl HI. destruct HI. split; try done; simpl.
  - intros t th q nd Ht Hq. destruct (decide ((i, j) = (t_proc th, q))) as [[= Hi <-]|Hne].
    + rewrite <- Hi, fn_lookup_insert. apply (Hl t); try done. rewrite Hi. by apply (inv_link t).
    + rewrite fn_lookup_insert_ne by done. by apply (inv_link t).
  - intros i' q pkt. destruct (decide ((i, j) = (i', q))) as [[= <- <-]|Hne].
    + rewrite fn_lookup_insert. intros [?|?]%Hp; [by eapply inv_packet|done].
    + rewrite fn_lookup_insert_ne by done. apply inv_packet.
Qed.

Lemma link_ok_sublist th nd l l' :
  l' `sublist_of` l -> link_ok c th nd l -> link_ok c th nd l'.
Proof.
  intros Hs [H1 H2]. split.
  - intros p Hd Hin. apply (H1 p Hd). by eapply elem_of_sublist.
  - intros sm Hj. eapply fifo_sublist; [exact Hs|by apply H2].
Qed.

Lemma Inv_links_sublist s i j l :
  l `sublist_of` s_links s (i, j) -> Inv c s -> Inv c (set_links s (<[(i, j) := l]> (s_links s))).
Proof.
  intros Hs HI. apply Inv_links; [| |done].
  - intros pkt Hin. left. by eapply elem_of_sublist.
  - intros t th nd _ _ _. by apply link_ok_sublist.
Qed.

Lemma Inv_duplicate s i j l1 pkt l2 :
  s_links s (i, j) = l1 ++ pkt :: l2 -> Inv c s ->
  Inv c (set_links s (<[(i, j) := l1 ++ pkt :: pkt :: l2]> (s_links s))).
Proof.
  intros Hl HI. apply Inv_links; [| |done]; rewrite Hl.
  - intros x. rewrite !elem_of_app, !elem_of_cons. tauto.
  - intros t th nd _ _ _ [H1 H2]. split.
    + intros p Hd. specialize (H1 p Hd). revert H1. rewrite !elem_of_app, !elem_of_cons. tauto.
    + intros sm Hj. apply fifo_duplicate; [apply data_seq_packet|by apply H2].
Qed.

(** A thread sends the datagram of its current exchange. *)
Lemma Inv_send s t th :
  Inv c s -> s_threads s !! t = Some th ->
  Inv c (set_links s (<[(t_proc th, t_peer th) := s_links s (t_proc th, t_peer th) ++
           [thread_packet (enc (t_proc th)) th]]> (s_links s))).
Proof.
  intros HI Ht. pose proof (inv_thread _ _ HI _ _ Ht) as Hth.
  assert (Hpk : thread_packet (enc (t_proc th)) th = data_packet c th /\ is_data th \/
                exists sm, t_job th = JSeq sm /\
                  thread_packet (enc (t_proc th)) th = seq_packet c th sm).
  { unfold thread_packet, is_data. destruct (t_job th); [left|right]; eauto. }
  (* the packet is the data packet of [th2] only if [th2] is [th], still collecting *)
  assert (Hsame : forall t2 th2, s_threads s !! t2 = Some th2 ->
            thread_packet (enc (t_proc th)) th = data_packet c th2 -> th2 = th /\ is_data th).
  { intros t2 th2 Ht2 Heq. destruct Hpk as [[Hd1 Hd2]|(sm & _ & Hs)].
    - split; [|done]. rewrite Hd1 in Heq. apply data_packet_inj in Heq;
        [|done|by eapply inv_thread].
      pose proof (thread_by_key _ HI _ _ _ _ Ht Ht2 Heq) as ->. congruence.
    - rewrite Hs in Heq. by destruct (data_seq_packet c th2 th sm). }
  apply Inv_links; [| |done].
  - intros pkt [?| ->%list_elem_of_singleton]%elem_of_app; [by left|right].
    exists t, th. split_and!; [done..|]. destruct Hpk as [[? _]|(sm & ? & ?)]; eauto.
  - intros t2 th2 nd Ht2 Hp2 Hq [H1 H2]. split.
    + intros p Hd [Hin|Heq%list_elem_of_singleton]%elem_of_app; [by apply (H1 p Hd)|].
      destruct (Hsame _ _ Ht2 (eq_sym Heq)) as [-> Hdt].
      pose proof (inv_cross _ _ HI _ _ _ _ Ht2 Hq) as Hx.
      unfold cross, is_data in *. destruct (t_job th); [|done]. by destruct (proj1 Hx p).
    + intros sm Hj. apply fifo_snoc; [by apply H2|]. intros Heq.
      destruct (Hsame _ _ Ht2 Heq) as [-> Hdt]. unfold is_data in Hdt. by rewrite Hj in Hdt.
Qed.

(** ** Servers *)

Lemma total_insert nodes j nd nd' :
  nodes !! j = Some nd ->
  total (<[j := nd']> nodes) =
  total nodes - Z.of_nat (length (node_keys nd)) + Z.of_nat (length (node_keys nd')).
Proof.
  intros Hj. unfold total. rewrite list_fmap_insert.
  pose proof (sum_list_insert (length ∘ node_keys <$> nodes) j
    (length (node_keys nd)) (length (node_keys nd'))) as Hs.
  rewrite list_lookup_fmap, Hj in Hs. specialize (Hs eq_refl). simpl in *. lia.
Qed.

(** A process may change when its new state agrees with every thread. *)
Lemma Inv_node_update s j nd nd' :
  Inv c s -> s_nodes s !! j = Some nd -> node_ok count j nd' ->
  (forall t th, s_threads s !! t = Some th -> cross th j nd') ->
  (forall t th, s_threads s !! t = Some th ->
     link_ok c th nd' (s_links s (t_proc th, j))) ->
  (forall t th p, s_threads s !! t = Some th -> is_data th ->
     n_pending nd (t_key th) p -> n_pending nd' (t_key th) p) ->
  (forall k p, n_done nd k p -> n_done nd' k p) ->
  (forall k, k ∈ node_keys nd' -> exists t th, s_threads s !! t = Some th /\ t_key th = k) ->
  (length (node_keys nd) <= length (node_keys nd'))%nat ->
  seq_counter_ (n_proc nd') <= total (<[j := nd']> (s_nodes s)) ->
  Inv c (set_nodes s (<[j := nd']> (s_nodes s))).
Proof.
  intros HI Hj Hok Hcross Hlink Hpend Hdone Hown Hlen Hcnt.
  assert (Hlook : forall q x, <[j := nd']> (s_nodes s) !! q = Some x ->
            (q = j /\ x = nd') \/ (q <> j /\ s_nodes s !! q = Some x)).
  { intros q x. rewrite list_lookup_insert_Some. naive_solver. }
  assert (Htot : total (s_nodes s) <= total (<[j := nd']> (s_nodes s))).
  { rewrite (total_insert _ _ nd) by done. lia. }
  split; simpl.
  - rewrite length_insert. apply HI.
  - apply HI.
  - apply HI.
  - intros q x [[-> ->]|[_ Hx]]%Hlook; [done|by eapply inv_node].
  - apply HI.
  - intros t th q x Ht [[-> ->]|[_ Hx]]%Hlook; [by eapply Hcross|by eapply inv_cross].
  - intros t th q x Ht [[-> ->]|[_ Hx]]%Hlook; [by eapply Hlink|by eapply inv_link].
  - apply HI.
  - intros i q pkt (t & th & x & Ht & Hp & Hq & Ha)%(inv_ack _ _ HI).
    destruct (decide (q = j)) as [->|Hne].
    + assert (x = nd) as -> by congruence. exists t, th, nd'. simpl.
      rewrite list_lookup_insert_eq by (by eapply lookup_lt_Some). split_and!; try done.
      destruct Ha as [(u & p & ? & ? & ? & ?)|(u & p & ? & ?)].
      * left. exists u, p. split_and!; try done. eauto.
      * right. exists u, p. eauto.
    + exists t, th, x. simpl. by rewrite list_lookup_insert_ne.
  - intros q x k [[-> ->]|[_ Hx]]%Hlook Hk; [by apply Hown|by eapply inv_owned].
  - intros q x [[-> ->]|[_ Hx]]%Hlook; [done|]. pose proof (inv_counter _ _ HI _ _ Hx). lia.
  - intros t th sm Ht Hjb. pose proof (inv_final _ _ HI _ _ _ Ht Hjb). lia.
Qed.

Lemma Inv_ack_add s i j pkts :
  (forall pkt, pkt ∈ pkts -> ack_ok c s i j pkt) -> Inv c s ->
  Inv c (set_acks s (<[(i, j) := s_acks s (i, j) ++ pkts]> (s_acks s))).
Proof.
  intros Hp HI. destruct HI. split; try done.
  intros i' j' pkt. simpl. destruct (decide ((i, j) = (i', j'))) as [[= <- <-]|Hne].
  - rewrite fn_lookup_insert. intros [Hin|Hin]%elem_of_app; [exact (inv_ack _ _ _ Hin)|by apply Hp].
  - rewrite fn_lookup_insert_ne by done. apply inv_ack.
Qed.

Lemma Inv_up s j nd b :
  Inv c s -> s_nodes s !! j = Some nd ->
  Inv c (set_nodes s (<[j := mkNode (n_proc nd) (n_log nd) b]> (s_nodes s))).
Proof.
  intros HI Hj. apply (Inv_node_update s j nd); try done.
  - by apply node_ok_up, (inv_node _ _ HI).
  - intros t th Ht. exact (inv_cross _ _ HI _ _ _ _ Ht Hj).
  - intros t th Ht. exact (inv_link _ _ HI _ _ _ _ Ht Hj).
  - intros k Hk. exact (inv_owned _ _ HI _ _ _ Hj Hk).
  - rewrite (total_insert _ _ nd) by done. pose proof (inv_counter _ _ HI _ _ Hj).
    simpl. unfold node_keys, n_ord, n_queue in *. simpl. lia.
Qed.

Lemma Inv_node_up s j nd x b :
  s_nodes s !! j = Some nd -> Inv c (set_nodes s (<[j := x]> (s_nodes s))) ->
  Inv c (set_nodes s (<[j := mkNode (n_proc x) (n_log x) b]> (s_nodes s))).
Proof.
  intros Hj HI. rewrite <- (list_insert_insert_eq (s_nodes s) j _ x).
  apply (Inv_up _ j x b HI). simpl. rewrite list_lookup_insert_eq; [done|].
  by eapply lookup_lt_Some.
Qed.

(** What the handler of data messages does outside of the process. *)
Lemma deliveries_data m sendto pkt : deliveries (data_log m :: reply_of sendto pkt) = [].
Proof. by destruct sendto. Qed.

(** The data message of a thread that is not done at [j] reaches the server of [j]. *)
Lemma Inv_data_known s t th j nd p :
  Inv c s -> s_threads s !! t = Some th -> s_nodes s !! j = Some nd ->
  n_pending nd (t_key th) p ->
  forall u sendto, Inv c (serve c s (t_proc th) j nd (data_packet c th) u sendto).
Proof.
  intros HI Ht Hj Hp u sendto. pose proof (inv_thread _ _ HI _ _ Ht) as Hth.
  pose proof (inv_node _ _ HI _ _ Hj) as Hok. pose proof (cfg_count _ Hc).
  unfold serve, data_packet. rewrite (OnReceive_data_known _ _ _ _ _ _ p).
  2: { apply Hth. }
  2: { unfold process_count. rewrite (ok_count _ _ _ Hok), (th_sender _ _ Hth).
       pose proof (th_proc _ _ Hth). lia. }
  2: { exact Hp. }
  set (nd' := mkNode _ _ _).
  assert (Inv c (set_nodes s (<[j := nd']> (s_nodes s)))) as HI'.
  { unfold nd'. rewrite deliveries_data, app_nil_r. by apply Inv_up. }
  apply (Inv_ack_add (set_nodes s (<[j := nd']> (s_nodes s)))); [|done].
  intros pkt Hin. destruct sendto; simpl in Hin; [by apply elem_of_nil in Hin|].
  apply list_elem_of_singleton in Hin as ->.
  exists t, th, nd'. simpl.
  assert (<[j := nd']> (s_nodes s) !! j = Some nd') as Hlk
    by (apply list_lookup_insert_eq; by eapply lookup_lt_Some).
  destruct (pending_facts Hok _ _ Hp) as (Hpr & Hpos & _).
  pose proof (inv_counter _ _ HI _ _ Hj). pose proof (total_bound _ HI Hc).
  split_and!; try done. left. exists u, p. split_and!; try done. unfold is_u32. lia.
Qed.

(** The counter cannot wrap when a new message arrives. *)
Lemma next_counter s t th j nd :
  Inv c s -> s_threads s !! t = Some th -> s_nodes s !! j = Some nd ->
  t_key th ∉ node_keys nd ->
  seq_counter_ (n_proc nd) + 1 <= total (s_nodes s) + 1 < u32_modulus.
Proof.
  intros HI Ht Hj Hk. pose proof (inv_counter _ _ HI _ _ Hj).
  pose proof (cfg_bound _ Hc).
  assert (length (t_key th :: node_keys nd) <= length (cf_launches c))%nat as Hlen.
  { rewrite <- (inv_threads_len _ _ HI), <- (length_fmap t_key).
    apply submseteq_length. apply NoDup_submseteq.
    - apply NoDup_cons_2; [done|]. apply (ok_keys _ _ _ (inv_node _ _ HI _ _ Hj)).
    - intros k [->|Hin]%elem_of_cons.
      + apply list_elem_of_fmap. exists th. split; [done|]. by eapply list_elem_of_lookup_2.
      + destruct (inv_owned _ _ HI _ _ _ Hj Hin) as (t2 & th2 & Ht2 & <-).
        apply list_elem_of_fmap. exists th2. split; [done|]. by eapply list_elem_of_lookup_2. }
  split; [lia|].
  (* a node that knows one message more *)
  set (x := mkNode (make_Process [] 0 false)
              (replicate (S (length (node_keys nd))) (mkSeqMessage 0 0 0 0 0)) Down).
  assert (length (node_keys x) = S (length (node_keys nd))) as Hx.
  { unfold node_keys. simpl. by rewrite length_fmap, length_replicate. }
  pose proof (total_insert (s_nodes s) j nd x Hj) as Htot.
  assert (total (<[j := x]> (s_nodes s)) <= Z.of_nat (count * length (cf_launches c))) as Hb.
  { rewrite <- (inv_nodes_len _ _ HI), <- (length_insert _ j x). apply (total_bound_list c).
    intros y [q Hq]%list_elem_of_lookup. apply list_lookup_insert_Some in Hq as [(_ & <- & _)|[_ Hq]].
    - rewrite Hx. simpl in Hlen. lia.
    - by eapply node_keys_bound. }
  lia.
Qed.

(** The process has proposed a number for the thread's message. *)
Lemma Inv_node_data s t th j nd :
  let nd' := node_data nd (t_msg th) (seq_counter_ (n_proc nd) + 1) in
  Inv c s -> s_threads s !! t = Some th -> s_nodes s !! j = Some nd ->
  t_key th ∉ node_keys nd ->
  n_ord nd' ≡ₚ mkPM (data_key (t_msg th))
                 (mkPMS (seq_counter_ (n_proc nd) + 1) (Z.of_nat j))
                 (dm_data (t_msg th)) false :: n_ord nd ->
  hbq_wf (n_queue nd') ->
  Inv c (set_nodes s (<[j := nd']> (s_nodes s))).
Proof.
  intros nd' HI Ht Hj Hk Hp' Hwf'.
  pose proof (inv_node _ _ HI _ _ Hj) as Hok.
  pose proof (next_counter s t th j nd HI Ht Hj Hk) as Hcnt.
  pose proof (node_data_keys (t_msg th) Hp') as Hkeys. fold nd' in Hkeys.
  pose proof (node_data_done (t_msg th) Hp') as Hdone. fold nd' in Hdone.
  pose proof (node_data_pending Hok (t_msg th) Hk Hp' Hwf') as Hpend. fold nd' in Hpend.
  apply (Inv_node_update s j nd); try done.
  - by apply (node_data_ok Hok).
  - intros t2 th2 Ht2. pose proof (inv_cross _ _ HI _ _ _ _ Ht2 Hj) as Hx.
    unfold cross in *. destruct (t_job th2); setoid_rewrite Hdone; setoid_rewrite Hpend.
    + destruct Hx as [H1 H2]. split; [done|]. intros Hlt. destruct (H2 Hlt) as (p & Hp & Hpp). exists p. auto.
    + destruct Hx as [Hd|(Hlt & p & Hp & Hpp)]; [by left|right].
      split; [done|]. exists p. auto.
  - intros t2 th2 Ht2. destruct (inv_link _ _ HI _ _ _ _ Ht2 Hj) as [H1 H2].
    split; [|done]. intros p Hd%Hdone. by apply (H1 p).
  - intros t2 th2 p Ht2 _ Hp. apply Hpend. by left.
  - intros k p Hd. by apply Hdone.
  - intros k. rewrite Hkeys. intros [->|Hin]%elem_of_cons; [eauto|by eapply inv_owned].
  - rewrite Hkeys. simpl. lia.
  - rewrite (total_insert _ _ nd) by done. rewrite Hkeys. simpl. lia.
Qed.

Lemma Inv_data_new s t th j nd :
  Inv c s -> s_threads s !! t = Some th -> s_nodes s !! j = Some nd ->
  t_key th ∉ node_keys nd ->
  forall u sendto, Inv c (serve c s (t_proc th) j nd (data_packet c th) u sendto).
Proof.
  intros HI Ht Hj Hk u sendto. pose proof (inv_thread _ _ HI _ _ Ht) as Hth.
  pose proof (inv_node _ _ HI _ _ Hj) as Hok.
  pose proof (next_counter s t th j nd HI Ht Hj Hk) as Hcnt.
  pose proof (ok_counter _ _ _ Hok) as Hpos.
  destruct (OnReceive_data_new (enc (t_proc th)) (enc j) u sendto (n_proc nd) (t_msg th))
    as (Heq & Hperm & Hwf').
  { apply Hth. }
  { unfold process_count. rewrite (ok_count _ _ _ Hok), (th_sender _ _ Hth).
    pose proof (th_proc _ _ Hth). lia. }
  { apply Hok. }
  { destruct (pending_seqs_ _ !! _) eqn:E; [|done]. destruct Hk.
    unfold node_keys. rewrite elem_of_app. left. by eapply (pending_key Hok). }
  unfold serve, data_packet. rewrite Heq, deliveries_data, app_nil_r.
  rewrite u32_small in * by (unfold is_u32; lia).
  set (nd' := node_data nd (t_msg th) (seq_counter_ (n_proc nd) + 1)).
  assert (Hp' : n_ord nd' ≡ₚ mkPM (data_key (t_msg th))
            (mkPMS (seq_counter_ (n_proc nd) + 1) (Z.of_nat j)) (dm_data (t_msg th)) false
            :: n_ord nd) by (rewrite <- (ok_id _ _ _ Hok); exact Hperm).
  pose proof (Inv_node_data s t th j nd HI Ht Hj Hk Hp' Hwf') as HI'. fold nd' in HI'.
  set (b := match Send sendto with Some _ => _ | None => _ end).
  set (x := mkNode (n_proc nd') (n_log nd') b).
  apply (Inv_ack_add (set_nodes s (<[j := x]> (s_nodes s)))); [|by apply (Inv_node_up s j nd)].
  intros pkt Hin. destruct sendto; simpl in Hin; [by apply elem_of_nil in Hin|].
  apply list_elem_of_singleton in Hin as ->. exists t, th, x. simpl.
  assert (<[j := x]> (s_nodes s) !! j = Some x) as Hlk
    by (apply list_lookup_insert_eq; by eapply lookup_lt_Some).
  split_and!; try done. left. eexists u, _. split_and!; [reflexivity|..]; simpl.
  - unfold is_u32. lia.
  - apply Hok.
  - intros _. apply (node_data_pending Hok (t_msg th) Hk Hp' Hwf'). right.
    by rewrite (ok_id _ _ _ Hok).
Qed.

(** Only the counter moves, up to a number that was proposed. *)
Lemma Inv_forward s j nd f b :
  Inv c s -> s_nodes s !! j = Some nd -> f <= total (s_nodes s) ->
  Inv c (set_nodes s (<[j := mkNode (ForwardSeqNum (n_proc nd) f) (n_log nd) b]> (s_nodes s))).
Proof.
  intros HI Hj Hf. unfold ForwardSeqNum. destruct (Z.ltb_spec (seq_counter_ (n_proc nd)) f);
    [|by apply Inv_up].
  pose proof (inv_node _ _ HI _ _ Hj) as Hok.
  apply (Inv_node_update s j nd); try done.
  - destruct Hok. split; try done; simpl.
    + intros pm Hpm. pose proof (ok_ord_counter pm Hpm). lia.
    + intros m Hm. pose proof (ok_log_counter m Hm). lia.
    + lia.
  - intros t th Ht. exact (inv_cross _ _ HI _ _ _ _ Ht Hj).
  - intros t th Ht. exact (inv_link _ _ HI _ _ _ _ Ht Hj).
  - intros k Hk. exact (inv_owned _ _ HI _ _ _ Hj Hk).
  - rewrite (total_insert _ _ nd) by done. simpl.
    unfold node_keys, n_ord, n_queue in *. simpl. lia.
Qed.

(** The process has finalised the message of a thread. *)
Lemma Inv_node_seq s t th sm j nd u old :
  Inv c s -> s_threads s !! t = Some th -> t_job th = JSeq sm -> s_nodes s !! j = Some nd ->
  n_pending nd (t_key th) old -> pms_seq old <= sm_final_seq sm ->
  data_packet c th ∉ s_links s (t_proc th, j) ->
  Inv c (set_nodes s (<[j := node_seq u nd sm]> (s_nodes s))).
Proof.
  intros HI Ht Hjb Hj Hold Hle Hnd. pose proof (inv_node _ _ HI _ _ Hj) as Hok.
  destruct (thread_seq_ok _ HI Hc _ _ _ Ht Hjb) as (_ & _ & Hk). rewrite <- Hk in Hold.
  pose proof (node_seq_keys Hok u sm old Hold) as Hkeys.
  pose proof (node_seq_done Hok u sm old Hold Hle) as Hdone.
  pose proof (node_seq_pending u sm old Hold) as Hpend.
  assert (Hother : forall t2 th2, s_threads s !! t2 = Some th2 ->
            t_key th2 = seq_key sm -> th2 = th).
  { intros t2 th2 Ht2 Heq. rewrite Hk in Heq.
    pose proof (thread_by_key _ HI _ _ _ _ Ht2 Ht Heq) as ->. congruence. }
  apply (Inv_node_update s j nd); try done.
  - by apply (node_seq_ok Hok u sm old).
  - intros t2 th2 Ht2. pose proof (inv_cross _ _ HI _ _ _ _ Ht2 Hj) as Hx.
    unfold cross in *. destruct (t_job th2) eqn:Hj2.
    + assert (t_key th2 <> seq_key sm) as Hne.
      { intros Heq. rewrite (Hother _ _ Ht2 Heq) in Hj2. congruence. }
      destruct Hx as [H1 H2]. split; [by intros p [?%H1|[? _]]%Hdone|].
      intros Hlt. destruct (H2 Hlt) as (p & Hp & Hpp). exists p. by rewrite Hpend.
    + destruct Hx as [Hd|(Hlt & p & Hp & Hpp)]; [left; rewrite Hdone; by left|].
      destruct (decide (t_key th2 = seq_key sm)) as [Heq|Hne].
      * rewrite (Hother _ _ Ht2 Heq) in Hj2. left. rewrite Hdone. right. split; [done|congruence].
      * right. split; [done|]. exists p. by rewrite Hpend.
  - intros t2 th2 Ht2. destruct (inv_link _ _ HI _ _ _ _ Ht2 Hj) as [H1 H2].
    split; [|done]. intros p [Hd|[Heq _]]%Hdone; [by apply (H1 p)|].
    by rewrite (Hother _ _ Ht2 Heq).
  - intros t2 th2 p Ht2 Hd Hp. apply Hpend. split; [|done]. intros Heq.
    rewrite (Hother _ _ Ht2 Heq) in Hd. unfold is_data in Hd. by rewrite Hjb in Hd.
  - intros k p Hd. rewrite Hdone. by left.
  - intros k. rewrite Hkeys. by eapply inv_owned.
  - by rewrite Hkeys.
  - rewrite (total_insert _ _ nd) by done. rewrite Hkeys. rewrite node_seq_counter.
    pose proof (inv_counter _ _ HI _ _ Hj). pose proof (inv_final _ _ HI _ _ _ Ht Hjb). lia.
Qed.

Lemma set_queue_same p : set_queue p (hold_back_queue_ p) = p.
Proof. by destruct p. Qed.

Lemma set_queue_forward p f :
  set_queue (ForwardSeqNum p f) (hold_back_queue_ p) = ForwardSeqNum p f.
Proof. unfold ForwardSeqNum. case_test; by destruct p. Qed.

(** What the handler of sequence messages does outside of the process. *)
Lemma seq_actions m pkt q m' ms :
  let acts := seq_log m :: AReply pkt :: SetDeliverable_log q m' ++ (ADeliver <$> ms) in
  deliveries acts = ms /\ replies acts = [pkt].
Proof.
  assert (deliveries (ADeliver <$> ms) = ms /\ replies (ADeliver <$> ms) = []) as [H1 H2].
  { unfold deliveries, replies. induction ms as [|x ms [IH1 IH2]]; simpl; [done|].
    split; [exact (f_equal (cons x) IH1)|exact IH2]. }
  intros acts. unfold acts, SetDeliverable_log, deliveries, replies in *.
  destruct (pending_seqs_ q !! _); simpl;
    (split; [exact H1|exact (f_equal (cons pkt) H2)]).
Qed.

(** A sequence message reaches the server of [j]. *)
Lemma Inv_seq s t th sm j nd :
  Inv c s -> s_threads s !! t = Some th -> t_job th = JSeq sm -> s_nodes s !! j = Some nd ->
  data_packet c th ∉ s_links s (t_proc th, j) ->
  forall u sendto, Inv c (serve c s (t_proc th) j nd (seq_packet c th sm) u sendto).
Proof.
  intros HI Ht Hjb Hj Hnd u sendto. pose proof (inv_node _ _ HI _ _ Hj) as Hok.
  destruct (thread_seq_ok _ HI Hc _ _ _ Ht Hjb) as (Hu & Hs & Hk).
  pose proof (inv_thread _ _ HI _ _ Ht) as Hth.
  pose proof (th_job _ _ Hth) as Hjob. rewrite Hjb in Hjob. destruct Hjob as (_ & _ & Hpr).
  pose proof (th_proc _ _ Hth).
  assert (sm_sender sm < process_count (n_proc nd) /\
          sm_final_seq_proposer sm < process_count (n_proc nd)) as [Hv1 Hv2].
  { unfold process_count. rewrite (ok_count _ _ _ Hok). lia. }
  pose proof (inv_final _ _ HI _ _ _ Ht Hjb) as Hfin.
  unfold serve, seq_packet. destruct sendto as [errno|].
  { rewrite OnReceive_seq_fail by done. simpl. rewrite app_nil_r.
    apply (Inv_ack_add (set_nodes s _)); [by intros ? ?%elem_of_nil|]. by apply Inv_forward. }
  rewrite OnReceive_seq by done.
  destruct (seq_actions sm (SeqAckMsgToBuf (enc j)
    (mkSeqAckMessage u (sm_sender sm) (sm_msg_id sm))) (hold_back_queue_ (n_proc nd))
    (stamp_seq sm) (SetDeliverable u (hold_back_queue_ (n_proc nd)) sm).2) as [-> ->].
  set (nd' := mkNode _ _ _).
  assert (Inv c (set_nodes s (<[j := nd']> (s_nodes s))) /\ exists p, n_done nd' (t_key th) p)
    as [HI' [p Hp]].
  { pose proof (inv_cross _ _ HI _ _ _ _ Ht Hj) as Hx. unfold cross in Hx. rewrite Hjb in Hx.
    destruct Hx as [Hd|(_ & old & Hold & Hle)].
    - unfold nd'. rewrite (SetDeliverable_unknown u _ sm).
      + simpl. rewrite app_nil_r, set_queue_forward. split; [by apply Inv_forward|].
        exists (seq_info sm). unfold ForwardSeqNum. by destruct (_ <? _).
      + destruct (pending_seqs_ _ !! _) eqn:E; [|done]. rewrite <- Hk in Hd.
        by destruct (pending_not_done Hok _ _ (seq_info sm) E).
    - change nd' with (node_seq u nd sm). split; [by eapply Inv_node_seq|].
      exists (seq_info sm). rewrite <- Hk in Hold |- *.
      rewrite (node_seq_done Hok u sm old Hold Hle). by right. }
  apply (Inv_ack_add (set_nodes s (<[j := nd']> (s_nodes s)))); [|done].
  intros pkt ->%list_elem_of_singleton. exists t, th, nd'. simpl.
  assert (<[j := nd']> (s_nodes s) !! j = Some nd') as Hlk
    by (apply list_lookup_insert_eq; by eapply lookup_lt_Some).
  split_and!; try done. right. exists u, p. split; [|done].
  rewrite Hs, (th_sender _ _ Hth). do 2 f_equal.
  unfold seq_key, t_key, data_key in Hk. by injection Hk.
Qed.

End Steps.
