(* ===== verification/TotalOrder.v ===== *)
(** * Total order

    The theorems about runs of the whole system: all processes deliver the same
    messages in the same order, each at most once, and when the senders have finished
    every process has delivered everything. *)

From Stdlib Require Import ZArith Lia Sorted.
From stdpp Require Import base list gmap functions.
From S2P Require Import Prelude Exceptions Wire Net Udp StdSet HoldBack Process Sender.
From S2P Require Import System RunFacts NodeInv SystemInv SystemSteps.

Open Scope Z_scope.

(** The message that one entry of a log announces. *)
Definition unshown (x : Z * Z * Z * Z) : SeqMessage :=
  let '(sender, msg_id, f, fp) := x in mkSeqMessage 0 sender msg_id f fp.

Definition shown_key (x : Z * Z * Z * Z) : PendingMessageKey := seq_key (unshown x).

(** Delivery order on log entries. *)
Definition shown_lt (x y : Z * Z * Z * Z) : Prop := final_lt (unshown x) (unshown y).

Section Runs.
Context (c : config) (Hc : config_ok c).
Notation count := (cf_count c).

(** ** The invariant holds in every reachable state *)

Lemma Inv_serve s i j nd pkt rest u sendto :
  Inv c s -> s_nodes s !! j = Some nd -> s_links s (i, j) = pkt :: rest ->
  Inv c (serve c (set_links s (<[(i, j) := rest]> (s_links s))) i j nd pkt u sendto).
Proof.
  intros HI Hj Hl. set (s1 := set_links s _).
  assert (Inv c s1) as HI1.
  { apply Inv_links_sublist; [|done]. rewrite Hl. by constructor. }
  assert (s_links s1 (i, j) = rest) as Hl1 by apply fn_lookup_insert.
  assert (pkt ∈ s_links s (i, j)) as Hin by (rewrite Hl; by left).
  destruct (inv_packet _ _ HI _ _ _ Hin) as (t & th & Ht & Hp & Hpk). subst i.
  destruct (inv_link _ _ HI _ _ _ _ Ht Hj) as [Hlk1 Hlk2].
  destruct Hpk as [->|(sm & Hjb & ->)].
  - destruct (decide (t_key th ∈ node_keys nd)) as [Hk|Hk].
    + destruct (key_status (inv_node _ _ HI _ _ Hj) _ Hk) as (p & [Hpd|Hd]).
      * by eapply (Inv_data_known c Hc s1 t th j nd p).
      * by destruct (Hlk1 p Hd).
    + by apply (Inv_data_new c Hc s1 t).
  - apply (Inv_seq c Hc s1 t); try done. rewrite Hl1.
    specialize (Hlk2 _ Hjb). rewrite Hl in Hlk2. by apply Hlk2.
Qed.

Lemma Inv_sendto s t th b :
  Inv c s -> s_threads s !! t = Some th -> t_conn th = Sending b ->
  Inv c (set_links (set_threads s (<[t := set_conn th (WaitingAck b)]> (s_threads s)))
    (<[(t_proc th, t_peer th) := s_links s (t_proc th, t_peer th) ++
        [thread_packet (cf_endian c (t_proc th)) th]]> (s_links s))).
Proof.
  intros HI Ht Ec.
  assert (Inv c (set_threads s (<[t := set_conn th (WaitingAck b)]> (s_threads s)))) as HI1.
  { apply Inv_conn; try done. intros _. apply (th_conn _ _ (inv_thread _ _ HI _ _ Ht)).
    by rewrite Ec. }
  apply (Inv_send c _ t (set_conn th (WaitingAck b)) HI1).
  simpl. apply list_lookup_insert_eq. by eapply lookup_lt_Some.
Qed.

Lemma Inv_read_ack s t th b k keep pkt :
  Inv c s -> s_threads s !! t = Some th -> t_conn th = WaitingAck b ->
  s_acks s (t_proc th, t_peer th) !! k = Some pkt ->
  Inv c (thread_answer c (take_ack s (t_proc th, t_peer th) k keep) t th (RecvPacket pkt)).
Proof.
  intros HI Ht Ec Ek.
  assert (ack_ok c s (t_proc th) (t_peer th) pkt) as Ha.
  { apply (inv_ack _ _ HI). by eapply list_elem_of_lookup_2. }
  destruct keep; [by eapply (Inv_thread_answer c Hc)|].
  eapply (Inv_thread_answer c Hc); [|exact Ht|exact Ec|exact Ha].
  apply Inv_acks_subset; [|done]. intros x Hx. by eapply elem_of_sublist, sublist_delete.
Qed.

Lemma Inv_step s l s' : Inv c s -> exec c l s = Some s' -> Inv c s'.
Proof.
  intros HI Hs%exec_step. destruct Hs.
  - apply Inv_locks. by apply Inv_conn.
  - by apply Inv_sendto.
  - by apply Inv_crash.
  - by eapply Inv_read_ack.
  - unfold thread_answer. erewrite thread_recv_stray by done. apply Inv_conn; try done.
    intros _. apply (th_conn _ _ (inv_thread _ _ HI _ _ ltac:(done))). congruence.
  - by eapply (Inv_thread_answer c Hc).
  - by eapply Inv_finish.
  - by apply Inv_serve.
  - by apply Inv_up.
  - by apply Inv_crash.
  - by rewrite serve_foreign_same.
  - apply Inv_links_sublist; [apply sublist_delete|done].
  - rewrite (drop_S (s_links s (i, j)) pkt k) by done. apply Inv_duplicate; [|done].
    by rewrite take_drop_middle.
  - by rewrite (cfg_fifo _ Hc) in *.
  - apply Inv_acks_subset; [|done]. intros x Hx. by eapply elem_of_sublist, sublist_delete.
  - by apply Inv_crash.
Qed.

Lemma reachable_Inv s : reachable c s -> Inv c s.
Proof. induction 1; [by apply Inv_init|by eapply Inv_step]. Qed.

(** ** Consequences for what is delivered *)

Section State.
Context {s : sys} (HI : Inv c s).

(** A finalised message has the number its thread chose. *)
Lemma done_thread q nd k p :
  s_nodes s !! q = Some nd -> n_done nd k p ->
  exists t th sm, s_threads s !! t = Some th /\ t_job th = JSeq sm /\ t_key th = k /\
    p = seq_info sm.
Proof.
  intros Hq Hd. pose proof (inv_node _ _ HI _ _ Hq) as Hok.
  destruct (inv_owned _ _ HI _ _ k Hq (done_key _ _ Hd)) as (t & th & Ht & <-).
  pose proof (inv_cross _ _ HI _ _ _ _ Ht Hq) as Hx. unfold cross in Hx.
  destruct (t_job th) as [seqs|sm] eqn:Hj; [by destruct (proj1 Hx p)|].
  exists t, th, sm. split_and!; try done.
  destruct Hx as [Hx|(_ & p' & Hp & _)]; [by apply (done_unique Hok (t_key th))|].
  by destruct (pending_not_done Hok _ _ p Hp).
Qed.

Lemma done_agree q q' nd nd' k p p' :
  s_nodes s !! q = Some nd -> s_nodes s !! q' = Some nd' ->
  n_done nd k p -> n_done nd' k p' -> p = p'.
Proof.
  intros Hq Hq' Hd Hd'.
  destruct (done_thread _ _ _ _ Hq Hd) as (t & th & sm & Ht & Hj & Hk & ->).
  destruct (done_thread _ _ _ _ Hq' Hd') as (t' & th' & sm' & Ht' & Hj' & Hk' & ->).
  assert (t = t') as -> by (eapply (thread_by_key c HI); [done..|congruence]). congruence.
Qed.

Lemma log_done nd m : m ∈ n_log nd -> n_done nd (seq_key m) (seq_info m).
Proof. intros Hm. right. by exists m. Qed.

Lemma shown_eq m m' : seq_key m = seq_key m' -> seq_info m = seq_info m' -> shown m = shown m'.
Proof.
  unfold seq_key, seq_info, shown. intros [= -> ->] [= -> ->]. done.
Qed.

Lemma shown_lt_final m m' : shown_lt (shown m) (shown m') <-> final_lt m m'.
Proof. done. Qed.

(** A process that delivered something later than [m] has delivered [m]. *)
Lemma log_closed p q np nq m m' :
  s_nodes s !! p = Some np -> s_nodes s !! q = Some nq ->
  m ∈ n_log np -> m' ∈ n_log nq -> final_lt m m' ->
  exists m2, m2 ∈ n_log nq /\ shown m2 = shown m.
Proof.
  intros Hp Hq Hm Hm' Hlt. pose proof (inv_node _ _ HI _ _ Hq) as Hok.
  destruct (done_thread _ _ _ _ Hp (log_done _ _ Hm)) as (t & th & sm & Ht & Hj & Hk & Hi).
  pose proof (inv_cross _ _ HI _ _ _ _ Ht Hq) as Hx. unfold cross in Hx. rewrite Hj in Hx.
  rewrite Hk, <- Hi in Hx. destruct Hx as [[[d Hd]|(m2 & Hm2 & Hk2 & Hi2)]|(_ & x & Hx & Hle)].
  - destruct (final_lt_irrefl m).
    apply (final_lt_trans _ m'); [done|].
    exact (ok_deliverable _ _ _ Hok _ Hd eq_refl _ Hm').
  - exists m2. split; [done|]. by apply shown_eq.
  - destruct (pending_facts Hok _ _ Hx) as (_ & _ & Hbelow). specialize (Hbelow _ Hm').
    assert (sm_final_seq m = sm_final_seq sm) by (unfold seq_info in Hi; congruence).
    exfalso. unfold final_lt in Hlt. lia.
Qed.

Lemma log_total p q np nq m m' :
  s_nodes s !! p = Some np -> s_nodes s !! q = Some nq ->
  m ∈ n_log np -> m' ∈ n_log nq ->
  shown m = shown m' \/ final_lt m m' \/ final_lt m' m.
Proof.
  intros Hp Hq Hm Hm'. destruct (decide (seq_key m = seq_key m')) as [Hk|Hk].
  - left. apply shown_eq; [done|]. eapply (done_agree p q); [done..| |by apply log_done].
    rewrite <- Hk. by apply log_done.
  - right. unfold final_lt. unfold seq_key in Hk.
    destruct (decide (sm_sender m = sm_sender m')), (decide (sm_msg_id m = sm_msg_id m'));
      [congruence|lia..].
Qed.

Lemma delivered_sorted q nd :
  s_nodes s !! q = Some nd -> StronglySorted shown_lt (delivered nd).
Proof.
  intros Hq. eapply fmap_sorted; [|apply (ok_log _ _ _ (inv_node _ _ HI _ _ Hq))].
  intros x y _ _. apply shown_lt_final.
Qed.

Lemma delivered_closed p q np nq x y :
  s_nodes s !! p = Some np -> s_nodes s !! q = Some nq ->
  x ∈ delivered np -> y ∈ delivered nq -> shown_lt x y -> x ∈ delivered nq.
Proof.
  intros Hp Hq (m & -> & Hm)%list_elem_of_fmap (m' & -> & Hm')%list_elem_of_fmap Hlt.
  destruct (log_closed p q np nq m m' Hp Hq Hm Hm' Hlt) as (m2 & Hm2 & <-).
  apply list_elem_of_fmap. by exists m2.
Qed.

Lemma delivered_comparable p q np nq :
  s_nodes s !! p = Some np -> s_nodes s !! q = Some nq ->
  delivered np `prefix_of` delivered nq \/ delivered nq `prefix_of` delivered np.
Proof.
  intros Hp Hq. apply (sorted_closed_prefix shown_lt).
  - intros x. apply final_lt_irrefl.
  - intros x y z. apply final_lt_trans.
  - assert (Hin : forall x, x ∈ delivered np ++ delivered nq ->
              exists i nd m, s_nodes s !! i = Some nd /\ m ∈ n_log nd /\ x = shown m).
    { intros x [(m & -> & Hm)%list_elem_of_fmap|(m & -> & Hm)%list_elem_of_fmap]%elem_of_app;
        eauto 10. }
    intros x y (i & ni & m & Hi & Hm & ->)%Hin (j & nj & m' & Hj & Hm' & ->)%Hin.
    by apply (log_total i j ni nj).
  - by eapply delivered_sorted.
  - by eapply delivered_sorted.
  - intros x y. by apply (delivered_closed p q).
  - intros x y. by apply (delivered_closed q p).
Qed.

Lemma log_of_comparable p q :
  log_of s p `prefix_of` log_of s q \/ log_of s q `prefix_of` log_of s p.
Proof.
  unfold log_of. destruct (s_nodes s !! p) as [np|] eqn:Hp; [|left; apply prefix_nil].
  destruct (s_nodes s !! q) as [nq|] eqn:Hq; [|right; apply prefix_nil].
  by apply (delivered_comparable p q).
Qed.

Lemma log_of_nodup q : NoDup (shown_key <$> log_of s q).
Proof.
  unfold log_of. destruct (s_nodes s !! q) as [nd|] eqn:Hq; [|apply NoDup_nil_2].
  unfold delivered. rewrite <- list_fmap_compose.
  exact (log_keys_nodup (inv_node _ _ HI _ _ Hq)).
Qed.

(** ** When the senders have finished *)

Hypothesis Hfin : forall t th, s_threads s !! t = Some th -> finished c th.

Lemma all_done t th q nd :
  s_threads s !! t = Some th -> s_nodes s !! q = Some nd ->
  exists p, n_done nd (t_key th) p.
Proof.
  intros Ht Hq. destruct (Hfin _ _ Ht) as [Hpeer Hj].
  pose proof (inv_cross _ _ HI _ _ _ _ Ht Hq) as Hx. unfold cross in Hx.
  destruct (t_job th) as [|sm]; [done|]. destruct Hx as [Hd|[Hle _]]; [by eexists|].
  apply lookup_lt_Some in Hq. rewrite (inv_nodes_len _ _ HI) in Hq. lia.
Qed.

(** Nothing is left in a queue: its head would be undeliverable, hence unfinished. *)
Lemma queue_empty q nd : s_nodes s !! q = Some nd -> n_ord nd = [].
Proof.
  intros Hq. pose proof (inv_node _ _ HI _ _ Hq) as Hok.
  destruct (n_ord nd) as [|pm ord] eqn:Ho; [done|exfalso].
  pose proof (wf_head _ (ok_wf _ _ _ Hok)) as Hb. unfold n_ord in Ho. rewrite Ho in Hb.
  destruct pm as [k x d b]. simpl in Hb. subst b.
  assert (n_pending nd k x) as Hp.
  { apply (pending_entry Hok). exists d. unfold n_ord. rewrite Ho. by left. }
  assert (k ∈ node_keys nd) as Hk.
  { unfold node_keys. rewrite elem_of_app. left. by apply (pending_key Hok _ x). }
  destruct (inv_owned _ _ HI _ _ k Hq Hk) as (t & th & Ht & <-).
  destruct (all_done t th q nd Ht Hq) as [p Hd].
  by destruct (pending_not_done Hok _ _ p Hp).
Qed.

Lemma queue_drained q nd : s_nodes s !! q = Some nd -> n_queue nd = empty_queue.
Proof.
  intros Hq. pose proof (queue_empty q nd Hq) as He.
  pose proof (inv_node _ _ HI _ _ Hq) as Hok. unfold n_ord in He.
  destruct (n_queue nd) as [pend ord] eqn:E. simpl in He. subst ord. unfold empty_queue. f_equal.
  apply map_empty. intros k. destruct (pend !! k) as [x|] eqn:Ek; [|done].
  assert (n_pending nd k x) as [d Hd]%(pending_entry Hok)
    by (unfold n_pending; by rewrite E).
  unfold n_ord in Hd. rewrite E in Hd. by apply elem_of_nil in Hd.
Qed.

Lemma delivered_all q :
  (q < count)%nat -> shown_key <$> log_of s q ≡ₚ t_key <$> s_threads s.
Proof.
  intros Hq. destruct (lookup_lt_is_Some_2 (s_nodes s) q) as [nd Hnd].
  { by rewrite (inv_nodes_len _ _ HI). }
  apply NoDup_Permutation; [apply log_of_nodup|apply HI|]. intros k.
  unfold log_of. rewrite Hnd. unfold delivered. rewrite <- list_fmap_compose.
  change (shown_key ∘ shown) with seq_key. split.
  - intros Hk. destruct (inv_owned _ _ HI _ _ k Hnd) as (t & th & Ht & <-).
    { unfold node_keys. rewrite elem_of_app. by right. }
    apply list_elem_of_fmap. exists th. split; [done|]. by eapply list_elem_of_lookup_2.
  - intros (th & -> & [t Ht]%list_elem_of_lookup)%list_elem_of_fmap.
    destruct (all_done t th q nd Ht Hnd) as [p Hd].
    pose proof (done_key _ _ Hd) as Hk. unfold node_keys in Hk.
    by rewrite (queue_empty q nd Hnd) in Hk.
Qed.

Lemma finished_logs_equal p q :
  (p < count)%nat -> (q < count)%nat -> log_of s p = log_of s q.
Proof.
  intros Hp Hq. pose proof (delivered_all p Hp) as Hp'. pose proof (delivered_all q Hq) as Hq'.
  assert (length (log_of s p) = length (log_of s q)) as Hl.
  { rewrite <- (length_fmap shown_key (log_of s p)), <- (length_fmap shown_key (log_of s q)).
    by rewrite Hp', Hq'. }
  destruct (log_of_comparable p q) as [[k Hk]|[k Hk]]; rewrite Hk in Hl |- *;
    rewrite length_app in Hl; destruct k; simpl in Hl; rewrite ?app_nil_r; (done || lia).
Qed.

End State.

End Runs.
