(* ===== verification/TobSpec.v ===== *)
(** * Refinement of total order broadcast

    The abstract service: one global sequence of messages, to which launched messages are
    appended once, and for every process how much of it the process has delivered.
    The system of processes implements it by a forward simulation. *)

From Stdlib Require Import ZArith Lia.
From stdpp Require Import base list relations.
From S2P Require Import Prelude Wire HoldBack Process Sender System RunFacts NodeInv SystemInv.
From S2P Require Import SystemSteps TotalOrder.

Open Scope nat_scope.

(** ** The specification *)

Record tob := mkTob {
  tob_log : list (Z * Z * Z * Z);
  tob_pos : list nat
}.

Definition tob_init (c : config) : tob := mkTob [] (replicate (cf_count c) 0).

Inductive tob_step (c : config) : tob -> tob -> Prop :=
| tob_order G pos x :
    shown_key x ∈ launch_key <$> cf_launches c -> shown_key x ∉ shown_key <$> G ->
    tob_step c (mkTob G pos) (mkTob (G ++ [x]) pos)
| tob_deliver G pos q n :
    pos !! q = Some n -> n < length G ->
    tob_step c (mkTob G pos) (mkTob G (<[q := S n]> pos)).

(** The system state [s] shows what the abstract state [a] allows. *)
Record abstracts (c : config) (s : sys) (a : tob) : Prop := {
  abs_len : length (tob_pos a) = cf_count c;
  abs_pos q n :
    tob_pos a !! q = Some n -> n <= length (tob_log a) /\ log_of s q = take n (tob_log a);
  abs_log : tob_log a = [] \/ exists q, tob_log a = log_of s q
}.

(** ** Runs of the specification *)

Section Tob.
Context (c : config).

Lemma tob_order_all G ext pos :
  (forall x, x ∈ ext -> shown_key x ∈ launch_key <$> cf_launches c) ->
  NoDup (shown_key <$> G ++ ext) ->
  rtc (tob_step c) (mkTob G pos) (mkTob (G ++ ext) pos).
Proof.
  revert G. induction ext as [|x ext IH]; intros G Hk Hn; [by rewrite app_nil_r|].
  apply (rtc_l _ _ (mkTob (G ++ [x]) pos)).
  - constructor; [apply Hk; by left|]. rewrite fmap_app in Hn. simpl in Hn.
    intros Hin. apply list_elem_of_lookup in Hin as [i Hi].
    assert (i = length (shown_key <$> G)) as Heq.
    { apply (NoDup_lookup _ _ _ (shown_key x) Hn).
      - rewrite lookup_app_l; [done|]. by eapply lookup_lt_Some.
      - by rewrite list_lookup_middle. }
    apply lookup_lt_Some in Hi. lia.
  - replace (G ++ x :: ext) with ((G ++ [x]) ++ ext) by (by rewrite <- app_assoc).
    apply IH; [intros y Hy; apply Hk; by right|]. by rewrite <- app_assoc.
Qed.

Lemma tob_deliver_all G pos q n k :
  pos !! q = Some n -> n + k <= length G ->
  rtc (tob_step c) (mkTob G pos) (mkTob G (<[q := n + k]> pos)).
Proof.
  revert n pos. induction k as [|k IH]; intros n pos Hq Hle.
  { rewrite Nat.add_0_r, list_insert_id; done. }
  apply (rtc_l _ _ (mkTob G (<[q := S n]> pos))); [constructor; [done|lia]|].
  replace (n + S k) with (S n + k) by lia.
  rewrite <- (list_insert_insert_eq pos q (S n + k) (S n)). apply IH; [|lia].
  apply list_lookup_insert_eq. by eapply lookup_lt_Some.
Qed.

End Tob.

(** ** The simulation *)

Section Simulation.
Context (c : config) (Hc : config_ok c).

Lemma init_log q : log_of (init_sys c) q = [].
Proof.
  unfold log_of. destruct (s_nodes (init_sys c) !! q) eqn:E; [|done].
  by apply init_node_lookup in E as [-> _].
Qed.

Lemma abstracts_init : abstracts c (init_sys c) (tob_init c).
Proof.
  split; simpl; [by rewrite length_replicate| |by left].
  intros q n [-> _]%lookup_replicate_1. by rewrite init_log.
Qed.

(** The global sequence stays comparable with the log of the process that moves. *)
Lemma abstracts_comparable s s' a j :
  reachable c s' -> abstracts c s a ->
  log_of s j `prefix_of` log_of s' j -> (forall q, q <> j -> log_of s' q = log_of s q) ->
  log_of s' j `prefix_of` tob_log a \/ tob_log a `prefix_of` log_of s' j.
Proof.
  intros Hr Ha Hp Hne. destruct (abs_log _ _ _ Ha) as [->|[x Hx]]; [right; apply prefix_nil|].
  rewrite Hx. destruct (decide (x = j)) as [->|Hxj]; [by right|].
  rewrite <- (Hne x Hxj). apply (log_of_comparable c), (reachable_Inv c Hc _ Hr).
Qed.

Lemma log_launched s q x :
  reachable c s -> x ∈ log_of s q -> shown_key x ∈ launch_key <$> cf_launches c.
Proof.
  intros Hr. pose proof (reachable_Inv c Hc _ Hr) as HI.
  unfold log_of. destruct (s_nodes s !! q) as [nd|] eqn:Hq; [|by intros ?%elem_of_nil].
  intros (m & -> & Hm)%list_elem_of_fmap. rewrite <- (reachable_keys c s Hr).
  destruct (inv_owned _ _ HI _ _ (seq_key m) Hq) as (t & th & Ht & Hk).
  { apply (done_key _ _ (log_done _ _ Hm)). }
  apply list_elem_of_fmap. exists th. split; [by symmetry|].
  by eapply list_elem_of_lookup_2.
Qed.

(** The moving process delivers more of the sequence. *)
Lemma simulate_deliver s s' a j :
  abstracts c s a -> j < cf_count c ->
  log_of s j `prefix_of` log_of s' j -> (forall q, q <> j -> log_of s' q = log_of s q) ->
  log_of s' j `prefix_of` tob_log a ->
  exists a', rtc (tob_step c) a a' /\ abstracts c s' a'.
Proof.
  destruct a as [G pos]. intros [Hlen Hpos HG] Hj Hp Hne HL. simpl in *.
  destruct (lookup_lt_is_Some_2 pos j) as [n Hn]; [lia|].
  destruct (Hpos _ _ Hn) as [Hle Hlog].
  assert (length (log_of s j) = n) as Hln by (rewrite Hlog, length_take; lia).
  pose proof (prefix_length _ _ Hp). pose proof (prefix_length _ _ HL).
  exists (mkTob G (<[j := length (log_of s' j)]> pos)). split.
  { replace (length (log_of s' j)) with (n + (length (log_of s' j) - n)) by lia.
    apply tob_deliver_all; [done|lia]. }
  split; simpl.
  - by rewrite length_insert.
  - intros q m [(<- & <- & _)|[Hqj Hm]]%list_lookup_insert_Some.
    + split; [lia|]. destruct HL as [ext ->]. by rewrite take_app_length.
    + rewrite (Hne q) by done. by apply Hpos.
  - destruct HG as [?|[x Hx]]; [by left|right]. destruct (decide (x = j)) as [->|Hxj].
    + exists j. apply (anti_symm prefix); [by rewrite Hx|done].
    + exists x. by rewrite (Hne x).
Qed.

(** New messages are ordered first, then the moving process delivers them. *)
Lemma simulate_order s s' a j ext :
  reachable c s' -> abstracts c s a -> j < cf_count c ->
  log_of s j `prefix_of` log_of s' j -> (forall q, q <> j -> log_of s' q = log_of s q) ->
  log_of s' j = tob_log a ++ ext ->
  exists a', rtc (tob_step c) a a' /\ abstracts c s' a'.
Proof.
  destruct a as [G pos]. intros Hr [Hlen Hpos HG] Hj Hp Hne HL. simpl in *.
  destruct (lookup_lt_is_Some_2 pos j) as [n Hn]; [lia|].
  destruct (Hpos _ _ Hn) as [Hle Hlog].
  assert (length (log_of s j) = n) as Hln by (rewrite Hlog, length_take; lia).
  pose proof (prefix_length _ _ Hp).
  exists (mkTob (log_of s' j) (<[j := length (log_of s' j)]> pos)). split.
  { etrans.
    - apply (tob_order_all c G ext); [|rewrite <- HL; apply (log_of_nodup c)].
      + intros x Hx. apply (log_launched s' j x Hr). rewrite HL, elem_of_app. by right.
      + by apply reachable_Inv.
    - rewrite <- HL.
      replace (length (log_of s' j)) with (n + (length (log_of s' j) - n)) by lia.
      apply tob_deliver_all; [done|lia]. }
  split; simpl; [by rewrite length_insert| |right; by exists j].
  intros q m [(<- & <- & _)|[Hqj Hm]]%list_lookup_insert_Some.
  - split; [done|]. by rewrite firstn_all.
  - rewrite (Hne q) by done. destruct (Hpos _ _ Hm) as [Hm1 ->].
    rewrite HL, take_app_le by done. rewrite length_app. split; [lia|done].
Qed.

Lemma simulate s l s' a :
  reachable c s -> exec c l s = Some s' -> abstracts c s a ->
  exists a', rtc (tob_step c) a a' /\ abstracts c s' a'.
Proof.
  intros Hr He Ha. assert (reachable c s') as Hr' by (by eapply reach_step).
  destruct (exec_log_change c l s s' He) as [Hsame|(j & Hj & Hp & Hne)].
  { exists a. split; [done|]. destruct Ha as [? Hpos HG]. split; [done| |].
    - intros q n. rewrite Hsame. apply Hpos.
    - setoid_rewrite Hsame. done. }
  rewrite (inv_nodes_len _ _ (reachable_Inv c Hc _ Hr)) in Hj.
  destruct (abstracts_comparable s s' a j Hr' Ha Hp Hne) as [HL|[ext HL]].
  - by apply (simulate_deliver s s' a j).
  - by apply (simulate_order s s' a j ext).
Qed.

End Simulation.
