(* ===== verification/Progress.v ===== *)
(** * Progress

    From every reachable state in which all servers still run there is a schedule on which
    all multicast threads finish: no interleaving, loss or duplication leads into a
    deadlock of mutexes, acknowledgements or queues. *)

From Stdlib Require Import ZArith Lia Sorted.
From stdpp Require Import functions base list gmap.
From S2P Require Import Prelude Exceptions Wire Net Udp StdSet HoldBack Process Sender.
From S2P Require Import System RunFacts NodeInv SystemInv SystemSteps TotalOrder.

Open Scope Z_scope.

Definition all_running (s : sys) : Prop :=
  forall q nd, s_nodes s !! q = Some nd -> n_status nd = Running.

(** Some schedule leads from [s] to [s']. *)
Definition runs (c : config) (s s' : sys) : Prop := exists ls, exec_all c ls s = Some s'.

Lemma runs_refl c s : runs c s s.
Proof. by exists []. Qed.

Lemma exec_all_app c ls ls' s s' s'' :
  exec_all c ls s = Some s' -> exec_all c ls' s' = Some s'' ->
  exec_all c (ls ++ ls') s = Some s''.
Proof.
  revert s. induction ls as [|l ls IH]; intros s H1 H2; simpl in *; [by simplify_eq|].
  destruct (exec c l s); [|done]. by eapply IH.
Qed.

Lemma runs_trans c s s' s'' : runs c s s' -> runs c s' s'' -> runs c s s''.
Proof. intros [ls H1] [ls' H2]. exists (ls ++ ls'). by eapply exec_all_app. Qed.

Lemma runs_step c l s s' s'' : exec c l s = Some s' -> runs c s' s'' -> runs c s s''.
Proof. intros H1 [ls H2]. exists (l :: ls). simpl. by rewrite H1. Qed.

Lemma runs_reachable c s s' : reachable c s -> runs c s s' -> reachable c s'.
Proof. intros Hr [ls Hls]. by eapply exec_all_reachable. Qed.

(** A link can be emptied, nothing else changing. *)
Lemma drain_link c s i j :
  exists s', runs c s s' /\ s_links s' (i, j) = [] /\ s_nodes s' = s_nodes s /\
    s_threads s' = s_threads s /\ s_acks s' = s_acks s /\ s_locks s' = s_locks s.
Proof.
  remember (s_links s (i, j)) as l eqn:Hl. revert s Hl.
  induction l as [|x l IH]; intros s Hl; [exists s; split; [apply runs_refl|done]|].
  destruct (IH (set_links s (<[(i, j) := l]> (s_links s)))) as (s' & Hr & H).
  { simpl. by rewrite fn_lookup_insert. }
  exists s'. split; [|done]. eapply (runs_step c (LLose i j 0)); [|exact Hr].
  simpl. by rewrite <- Hl.
Qed.

Section Progress.
Context (c : config) (Hc : config_ok c).
Notation count := (cf_count c).

(** ** One exchange *)

(** The answers of process [j] to the data message and to the sequence message of a
    thread; the type fields that the code leaves uninitialised are overwritten. *)
Definition data_reply (th : thread) (j : nat) (sq : PendingMessageSeq) : list Z :=
  AckMsgToBuf (cf_endian c j) (ack_for 0 (t_msg th) sq).
Definition seq_reply (m : SeqMessage) (j : nat) : list Z :=
  SeqAckMsgToBuf (cf_endian c j) (mkSeqAckMessage 0 (sm_sender m) (sm_msg_id m)).

(** A thread that waits for process [j] takes [reply] as the end of the exchange. *)
Definition accepts (th : thread) (j : nat) (reply : list Z) : Prop :=
  forall b, exists th',
    thread_recv (cf_endian c (t_proc th)) (set_conn th (WaitingAck b)) (RecvPacket reply)
      = Ok th' /\
    t_proc th' = t_proc th /\ t_conn th' = Unlocked /\ t_peer th' = S j /\
    match t_job th with
    | JData _ => exists seqs, t_job th' = JData seqs
    | JSeq m => t_job th' = JSeq m
    end.

Lemma data_reply_accepted s t th j sq seqs :
  Inv c s -> s_threads s !! t = Some th -> t_job th = JData seqs -> t_peer th = j ->
  (j < count)%nat -> pms_seq_proposer sq = Z.of_nat j -> is_u32 (pms_seq sq) ->
  accepts th j (data_reply th j sq).
Proof.
  intros HI Ht Hjob Hp Hj Hpr Hu b. pose proof (inv_thread _ _ HI _ _ Ht) as Hth.
  pose proof (cfg_count _ Hc). destruct (th_u32 _ _ Hth) as (Hu1 & Hu2 & _).
  unfold thread_recv, data_reply. simpl. rewrite Hjob, Hp, handle_ack_ack.
  - rewrite (proj2 (ValidAckMsg_spec _ _ _ _)); [|done].
    eexists. split; [reflexivity|]. simpl. split_and!; try done. eauto.
  - unfold AckMessage_u32. simpl. rewrite Hpr. split_and!; try done. unfold is_u32. lia.
Qed.

Lemma seq_reply_accepted s t th j m :
  Inv c s -> s_threads s !! t = Some th -> t_job th = JSeq m -> t_peer th = j ->
  accepts th j (seq_reply m j).
Proof.
  intros HI Ht Hjob Hp b. destruct (thread_seq_ok _ HI Hc _ _ _ Ht Hjob) as (Hu & _ & _).
  unfold thread_recv, seq_reply. simpl. rewrite Hjob, isValidAck_seqack.
  - rewrite (proj2 (ValidSeqAckMsg_spec _ _)); [|done].
    eexists. split; [reflexivity|]. simpl. split_and!; try done. by rewrite Hp.
  - destruct Hu as (? & ? & _). done.
Qed.

(** What the server of [j] answers to a data message: the message is pending afterwards,
    with the number proposed before if it was pending already. *)
Lemma data_answer s t th j nd u :
  Inv c s -> s_threads s !! t = Some th -> s_nodes s !! j = Some nd ->
  let pkt := data_packet c th in
  exists p' sq,
    OnReceive (cf_endian c j) u None (n_proc nd) (recv_buf pkt) (recv_len pkt) =
      (p', [data_log (t_msg th); AReply (data_reply th j sq)], None) /\
    pending_seqs_ (hold_back_queue_ p') !! t_key th = Some sq /\
    (forall old, n_pending nd (t_key th) old -> sq = old) /\
    pms_seq_proposer sq = Z.of_nat j /\ is_u32 (pms_seq sq).
Proof.
  intros HI Ht Hj pkt. pose proof (inv_thread _ _ HI _ _ Ht) as Hth.
  pose proof (inv_node _ _ HI _ _ Hj) as Hok.
  assert (dm_sender (t_msg th) < process_count (n_proc nd)) as Hs.
  { unfold process_count. rewrite (ok_count _ _ _ Hok), (th_sender _ _ Hth).
    pose proof (th_proc _ _ Hth). lia. }
  destruct (pending_seqs_ (hold_back_queue_ (n_proc nd)) !! data_key (t_msg th)) as [sq|] eqn:E.
  - exists (n_proc nd), sq. split_and!; [|done| |by apply (pending_facts Hok _ _ E)|].
    + unfold pkt, data_packet. by rewrite (OnReceive_data_known _ _ _ _ _ _ sq) by (done || apply Hth).
    + intros old Hold. unfold n_pending, n_queue, t_key in Hold. congruence.
    + destruct (pending_facts Hok _ _ E) as (Hp & Hpos & _).
      pose proof (inv_counter _ _ HI _ _ Hj). pose proof (total_bound _ HI Hc).
      unfold is_u32. lia.
  - destruct (OnReceive_data_new (cf_endian c (t_proc th)) (cf_endian c j) u None (n_proc nd)
      (t_msg th)) as (Heq & _ & _); [apply Hth|done|apply Hok|done|].
    eexists _, _. split; [exact Heq|]. simpl. split; [apply lookup_insert_eq|].
    split; [|split; [apply Hok|apply u32_range]].
    intros old Hold. unfold n_pending, n_queue, t_key in Hold. congruence.
Qed.

(** What the server of [j] answers to a sequence message. *)
Lemma seq_answer s t th j nd u m :
  Inv c s -> s_threads s !! t = Some th -> t_job th = JSeq m -> s_nodes s !! j = Some nd ->
  let pkt := seq_packet c th m in
  exists p' acts,
    OnReceive (cf_endian c j) u None (n_proc nd) (recv_buf pkt) (recv_len pkt) =
      (p', acts, None) /\
    replies acts = [seq_reply m j].
Proof.
  intros HI Ht Hjob Hj pkt. pose proof (inv_thread _ _ HI _ _ Ht) as Hth.
  pose proof (inv_node _ _ HI _ _ Hj) as Hok.
  destruct (thread_seq_ok _ HI Hc _ _ _ Ht Hjob) as (Hu & Hs & _).
  pose proof (th_job _ _ Hth) as Hjb. rewrite Hjob in Hjb. destruct Hjb as (_ & _ & Hpr).
  pose proof (th_proc _ _ Hth).
  assert (sm_sender m < process_count (n_proc nd) /\
          sm_final_seq_proposer m < process_count (n_proc nd)) as [Hv1 Hv2].
  { unfold process_count. rewrite (ok_count _ _ _ Hok). lia. }
  unfold pkt, seq_packet. rewrite OnReceive_seq by done. eexists _, _.
  split; [reflexivity|]. by apply seq_actions.
Qed.

(** The server has answered the datagram of the current exchange of a thread, and the
    thread accepts the answer. *)
Definition answered (s s1 : sys) (th : thread) (j : nat) : Prop :=
  exists reply,
    s_acks s1 (t_proc th, j) = s_acks s (t_proc th, j) ++ [reply] /\
    (exists nd', s_nodes s1 = <[j := nd']> (s_nodes s) /\ n_status nd' = Running) /\
    accepts th j reply.

Lemma serve_answered s t th j nd :
  Inv c s -> s_threads s !! t = Some th -> t_peer th = j ->
  s_nodes s !! j = Some nd -> n_status nd = Running ->
  answered s (serve c s (t_proc th) j nd (thread_packet (cf_endian c (t_proc th)) th) 0 None)
    th j.
Proof.
  intros HI Ht Hp Hj Hst. unfold thread_packet, serve. destruct (t_job th) as [seqs|m] eqn:Ejob.
  - destruct (data_answer s t th j nd 0 HI Ht Hj) as (p' & sq & Heq & _ & _ & Hpr & Hu).
    unfold data_packet in Heq. rewrite Heq. exists (data_reply th j sq).
    split; [apply fn_lookup_insert|]. split; [by eexists|].
    eapply data_reply_accepted; try done.
    rewrite <- (inv_nodes_len _ _ HI). by eapply lookup_lt_Some.
  - destruct (seq_answer s t th j nd 0 m HI Ht Ejob Hj) as (p' & acts & Heq & Ha).
    unfold seq_packet in Heq. rewrite Heq, Ha. exists (seq_reply m j).
    split; [apply fn_lookup_insert|]. split; [by eexists|].
    by eapply seq_reply_accepted.
Qed.

Lemma running_up s q : all_running s -> (q < length (s_nodes s))%nat -> is_up s q = true.
Proof.
  intros Hrun [nd Hnd]%lookup_lt_is_Some_2. unfold is_up. by rewrite Hnd, (Hrun _ _ Hnd).
Qed.

(** A waiting thread reads the answer at the end of its replies. *)
Lemma read_answer s t th b j acks reply th' :
  all_running s -> s_threads s !! t = Some th -> t_conn th = WaitingAck b -> t_peer th = j ->
  (t_proc th < length (s_nodes s))%nat ->
  s_acks s (t_proc th, j) = acks ++ [reply] ->
  thread_recv (cf_endian c (t_proc th)) th (RecvPacket reply) = Ok th' ->
  t_conn th' = Unlocked ->
  exists s', exec c (LAck t (length acks) false) s = Some s' /\
    s_threads s' = <[t := th']> (s_threads s) /\ s_nodes s' = s_nodes s.
Proof.
  intros Hrun Ht Hcn Hj Hup Ha Hrec Hcn'. simpl. subst j. rewrite Ht, Hcn, Ha.
  rewrite list_lookup_middle by done. rewrite running_up by done. eexists. split; [reflexivity|].
  unfold thread_answer. by rewrite Hrec, Hcn'.
Qed.

(** A thread sends on an empty link and the server answers. *)
Lemma send_and_serve s t th b :
  reachable c s -> all_running s -> s_threads s !! t = Some th -> t_conn th = Sending b ->
  s_links s (t_proc th, t_peer th) = [] ->
  let th1 := set_conn th (WaitingAck b) in
  exists s2 acks reply th',
    runs c s s2 /\ all_running s2 /\ length (s_nodes s2) = length (s_nodes s) /\
    s_threads s2 = <[t := th1]> (s_threads s) /\
    s_acks s2 (t_proc th, t_peer th) = acks ++ [reply] /\
    thread_recv (cf_endian c (t_proc th)) th1 (RecvPacket reply) = Ok th' /\
    t_conn th' = Unlocked /\ t_peer th' = S (t_peer th) /\
    match t_job th with
    | JData _ => exists seqs, t_job th' = JData seqs
    | JSeq m => t_job th' = JSeq m
    end.
Proof.
  intros Hr Hrun Ht Hcn Hl0 th1. set (i := t_proc th) in *. set (j := t_peer th) in *.
  pose proof (reachable_Inv c Hc s Hr) as HI. pose proof (inv_thread _ _ HI _ _ Ht) as Hth.
  assert (j < length (s_nodes s))%nat as Hj
    by (rewrite (inv_nodes_len _ _ HI); apply Hth; by rewrite Hcn).
  destruct (lookup_lt_is_Some_2 _ _ Hj) as [nd Hnd]. pose proof (Hrun _ _ Hnd) as Hst.
  set (pkt := thread_packet (cf_endian c i) th1).
  set (s1 := set_links (set_threads s (<[t := th1]> (s_threads s)))
               (<[(i, j) := s_links s (i, j) ++ [pkt]]> (s_links s))).
  assert (exec c (LSend t None) s = Some s1) as He1.
  { simpl. rewrite Ht, Hcn, running_up; [done|done|]. rewrite (inv_nodes_len _ _ HI). apply Hth. }
  assert (s_links s1 (i, j) = [pkt]) as Hl1
    by (unfold s1; simpl; rewrite fn_lookup_insert; by rewrite Hl0).
  set (s1' := set_links s1 (<[(i, j) := []]> (s_links s1))).
  assert (Inv c s1') as HI1'.
  { apply Inv_links_sublist; [rewrite Hl1; apply sublist_nil_l|].
    by apply (Inv_step c Hc s (LSend t None)). }
  assert (s_threads s1' !! t = Some th1) as Ht1
    by (simpl; apply list_lookup_insert_eq; by eapply lookup_lt_Some).
  set (s2 := serve c s1' i j nd pkt 0 None).
  assert (exec c (LServe i j 0 None) s1 = Some s2) as He2.
  { cbn [exec]. rewrite Hl1. change (s_nodes s1) with (s_nodes s). by rewrite Hnd, Hst. }
  destruct (serve_answered s1' t th1 j nd HI1' Ht1 eq_refl Hnd Hst)
    as (reply & Hacks & (nd' & Hn2 & Hst') & Hacc).
  destruct (Hacc b) as (th' & Hrec & _ & Hcn' & Hpeer & Hjob).
  exists s2, (s_acks s1' (i, j)), reply, th'. split_and!; try done.
  - eapply runs_step; [exact He1|]. eapply runs_step; [exact He2|apply runs_refl].
  - intros q x. change (s_nodes s2) with
      (s_nodes (serve c s1' (t_proc th1) j nd (thread_packet (cf_endian c (t_proc th1)) th1) 0 None)).
    rewrite Hn2, list_lookup_insert_Some. intros [(_ & <- & _)|[_ Hx]]; [done|].
    by apply (Hrun q).
  - change (s_nodes s2) with
      (s_nodes (serve c s1' (t_proc th1) j nd (thread_packet (cf_endian c (t_proc th1)) th1) 0 None)).
    rewrite Hn2. by rewrite length_insert.
  - apply serve_threads.
Qed.

(** A thread in the middle of an exchange can complete it; no other thread moves. *)
Definition completes (s s' : sys) (t : nat) (th th' : thread) : Prop :=
  runs c s s' /\ all_running s' /\ s_threads s' = <[t := th']> (s_threads s) /\
  t_conn th' = Unlocked /\ t_peer th' = S (t_peer th) /\
  match t_job th with
  | JData _ => exists seqs, t_job th' = JData seqs
  | JSeq m => t_job th' = JSeq m
  end.

Lemma complete_sending s t th b :
  reachable c s -> all_running s -> s_threads s !! t = Some th -> t_conn th = Sending b ->
  exists s' th', completes s s' t th th'.
Proof.
  intros Hr Hrun Ht Hcn.
  destruct (drain_link c s (t_proc th) (t_peer th)) as (s0 & Hr0 & Hl0 & Hn0 & Ht0 & _ & _).
  assert (reachable c s0) as Hreach by (by eapply runs_reachable).
  pose proof (reachable_Inv c Hc s0 Hreach) as HI0. rewrite <- Ht0 in Ht.
  destruct (send_and_serve s0 t th b Hreach) as
    (s2 & acks & reply & th' & Hr2 & Hrun2 & Hlen & Hts & Ha & Hrec & Hcn' & Hp & Hj); try done.
  { unfold all_running. by rewrite Hn0. }
  destruct (read_answer s2 t (set_conn th (WaitingAck b)) b (t_peer th) acks reply th' Hrun2)
    as (s3 & He3 & Ht3 & Hn3); try done.
  { rewrite Hts. apply list_lookup_insert_eq. by eapply lookup_lt_Some. }
  { rewrite Hlen, (inv_nodes_len _ _ HI0). apply (inv_thread _ _ HI0 _ _ Ht). }
  exists s3, th'. unfold completes. split_and!; try done.
  - eapply runs_trans; [exact Hr0|]. eapply runs_trans; [exact Hr2|].
    eapply runs_step; [exact He3|apply runs_refl].
  - unfold all_running. by rewrite Hn3.
  - rewrite Ht3, Hts, list_insert_insert_eq. by rewrite Ht0.
Qed.

(** The same from any point of the exchange. *)
Lemma complete_exchange s t th :
  reachable c s -> all_running s -> s_threads s !! t = Some th -> t_conn th <> Unlocked ->
  exists s' th', completes s s' t th th'.
Proof.
  intros Hr Hrun Ht Hcn. pose proof (reachable_Inv c Hc s Hr) as HI.
  destruct (t_conn th) as [|b|b] eqn:Ec; [done|by eapply complete_sending|].
  set (th1 := set_conn th (Sending (next_backoff b))).
  set (s1 := set_threads s (<[t := th1]> (s_threads s))).
  assert (exec c (LRecvError t EAGAIN) s = Some s1) as He.
  { simpl. rewrite Ht, Ec, running_up; [|done|].
    - unfold thread_answer, thread_recv. rewrite Ec.
      unfold s1, th1, set_conn. destruct (t_job th); done.
    - rewrite (inv_nodes_len _ _ HI). apply (inv_thread _ _ HI _ _ Ht). }
  destruct (complete_sending s1 t th1 (next_backoff b)) as (s' & th' & H1 & H2 & H3 & H4); try done.
  - by eapply reach_step.
  - simpl. apply list_lookup_insert_eq. by eapply lookup_lt_Some.
  - exists s', th'. split; [by eapply runs_step|]. split; [done|]. split; [|done].
    rewrite H3. simpl. by rewrite list_insert_insert_eq.
Qed.

(** ** All threads *)

(** What a thread still has to do. *)
Definition remaining (th : thread) : nat :=
  match t_job th with
  | JData _ => (count - t_peer th) + S count
  | JSeq _ => count - t_peer th
  end.

Definition all_remaining (s : sys) : nat := sum_list (remaining <$> s_threads s).

Lemma completes_remaining s s' t th th' :
  (t_peer th < count)%nat -> s_threads s !! t = Some th -> completes s s' t th th' ->
  (all_remaining s' < all_remaining s)%nat.
Proof.
  intros Hlt Ht (_ & _ & Hts & _ & Hp & Hj). unfold all_remaining. rewrite Hts, list_fmap_insert.
  pose proof (sum_list_insert (remaining <$> s_threads s) t (remaining th) (remaining th')) as Hs.
  rewrite list_lookup_fmap, Ht in Hs. specialize (Hs eq_refl).
  assert (remaining th' < remaining th)%nat; [|lia].
  unfold remaining. rewrite Hp. destruct (t_job th).
  - destruct Hj as [? ->]. lia.
  - rewrite Hj. lia.
Qed.

(** A run that leaves less to do. *)
Definition progresses (s : sys) : Prop :=
  exists s', runs c s s' /\ all_running s' /\ (all_remaining s' < all_remaining s)%nat.

(** A thread that waits for nobody's mutex takes it and completes an exchange. *)
Lemma acquire_progresses s t th :
  reachable c s -> all_running s -> s_threads s !! t = Some th -> t_conn th = Unlocked ->
  (t_peer th < count)%nat -> s_locks s (t_proc th, t_peer th) = None ->
  is_up s (t_proc th) = true -> progresses s.
Proof.
  intros Hr Hrun Ht Hcn Hlt El Hup. set (th1 := set_conn th (Sending 1)).
  set (s1 := set_locks (set_threads s (<[t := th1]> (s_threads s)))
               (<[(t_proc th, t_peer th) := Some t]> (s_locks s))).
  assert (exec c (LAcquire t) s = Some s1) as He.
  { cbn [exec]. rewrite Ht, Hcn, El, Hup. rewrite bool_decide_eq_true_2 by done. done. }
  assert (s_threads s1 !! t = Some th1) as Ht1
    by (apply list_lookup_insert_eq; by eapply lookup_lt_Some).
  destruct (complete_exchange s1 t th1 (reach_step c _ s s1 Hr He) Hrun Ht1)
    as (s' & th' & H); [done|].
  exists s'. split; [eapply runs_step; [exact He|apply H]|]. split; [apply H|].
  pose proof (completes_remaining s1 s' t th1 th' Hlt Ht1 H) as Hrem.
  assert (all_remaining s1 = all_remaining s) as Heq; [|lia].
  unfold all_remaining. simpl. rewrite list_fmap_insert, list_insert_id; [done|].
  by rewrite list_lookup_fmap, Ht.
Qed.

(** A thread that has all proposals chooses the final number. *)
Lemma finish_progresses s t th seqs :
  all_running s -> s_threads s !! t = Some th -> t_conn th = Unlocked ->
  t_job th = JData seqs -> t_peer th = count -> is_up s (t_proc th) = true -> progresses s.
Proof.
  intros Hrun Ht Hcn Ej Hpc Hup.
  set (th1 := thread_finish 0 th). set (s1 := set_threads s (<[t := th1]> (s_threads s))).
  assert (exec c (LFinish t 0) s = Some s1) as He.
  { cbn [exec]. rewrite Ht, Ej, Hcn, Hup. rewrite bool_decide_eq_true_2 by done. done. }
  exists s1. split; [eapply runs_step; [exact He|apply runs_refl]|]. split; [done|].
  unfold all_remaining. simpl. rewrite list_fmap_insert.
  pose proof (sum_list_insert (remaining <$> s_threads s) t (remaining th) (remaining th1)) as Hs.
  rewrite list_lookup_fmap, Ht in Hs. specialize (Hs eq_refl).
  assert (remaining th1 < remaining th)%nat; [|lia].
  unfold remaining, th1, thread_finish. rewrite Ej. destruct (select_final seqs). simpl. lia.
Qed.

(** While some thread is unfinished, some thread can move. *)
Lemma advance s t th :
  reachable c s -> all_running s -> s_threads s !! t = Some th -> ~ finished c th ->
  progresses s.
Proof.
  intros Hr Hrun Ht Hnf. pose proof (reachable_Inv c Hc s Hr) as HI.
  assert (Hbusy : forall u x, s_threads s !! u = Some x -> t_conn x <> Unlocked -> progresses s).
  { intros u x Hu Hx. destruct (complete_exchange s u x Hr Hrun Hu Hx) as (s' & x' & H).
    exists s'. split; [apply H|]. split; [apply H|]. eapply completes_remaining; try done.
    by apply (inv_thread _ _ HI _ _ Hu). }
  destruct (decide (t_conn th = Unlocked)) as [Hcn|]; [|by eapply Hbusy].
  pose proof (inv_thread _ _ HI _ _ Ht) as Hth. pose proof (th_peer _ _ Hth) as Hle.
  assert (is_up s (t_proc th) = true) as Hup.
  { apply running_up; [done|]. rewrite (inv_nodes_len _ _ HI). apply Hth. }
  destruct (decide (t_peer th < count)%nat) as [Hlt|Hge].
  - destruct (s_locks s (t_proc th, t_peer th)) as [u|] eqn:El.
    + apply (reachable_lock_inv c s Hr) in El as (x & Hx & Hheld). apply (Hbusy u x Hx).
      intros Hun. unfold held in Hheld. by rewrite Hun in Hheld.
    + by eapply acquire_progresses.
  - destruct (t_job th) as [seqs|m] eqn:Ej.
    + apply (finish_progresses s t th seqs); try done. lia.
    + destruct Hnf. split; [lia|]. by rewrite Ej.
Qed.

Lemma can_finish s :
  reachable c s -> all_running s ->
  exists s', runs c s s' /\ all_running s' /\
    forall t th, s_threads s' !! t = Some th -> finished c th.
Proof.
  remember (all_remaining s) as n eqn:Hn. revert s Hn.
  induction n as [n IH] using (well_founded_induction lt_wf). intros s -> Hr Hrun.
  destruct (decide (Forall (finished c) (s_threads s))) as [Hall|Hex].
  - exists s. split; [apply runs_refl|]. split; [done|]. rewrite Forall_forall in Hall.
    intros t th Ht. apply Hall. by eapply list_elem_of_lookup_2.
  - apply not_Forall_Exists in Hex; [|apply _]. apply Exists_exists in Hex as (th & Hin & Hnf).
    apply list_elem_of_lookup in Hin as [t Ht].
    destruct (advance s t th Hr Hrun Ht Hnf) as (s1 & Hr1 & Hrun1 & Hlt).
    destruct (IH _ Hlt s1 eq_refl) as (s' & Hr' & H); [by eapply runs_reachable|done|].
    exists s'. split; [by eapply runs_trans|done].
Qed.

End Progress.
