(* ===== verification/Liveness.v ===== *)
(** * Fair runs deliver everything

    Infinite runs in which no process fails, every thread that can move keeps moving, and
    the network delivers infinitely many of infinitely many copies of a datagram: in such
    a run all multicast threads finish, so all processes deliver all messages. *)

From Stdlib Require Import ZArith Lia Classical.
From stdpp Require Import functions base list gmap.
From S2P Require Import Prelude Exceptions Wire Net Udp StdSet HoldBack Process Sender.
From S2P Require Import System RunFacts History Projection NodeInv SystemInv SystemSteps TotalOrder.
From S2P Require Import Progress.

Open Scope Z_scope.

Definition infinitely_often (P : nat -> Prop) : Prop :=
  forall n, exists m, (n <= m)%nat /\ P m.

(** The thread that takes the step. *)
Definition thread_label (l : label) : option nat :=
  match l with
  | LAcquire t | LSend t _ | LAck t _ _ | LStray t _ | LRecvError t _ | LFinish t _ => Some t
  | _ => None
  end.

(** The thread has something to do and waits for no mutex: it can lock, send, time out or
    choose the final number. *)
Definition ready (c : config) (s : sys) (t : nat) : Prop :=
  exists th, s_threads s !! t = Some th /\ ~ finished c th /\
    (t_conn th = Unlocked -> (t_peer th < cf_count c)%nat ->
     s_locks s (t_proc th, t_peer th) = None).

Section FairRuns.
Context (c : config) (run : nat -> sys) (lab : nat -> label).

(** The events of step [n] on the link from process [i] to process [j] and back: the
    datagram is sent, is handled by the server, is answered, the answer is awaited, is
    read. *)
Definition sends (i j : nat) (pkt : list Z) (n : nat) : Prop :=
  exists t th, lab n = LSend t None /\ s_threads (run n) !! t = Some th /\
    t_proc th = i /\ t_peer th = j /\ thread_packet (cf_endian c i) th = pkt.
Definition serves (i j : nat) (pkt : list Z) (n : nat) : Prop :=
  exists u rest, lab n = LServe i j u None /\ s_links (run n) (i, j) = pkt :: rest.
Definition answers (i j : nat) (pkt : list Z) (n : nat) : Prop :=
  exists u, lab n = LServe i j u None /\
    s_acks (run (S n)) (i, j) = s_acks (run n) (i, j) ++ [pkt].
Definition awaits (i j : nat) (n : nat) : Prop :=
  exists t th b, s_threads (run n) !! t = Some th /\ t_proc th = i /\ t_peer th = j /\
    t_conn th = WaitingAck b.
Definition reads (i j : nat) (pkt : list Z) (n : nat) : Prop :=
  exists t th k keep, lab n = LAck t k keep /\ s_threads (run n) !! t = Some th /\
    t_proc th = i /\ t_peer th = j /\ s_acks (run n) (i, j) !! k = Some pkt.

Record fair_run : Prop := {
  fr_start : run 0%nat = init_sys c;
  fr_step n : exec c (lab n) (run n) = Some (run (S n));
  fr_running n : all_running (run n);
  (* a thread that is ready from some moment on keeps moving *)
  fr_threads t :
    (exists n, forall m, (n <= m)%nat -> ready c (run m) t) ->
    infinitely_often (fun n => thread_label (lab n) = Some t);
  (* of infinitely many copies of a datagram, infinitely many arrive *)
  fr_links i j pkt : infinitely_often (sends i j pkt) -> infinitely_often (serves i j pkt);
  fr_replies i j pkt :
    infinitely_often (answers i j pkt) -> infinitely_often (awaits i j) ->
    infinitely_often (reads i j pkt)
}.

End FairRuns.

(** ** Steps of threads *)

Section Steps.
Context (c : config) (Hc : config_ok c).
Notation count := (cf_count c).

Lemma crash_not_running s i : (i < length (s_nodes s))%nat -> ~ all_running (crash s i).
Proof.
  intros [nd Hnd]%lookup_lt_is_Some_2 Hrun.
  specialize (Hrun i (mkNode (n_proc nd) (n_log nd) Down)). unfold crash in Hrun. simpl in Hrun.
  rewrite list_lookup_alter, decide_True, Hnd in Hrun by done. by specialize (Hrun eq_refl).
Qed.

(** The step of a thread moves that thread, when nothing fails. *)
Lemma thread_label_move s l s' t :
  Inv c s -> exec c l s = Some s' -> all_running s' -> thread_label l = Some t ->
  exists th th', s_threads s !! t = Some th /\
    thread_move (cf_endian c (t_proc th)) count th th' /\
    s_threads s' = <[t := th']> (s_threads s).
Proof.
  intros HI He Hrun Hl.
  assert (Hno : forall th, s_threads s !! t = Some th -> ~ all_running (crash s (t_proc th))).
  { intros th Ht. apply crash_not_running. rewrite (inv_nodes_len _ _ HI).
    apply (inv_thread _ _ HI _ _ Ht). }
  assert (Hans : forall s0 th b r, s_threads s0 = s_threads s -> s_nodes s0 = s_nodes s ->
    s_threads s !! t = Some th -> t_conn th = WaitingAck b ->
    all_running (thread_answer c s0 t th r) ->
    exists th', thread_move (cf_endian c (t_proc th)) count th th' /\
      s_threads (thread_answer c s0 t th r) = <[t := th']> (s_threads s)).
  { intros s0 th b r Hts Hns Ht Hcn. unfold thread_answer.
    destruct (thread_recv _ _ _) as [th'|] eqn:E.
    - intros _. exists th'. split; [by eapply move_recv|]. rewrite <- Hts. by destruct (t_conn th').
    - intros Hr. destruct (Hno th Ht). intros q nd. specialize (Hr q nd).
      unfold crash in *. simpl in *. by rewrite <- Hns. }
  apply exec_step in He.
  destruct He as [t' th|t' th b w|t' th b w ex Ht|t' th b k keep pkt Ht Ec|t' th b r Ht Ec|t' th b r Ht Ec
    |t' th seqs u| | | | | | | | |]; simpl in Hl; simplify_eq.
  - eexists th, _. split_and!; [done|by apply move_lock|done].
  - eexists th, _. split_and!; [done|by apply move_sent|done].
  - by destruct (Hno th).
  - destruct keep; (edestruct Hans as (th' & ? & Hts); [..|exact Hrun|]; [done..|]); eauto.
  - edestruct Hans as (th' & ? & Hts); [..|exact Hrun|]; [done..|]; eauto.
  - edestruct Hans as (th' & ? & Hts); [..|exact Hrun|]; [done..|]; eauto.
  - eexists th, _. split_and!; [done|by eapply move_finish|done].
Qed.

(** A thread outside of an exchange changes when it moves. *)
Lemma idle_move_changes e n th th' :
  thread_move e n th th' -> t_conn th = Unlocked -> th' <> th.
Proof.
  intros [? ?|b Hb|b r th1 Hb _|seqs u Hj _ _] Hun Heq; [|congruence..|].
  - apply (f_equal t_conn) in Heq. simpl in Heq. congruence.
  - apply (f_equal t_job) in Heq. revert Heq. unfold thread_finish. rewrite Hj.
    by destruct (select_final seqs).
Qed.

(** Any other step leaves the threads alone. *)
Lemma other_label_threads s l s' :
  exec c l s = Some s' -> thread_label l = None -> s_threads s' = s_threads s.
Proof.
  intros He%exec_step Hl. destruct He; try done.
  - by rewrite (serve_threads c (set_links s _)).
  - by rewrite serve_foreign_same.
Qed.

(** A move of a thread leaves less to do, or only changes the state of the exchange. *)
Lemma move_remaining th th' :
  thread_ok c th -> thread_move (cf_endian c (t_proc th)) count th th' ->
  (remaining c th' < remaining c th)%nat \/
  exists cn, th' = set_conn th cn /\ cn <> Unlocked.
Proof.
  intros Hth [Hcn Hlt|b Hcn|b r th1 Hcn Hr|seqs u Hj Hcn Hp].
  - right. by eexists.
  - right. by eexists.
  - assert (t_peer th < count)%nat by (apply Hth; by rewrite Hcn).
    unfold thread_recv in Hr. rewrite Hcn in Hr. unfold remaining.
    destruct (t_job th) as [seqs|m] eqn:Hj.
    + destruct r as [pkt|errno]; simpl in Hr.
      * rewrite handle_ack_dec in Hr. destruct (ack_proposal _ _ _ _ _ _); simplify_eq; simpl.
        -- left. lia.
        -- right. exists (Sending b). split; [|done]. unfold set_conn. by rewrite Hj.
      * destruct (IsErrnoTimeout errno); simplify_eq. right. exists (Sending (next_backoff b)).
        split; [|done]. unfold set_conn. by rewrite Hj.
    + destruct (swa_on_recv _ b tt r); simplify_eq; simpl; [|left; lia].
      right. by eexists.
  - left. unfold remaining, thread_finish. rewrite Hj. destruct (select_final seqs). simpl. lia.
Qed.

Lemma thread_recv_conn e th b r th' :
  t_conn th = WaitingAck b -> thread_recv e th r = Ok th' ->
  t_conn th' = Unlocked \/ exists b', t_conn th' = Sending b'.
Proof.
  unfold thread_recv. intros ->. destruct (t_job th); destruct (swa_on_recv _ _ _ _);
    intros [= <-]; simpl; eauto.
Qed.

Lemma remaining_insert s t th th' :
  s_threads s !! t = Some th ->
  (sum_list (remaining c <$> <[t := th']> (s_threads s)) + remaining c th =
   all_remaining c s + remaining c th')%nat.
Proof.
  intros Ht. rewrite list_fmap_insert. apply sum_list_insert. by rewrite list_lookup_fmap, Ht.
Qed.

(** A step of the system leaves no more to do; if it leaves as much, it changes at most the
    state of the exchange of one thread, which is then in an exchange. *)
Definition conn_step (s s' : sys) : Prop :=
  s_threads s' = s_threads s \/
  exists t th cn, s_threads s !! t = Some th /\ cn <> Unlocked /\
    s_threads s' = <[t := set_conn th cn]> (s_threads s).

Lemma step_remaining s l s' :
  Inv c s -> exec c l s = Some s' ->
  (all_remaining c s' < all_remaining c s)%nat \/
  (all_remaining c s' = all_remaining c s /\ conn_step s s').
Proof.
  intros HI He.
  destruct (exec_threads c l s s' He) as [Heq|(t & th & th' & Ht & Hm & Heq)].
  { right. split; [unfold all_remaining; by rewrite Heq|by left]. }
  pose proof (remaining_insert s t th th' Ht) as Hs. rewrite <- Heq in Hs.
  fold (all_remaining c s') in Hs.
  destruct (move_remaining th th' (inv_thread _ _ HI _ _ Ht) Hm) as [Hlt|(cn & -> & Hcn)].
  - left. lia.
  - right. change (remaining c (set_conn th cn)) with (remaining c th) in Hs.
    split; [lia|]. right. by exists t, th, cn.
Qed.

(** A message stays pending at a process until its sequence message comes. *)
Lemma SetDeliverable_pending u q m :
  pending_seqs_ (SetDeliverable u q m).1 = delete (seq_key m) (pending_seqs_ q).
Proof.
  unfold SetDeliverable, seq_key. destruct (pending_seqs_ q !! _) eqn:E.
  - by destruct (deliver_loop _ _).
  - simpl. by rewrite delete_id.
Qed.

Lemma serve_pending s j nd pkt u w t th sq :
  Inv c s -> s_nodes s !! j = Some nd -> first_of_link s j pkt ->
  s_threads s !! t = Some th -> is_data th -> n_pending nd (t_key th) sq ->
  let '(p', _, _) :=
    OnReceive (cf_endian c j) u w (n_proc nd) (recv_buf pkt) (recv_len pkt) in
  pending_seqs_ (hold_back_queue_ p') !! t_key th = Some sq.
Proof.
  intros HI Hj (i & rest & Hl) Ht Hd Hpend. pose proof (inv_node _ _ HI _ _ Hj) as Hok.
  assert (pkt ∈ s_links s (i, j)) as Hin by (rewrite Hl; by left).
  destruct (inv_packet _ _ HI _ _ _ Hin) as (t' & th' & Ht' & Hp & Hpk). subst i.
  pose proof (inv_thread _ _ HI _ _ Ht') as Hth'. pose proof (th_proc _ _ Hth').
  assert (Hcnt : process_count (n_proc nd) = Z.of_nat count)
    by (unfold process_count; by rewrite (ok_count _ _ _ Hok)).
  assert (dm_sender (t_msg th') < process_count (n_proc nd)) as Hs
    by (rewrite Hcnt, (th_sender _ _ Hth'); lia).
  destruct Hpk as [->|(sm & Hjb & ->)].
  - unfold data_packet.
    destruct (pending_seqs_ (hold_back_queue_ (n_proc nd)) !! data_key (t_msg th')) as [x|] eqn:E.
    + rewrite (OnReceive_data_known _ _ _ _ _ _ x) by (done || apply Hth'). done.
    + destruct (OnReceive_data_new (cf_endian c (t_proc th')) (cf_endian c j) u w (n_proc nd)
        (t_msg th')) as (-> & _ & _); [apply Hth'|done|apply Hok|done|]. simpl.
      rewrite lookup_insert_ne; [done|]. intros Heq. rewrite Heq in E.
      unfold n_pending, n_queue in Hpend. congruence.
  - destruct (thread_seq_ok _ HI Hc _ _ _ Ht' Hjb) as (Hu & Hsm & Hk).
    pose proof (th_job _ _ Hth') as Hjob. rewrite Hjb in Hjob. destruct Hjob as (_ & _ & Hpr).
    unfold seq_packet. destruct w as [errno|].
    + rewrite OnReceive_seq_fail by (done || lia).
      by destruct (ForwardSeqNum_other (n_proc nd) (sm_final_seq sm)) as (-> & _ & _).
    + rewrite OnReceive_seq by (done || lia). simpl. rewrite SetDeliverable_pending, Hk.
      rewrite lookup_delete_ne; [done|]. intros Heq.
      pose proof (thread_by_key _ HI _ _ _ _ Ht' Ht Heq) as ->. simplify_eq.
      unfold is_data in Hd. by rewrite Hjb in Hd.
Qed.

Lemma exec_pending s l s' j nd t th sq :
  Inv c s -> exec c l s = Some s' -> s_nodes s !! j = Some nd ->
  s_threads s !! t = Some th -> is_data th -> n_pending nd (t_key th) sq ->
  exists nd', s_nodes s' !! j = Some nd' /\ n_pending nd' (t_key th) sq.
Proof.
  intros HI He Hj Ht Hd Hpend.
  apply exec_nodes in He as [->|(i & x & x' & Hi & Hm & ->)]; [eauto|].
  destruct (decide (j = i)) as [->|Hne]; [|rewrite list_lookup_insert_ne by done; eauto].
  rewrite list_lookup_insert_eq by (by eapply lookup_lt_Some).
  assert (x = nd) as -> by congruence.
  destruct Hm as [|_|u w pkt p acts ex _ Hpkt Ho]; [by eexists..|].
  eexists. split; [done|]. pose proof (serve_pending s i nd pkt u w t th sq HI Hj Hpkt Ht Hd Hpend) as H.
  by rewrite Ho in H.
Qed.

End Steps.

(** ** The argument *)

(** A sequence of numbers that never increases is constant from some point on. *)
Lemma eventually_constant (f : nat -> nat) :
  (forall n, (f (S n) <= f n)%nat) -> exists N, forall n, (N <= n)%nat -> f n = f N.
Proof.
  intros Hf.
  assert (Hmono : forall n k, (f (n + k) <= f n)%nat).
  { intros n k. induction k as [|k IH]; [by rewrite Nat.add_0_r|].
    rewrite Nat.add_succ_r. pose proof (Hf (n + k)%nat). lia. }
  assert (H : forall v n, f n = v -> exists N, forall m, (N <= m)%nat -> f m = f N);
    [|by apply (H (f 0%nat) 0%nat)].
  induction v as [v IH] using (well_founded_induction lt_wf). intros n Hn.
  destruct (classic (exists m, (n <= m)%nat /\ (f m < v)%nat)) as [(m & Hm & Hlt)|Hno].
  - by apply (IH (f m) Hlt m).
  - exists n. intros m Hm. pose proof (Hmono n (m - n)%nat) as H.
    replace (n + (m - n))%nat with m in H by lia.
    destruct (decide (f m = f n)); [done|]. destruct Hno. exists m. split; [done|lia].
Qed.

Section Fair.
Context (c : config) (Hc : config_ok c) (run : nat -> sys) (lab : nat -> label).
Context (Hf : fair_run c run lab).
Notation count := (cf_count c).

Lemma fair_reachable n : reachable c (run n).
Proof.
  induction n as [|n IH]; [rewrite (fr_start _ _ _ Hf); constructor|].
  eapply reach_step; [exact IH|apply (fr_step _ _ _ Hf)].
Qed.

(** The state at [n] is where the first [n] labels lead. *)
Lemma fair_exec_all n : exec_all c (lab <$> seq 0 n) (init_sys c) = Some (run n).
Proof.
  induction n as [|n IH]; [by rewrite (fr_start _ _ _ Hf)|].
  rewrite seq_S, fmap_app. simpl. rewrite exec_all_snoc, IH. apply (fr_step _ _ _ Hf).
Qed.

Lemma fair_log_prefix n m q : (n <= m)%nat -> log_of (run n) q `prefix_of` log_of (run m) q.
Proof.
  induction 1 as [|m _ IH]; [done|]. etrans; [exact IH|].
  eapply exec_log_prefix, (fr_step _ _ _ Hf).
Qed.

Lemma fair_Inv n : Inv c (run n).
Proof. apply reachable_Inv; [done|apply fair_reachable]. Qed.

Lemma fair_settles :
  exists N, forall n, (N <= n)%nat -> conn_step (run n) (run (S n)).
Proof.
  destruct (eventually_constant (fun n => all_remaining c (run n))) as [N HN].
  { intros n. destruct (step_remaining c _ _ _ (fair_Inv n) (fr_step _ _ _ Hf n)) as [?|[? _]]; lia. }
  exists N. intros n Hn.
  destruct (step_remaining c _ _ _ (fair_Inv n) (fr_step _ _ _ Hf n)) as [Hlt|[_ ?]]; [|done].
  pose proof (HN n Hn). pose proof (HN (S n) ltac:(lia)). simpl in *. lia.
Qed.

Section Settled.
Context (N : nat) (HN : forall n, (N <= n)%nat -> conn_step (run n) (run (S n))).

(** From [N] on a thread in an exchange stays in it. *)
Lemma exchange_stays t th n m :
  (N <= n)%nat -> (n <= m)%nat -> s_threads (run n) !! t = Some th -> t_conn th <> Unlocked ->
  exists cn, s_threads (run m) !! t = Some (set_conn th cn) /\ cn <> Unlocked.
Proof.
  intros Hn Hm Ht Hcn. induction Hm as [|m Hm IH].
  { exists (t_conn th). split; [|done]. rewrite Ht. by destruct th. }
  destruct IH as (cn & Ht' & Hcn').
  destruct (HN m ltac:(lia)) as [->|(u & x & cn2 & Hu & Hcn2 & ->)]; [by exists cn|].
  destruct (decide (u = t)) as [->|Hne].
  - rewrite list_lookup_insert_eq by (by eapply lookup_lt_Some). simplify_eq. by exists cn2.
  - rewrite list_lookup_insert_ne by done. by exists cn.
Qed.

Lemma other_thread_stays t m :
  thread_label (lab m) <> Some t -> s_threads (run (S m)) !! t = s_threads (run m) !! t.
Proof.
  intros Hl. pose proof (fr_step _ _ _ Hf m) as He. destruct (thread_label (lab m)) as [u|] eqn:E.
  - destruct (thread_label_move c _ _ _ u (fair_Inv m) He (fr_running _ _ _ Hf _) E)
      as (x & x' & _ & _ & ->).
    rewrite list_lookup_insert_ne by congruence. done.
  - by rewrite (other_label_threads c _ _ _ He E).
Qed.

Lemma sending_label t th b m :
  s_threads (run m) !! t = Some th -> t_conn th = Sending b ->
  thread_label (lab m) = Some t ->
  lab m = LSend t None /\ s_threads (run (S m)) !! t = Some (set_conn th (WaitingAck b)).
Proof.
  intros Ht Hcn Hl. pose proof (fr_step _ _ _ Hf m) as He.
  pose proof (fr_running _ _ _ Hf (S m)) as Hrun.
  apply exec_step in He. revert Hrun Hl. destruct He; simpl; intros Hrun Hl; simplify_eq; try congruence.
  - assert (b0 = b) as -> by congruence. split; [by destruct sendto|].
    apply list_lookup_insert_eq. by eapply lookup_lt_Some.
  - exfalso. revert Hrun. apply crash_not_running. rewrite (inv_nodes_len _ _ (fair_Inv m)).
    apply (inv_thread _ _ (fair_Inv m) _ _ Ht).
Qed.

Lemma waiting_label t th b m :
  (N <= m)%nat -> s_threads (run m) !! t = Some th -> t_conn th = WaitingAck b ->
  thread_label (lab m) = Some t ->
  exists b', s_threads (run (S m)) !! t = Some (set_conn th (Sending b')).
Proof.
  intros Hm Ht Hcn Hl.
  destruct (exchange_stays t th m (S m)) as (cn & Hcn' & Hne); [lia|lia|done|by rewrite Hcn|].
  destruct (thread_label_move c _ _ _ t (fair_Inv m) (fr_step _ _ _ Hf m) (fr_running _ _ _ Hf _) Hl)
    as (x & x' & Hx & Hmv & Heq). simplify_eq.
  rewrite Heq, list_lookup_insert_eq in Hcn' |- * by (by eapply lookup_lt_Some). simplify_eq.
  inversion Hmv as [? ? Hcn2|b2 Hcn2 Hcn3|b2 r th' Hcn2 Hr|seqs u Hj Hcn2 Hp]; [congruence..| |congruence].
  subst. destruct (thread_recv_conn _ _ _ _ _ Hcn Hr) as [Hun|[b' Hs]]; [done|].
  simpl in Hs. subst. by exists b'.
Qed.

Section Exchange.
Context (t n0 : nat) (th : thread) (Hn0 : (N <= n0)%nat).
Context (Ht : s_threads (run n0) !! t = Some th) (Hcn : t_conn th <> Unlocked).
Notation i := (t_proc th).
Notation j := (t_peer th).

Lemma still m : (n0 <= m)%nat ->
  exists cn, s_threads (run m) !! t = Some (set_conn th cn) /\ cn <> Unlocked.
Proof. intros Hm. by apply (exchange_stays t th n0 m). Qed.

Lemma peer_in_range : (j < count)%nat.
Proof. by apply (inv_thread _ _ (fair_Inv n0) _ _ Ht). Qed.

(** The thread moves again and again. *)
Lemma thread_moves : infinitely_often (fun n => thread_label (lab n) = Some t).
Proof.
  apply (fr_threads _ _ _ Hf). exists n0. intros m Hm. destruct (still m Hm) as (cn & Hm' & Hne).
  exists (set_conn th cn). split_and!; [done| |done].
  intros [Hp _]. simpl in Hp. pose proof peer_in_range. lia.
Qed.

(** A thread about to send sends when it moves next. *)
Lemma next_send b m m2 :
  (n0 <= m)%nat -> (m <= m2)%nat -> s_threads (run m) !! t = Some (set_conn th (Sending b)) ->
  thread_label (lab m2) = Some t ->
  exists k, (m <= k)%nat /\ lab k = LSend t None /\
    s_threads (run k) !! t = Some (set_conn th (Sending b)) /\
    s_threads (run (S k)) !! t = Some (set_conn th (WaitingAck b)).
Proof.
  intros Hm Hm2. remember (m2 - m)%nat as d eqn:Hd. revert m Hm Hm2 Hd.
  induction d as [|d IH]; intros m Hm Hm2 Hd Hs Hl.
  - assert (m2 = m) as -> by lia.
    destruct (sending_label t _ b m Hs eq_refl Hl) as [H1 H2]. by exists m.
  - destruct (decide (thread_label (lab m) = Some t)) as [Hl'|Hl'].
    + destruct (sending_label t _ b m Hs eq_refl Hl') as [H1 H2]. by exists m.
    + destruct (IH (S m)) as (k & Hk & H); [lia..| |done|exists k; split; [lia|done]].
      by rewrite other_thread_stays.
Qed.

Lemma send_again n : (n0 <= n)%nat ->
  exists k b, (n <= k)%nat /\ lab k = LSend t None /\
    s_threads (run k) !! t = Some (set_conn th (Sending b)) /\
    s_threads (run (S k)) !! t = Some (set_conn th (WaitingAck b)).
Proof.
  intros Hn. destruct (thread_moves n) as (m & Hm & Hl).
  destruct (still m ltac:(lia)) as (cn & Hm' & Hne). destruct cn as [|b|b]; [done| |].
  - destruct (sending_label t _ b m Hm' eq_refl Hl) as [H1 H2]. by exists m, b.
  - destruct (waiting_label t _ b m ltac:(lia) Hm' eq_refl Hl) as [b' Hb'].
    destruct (thread_moves (S m)) as (m2 & Hm2 & Hl2).
    destruct (next_send b' (S m) m2) as (k & Hk & H); [lia|lia|done|done|].
    exists k, b'. split; [lia|done].
Qed.

Lemma sends_often : infinitely_often (sends c run lab i j (thread_packet (cf_endian c i) th)).
Proof.
  intros n. destruct (send_again (n `max` n0)) as (k & b & Hk & Hl & Hs & _); [lia|].
  exists k. split; [lia|]. by exists t, (set_conn th (Sending b)).
Qed.

Lemma awaits_often : infinitely_often (awaits run i j).
Proof.
  intros n. destruct (send_again (n `max` n0)) as (k & b & Hk & Hl & _ & Hs); [lia|].
  exists (S k). split; [lia|]. by exists t, (set_conn th (WaitingAck b)), b.
Qed.

(** The process handles the datagram of the exchange. *)
Lemma served m u rest p' acts nd :
  lab m = LServe i j u None ->
  s_links (run m) (i, j) = thread_packet (cf_endian c i) th :: rest ->
  s_nodes (run m) !! j = Some nd ->
  OnReceive (cf_endian c j) u None (n_proc nd)
    (recv_buf (thread_packet (cf_endian c i) th)) (recv_len (thread_packet (cf_endian c i) th))
    = (p', acts, None) ->
  s_acks (run (S m)) (i, j) = s_acks (run m) (i, j) ++ replies acts /\
  exists nd', s_nodes (run (S m)) !! j = Some nd' /\ n_proc nd' = p'.
Proof.
  intros Hl Hlink Hnd Ho. pose proof (fr_step _ _ _ Hf m) as He. rewrite Hl in He.
  cbn [exec] in He. rewrite Hnd, Hlink, (fr_running _ _ _ Hf m _ _ Hnd) in He.
  injection He as <-. unfold serve. rewrite Ho. simpl. split; [apply fn_lookup_insert|].
  eexists. split; [apply list_lookup_insert_eq; by eapply lookup_lt_Some|done].
Qed.

Lemma peer_node m : exists nd, s_nodes (run m) !! j = Some nd.
Proof. apply lookup_lt_is_Some_2. rewrite (inv_nodes_len _ _ (fair_Inv m)). apply peer_in_range. Qed.

(** The sequence message is answered with the same datagram again and again. *)
Lemma seq_answers_often sm :
  t_job th = JSeq sm -> infinitely_often (answers run lab i j (seq_reply c sm j)).
Proof.
  intros Hj n.
  destruct (fr_links _ _ _ Hf _ _ _ sends_often (n `max` n0)%nat) as (m & Hm & u & rest & Hl & Hlk).
  exists m. split; [lia|]. destruct (peer_node m) as [nd Hnd].
  destruct (still m ltac:(lia)) as (cn & Hm' & _).
  destruct (seq_answer c Hc (run m) t _ j nd u sm (fair_Inv m) Hm' Hj Hnd) as (p' & acts & Ho & Hre).
  assert (thread_packet (cf_endian c i) th = seq_packet c (set_conn th cn) sm) as Hpk
    by (unfold thread_packet; by rewrite Hj).
  rewrite <- Hpk in Ho. destruct (served m u rest _ _ _ Hl Hlk Hnd Ho) as [Ha _].
  exists u. by rewrite Ha, Hre.
Qed.

(** The data message is pending once the process has handled it. *)
Lemma data_served m u rest seqs :
  t_job th = JData seqs -> (n0 <= m)%nat -> lab m = LServe i j u None ->
  s_links (run m) (i, j) = thread_packet (cf_endian c i) th :: rest ->
  exists nd nd' sq, s_nodes (run m) !! j = Some nd /\ s_nodes (run (S m)) !! j = Some nd' /\
    n_pending nd' (t_key th) sq /\ (forall old, n_pending nd (t_key th) old -> sq = old) /\
    s_acks (run (S m)) (i, j) = s_acks (run m) (i, j) ++ [data_reply c th j sq] /\
    pms_seq_proposer sq = Z.of_nat j /\ is_u32 (pms_seq sq).
Proof.
  intros Hj Hm Hl Hlk. destruct (peer_node m) as [nd Hnd].
  destruct (still m Hm) as (cn & Hm' & _).
  destruct (data_answer c Hc (run m) t _ j nd u (fair_Inv m) Hm' Hnd)
    as (p' & sq & Ho & Hp & Hold & Hpr & Hu).
  assert (thread_packet (cf_endian c i) th = data_packet c (set_conn th cn)) as Hpk
    by (unfold thread_packet; by rewrite Hj).
  rewrite <- Hpk in Ho. destruct (served m u rest _ _ _ Hl Hlk Hnd Ho) as (Ha & nd' & Hnd' & Hp').
  exists nd, nd', sq. split_and!; try done. unfold n_pending, n_queue. by rewrite Hp'.
Qed.

Lemma pending_stays sq seqs m0 m nd0 :
  t_job th = JData seqs -> (n0 <= m0)%nat -> (m0 <= m)%nat ->
  s_nodes (run m0) !! j = Some nd0 -> n_pending nd0 (t_key th) sq ->
  exists nd, s_nodes (run m) !! j = Some nd /\ n_pending nd (t_key th) sq.
Proof.
  intros Hj Hm0 Hm Hnd Hp. induction Hm as [|m Hm IH]; [eauto|].
  destruct IH as (nd & Hnd' & Hp'). destruct (still m ltac:(lia)) as (cn & Hm' & _).
  assert (is_data (set_conn th cn)) as Hd by (unfold is_data; simpl; by rewrite Hj).
  exact (exec_pending c Hc _ _ _ j nd t _ sq (fair_Inv m) (fr_step _ _ _ Hf m) Hnd' Hm' Hd Hp').
Qed.

(** The data message is answered with the same proposal again and again. *)
Lemma data_answers_often seqs :
  t_job th = JData seqs ->
  exists sq, infinitely_often (answers run lab i j (data_reply c th j sq)) /\
    pms_seq_proposer sq = Z.of_nat j /\ is_u32 (pms_seq sq).
Proof.
  intros Hj. destruct (fr_links _ _ _ Hf _ _ _ sends_often n0) as (m0 & Hm0 & u0 & rest0 & Hl0 & Hlk0).
  destruct (data_served m0 u0 rest0 seqs Hj Hm0 Hl0 Hlk0)
    as (_ & nd0 & sq & _ & Hnd0 & Hp0 & _ & _ & Hpr & Hu).
  exists sq. split; [|done]. intros n.
  destruct (fr_links _ _ _ Hf _ _ _ sends_often (n `max` S m0)%nat) as (m & Hm & u & rest & Hl & Hlk).
  exists m. split; [lia|].
  destruct (data_served m u rest seqs Hj ltac:(lia) Hl Hlk)
    as (nd & _ & sq' & Hnd & _ & _ & Hold & Ha & _).
  destruct (pending_stays sq seqs (S m0) m nd0 Hj ltac:(lia) ltac:(lia) Hnd0 Hp0)
    as (nd1 & Hnd1 & Hp1). simplify_eq.
  rewrite (Hold _ Hp1) in Ha. by exists u.
Qed.

(** The answer cannot be read for ever. *)
Lemma read_ends reply :
  accepts c th j reply -> ~ infinitely_often (reads run lab i j reply).
Proof.
  intros Hacc Hio.
  destruct (Hio n0) as (m & Hm & t' & x & k & keep & Hl & Hx & Hi & Hj & Hk).
  pose proof (fr_step _ _ _ Hf m) as He. rewrite Hl in He. cbn [exec] in He.
  rewrite Hx in He. destruct (t_conn x) as [|b|b] eqn:Hcx; try done.
  destruct (still m Hm) as (cn & Hm' & Hne).
  assert (t' = t) as ->.
  { pose proof (reachable_lock_inv c _ (fair_reachable m)) as Hlk.
    assert (s_locks (run m) (i, j) = Some t') as H1.
    { apply Hlk. exists x. split; [done|]. unfold held. by rewrite Hcx, Hi, Hj. }
    assert (s_locks (run m) (i, j) = Some t) as H2.
    { apply Hlk. exists (set_conn th cn). split; [done|]. unfold held. by destruct cn. }
    congruence. }
  simplify_eq. simpl in Hcx. subst cn. rewrite Hi, Hj, Hk in He.
  destruct (is_up _ _); [|done]. injection He as He.
  destruct (Hacc b) as (th' & Hrec & _ & Hun & _).
  destruct (still (S m) ltac:(lia)) as (cn' & Hs & Hne').
  assert (s_threads (run (S m)) !! t = Some th') as Hs'; [|simplify_eq; by simpl in Hun].
  rewrite <- He. unfold thread_answer. rewrite Hi, Hrec, Hun.
  destruct keep; simpl; apply list_lookup_insert_eq; by eapply lookup_lt_Some.
Qed.

Lemma exchange_ends : False.
Proof.
  destruct (t_job th) as [seqs|sm] eqn:Hj.
  - destruct (data_answers_often seqs Hj) as (sq & Ha & Hpr & Hu).
    apply (read_ends (data_reply c th j sq)).
    + by eapply (data_reply_accepted c Hc (run n0)); [apply fair_Inv|..|apply peer_in_range| |].
    + by apply (fr_replies _ _ _ Hf _ _ _ Ha), awaits_often.
  - apply (read_ends (seq_reply c sm j)).
    + by eapply (seq_reply_accepted c Hc (run n0)); [apply fair_Inv|..].
    + by apply (fr_replies _ _ _ Hf _ _ _ (seq_answers_often sm Hj)), awaits_often.
Qed.

End Exchange.

(** While no thread is in an exchange, a thread that moves takes up an exchange or
    has less to do. *)
Lemma idle_ends :
  (forall n t th, (N <= n)%nat -> s_threads (run n) !! t = Some th -> t_conn th = Unlocked) ->
  forall t th, s_threads (run N) !! t = Some th -> finished c th.
Proof.
  intros Hidle t th Ht. destruct (decide (finished c th)) as [|Hnf]; [done|exfalso].
  assert (Hsame : forall n, (N <= n)%nat -> s_threads (run (S n)) = s_threads (run n)).
  { intros n Hn. destruct (HN n Hn) as [->|(u & x & cn & Hu & Hne & Heq)]; [done|].
    destruct Hne. apply (Hidle (S n) u (set_conn x cn)); [lia|]. rewrite Heq.
    apply list_lookup_insert_eq. by eapply lookup_lt_Some. }
  assert (Hconst : forall n, (N <= n)%nat -> s_threads (run n) = s_threads (run N)).
  { induction 1 as [|n Hn IH]; [done|]. by rewrite Hsame. }
  destruct (fr_threads _ _ _ Hf t) with (n := N) as (m & Hm & Hl).
  { exists N. intros n Hn. exists th. rewrite (Hconst n Hn). split_and!; [done|done|]. intros _ _.
    destruct (s_locks (run n) _) as [u|] eqn:El; [|done].
    apply (reachable_lock_inv c _ (fair_reachable n)) in El as (x & Hx & Hh).
    unfold held in Hh. by rewrite (Hidle n u x Hn Hx) in Hh. }
  destruct (thread_label_move c _ _ _ t (fair_Inv m) (fr_step _ _ _ Hf m) (fr_running _ _ _ Hf _) Hl)
    as (x & x' & Hx & Hmv & Heq).
  assert (s_threads (run (S m)) !! t = Some x') as Hx'
    by (rewrite Heq; apply list_lookup_insert_eq; by eapply lookup_lt_Some).
  rewrite Hsame in Hx' by done. assert (x' = x) as -> by congruence.
  pose proof (Hidle m t x Hm Hx) as Hun.
  by destruct (idle_move_changes _ _ _ _ Hmv Hun).
Qed.

End Settled.

Lemma fair_finishes : exists n, forall t th, s_threads (run n) !! t = Some th -> finished c th.
Proof.
  destruct fair_settles as [N HN]. exists N. apply idle_ends; [done|].
  intros n t th Hn Ht. destruct (decide (t_conn th = Unlocked)) as [|Hne]; [done|exfalso].
  by eapply (exchange_ends N HN t n th).
Qed.

(** Threads that have finished do not move. *)
Lemma finished_stays n m :
  (forall t th, s_threads (run n) !! t = Some th -> finished c th) -> (n <= m)%nat ->
  s_threads (run m) = s_threads (run n).
Proof.
  intros Hfin. induction 1 as [|m Hm IH]; [done|]. rewrite <- IH in Hfin |- *.
  destruct (exec_threads c _ _ _ (fr_step _ _ _ Hf m)) as [?|(t & th & th' & Ht & Hmv & _)]; [done|].
  exfalso. destruct (Hfin t th Ht) as [Hp Hj].
  pose proof (th_conn _ _ (inv_thread _ _ (fair_Inv m) _ _ Ht)) as Hcn.
  destruct Hmv as [_ Hlt|b Hb|b r th' Hb _|seqs u Hjb _ _]; [lia|..|by rewrite Hjb in Hj];
    specialize (Hcn ltac:(by rewrite Hb)); lia.
Qed.

End Fair.

(** ** Fair runs exist *)

(** A schedule, continued by losing datagrams that are not there. *)
Definition lab_of (ls : list label) (n : nat) : label := default (LLose 0 0 0) (ls !! n).
Fixpoint run_of (c : config) (ls : list label) (n : nat) : sys :=
  match n with
  | O => init_sys c
  | S n' => let s := run_of c ls n' in default s (exec c (lab_of ls n') s)
  end.

Section Schedule.
Context (c : config) (ls : list label).
Hypothesis Hsteps : Forall (fun n => is_Some (exec c (lab_of ls n) (run_of c ls n)) /\
  Forall (fun nd => n_status nd = Running) (s_nodes (run_of c ls n))) (seq 0 (S (length ls))).
Hypothesis Hend : Forall (finished c) (s_threads (run_of c ls (length ls))).

Lemma after_schedule n :
  (length ls <= n)%nat ->
  lab_of ls n = LLose 0 0 0 /\
  s_nodes (run_of c ls n) = s_nodes (run_of c ls (length ls)) /\
  s_threads (run_of c ls n) = s_threads (run_of c ls (length ls)).
Proof.
  assert (Hl : forall k, (length ls <= k)%nat -> lab_of ls k = LLose 0 0 0).
  { intros k Hk. unfold lab_of. by rewrite lookup_ge_None_2. }
  intros Hn. split; [by apply Hl|]. induction Hn as [|n Hn [IH1 IH2]]; [done|].
  simpl. by rewrite (Hl n Hn).
Qed.

Lemma schedule_fair : fair_run c (run_of c ls) (lab_of ls).
Proof.
  assert (Hnever : forall P : nat -> Prop,
    (forall n, (length ls <= n)%nat -> ~ P n) -> ~ infinitely_often P).
  { intros P HP Hio. destruct (Hio (length ls)) as (m & Hm & H). by apply (HP m). }
  rewrite Forall_forall in Hsteps. split.
  - done.
  - intros n. destruct (decide (n < S (length ls))%nat) as [Hlt|Hge].
    + destruct (Hsteps n) as [[s' Hs] _]; [apply elem_of_seq; lia|]. simpl. by rewrite Hs.
    + destruct (after_schedule n) as [Hl _]; [lia|]. simpl. by rewrite Hl.
  - intros n q nd Hq.
    assert (s_nodes (run_of c ls n) = s_nodes (run_of c ls (n `min` length ls))) as Heq.
    { destruct (decide (n <= length ls)%nat); [by rewrite Nat.min_l by lia|].
      rewrite Nat.min_r by lia. apply after_schedule. lia. }
    destruct (Hsteps (n `min` length ls)%nat) as [_ Hr]; [apply elem_of_seq; lia|].
    rewrite <- Heq, Forall_lookup in Hr. by apply (Hr q).
  - intros t [n Hn]. exfalso. destruct (Hn (n `max` length ls)%nat) as (th & Ht & Hnf & _); [lia|].
    destruct (after_schedule (n `max` length ls)) as (_ & _ & Heq); [lia|].
    rewrite Heq in Ht. destruct Hnf. rewrite Forall_lookup in Hend. by apply (Hend t).
  - intros i j pkt Hio. exfalso. revert Hio. apply Hnever. intros n Hn (t & th & Hl & _).
    destruct (after_schedule n Hn) as [Hl' _]. congruence.
  - intros i j pkt Hio. exfalso. revert Hio. apply Hnever. intros n Hn (u & Hl & _).
    destruct (after_schedule n Hn) as [Hl' _]. congruence.
Qed.

End Schedule.
