(* ===== verification/Runs.v ===== *)
(** * Concrete runs

    Small systems and schedules on which the definitions are evaluated: two processes of
    different endianness that multicast one message each, and schedules of a network
    that reorders datagrams. *)

From Stdlib Require Import ZArith Lia String.
From stdpp Require Import functions base list.
From S2P Require Import Prelude Exceptions Wire Net Udp HoldBack Process Sender System.
From S2P Require Import RunFacts NodeInv SystemInv TotalOrder.

Open Scope Z_scope.

Definition demo_addresses : list Address :=
  [mkAddress "localhost" 1234; mkAddress "localhost" 1235].

(** The state that a schedule leads to. *)
Definition run (c : config) (ls : list label) : sys :=
  default (init_sys c) (exec_all c ls (init_sys c)).

Lemma run_reachable c ls :
  bool_decide (is_Some (exec_all c ls (init_sys c))) = true -> reachable c (run c ls).
Proof.
  intros [s Hs]%bool_decide_eq_true. unfold run. rewrite Hs. simpl.
  eapply exec_all_reachable; [apply reach_init|exact Hs].
Qed.

Lemma run_exec c ls :
  bool_decide (is_Some (exec_all c ls (init_sys c))) = true ->
  exec_all c ls (init_sys c) = Some (run c ls).
Proof. intros [s Hs]%bool_decide_eq_true. unfold run. by rewrite Hs. Qed.

(** Thread [t] of process [i] sends to process [j], which answers. *)
Definition exchange (t i j : nat) : list label :=
  [LAcquire t; LSend t None; LServe i j 7 None; LAck t 0 false].

(** ** Two processes, two messages *)

Definition demo2 : config := {|
  cf_addresses := demo_addresses;
  cf_launches := [mkLaunch 0 17 100 0; mkLaunch 1 23 200 0];
  cf_endian := fun i => if (i =? 0)%nat then Little else Big;
  cf_delays := fun _ => false;
  cf_reorder := false
|}.

(** The conditions of [config_ok] on the launches, computed. *)
Lemma config_ok_check c :
  cf_reorder c = false -> bool_decide (NoDup (cf_addresses c)) = true ->
  (Z.of_nat (cf_count c) <? u32_modulus) = true ->
  (Z.of_nat (cf_count c * length (cf_launches c)) <? u32_modulus) = true ->
  bool_decide (Forall (fun l => (lc_proc l < cf_count c)%nat /\ is_u32 (lc_msg_id l) /\
    is_u32 (lc_data l)) (cf_launches c)) = true ->
  bool_decide (NoDup ((fun l => (lc_proc l, lc_msg_id l)) <$> cf_launches c)) = true ->
  config_ok c.
Proof.
  intros H1 H0%bool_decide_eq_true H2 H3 H4%bool_decide_eq_true H5%bool_decide_eq_true. bool_prop.
  rewrite Forall_forall in H4. by split.
Qed.

Lemma demo2_ok : config_ok demo2.
Proof. by apply config_ok_check; vm_compute. Qed.

(** Both threads collect their proposals, with a retransmission after a timeout and
    a lost and a duplicated datagram, and datagrams from outside. *)
Definition demo2_data : list label :=
  [LForeign 1 [1; 2; 3] 7 None;
   LAcquire 0; LSend 0 None; LLose 0 0 0; LStray 0 [9];
   LSend 0 None; LLose 0 0 0; LRecvError 0 EAGAIN;
   LSend 0 None; LDuplicate 0 0 0; LServe 0 0 7 None; LServe 0 0 7 None;
   LAck 0 1 true] ++
  exchange 1 1 0 ++ exchange 1 1 1 ++ exchange 0 0 1.

(** Both threads distribute their final numbers; a stale acknowledgement makes the
    first one send again. *)
Definition demo2_final : list label :=
  [LFinish 0 0; LFinish 1 0] ++ exchange 1 1 0 ++
  [LAcquire 0; LSend 0 None; LServe 0 0 7 None; LAck 0 0 false; LSend 0 None;
   LAck 0 1 false] ++
  exchange 0 0 1 ++ exchange 1 1 1.

(** In the middle the first process has delivered both messages, the second none. *)
Definition demo2_mid : sys := run demo2 (demo2_data ++ take 12 demo2_final).
Definition demo2_end : sys := run demo2 (demo2_data ++ demo2_final).

Lemma demo2_mid_run :
  exec_all demo2 (demo2_data ++ take 12 demo2_final) (init_sys demo2) = Some demo2_mid.
Proof. apply run_exec. vm_compute. reflexivity. Qed.
Lemma demo2_end_run : exec_all demo2 (demo2_data ++ demo2_final) (init_sys demo2) = Some demo2_end.
Proof. apply run_exec. vm_compute. reflexivity. Qed.

Lemma demo2_mid_reachable : reachable demo2 demo2_mid.
Proof. apply run_reachable. vm_compute. reflexivity. Qed.
Lemma demo2_end_reachable : reachable demo2 demo2_end.
Proof. apply run_reachable. vm_compute. reflexivity. Qed.

Lemma demo2_end_finished t th : s_threads demo2_end !! t = Some th -> finished demo2 th.
Proof.
  intros Ht%list_elem_of_lookup_2. revert th Ht. apply Forall_forall.
  apply (bool_decide_eq_true_1 _). vm_compute. reflexivity.
Qed.

Definition node_at (s : sys) (q : nat) : node :=
  default (mkNode (make_Process [] 0 false) [] Down) (s_nodes s !! q).
Definition thread_at (s : sys) (t : nat) : thread :=
  default (launch 0 0 0 0 0) (s_threads s !! t).

(** The state after one more label. *)
Definition next (c : config) (l : label) (s : sys) : sys := default s (exec c l s).

Lemma next_exec c l s :
  bool_decide (is_Some (exec c l s)) = true -> exec c l s = Some (next c l s).
Proof. intros [s' Hs]%bool_decide_eq_true. unfold next. by rewrite Hs. Qed.

(** ** A network that reorders *)

(** Two processes; the first multicasts [n] messages. *)
Definition demo_reorder (n : nat) : config := {|
  cf_addresses := demo_addresses;
  cf_launches := (fun i => mkLaunch 0 (Z.of_nat i) 5 0) <$> seq 0 n;
  cf_endian := fun _ => Little;
  cf_delays := fun _ => false;
  cf_reorder := true
|}.

(** The data message for the second process is duplicated on the way and the copy
    arrives late: after the sequence message, which is duplicated too. *)
Definition replay_schedule : list label :=
  exchange 0 0 0 ++
  [LAcquire 0; LSend 0 None; LDuplicate 0 1 0; LServe 0 1 7 None; LAck 0 0 false;
   LFinish 0 0] ++
  exchange 0 0 0 ++
  [LAcquire 0; LSend 0 None; LDuplicate 0 1 1; LSwap 0 1 0;
   LServe 0 1 7 None; LServe 0 1 7 None; LServe 0 1 7 None].

(** As above without the second copy of the sequence message; then another message
    is multicast, undisturbed. *)
Definition block_schedule : list label :=
  exchange 0 0 0 ++
  [LAcquire 0; LSend 0 None; LDuplicate 0 1 0; LServe 0 1 7 None; LAck 0 0 false;
   LFinish 0 0] ++
  exchange 0 0 0 ++
  [LAcquire 0; LSend 0 None; LSwap 0 1 0;
   LServe 0 1 7 None; LServe 0 1 7 None; LAck 0 0 false] ++
  exchange 1 0 0 ++
  [LAcquire 1; LSend 1 None; LServe 0 1 7 None; LAck 1 1 false; LFinish 1 0] ++
  exchange 1 0 0 ++
  [LAcquire 1; LSend 1 None; LServe 0 1 7 None; LAck 1 1 false].

(** ** Two messages with one id *)

(** The first process draws the same id for both of its messages. *)
Definition demo_collision : config := {|
  cf_addresses := demo_addresses;
  cf_launches := [mkLaunch 0 5 100 0; mkLaunch 0 5 200 0];
  cf_endian := fun _ => Little;
  cf_delays := fun _ => false;
  cf_reorder := false
|}.

(** An undisturbed run: both threads collect proposals, then both distribute their final
    numbers. *)
Definition collision_schedule : list label :=
  exchange 0 0 0 ++ exchange 0 0 1 ++ exchange 1 0 0 ++ exchange 1 0 1 ++
  [LFinish 0 0; LFinish 1 0] ++
  exchange 0 0 0 ++ exchange 0 0 1 ++ exchange 1 0 0 ++ exchange 1 0 1.
