(* ===== verification/Failures.v ===== *)
(** * Servers that stop

    What becomes of the multicast when the server of a process has thrown: the state of the
    process is frozen, and its thread group waits for threads that wait for that very
    server. *)

From Stdlib Require Import ZArith Lia.
From stdpp Require Import functions base list gmap.
From S2P Require Import Prelude Exceptions Wire Net Udp StdSet HoldBack Process Sender System.
From S2P Require Import RunFacts Projection NodeInv SystemInv SystemSteps TotalOrder Progress Runs.

Open Scope Z_scope.

(** The server of process [j] has stopped, leaving the queue and the log of [nd]. *)
Definition stopped (s : sys) (j : nat) (nd : node) : Prop :=
  exists nd', s_nodes s !! j = Some nd' /\ n_status nd' <> Running /\
    n_proc nd' = n_proc nd /\ n_log nd' = n_log nd.

Lemma stopped_step c l s s' j nd : exec c l s = Some s' -> stopped s j nd -> stopped s' j nd.
Proof.
  intros He (x & Hj & Hst & Hp & Hl).
  apply exec_nodes in He as [Heq|(i & y & y' & Hi & Hm & Heq)]; unfold stopped; rewrite Heq.
  { by exists x. }
  destruct (decide (j = i)) as [->|Hne]; [|rewrite list_lookup_insert_ne by done; by exists x].
  rewrite list_lookup_insert_eq by (by eapply lookup_lt_Some). simplify_eq.
  destruct Hm as [| |]; [|done..]. by eexists.
Qed.

Lemma stopped_runs c s s' j nd : runs c s s' -> stopped s j nd -> stopped s' j nd.
Proof.
  intros [ls Hls]. revert s Hls. induction ls as [|l ls IH]; intros s Hls Hs; simpl in Hls.
  { by simplify_eq. }
  destruct (exec c l s) as [s1|] eqn:E; [|done]. eapply IH; [done|]. by eapply stopped_step.
Qed.

Lemma stopped_done s j nd nd' k p :
  stopped s j nd -> s_nodes s !! j = Some nd' -> n_done nd' k p -> n_done nd k p.
Proof.
  intros (x & Hx & _ & Hp & Hl) Hj Hd. simplify_eq.
  unfold n_done, in_log, n_queue in *. by rewrite <- Hp, <- Hl.
Qed.

(** Threads keep their message along a run. *)
Lemma runs_thread c s s' t th :
  reachable c s -> runs c s s' -> s_threads s !! t = Some th ->
  exists th', s_threads s' !! t = Some th' /\ thread_ident th' = thread_ident th.
Proof.
  intros Hr Hrun Ht.
  pose proof (reachable_ident c s Hr) as H1.
  pose proof (reachable_ident c s' (runs_reachable c s s' Hr Hrun)) as H2.
  rewrite <- H1 in H2. apply (f_equal (fun l => l !! t)) in H2.
  rewrite !list_lookup_fmap, Ht in H2. simpl in H2.
  destruct (s_threads s' !! t) as [th'|]; [|done]. injection H2 as H2 H3. exists th'. split; [done|]. unfold thread_ident. congruence.
Qed.

Section Stopped.
Context (c : config) (Hc : config_ok c).

(** A finished thread has finalised its message everywhere. *)
Lemma finished_done s t th q nd :
  reachable c s -> s_threads s !! t = Some th -> finished c th -> s_nodes s !! q = Some nd ->
  exists p, n_done nd (t_key th) p.
Proof.
  intros Hr Ht [Hpeer Hj] Hq. pose proof (reachable_Inv c Hc s Hr) as HI.
  pose proof (inv_cross _ _ HI _ _ _ _ Ht Hq) as Hx. unfold cross in Hx.
  destruct (t_job th) as [|sm]; [done|]. destruct Hx as [Hd|[Hle _]]; [by eexists|].
  apply lookup_lt_Some in Hq. rewrite (inv_nodes_len _ _ HI) in Hq. lia.
Qed.

Lemma stopped_unfinished s s' j nd t th seqs :
  reachable c s -> s_nodes s !! j = Some nd -> n_status nd <> Running ->
  s_threads s !! t = Some th -> t_job th = JData seqs -> runs c s s' ->
  exists th', s_threads s' !! t = Some th' /\ t_proc th' = t_proc th /\ ~ finished c th'.
Proof.
  intros Hr Hj Hst Ht Hjob Hrun.
  destruct (runs_thread c s s' t th Hr Hrun Ht) as (th' & Ht' & Hid).
  injection Hid as Hp Hm. exists th'. split_and!; [done..|]. intros Hfin.
  assert (stopped s' j nd) as Hs by (eapply stopped_runs; [done|]; by exists nd).
  pose proof Hs as (nd' & Hj' & _).
  destruct (finished_done s' t th' j nd' (runs_reachable c s s' Hr Hrun) Ht' Hfin Hj') as [p Hd].
  apply (stopped_done _ _ _ _ _ _ Hs Hj') in Hd.
  assert (t_key th' = t_key th) as Hk by (unfold t_key; by rewrite Hm). rewrite Hk in Hd.
  pose proof (inv_cross _ _ (reachable_Inv c Hc s Hr) _ _ _ _ Ht Hj) as Hx.
  unfold cross in Hx. rewrite Hjob in Hx. by destruct (proj1 Hx p).
Qed.

End Stopped.

(** ** Properties *)

(** C19: a stopped server blocks its own process.  Once the server of process [j] has
    stopped, a thread, of any process, that was still collecting proposals never finishes,
    whatever the network does; so if it is a thread of [j], the destructor of the thread
    group of [j] never returns and [j] does not exit. *)
Theorem stopped_server_blocks c s s' j nd t th seqs :
  config_ok c -> reachable c s -> s_nodes s !! j = Some nd -> n_status nd <> Running ->
  s_threads s !! t = Some th -> t_job th = JData seqs -> runs c s s' ->
  (exists th', s_threads s' !! t = Some th' /\ ~ finished c th') /\
  (t_proc th = j -> exec c (LExit j) s' = None).
Proof.
  intros Hc Hr Hj Hst Ht Hjob Hrun.
  destruct (stopped_unfinished c Hc s s' j nd t th seqs Hr Hj Hst Ht Hjob Hrun)
    as (th' & Ht' & Hp & Hnf).
  split; [by exists th'|]. intros <-. cbn [exec].
  destruct (s_nodes s' !! t_proc th) as [nd'|]; [|done]. destruct (n_status nd'); try done.
  rewrite bool_decide_eq_false_2; [done|]. intros Hall.
  by apply Hnf, (proj1 (Forall_lookup _ _) Hall _ _ Ht').
Qed.

(** Process 0 of the two fails after both have asked for proposals. *)
Definition failed_demo : sys := run demo2 (demo2_data ++ [LServerFail 0]).

Lemma stopped_server_blocks_witness :
  n_status (node_at failed_demo 0) = Joining /\ t_proc (thread_at failed_demo 0) = 0%nat /\
  exec demo2 (LExit 0) (next demo2 (LFinish 0 0) failed_demo) = None.
Proof.
  split; [vm_compute; reflexivity|]. split; [vm_compute; reflexivity|].
  assert (exists seqs, t_job (thread_at failed_demo 0) = JData seqs) as [seqs Hj]
    by (eexists; vm_compute; reflexivity).
  refine (proj2 (stopped_server_blocks demo2 failed_demo (next demo2 (LFinish 0 0) failed_demo)
    0 (node_at failed_demo 0) 0 (thread_at failed_demo 0) seqs demo2_ok _ _ _ _ Hj _) _).
  - apply run_reachable. vm_compute. reflexivity.
  - vm_compute. reflexivity.
  - vm_compute. discriminate.
  - vm_compute. reflexivity.
  - eapply runs_step; [|apply runs_refl]. apply next_exec. vm_compute. reflexivity.
  - vm_compute. reflexivity.
Defined.

(** C20: orderly exits lose nothing.  When a process exits because its threads have been joined,
    each of its messages has been finalised, with one number, at every process. *)
Theorem orderly_exit c s s' j t th :
  config_ok c -> reachable c s -> exec c (LExit j) s = Some s' ->
  s_threads s !! t = Some th -> t_proc th = j ->
  exists p, forall q nd, s_nodes s !! q = Some nd -> n_done nd (t_key th) p.
Proof.
  intros Hc Hr He Ht Hp. apply exec_step in He.
  assert (finished c th) as Hf.
  { inversion He as [| | | | | | | | |j' nd Hj Hst Hall| | | | | |]; subst.
    by apply (proj1 (Forall_lookup _ _) Hall _ _ Ht). }
  pose proof (reachable_Inv c Hc s Hr) as HI.
  destruct (s_nodes s !! 0%nat) as [n0|] eqn:H0.
  - destruct (finished_done c Hc s t th 0 n0 Hr Ht Hf H0) as [p Hd]. exists p. intros q nd Hq.
    destruct (finished_done c Hc s t th q nd Hr Ht Hf Hq) as [p' Hd'].
    by rewrite (done_agree c HI 0 q n0 nd (t_key th) p p').
  - exists (mkPMS 0 0). intros q nd Hq%lookup_lt_Some. apply lookup_ge_None in H0. lia.
Qed.

Lemma orderly_exit_witness :
  let s := next demo2 (LServerFail 0) demo2_end in
  exists p, forall q nd, s_nodes s !! q = Some nd -> n_done nd (t_key (thread_at s 0)) p.
Proof.
  intros s.
  refine (orderly_exit demo2 s (next demo2 (LExit 0) s) 0 0 (thread_at s 0) demo2_ok _ _ _ _).
  - eapply reach_step; [exact demo2_end_reachable|]. apply next_exec. vm_compute. reflexivity.
  - apply next_exec. vm_compute. reflexivity.
  - vm_compute. reflexivity.
  - vm_compute. reflexivity.
Defined.
