(* ===== verification/Blocking.v ===== *)
(** * Senders that stop

    What becomes of the receivers when a process ends while one of its threads still
    collects proposals: nobody finalises its message, so it stays at its place in the
    hold-back queue of every process that has seen it, and nothing with a larger
    number leaves that queue. *)

From Stdlib Require Import ZArith Lia.
From stdpp Require Import functions base list gmap.
From S2P Require Import Prelude Exceptions Wire Net Udp StdSet HoldBack Process Sender System.
From S2P Require Import RunFacts Projection NodeInv SystemInv SystemSteps TotalOrder Progress.
From S2P Require Import Liveness Runs Failures.

Open Scope Z_scope.

(** Process [i] has ended. *)
Definition is_down (s : sys) (i : nat) : Prop :=
  exists nd, s_nodes s !! i = Some nd /\ n_status nd = Down.

Lemma is_down_not_up s i : is_down s i -> is_up s i = false.
Proof. intros (nd & Hi & Hd). unfold is_up. by rewrite Hi, Hd. Qed.

Lemma is_down_step c l s s' i : exec c l s = Some s' -> is_down s i -> is_down s' i.
Proof.
  intros He (nd & Hi & Hd). unfold is_down.
  apply exec_nodes in He as [->|(j & x & x' & Hj & Hm & ->)]; [by exists nd|].
  destruct (decide (i = j)) as [->|Hne]; [|rewrite list_lookup_insert_ne by done; by exists nd].
  rewrite list_lookup_insert_eq by (by eapply lookup_lt_Some). simplify_eq.
  destruct Hm as [|Hr|? ? ? ? ? ? Hr]; [by eexists|congruence..].
Qed.

(** A thread of a process that has ended does not move. *)
Lemma answer_other c s t u th r x :
  s_threads s !! t = Some x -> t <> u -> s_threads (thread_answer c s u th r) !! t = Some x.
Proof.
  intros Ht Hne. unfold thread_answer. destruct (thread_recv _ _ _) as [th'|]; [|done].
  destruct (t_conn th'); simpl; by rewrite list_lookup_insert_ne.
Qed.

Lemma down_thread_step c l s s' t th :
  exec c l s = Some s' -> is_down s (t_proc th) -> s_threads s !! t = Some th ->
  s_threads s' !! t = Some th.
Proof.
  intros He%exec_step Hd%is_down_not_up Ht.
  assert (Hup : forall u x, s_threads s !! u = Some x -> is_up s (t_proc x) = true -> u <> t).
  { intros u x Hu Hx ->. congruence. }
  destruct He; simpl; try done;
    try (rewrite list_lookup_insert_ne; [done|by eapply Hup]);
    try (by apply answer_other; [|apply not_eq_sym; eapply Hup]).
  - apply answer_other; [by destruct keep|]. apply not_eq_sym. by eapply Hup.
  - unfold serve. by destruct (OnReceive _ _ _ _ _ _) as [[? ?] ?].
  - unfold serve_foreign. by destruct (OnReceive _ _ _ _ _ _) as [[? ?] ?].
Qed.

(** ** Numbers at a process *)

Section Numbers.
Context (c : config) (Hc : config_ok c).
Notation count := (cf_count c).

(** What the server does with the number of a message: it proposes a number above all it has
    seen, or finalises a pending message with a number that is not below the proposal. *)
Definition numbers_grow (nd nd' : node) : Prop :=
  (forall k x, n_pending nd' k x -> n_pending nd k x \/ seq_counter_ (n_proc nd) < pms_seq x) /\
  (forall k x, n_done nd' k x ->
     n_done nd k x \/ exists old, n_pending nd k old /\ pms_seq old <= pms_seq x).

Lemma numbers_grow_same nd nd' :
  hold_back_queue_ (n_proc nd') = hold_back_queue_ (n_proc nd) -> n_log nd' = n_log nd ->
  numbers_grow nd nd'.
Proof.
  intros Hq Hl. unfold numbers_grow, n_pending, n_done, in_log, n_queue.
  rewrite Hq, Hl. split; intros k x H; by left.
Qed.

Lemma serve_data_numbers s j nd t th u w p acts ex b :
  Inv c s -> s_nodes s !! j = Some nd -> s_threads s !! t = Some th ->
  data_packet c th ∈ s_links s (t_proc th, j) ->
  OnReceive (cf_endian c j) u w (n_proc nd) (recv_buf (data_packet c th))
    (recv_len (data_packet c th)) = (p, acts, ex) ->
  numbers_grow nd (mkNode p (n_log nd ++ deliveries acts) b).
Proof.
  intros HI Hj Ht Hin Ho. pose proof (inv_node _ _ HI _ _ Hj) as Hok.
  pose proof (inv_thread _ _ HI _ _ Ht) as Hth. pose proof (th_proc _ _ Hth).
  assert (dm_sender (t_msg th) < process_count (n_proc nd)) as Hs.
  { unfold process_count. rewrite (ok_count _ _ _ Hok), (th_sender _ _ Hth). lia. }
  unfold data_packet in Ho.
  destruct (pending_seqs_ (hold_back_queue_ (n_proc nd)) !! data_key (t_msg th)) as [x|] eqn:E.
  { rewrite (OnReceive_data_known _ _ _ _ _ _ x) in Ho by (done || apply Hth).
    injection Ho as <- <- <-. apply numbers_grow_same; [done|]. cbn [n_log].
    by rewrite deliveries_data, app_nil_r. }
  assert (t_key th ∉ node_keys nd) as Hk.
  { intros Hk. destruct (key_status Hok _ Hk) as (x & [Hx|Hx]).
    - unfold n_pending, n_queue, t_key in Hx. congruence.
    - by apply (proj1 (inv_link _ _ HI _ _ _ _ Ht Hj) x Hx). }
  pose proof (next_counter c Hc s t th j nd HI Ht Hj Hk) as Hcnt.
  pose proof (ok_counter _ _ _ Hok) as Hpos.
  destruct (OnReceive_data_new (cf_endian c (t_proc th)) (cf_endian c j) u w (n_proc nd)
    (t_msg th)) as (Heq & Hperm & Hwf'); [apply Hth|done|apply Hok|done|].
  rewrite Heq in Ho. injection Ho as <- <- <-. rewrite deliveries_data, app_nil_r.
  rewrite u32_small in * by (unfold is_u32; lia). rewrite (ok_id _ _ _ Hok) in Hperm.
  set (nd' := node_data nd (t_msg th) (seq_counter_ (n_proc nd) + 1)).
  assert (Hp' : n_ord nd' ≡ₚ mkPM (data_key (t_msg th))
    (mkPMS (seq_counter_ (n_proc nd) + 1) (Z.of_nat j)) (dm_data (t_msg th)) false :: n_ord nd).
  { unfold nd', node_data, n_ord at 1, n_queue. simpl. rewrite (ok_id _ _ _ Hok). exact Hperm. }
  split; intros k x Hx.
  - apply (node_data_pending Hok (t_msg th) Hk Hp' Hwf' k x) in Hx as [?|[_ ->]]; [by left|].
    right. simpl. lia.
  - left. by apply (node_data_done (t_msg th) Hp' k x).
Qed.

Lemma serve_seq_numbers s j nd t th sm u w p acts ex b :
  Inv c s -> s_nodes s !! j = Some nd -> s_threads s !! t = Some th -> t_job th = JSeq sm ->
  OnReceive (cf_endian c j) u w (n_proc nd) (recv_buf (seq_packet c th sm))
    (recv_len (seq_packet c th sm)) = (p, acts, ex) ->
  numbers_grow nd (mkNode p (n_log nd ++ deliveries acts) b).
Proof.
  intros HI Hj Ht Hjb Ho. pose proof (inv_node _ _ HI _ _ Hj) as Hok.
  destruct (thread_seq_ok _ HI Hc _ _ _ Ht Hjb) as (Hu & Hs & Hk).
  pose proof (inv_thread _ _ HI _ _ Ht) as Hth. pose proof (th_proc _ _ Hth).
  pose proof (th_job _ _ Hth) as Hjob. rewrite Hjb in Hjob. destruct Hjob as (_ & _ & Hpr).
  assert (sm_sender sm < process_count (n_proc nd) /\
          sm_final_seq_proposer sm < process_count (n_proc nd)) as [Hv1 Hv2].
  { unfold process_count. rewrite (ok_count _ _ _ Hok). lia. }
  destruct (ForwardSeqNum_other (n_proc nd) (sm_final_seq sm)) as (HQ & _ & _).
  unfold seq_packet in Ho. destruct w as [errno|].
  { rewrite OnReceive_seq_fail in Ho by done. injection Ho as <- <- <-.
    apply numbers_grow_same; [exact HQ|]. simpl. by rewrite app_nil_r. }
  rewrite OnReceive_seq in Ho by done. injection Ho as <- <- <-.
  destruct (seq_actions sm (SeqAckMsgToBuf (cf_endian c j)
    (mkSeqAckMessage u (sm_sender sm) (sm_msg_id sm))) (hold_back_queue_ (n_proc nd))
    (stamp_seq sm) (SetDeliverable u (hold_back_queue_ (n_proc nd)) sm).2) as [-> _].
  pose proof (inv_cross _ _ HI _ _ _ _ Ht Hj) as Hx. unfold cross in Hx. rewrite Hjb in Hx.
  rewrite <- Hk in Hx. destruct Hx as [Hd|(_ & old & Hold & Hle)].
  - assert (pending_seqs_ (hold_back_queue_ (n_proc nd)) !!
      mkPMK (sm_sender sm) (sm_msg_id sm) = None) as E.
    { destruct (pending_seqs_ _ !! _) eqn:E; [|done].
      by destruct (pending_not_done Hok _ _ (seq_info sm) E). }
    rewrite (SetDeliverable_unknown u _ sm E). apply numbers_grow_same; [done|].
    simpl. by rewrite app_nil_r.
  - split; intros k x Hx.
    + left. by apply (node_seq_pending u sm old Hold k x) in Hx as [_ ?].
    + apply (node_seq_done Hok u sm old Hold Hle k x) in Hx as [?|[-> ->]]; [by left|].
      right. exists old. by split.
Qed.

Lemma exec_numbers s l s' j nd :
  Inv c s -> exec c l s = Some s' -> s_nodes s !! j = Some nd ->
  exists nd', s_nodes s' !! j = Some nd' /\ numbers_grow nd nd'.
Proof.
  intros HI He Hj. apply exec_nodes in He as [->|(i & x & x' & Hi & Hm & ->)].
  { exists nd. split; [done|]. by apply numbers_grow_same. }
  destruct (decide (j = i)) as [->|Hne].
  2: { rewrite list_lookup_insert_ne by done. exists nd. split; [done|].
       by apply numbers_grow_same. }
  rewrite list_lookup_insert_eq by (by eapply lookup_lt_Some). assert (x = nd) as -> by congruence.
  exists x'. split; [done|].
  destruct Hm as [|_|u w pkt p acts ex _ (k & rest & Hl) Ho]; [by apply numbers_grow_same..|].
  assert (pkt ∈ s_links s (k, i)) as Hin by (rewrite Hl; by left).
  destruct (inv_packet _ _ HI _ _ _ Hin) as (t & th & Ht & <- & [->|(sm & Hjb & ->)]).
  - by eapply serve_data_numbers.
  - by eapply serve_seq_numbers.
Qed.

End Numbers.

(** ** A message that nobody finalises *)

Section Blocked.
Context (c : config) (Hc : config_ok c).
Context (t : nat) (th : thread) (q : nat) (p : PendingMessageSeq).
Context (known : list PendingMessageKey).
Hypothesis Hdata : is_data th.

(** The process of thread [th] has ended, its message waits at [q] with the proposal [p], and
    messages not [known] to [q] have larger numbers there. *)
Definition blocked (s : sys) : Prop :=
  is_down s (t_proc th) /\ s_threads s !! t = Some th /\
  exists nd, s_nodes s !! q = Some nd /\ n_pending nd (t_key th) p /\
    forall k x, k ∉ known -> n_pending nd k x \/ n_done nd k x -> pms_seq p < pms_seq x.

Lemma blocked_step s l s' : Inv c s -> exec c l s = Some s' -> blocked s -> blocked s'.
Proof.
  intros HI He (Hd & Ht & nd & Hq & Hp & Hnew). split_and!.
  - by eapply is_down_step.
  - by eapply down_thread_step.
  - destruct (exec_pending c Hc s l s' q nd t th p HI He Hq Ht Hdata Hp) as (nd' & Hq' & Hp').
    destruct (exec_numbers c Hc s l s' q nd HI He Hq) as (nd2 & Hq2 & Hpend & Hdone).
    simplify_eq. exists nd'. split_and!; [done..|]. intros k x Hk Hx.
    destruct (pending_facts (inv_node _ _ HI _ _ Hq) _ _ Hp) as (_ & Hc' & _).
    destruct Hx as [Hx|Hx].
    + destruct (Hpend k x Hx) as [?|?]; [by apply (Hnew k); auto|lia].
    + destruct (Hdone k x Hx) as [?|(old & Hold & Hle)]; [by apply (Hnew k); auto|].
      specialize (Hnew k old Hk (or_introl Hold)). lia.
Qed.

Lemma blocked_runs s s' : reachable c s -> runs c s s' -> blocked s -> blocked s'.
Proof.
  intros Hr [ls Hls]. revert s Hr Hls. induction ls as [|l ls IH]; intros s Hr Hls Hb; simpl in Hls.
  { by simplify_eq. }
  destruct (exec c l s) as [s1|] eqn:E; [|done]. apply (IH s1); [by eapply reach_step|done|].
  eapply blocked_step; [by apply reachable_Inv|done|done].
Qed.

End Blocked.

(** C21: a crashed sender blocks the others.  When a process has ended while one of its threads
    still collected proposals, that message stays pending for ever at every process that has
    seen it, and such a process delivers from then on only messages it has seen already, with
    smaller final numbers: nothing multicast later is delivered there any more. *)
Theorem crashed_sender_blocks c s s' t th seqs q nd p :
  config_ok c -> reachable c s -> is_down s (t_proc th) ->
  s_threads s !! t = Some th -> t_job th = JData seqs ->
  s_nodes s !! q = Some nd -> n_pending nd (t_key th) p -> runs c s s' ->
  exists nd', s_nodes s' !! q = Some nd' /\ n_pending nd' (t_key th) p /\
    forall m, m ∈ n_log nd' -> sm_final_seq m < pms_seq p /\ seq_key m ∈ node_keys nd.
Proof.
  intros Hc Hr Hd Ht Hj Hq Hp Hrun.
  assert (is_data th) as Hdata by (unfold is_data; by rewrite Hj).
  assert (blocked t th q p (node_keys nd) s) as Hb.
  { split_and!; [done..|]. exists nd. split_and!; [done..|]. intros k x Hk Hx. destruct Hk.
    destruct Hx as [Hx|Hx]; [|by eapply done_key].
    unfold node_keys. rewrite elem_of_app. left.
    by apply (pending_key (inv_node _ _ (reachable_Inv c Hc s Hr) _ _ Hq) k x). }
  destruct (blocked_runs c Hc t th q p _ Hdata s s' Hr Hrun Hb) as (_ & _ & nd' & Hq' & Hp' & Hnew).
  exists nd'. split_and!; [done..|]. intros m Hm.
  pose proof (inv_node _ _ (reachable_Inv c Hc s' (runs_reachable c s s' Hr Hrun)) _ _ Hq') as Hok.
  destruct (pending_facts Hok _ _ Hp') as (_ & _ & Hlt). specialize (Hlt m Hm). split; [done|].
  destruct (decide (seq_key m ∈ node_keys nd)) as [?|Hn]; [done|].
  specialize (Hnew _ _ Hn (or_intror (log_done _ _ Hm))). unfold seq_info in Hnew. simpl in Hnew. lia.
Qed.

(** Process 0 of the two crashes after it has asked for proposals; then process 1 completes
    its own exchange with itself. *)
Definition crashed_demo : sys := run demo2 (demo2_data ++ [LCrash 0]).

Lemma crashed_sender_blocks_witness :
  let s' := default crashed_demo
    (exec_all demo2 ([LFinish 1 0; LAcquire 1; LSend 1 None]) crashed_demo) in
  n_status (node_at crashed_demo 0) = Down /\
  exists nd', s_nodes s' !! 1%nat = Some nd' /\ n_pending nd' (mkPMK 0 17) (mkPMS 2 1).
Proof.
  intros s'. split; [vm_compute; reflexivity|].
  assert (exists seqs, t_job (thread_at crashed_demo 0) = JData seqs) as [seqs Hj]
    by (eexists; vm_compute; reflexivity).
  destruct (crashed_sender_blocks demo2 crashed_demo s' 0 (thread_at crashed_demo 0) seqs 1
    (node_at crashed_demo 1) (mkPMS 2 1) demo2_ok) as (nd' & Hq & Hp & _).
  - apply run_reachable. vm_compute. reflexivity.
  - exists (node_at crashed_demo 0). split; vm_compute; reflexivity.
  - vm_compute. reflexivity.
  - exact Hj.
  - vm_compute. reflexivity.
  - vm_compute. reflexivity.
  - exists [LFinish 1 0; LAcquire 1; LSend 1 None]. vm_compute. reflexivity.
  - exists nd'. split; [exact Hq|exact Hp].
Defined.
