(* ===== verification/ProcessSpec.v ===== *)
(** * What a process promises

    An abstract process: an abstract queue and a counter, that answers data messages with
    proposals and releases messages when sequence messages finalise them.  The handlers of
    [Process] implement it.  They use the hold-back queue only through the interface
    [HoldBackLaws], which the queue of [HoldBack] satisfies. *)

From Stdlib Require Import ZArith Lia String.
From stdpp Require Import base list gmap.
From S2P Require Import Prelude Exceptions ThreadGroup Wire StdSet HoldBack QueueSpec Net Udp Process Sender.
From S2P Require Import Server System NodeInv.

Open Scope Z_scope.

(** ** The interface of the queue *)

Definition ack_key (a : AckMessage) : PendingMessageKey := mkPMK (am_sender a) (am_msg_id a).
Definition ack_info (a : AckMessage) : PendingMessageSeq :=
  mkPMS (am_proposed_seq a) (am_proposer a).

Definition empty_aq : AbsQueue := mkAQ ∅ ∅.

(** What the operations of the queue do to the abstract queue it represents. *)
Class HoldBackLaws (rep : HoldBackQueue -> AbsQueue -> Prop) : Prop := {
  hb_empty : rep empty_queue empty_aq;
  hb_lookup u q A dm :
    rep q A -> Lookup u q dm = ack_for u dm <$> aq_pending A !! data_key dm;
  hb_insert q A a d :
    rep q A -> aq_pending A !! ack_key a = None -> aq_final A !! ack_key a = None ->
    (InsertUndeliverable q a d).2 = None /\
    rep (InsertUndeliverable q a d).1 (aq_insert A (ack_key a) (ack_info a));
  hb_deliver u q A m :
    rep q A ->
    let '(q', out) := SetDeliverable u q m in
    let '(A', out') := aq_set_deliverable A (seq_key m) (seq_info m) in
    rep q' A' /\ out = deliver_entry u <$> out'
}.

(** The queue of the source satisfies it. *)
Definition wf_represents (q : HoldBackQueue) (A : AbsQueue) : Prop := hbq_wf q /\ represents q A.

#[export] Instance HoldBackQueue_laws : HoldBackLaws wf_represents.
Proof.
  split.
  - split; [apply empty_queue_wf|]. split_and!; [done|constructor|].
    intros k s. simpl. rewrite lookup_empty. split; [done|]. by intros [d ?%elem_of_nil].
  - intros u q A dm [_ (Hp & _)]. unfold Lookup. rewrite Hp. by destruct (aq_pending A !! _).
  - intros q A a d [Hwf Hr] Hp Hf.
    destruct (insert_undeliverable_simulates q A a d Hwf Hr Hp Hf) as [H1 H2].
    split; [done|]. split; [by apply InsertUndeliverable_wf|done].
  - intros u q A m [Hwf Hr]. pose proof (set_deliverable_simulates u q A m Hwf Hr) as H.
    pose proof (SetDeliverable_wf u q m Hwf) as Hw. unfold seq_key, seq_info.
    destruct (SetDeliverable u q m) as [q' out]. simpl in H, Hw.
    destruct (aq_set_deliverable A _ _) as [A' out']. destruct H. by split; [split|].
Qed.

(** ** Abstract processes *)

Record AbsProcess := mkAbs {
  ab_queue : AbsQueue;
  ab_counter : Z
}.

(** The messages a server handles, the datagrams that carry them, and the answers. *)
Inductive message :=
| MData (m : DataMessage)
| MSeq (m : SeqMessage).

Definition packet_of (e : endian) (msg : message) : list Z :=
  match msg with MData m => DataMsgToBuf e m | MSeq m => SeqMsgToBuf e m end.

Inductive ab_answer :=
| Proposal (m : DataMessage) (s : PendingMessageSeq)
| Confirmation (m : SeqMessage).

Definition answer_packet (e : endian) (u : Z) (a : ab_answer) : list Z :=
  match a with
  | Proposal m s => AckMsgToBuf e (ack_for u m s)
  | Confirmation m => SeqAckMsgToBuf e (mkSeqAckMessage u (sm_sender m) (sm_msg_id m))
  end.

(** Process [id] receives a message: its new state, its answer, and what it releases. *)
Definition ab_receive (id : Z) (A : AbsProcess) (msg : message)
  : AbsProcess * ab_answer * list entry :=
  match msg with
  | MData m =>
      match aq_pending (ab_queue A) !! data_key m with
      | Some s => (A, Proposal m s, [])
      | None =>
          let s := mkPMS (u32 (ab_counter A + 1)) id in
          (mkAbs (aq_insert (ab_queue A) (data_key m) s) (pms_seq s), Proposal m s, [])
      end
  | MSeq m =>
      let '(Q, out) := aq_set_deliverable (ab_queue A) (seq_key m) (seq_info m) in
      (mkAbs Q (Z.max (ab_counter A) (sm_final_seq m)), Confirmation m, out)
  end.

(** What a delivery shows of a released message. *)
Definition entry_shown (x : entry) : Z * Z * Z * Z := shown (deliver_entry 0 x).

Lemma entry_shown_deliver u (l : list entry) : shown <$> (deliver_entry u <$> l) = entry_shown <$> l.
Proof. by rewrite <- list_fmap_compose. Qed.

(** The messages of the algorithm: of known processes, and no data message of a message
    that is already final. *)
Definition acceptable (count : Z) (A : AbsProcess) (msg : message) : Prop :=
  match msg with
  | MData m =>
      DataMessage_u32 m /\ dm_sender m < count /\ aq_final (ab_queue A) !! data_key m = None
  | MSeq m => SeqMessage_u32 m /\ sm_sender m < count /\ sm_final_seq_proposer m < count
  end.

(** A sequence of messages. *)
Fixpoint ab_run (id : Z) (A : AbsProcess) (msgs : list message) : AbsProcess * list entry :=
  match msgs with
  | [] => (A, [])
  | msg :: msgs' =>
      let '(A1, _, out) := ab_receive id A msg in
      let '(A2, out') := ab_run id A1 msgs' in (A2, out ++ out')
  end.

Fixpoint acceptable_run (id count : Z) (A : AbsProcess) (msgs : list message) : Prop :=
  match msgs with
  | [] => True
  | msg :: msgs' =>
      acceptable count A msg /\ acceptable_run id count (ab_receive id A msg).1.1 msgs'
  end.

(** ** The refinement *)

Section Refinement.
Context {rep : HoldBackQueue -> AbsQueue -> Prop} `{!HoldBackLaws rep}.

Definition implements (p : Process) (A : AbsProcess) : Prop :=
  rep (hold_back_queue_ p) (ab_queue A) /\ seq_counter_ p = ab_counter A.

Lemma data_refines e e' u p A m :
  implements p A -> acceptable (process_count p) A (MData m) ->
  let pkt := DataMsgToBuf e m in
  let '(p', acts, ex) := OnReceive e' u None p (recv_buf pkt) (recv_len pkt) in
  let '(A', a, _) := ab_receive (id_ p) A (MData m) in
  implements p' A' /\ ex = None /\ acts = [data_log m; AReply (answer_packet e' u a)] /\
  id_ p' = id_ p /\ processes_ p' = processes_ p.
Proof.
  intros [Hq Hc] (Hm & Hs & Hf) pkt.
  destruct (DataMsg_dispatch e e' u None p m Hm Hs) as (Hon & Hd & Hv). fold pkt in Hon, Hd.
  rewrite Hon. unfold HandleDataMsg. rewrite Hd, Hv. cbn [negb].
  rewrite (hb_lookup _ _ _ _ Hq). change (data_key (stamp_data m)) with (data_key m).
  unfold ab_receive. destruct (aq_pending (ab_queue A) !! data_key m) as [s|] eqn:Hp.
  { by simpl. }
  simpl. rewrite <- Hc.
  destruct (hb_insert _ _ (ack_for u m (mkPMS (u32 (seq_counter_ p + 1)) (id_ p))) (dm_data m)
    Hq Hp Hf) as [H1 H2].
  change (mkAckMessage u _ _ _ _) with (ack_for u m (mkPMS (u32 (seq_counter_ p + 1)) (id_ p))).
  destruct (InsertUndeliverable _ _ _) as [q' ex]. simpl in H1, H2. subst ex. by simpl.
Qed.

Lemma seq_refines e e' u p A m :
  implements p A -> acceptable (process_count p) A (MSeq m) ->
  let pkt := SeqMsgToBuf e m in
  let '(p', acts, ex) := OnReceive e' u None p (recv_buf pkt) (recv_len pkt) in
  let '(A', a, out) := ab_receive (id_ p) A (MSeq m) in
  implements p' A' /\ ex = None /\ replies acts = [answer_packet e' u a] /\
  deliveries acts = deliver_entry u <$> out /\
  id_ p' = id_ p /\ processes_ p' = processes_ p.
Proof.
  intros [Hq Hc] (Hm & Hs & Hpr) pkt.
  pose proof (OnReceive_seq e e' u p m Hm Hs Hpr) as Hon. simpl in Hon. fold pkt in Hon.
  rewrite Hon. pose proof (hb_deliver u _ _ m Hq) as Hd. unfold ab_receive.
  destruct (SetDeliverable u (hold_back_queue_ p) m) as [q' out].
  destruct (aq_set_deliverable _ _ _) as [A' out']. destruct Hd as [Hr ->].
  destruct (ForwardSeqNum_other p (sm_final_seq m)) as (_ & Hps & Hid).
  assert (Hlog : replies (SetDeliverable_log (hold_back_queue_ p) (stamp_seq m)) = [] /\
    deliveries (SetDeliverable_log (hold_back_queue_ p) (stamp_seq m)) = []).
  { unfold SetDeliverable_log. by destruct (pending_seqs_ _ !! _). }
  destruct Hlog as [Hl1 Hl2].
  assert (Hdl : forall l, replies (ADeliver <$> l) = [] /\ deliveries (ADeliver <$> l) = l).
  { induction l as [|x l [IH1 IH2]]; [done|]. by split; simpl; [|f_equal]. }
  destruct (Hdl (deliver_entry u <$> out')) as [Hd1 Hd2].
  unfold replies, deliveries in *. simpl. rewrite !omap_app, Hl1, Hl2, Hd1, Hd2. simpl.
  split_and!; try done. split; [done|]. simpl. by rewrite ForwardSeqNum_counter, Hc.
Qed.

(** One message. *)
Lemma receive_refines e e' u p A msg :
  implements p A -> acceptable (process_count p) A msg ->
  let pkt := packet_of e msg in
  let '(p', acts, ex) := OnReceive e' u None p (recv_buf pkt) (recv_len pkt) in
  let '(A', a, out) := ab_receive (id_ p) A msg in
  implements p' A' /\ ex = None /\ replies acts = [answer_packet e' u a] /\
  deliveries acts = deliver_entry u <$> out /\
  id_ p' = id_ p /\ processes_ p' = processes_ p.
Proof.
  intros Hi Ha. destruct msg as [m|m]; [|by apply seq_refines].
  pose proof (data_refines e e' u p A m Hi Ha) as H. simpl in H |- *.
  destruct (OnReceive _ _ _ _ _ _) as [[p' acts] ex].
  destruct (aq_pending (ab_queue A) !! data_key m); destruct H as (H1 & H2 & -> & H4 & H5);
    by split_and!.
Qed.

(** A run of the server: [msgs] are the messages with the byte orders of their senders. *)
Lemma Listen_refines e u (sock : sock_env) st A (msgs : list (endian * message)) :
  0 <= se_socket sock -> se_reuseaddr sock = 0 ->
  implements (ss_proc st) A ->
  acceptable_run (id_ (ss_proc st)) (process_count (ss_proc st)) A msgs.*2 ->
  let r := Listen (server_callback e u (fun _ => None)) None st
             ((fun em => (RecvPacket (packet_of em.1 em.2), sock)) <$> msgs) in
  let '(A', out) := ab_run (id_ (ss_proc st)) A msgs.*2 in
  r.2 = Listening /\ implements (ss_proc r.1) A' /\
  shown <$> deliveries (ss_actions r.1) =
    (shown <$> deliveries (ss_actions st)) ++ (entry_shown <$> out).
Proof.
  intros Hs1 Hs2. revert st A. induction msgs as [|[e1 msg] msgs IH]; intros st A Hi Ha.
  { simpl. by rewrite app_nil_r. }
  rewrite !fmap_cons in *. cbn [acceptable_run ab_run snd fst] in *. destruct Ha as [Ha Hrun].
  cbn [Listen]. rewrite clean_socket by done.
  pose proof (receive_refines e1 e (u (ss_handled st)) (ss_proc st) A msg Hi Ha) as Hr.
  cbv zeta in Hr.
  destruct (OnReceive e (u (ss_handled st)) None (ss_proc st) (recv_buf (packet_of e1 msg))
    (recv_len (packet_of e1 msg))) as [[p' acts] ex] eqn:Eo.
  destruct (ab_receive (id_ (ss_proc st)) A msg) as [[A1 a] out1] eqn:E1.
  destruct Hr as (Hi' & -> & _ & Hd & Hid & Hps).
  specialize (IH (mkServerState p' (ss_actions st ++ acts) (S (ss_handled st))) A1 Hi').
  cbn [ss_proc ss_actions] in IH. unfold process_count in IH. rewrite Hid, Hps in IH.
  specialize (IH Hrun). unfold server_callback in *. rewrite Eo. destruct (ab_run (id_ (ss_proc st)) A1 _) as [A2 out2].
  destruct IH as (IH1 & IH2 & IH3). split_and!; [done|done|]. rewrite IH3.
  unfold deliveries in *. rewrite omap_app, Hd, !fmap_app, <- app_assoc, entry_shown_deliver.
  done.
Qed.

End Refinement.

(** C12: a process implements the abstract process.  On any stream of messages of the
    algorithm, in any mix of byte orders, the server of [TotalOrder] goes through the states of
    the abstract process and delivers exactly what that releases, in its order. *)
Theorem server_refines e u start send_count draws processes id delays sock
    (msgs : list (endian * message)) :
  (forall k, start k = None) -> 0 <= se_socket sock -> se_reuseaddr sock = 0 ->
  acceptable_run id (Z.of_nat (length processes)) (mkAbs empty_aq 0) msgs.*2 ->
  let '(st, outcome) :=
    (TotalOrder e u (fun _ => None) start send_count draws (make_Process processes id delays)
       ((fun em => (RecvPacket (packet_of em.1 em.2), sock)) <$> msgs)).2 in
  let '(A, out) := ab_run id (mkAbs empty_aq 0) msgs.*2 in
  outcome = Listening /\ seq_counter_ (ss_proc st) = ab_counter A /\
  wf_represents (hold_back_queue_ (ss_proc st)) (ab_queue A) /\
  shown <$> deliveries (ss_actions st) = entry_shown <$> out.
Proof.
  intros Hst H1 H2 Ha. rewrite TotalOrder_server by done.
  assert (Hi : implements (rep := wf_represents) (make_Process processes id delays)
    (mkAbs empty_aq 0)) by (split; [apply hb_empty|done]).
  pose proof (Listen_refines e u sock (mkServerState (make_Process processes id delays) [] 0)
    (mkAbs empty_aq 0) msgs H1 H2 Hi Ha) as H. cbn [ss_proc ss_actions] in H.
  change (id_ (make_Process processes id delays)) with id in H.
  destruct (Listen _ _ _ _) as [st o]. destruct (ab_run id _ _) as [A out]. simpl in H.
  destruct H as (Ho & [Hq Hc] & Hd). by split_and!.
Qed.

(** Two messages, finalised in the order opposite to that of their arrival. *)
Definition sample_messages : list (endian * message) :=
  [(Little, MData (mkDataMessage 0 0 7 70)); (Big, MData (mkDataMessage 0 1 9 90));
   (Big, MSeq (mkSeqMessage 0 1 9 2 1)); (Little, MSeq (mkSeqMessage 0 0 7 5 0))].

Lemma server_refines_witness :
  let addresses := [mkAddress "a"%string 1; mkAddress "b"%string 2] in
  let '(st, outcome) :=
    (TotalOrder Little (fun _ => 3) (fun _ => None) (fun _ => None) 0 (fun _ => (0, 0, 0))
       (make_Process addresses 0 false)
       ((fun em => (RecvPacket (packet_of em.1 em.2), mkSockEnv 3 0 0 0 0))
          <$> sample_messages)).2 in
  outcome = Listening /\
  shown <$> deliveries (ss_actions st) = [(1, 9, 2, 1); (0, 7, 5, 0)].
Proof.
  intros addresses.
  pose proof (server_refines Little (fun _ => 3) (fun _ => None) 0 (fun _ => (0, 0, 0)) addresses
    0 false (mkSockEnv 3 0 0 0 0) sample_messages (fun _ => eq_refl)) as H.
  destruct ((TotalOrder _ _ _ _ _ _ _ _).2) as [st o].
  assert (Hr : (ab_run 0 (mkAbs empty_aq 0) sample_messages.*2).2 =
    [(mkPMK 1 9, mkPMS 2 1); (mkPMK 0 7, mkPMS 5 0)]) by (vm_compute; reflexivity).
  destruct (ab_run 0 (mkAbs empty_aq 0) sample_messages.*2) as [A out]. simpl in Hr. subst out.
  destruct H as (Ho & _ & _ & Hd).
  - simpl. lia.
  - done.
  - vm_compute. repeat split; done.
  - split; [done|]. rewrite Hd. reflexivity.
Defined.
