(* ===== verification/SystemProps.v ===== *)
(** * Properties of the system

    What a user of the program relies on, for every run of all processes over a network
    that loses and duplicates datagrams: total order, refinement of the abstract
    broadcast service, integrity, agreement when the senders have finished, and the
    invariants of counters and mutexes; and what goes wrong when the network also
    reorders the datagrams of a link. *)

From Stdlib Require Import ZArith Lia Sorted String.
From stdpp Require Import functions relations base list gmap.
From S2P Require Import Prelude Exceptions Wire Net Udp StdSet HoldBack Process Sender System.
From S2P Require Import Multicast Server History Projection.
From S2P Require Import RunFacts NodeInv SystemInv SystemSteps TotalOrder TobSpec Progress Liveness Runs.

Open Scope Z_scope.

(** ** Order and agreement *)

(** C1: total order.  At every moment of every run, what any two processes have
    delivered is the same sequence up to how far each of them has got: one log is a
    prefix of the other. *)
Theorem total_order c s p q :
  config_ok c -> reachable c s ->
  log_of s p `prefix_of` log_of s q \/ log_of s q `prefix_of` log_of s p.
Proof. intros Hc Hr. by apply (log_of_comparable c), reachable_Inv. Qed.

Lemma total_order_witness :
  log_of demo2_mid 0 = [(0, 17, 2, 1); (1, 23, 2, 0)] /\ log_of demo2_mid 1 = [] /\
  (log_of demo2_mid 0 `prefix_of` log_of demo2_mid 1 \/
   log_of demo2_mid 1 `prefix_of` log_of demo2_mid 0).
Proof.
  split; [vm_compute; reflexivity|]. split; [vm_compute; reflexivity|].
  apply (total_order demo2 demo2_mid 0 1 demo2_ok demo2_mid_reachable).
Defined.

(** C2: refinement.  The system implements the abstract total order broadcast service by
    a forward simulation: the initial states are related, and whatever step the system
    takes from a reachable state, the service can follow with steps of its own
    (ordering a launched message once, delivering the next message to a process) to a
    related state. *)
Theorem tob_refinement c :
  config_ok c ->
  abstracts c (init_sys c) (tob_init c) /\
  forall s l s' a, reachable c s -> exec c l s = Some s' -> abstracts c s a ->
    exists a', rtc (tob_step c) a a' /\ abstracts c s' a'.
Proof. intros Hc. split; [apply abstracts_init|by apply simulate]. Qed.

Lemma tob_refinement_witness :
  config_ok demo2 /\ abstracts demo2 (init_sys demo2) (mkTob [] [0%nat; 0%nat]).
Proof. split; [exact demo2_ok|]. exact (proj1 (tob_refinement demo2 demo2_ok)). Defined.

(** C8: integrity.  A process delivers no message twice, and only messages that some
    process multicast, whatever is retransmitted, duplicated or lost. *)
Theorem delivery_integrity c s q :
  config_ok c -> reachable c s ->
  NoDup (shown_key <$> log_of s q) /\
  forall x, x ∈ log_of s q -> shown_key x ∈ launch_key <$> cf_launches c.
Proof.
  intros Hc Hr. split; [by apply (log_of_nodup c), reachable_Inv|].
  intros x. by apply (log_launched c Hc).
Qed.

Lemma delivery_integrity_witness :
  shown_key <$> log_of demo2_end 1 = [mkPMK 0 17; mkPMK 1 23] /\
  NoDup (shown_key <$> log_of demo2_end 1).
Proof.
  split; [vm_compute; reflexivity|].
  exact (proj1 (delivery_integrity demo2 demo2_end 1 demo2_ok demo2_end_reachable)).
Defined.

(** C3: agreement and validity.  When all multicast threads have finished, every process
    has delivered every multicast message, and all processes have delivered the same
    sequence; nothing is left in their hold-back queues. *)
Theorem finished_agreement c s p q :
  config_ok c -> reachable c s ->
  (forall t th, s_threads s !! t = Some th -> finished c th) ->
  (p < cf_count c)%nat -> (q < cf_count c)%nat ->
  log_of s p = log_of s q /\ shown_key <$> log_of s p ≡ₚ launch_key <$> cf_launches c /\
  forall nd, s_nodes s !! p = Some nd -> hold_back_queue_ (n_proc nd) = empty_queue.
Proof.
  intros Hc Hr Hf Hp Hq. pose proof (reachable_Inv c Hc _ Hr) as HI. split_and!.
  - by apply (finished_logs_equal c HI Hf).
  - rewrite (delivered_all c HI Hf p Hp). by rewrite <- (reachable_keys c s Hr).
  - apply (queue_drained c HI Hf).
Qed.

Lemma finished_agreement_witness :
  log_of demo2_end 0 = [(0, 17, 2, 1); (1, 23, 2, 0)] /\
  log_of demo2_end 0 = log_of demo2_end 1.
Proof.
  split; [vm_compute; reflexivity|].
  refine (proj1 (finished_agreement demo2 demo2_end 0 1 demo2_ok demo2_end_reachable
    demo2_end_finished _ _)); vm_compute; lia.
Defined.

(** C5: progress.  From every reachable state in which all servers still run, whatever was
    lost, duplicated or delayed before, some schedule lets all multicast threads finish,
    and then every process has delivered all messages in the same order. *)
Theorem completion_possible c s :
  config_ok c -> reachable c s -> all_running s ->
  exists ls s', exec_all c ls s = Some s' /\
    (forall t th, s_threads s' !! t = Some th -> finished c th) /\
    forall p q, (p < cf_count c)%nat -> (q < cf_count c)%nat ->
      log_of s' p = log_of s' q /\ shown_key <$> log_of s' p ≡ₚ launch_key <$> cf_launches c.
Proof.
  intros Hc Hr Hrun. destruct (can_finish c Hc s Hr Hrun) as (s' & [ls Hls] & _ & Hf).
  assert (reachable c s') as Hr' by (by eapply exec_all_reachable).
  pose proof (reachable_Inv c Hc _ Hr') as HI. exists ls, s'. split_and!; [done|done|].
  intros p q Hp Hq. split; [by apply (finished_logs_equal c HI Hf)|].
  rewrite (delivered_all c HI Hf p Hp). by rewrite <- (reachable_keys c s' Hr').
Qed.

Lemma completion_possible_witness :
  length (log_of demo2_mid 1) = 0%nat /\
  exists ls s', exec_all demo2 ls demo2_mid = Some s' /\
    (forall t th, s_threads s' !! t = Some th -> finished demo2 th) /\
    forall p q, (p < cf_count demo2)%nat -> (q < cf_count demo2)%nat ->
      log_of s' p = log_of s' q /\
      shown_key <$> log_of s' p ≡ₚ launch_key <$> cf_launches demo2.
Proof.
  split; [vm_compute; reflexivity|].
  apply (completion_possible demo2 demo2_mid demo2_ok demo2_mid_reachable).
  intros q nd Hq%list_elem_of_lookup_2. revert nd Hq. apply Forall_forall.
  apply (bool_decide_eq_true_1 _). vm_compute. reflexivity.
Defined.

(** C4: liveness.  In every fair run (no process fails, every thread that can move keeps
    moving, of infinitely many copies of a datagram infinitely many arrive) all multicast
    threads finish, and from then on every process has delivered every message, all in the
    same order. *)
Theorem fair_delivery c run lab :
  config_ok c -> fair_run c run lab ->
  exists n, forall m, (n <= m)%nat ->
    (forall t th, s_threads (run m) !! t = Some th -> finished c th) /\
    forall p q, (p < cf_count c)%nat -> (q < cf_count c)%nat ->
      log_of (run m) p = log_of (run m) q /\
      shown_key <$> log_of (run m) p ≡ₚ launch_key <$> cf_launches c.
Proof.
  intros Hc Hf. destruct (fair_finishes c Hc run lab Hf) as [n Hn]. exists n. intros m Hm.
  pose proof (finished_stays c Hc run lab Hf n m Hn Hm) as Heq.
  assert (Hfin : forall t th, s_threads (run m) !! t = Some th -> finished c th)
    by (rewrite Heq; exact Hn).
  pose proof (fair_Inv c Hc run lab Hf m) as HI. split; [done|]. intros p q Hp Hq.
  split; [by apply (finished_logs_equal c HI Hfin)|].
  rewrite (delivered_all c HI Hfin p Hp).
  by rewrite <- (reachable_keys c _ (fair_reachable c run lab Hf m)).
Qed.

Lemma fair_delivery_witness :
  let run := run_of demo2 (demo2_data ++ demo2_final) in
  exists n, forall m, (n <= m)%nat -> log_of (run m) 0 = log_of (run m) 1.
Proof.
  intros run.
  destruct (fair_delivery demo2 run (lab_of (demo2_data ++ demo2_final)) demo2_ok) as [n Hn].
  - apply schedule_fair; apply (bool_decide_eq_true_1 _); vm_compute; reflexivity.
  - exists n. intros m Hm. destruct (Hn m Hm) as [_ H].
    refine (proj1 (H 0%nat 1%nat _ _)); vm_compute; lia.
Defined.

(** C9: delivery order.  Every process delivers in strictly increasing order of final
    sequence number, ties broken by sender and message id. *)
Theorem delivery_sorted c s q :
  config_ok c -> reachable c s -> StronglySorted shown_lt (log_of s q).
Proof.
  intros Hc Hr. unfold log_of. destruct (s_nodes s !! q) eqn:Hq; [|constructor].
  by apply (delivered_sorted c (reachable_Inv c Hc _ Hr) q).
Qed.

Lemma delivery_sorted_witness :
  (0 < length (log_of demo2_mid 0))%nat /\ StronglySorted shown_lt (log_of demo2_mid 0).
Proof.
  split; [vm_compute; lia|]. exact (delivery_sorted demo2 _ 0 demo2_ok demo2_mid_reachable).
Defined.

(** C10: one final number.  A message that two processes have finalised, delivered or
    still held back, has the same final number and proposer at both, and it is what the
    thread that multicasts it chose. *)
Theorem final_number_agreement c s p q np nq k x y :
  config_ok c -> reachable c s ->
  s_nodes s !! p = Some np -> s_nodes s !! q = Some nq -> n_done np k x -> n_done nq k y ->
  x = y /\ exists t th sm, s_threads s !! t = Some th /\ t_job th = JSeq sm /\
    data_key (t_msg th) = k /\ x = seq_info sm.
Proof.
  intros Hc Hr Hp Hq Hx Hy. pose proof (reachable_Inv c Hc _ Hr) as HI. split.
  - by apply (done_agree c HI p q np nq k).
  - by apply (done_thread c HI p np).
Qed.

Lemma final_number_agreement_witness :
  n_done (node_at demo2_end 0) (mkPMK 0 17) (mkPMS 2 1) /\ mkPMS 2 1 = mkPMS 2 1.
Proof.
  assert (forall q, (q < 2)%nat -> n_done (node_at demo2_end q) (mkPMK 0 17) (mkPMS 2 1)) as Hd.
  { intros q Hq. right. exists (mkSeqMessage 7 0 17 2 1). split; [|done].
    destruct q as [|[|q]]; [vm_compute; by left..|lia]. }
  split; [apply Hd; lia|].
  refine (proj1 (final_number_agreement demo2 demo2_end 0 1 (node_at demo2_end 0)
    (node_at demo2_end 1) (mkPMK 0 17) _ _ demo2_ok demo2_end_reachable _ _ _ _));
    (apply Hd; lia) || (vm_compute; reflexivity).
Defined.

(** No step of a system in which the invariant holds makes a counter go back. *)
Lemma counter_grows c s l s' q nd nd' :
  config_ok c -> Inv c s -> Inv c s' -> exec c l s = Some s' ->
  s_nodes s !! q = Some nd -> s_nodes s' !! q = Some nd' ->
  seq_counter_ (n_proc nd) <= seq_counter_ (n_proc nd').
Proof.
  intros Hcfg HI HI' He Hq Hq'. destruct (exec_server c l s s' q nd He Hq) as (x & Hx & Hm).
  rewrite Hq' in Hx. injection Hx as <-. pose proof (inv_node _ _ HI _ _ Hq) as Hok.
  pose proof (inv_node _ _ HI' _ _ Hq') as Hok'.
  destruct (server_turns q l s) as [|y more]; [by destruct Hm as (-> & _)|].
  destruct Hm as (_ & _ & Hm). destruct (tn_packet y) as [pkt|]; [|by subst nd'].
  pose proof (OnReceive_counter (cf_endian c q) (tn_uninit y) (tn_sendto y) (n_proc nd)
    (recv_buf pkt) (recv_len pkt) (ok_wf _ _ _ Hok)) as Hon. cbv zeta in Hon.
  destruct (OnReceive _ _ _ _ _ _) as [[p acts] ex]. subst nd'. simpl in *.
  destruct Hon as [?|(Hc & pm & Hin & Hpm)]; [done|].
  pose proof (ok_ord_counter _ _ _ Hok' pm Hin) as Hpos. simpl in Hpos. rewrite Hpm, Hc in Hpos.
  pose proof (ok_counter _ _ _ Hok). pose proof (inv_counter _ _ HI _ _ Hq).
  pose proof (total_bound _ HI Hcfg). rewrite Hc.
  destruct (Z.eq_dec (seq_counter_ (n_proc nd) + 1) u32_modulus) as [Heq|Hne].
  - rewrite Heq in Hpos. by destruct Hpos as [? _].
  - rewrite u32_small; [lia|]. unfold is_u32. lia.
Qed.

(** C11: sequence numbers do not wrap around.  When the number of processes times the number of
    messages is below 2^32 (one of the conditions of [config_ok]), the counter of a process is
    never more than the number of proposals made so far, which is the number of messages a
    process knows added up over the processes, and at most that product; no number in the
    queue or in the log of the process is above the counter; and no step makes the counter go
    back, so every proposal is larger than all earlier ones. *)
Theorem counters_bounded c s q nd :
  config_ok c -> reachable c s -> s_nodes s !! q = Some nd ->
  0 <= seq_counter_ (n_proc nd) <= total (s_nodes s) /\
  total (s_nodes s) <= Z.of_nat (cf_count c * length (cf_launches c)) /\
  (forall pm, pm ∈ n_ord nd -> 0 < pms_seq (pm_pms pm) <= seq_counter_ (n_proc nd)) /\
  (forall m, m ∈ n_log nd -> sm_final_seq m <= seq_counter_ (n_proc nd)) /\
  (forall l s' nd', exec c l s = Some s' -> s_nodes s' !! q = Some nd' ->
     seq_counter_ (n_proc nd) <= seq_counter_ (n_proc nd')).
Proof.
  intros Hc Hr Hq. pose proof (reachable_Inv c Hc _ Hr) as HI.
  pose proof (inv_node _ _ HI _ _ Hq) as Hok. split_and!.
  - apply Hok.
  - apply (inv_counter _ _ HI _ _ Hq).
  - apply (total_bound_count _ HI).
  - apply Hok.
  - apply Hok.
  - intros l s' nd' He Hq'. eapply (counter_grows c s); [done|done| |done..].
    eapply reachable_Inv; [done|by eapply reach_step].
Qed.

Lemma counters_bounded_witness :
  seq_counter_ (n_proc (node_at demo2_end 0)) = 2 /\ total (s_nodes demo2_end) = 4 /\
  0 <= seq_counter_ (n_proc (node_at demo2_end 0)) <= total (s_nodes demo2_end).
Proof.
  split; [vm_compute; reflexivity|]. split; [vm_compute; reflexivity|].
  refine (proj1 (counters_bounded demo2 demo2_end 0 (node_at demo2_end 0) demo2_ok
    demo2_end_reachable _)). vm_compute. reflexivity.
Defined.

(** ** The system runs the code of its parts *)

(** C15: processes.  After every run, on any network, a process is where [TotalOrder] gets on
    exactly the datagrams that the labels of the run handed to its server, in their order: the
    same queue and counter, the same deliveries, and its server loop runs or has thrown as the
    status says.  Every datagram the server has received from another process was sent to it
    by a multicast thread of that process. *)
Theorem process_runs_TotalOrder c ls s j nd errno start send_count draws :
  (forall k, start k = None) -> exec_all c ls (init_sys c) = Some s ->
  s_nodes s !! j = Some nd ->
  let h := server_history c j ls in
  let p := make_Process (cf_addresses c) (Z.of_nat j) (cf_delays c j) in
  let '(st, outcome) :=
    (TotalOrder (cf_endian c j) (turn_uninit h) (turn_sendto h) start send_count draws p
       (turn_events errno h)).2 in
  ss_proc st = n_proc nd /\ deliveries (ss_actions st) = n_log nd /\
  match n_status nd with
  | Running => outcome = Listening
  | Joining => exists ex, outcome = ListenThrew ex
  | Down => True
  end /\
  forall x i pkt, x ∈ h -> tn_from x = Some i -> tn_packet x = Some pkt -> sent_by c i j ls pkt.
Proof.
  intros Hst He Hj. cbv zeta. rewrite TotalOrder_server by done.
  pose proof (run_server c errno ls s j nd He Hj) as (H1 & H2 & H3).
  destruct (Listen _ _ _ _) as [st o]. split_and!; [done..|].
  intros x i pkt. by eapply received_sent.
Qed.

(** Two processes with two messages: the first has handled five datagrams and delivered both. *)
Lemma process_runs_TotalOrder_witness :
  let h := server_history demo2 0 (demo2_data ++ take 12 demo2_final) in
  length h = 5%nat /\ length (n_log (node_at demo2_mid 0)) = 2%nat /\
  (TotalOrder Little (turn_uninit h) (turn_sendto h) (fun _ => None) 1 (fun _ => (0, 17, 100))
     (make_Process demo_addresses 0 false) (turn_events 0 h)).2.2 = Listening.
Proof.
  intros h. split; [vm_compute; reflexivity|]. split; [vm_compute; reflexivity|].
  pose proof (process_runs_TotalOrder demo2 (demo2_data ++ take 12 demo2_final) demo2_mid 0
    (node_at demo2_mid 0) 0 (fun _ => None) 1 (fun _ => (0, 17, 100)) (fun _ => eq_refl)
    demo2_mid_run) as H. cbv zeta in H. fold h in H.
  change (cf_endian demo2 0) with Little in H. change (cf_addresses demo2) with demo_addresses in H.
  change (cf_delays demo2 0) with false in H. change (Z.of_nat 0) with 0 in H.
  destruct ((TotalOrder _ _ _ _ _ _ _ (turn_events 0 h)).2) as [st o]. simpl.
  assert (n_status (node_at demo2_mid 0) = Running) as Hs by (vm_compute; reflexivity).
  rewrite Hs in H. apply H. vm_compute. reflexivity.
Defined.

(** C16: threads.  After every run, on any network, a multicast thread is where the sequential
    code of [LaunchMulticastSender] gets on exactly the answers that the labels of the run gave
    to the thread: in the same loop, at the same process, with the same proposals or the same
    sequence message.  The thread has finished exactly when the code has ended, and what it has
    put on the network is what the code has sent, and a datagram that is not answered yet.  When
    the code has thrown, the process has ended. *)
Theorem thread_runs_LaunchMulticastSender {C} (make : Address -> Z -> result exn C) clients
    c ls s t l th :
  ClientsForProcessList make (cf_addresses c) = Ok clients ->
  exec_all c ls (init_sys c) = Some s -> cf_launches c !! t = Some l ->
  s_threads s !! t = Some th ->
  let h := thread_history c t ls in
  let uninit' := thread_uninit t ls in
  let r := LaunchMulticastSender (cf_endian c (lc_proc l)) clients (cf_addresses c)
             (Z.of_nat (lc_proc l)) (lc_uninit l) uninit' (lc_msg_id l) (lc_data l)
             (data_answers h) (seq_answers h) in
  let th' := settled (cf_addresses c) uninit' th in
  sr_job r = t_job th' /\ sr_peer r = t_peer th' /\
  match sr_outcome r with
  | SenderThrew _ => is_up s (lc_proc l) = false
  | o => o = (if sender_done (cf_addresses c) th' then SenderDone else SenderWaiting) /\
         thread_sent c t ls = sr_sent r ++ in_flight (cf_endian c (lc_proc l)) th
  end.
Proof.
  intros Hcl He Hl Ht. apply (sender_at_run c t l clients ls s th).
  - intros k. by apply (ClientForId_total make).
  - by apply run_sender.
Qed.

(** The thread of the first process, which sent its data message three times to itself and once
    to the second, and its sequence message twice and once. *)
Lemma thread_runs_LaunchMulticastSender_witness :
  let ls := demo2_data ++ demo2_final in
  let h := thread_history demo2 0 ls in
  fst <$> thread_sent demo2 0 ls = [0; 0; 0; 1; 0; 0; 1]%nat /\
  exists clients,
    ClientsForProcessList (fun _ _ => Ok tt) (cf_addresses demo2) = Ok clients /\
    let r := LaunchMulticastSender (cf_endian demo2 0) clients (cf_addresses demo2)
               0 0 (thread_uninit 0 ls) 17 100 (data_answers h) (seq_answers h) in
    sr_outcome r = SenderDone /\ sr_sent r = thread_sent demo2 0 ls.
Proof.
  intros ls h. split; [vm_compute; reflexivity|].
  destruct (ClientsForProcessList_ok (fun _ _ => Ok tt) (cf_addresses demo2)) as [clients Hcl];
    [by exists tt|].
  pose proof (thread_runs_LaunchMulticastSender (fun _ _ => Ok tt) clients demo2 ls demo2_end 0
    (mkLaunch 0 17 100 0) (thread_at demo2_end 0) Hcl demo2_end_run) as H.
  exists clients. split; [exact Hcl|]. intros r.
  cbv zeta in H. cbn [lc_proc lc_uninit lc_msg_id lc_data] in H.
  change (Z.of_nat 0) with 0 in H. fold h in H. fold r in H.
  assert (s_threads demo2_end !! 0%nat = Some (thread_at demo2_end 0)) as Ht by (vm_compute; reflexivity).
  destruct (H eq_refl Ht) as (_ & _ & Hr). clear H. rename Hr into H. clearbody r.
  assert (is_up demo2_end 0 = true) as Hup by (vm_compute; reflexivity).
  assert (in_flight (cf_endian demo2 0) (thread_at demo2_end 0) = []) as Hfl by (vm_compute; reflexivity).
  assert (sender_done (cf_addresses demo2)
    (settled (cf_addresses demo2) (thread_uninit 0 ls) (thread_at demo2_end 0)) = true) as Hsd
    by (vm_compute; reflexivity).
  rewrite Hfl, Hsd, app_nil_r in H.
  destruct (sr_outcome r).
  - destruct H as [_ ->]. split; reflexivity.
  - rewrite Hup in H. discriminate H.
  - destruct H as [H _]. discriminate H.
Defined.

(** ** What holds on any network *)

(** Deliveries are final.  No step, on any network, retracts or reorders what a
    process has delivered. *)
Theorem deliveries_final c l s s' q :
  exec c l s = Some s' -> log_of s q `prefix_of` log_of s' q.
Proof. apply exec_log_prefix. Qed.

Lemma deliveries_final_witness :
  let s := run demo2 (demo2_data ++ take 8 demo2_final) in
  let s' := next demo2 (LServe 0 0 7 None) s in
  length (log_of s 0) = 0%nat /\ length (log_of s' 0) = 2%nat /\
  log_of s 0 `prefix_of` log_of s' 0.
Proof.
  intros s s'. split; [vm_compute; reflexivity|]. split; [vm_compute; reflexivity|].
  apply (deliveries_final demo2 (LServe 0 0 7 None) s s' 0), next_exec.
  vm_compute. reflexivity.
Defined.

(** C18: mutual exclusion.  Two threads of a process are never in an exchange with the
    same peer at the same time, so acknowledgements are never read by a thread that
    does not hold the client's mutex. *)
Theorem exchange_exclusive c s t t' th th' ij ij' :
  reachable c s -> s_threads s !! t = Some th -> s_threads s !! t' = Some th' ->
  held th = Some ij -> held th' = Some ij' -> t <> t' -> ij <> ij'.
Proof.
  intros Hl%reachable_lock_inv Ht Ht' Hh Hh' Hne <-.
  assert (s_locks s ij = Some t) by (apply Hl; eauto).
  assert (s_locks s ij = Some t') by (apply Hl; eauto). congruence.
Qed.

Lemma exchange_exclusive_witness :
  let c := demo_reorder 2 in
  let s := run c (exchange 0 0 0 ++ [LAcquire 0; LAcquire 1]) in
  held (thread_at s 0) = Some (0, 1)%nat /\ held (thread_at s 1) = Some (0, 0)%nat /\
  (0, 1)%nat <> (0, 0)%nat.
Proof.
  intros c s. split; [vm_compute; reflexivity|]. split; [vm_compute; reflexivity|].
  refine (exchange_exclusive c s 0 1 (thread_at s 0) (thread_at s 1) _ _ _ _ _ _ _ _).
  all: try (vm_compute; reflexivity).
  - apply run_reachable. vm_compute. reflexivity.
  - lia.
Defined.

(** ** Random identifiers *)

(** C22: colliding ids.  Message ids are random, and nothing keeps two messages of a process
    apart that draw the same one: on a network that loses nothing both threads finish, no
    datagram is left, and yet every process has delivered one message instead of two. *)
Theorem colliding_ids_lose :
  exists c s, cf_reorder c = false /\ NoDup (cf_addresses c) /\
    length (cf_launches c) = 2%nat /\ NoDup (lc_data <$> cf_launches c) /\ reachable c s /\
    (forall t th, s_threads s !! t = Some th -> finished c th) /\
    (forall i j u w, exec c (LServe i j u w) s = None) /\
    log_of s 0 = [(0, 5, 1, 0)] /\ log_of s 1 = [(0, 5, 1, 0)].
Proof.
  exists demo_collision, (run demo_collision collision_schedule). split_and!.
  - done.
  - apply (bool_decide_eq_true_1 _). vm_compute. reflexivity.
  - done.
  - apply (bool_decide_eq_true_1 _). vm_compute. reflexivity.
  - apply run_reachable. vm_compute. reflexivity.
  - intros t th Ht%list_elem_of_lookup_2. revert th Ht. apply Forall_forall.
    apply (bool_decide_eq_true_1 _). vm_compute. reflexivity.
  - intros [|i] [|[|j]] u w; vm_compute; reflexivity.
  - vm_compute. reflexivity.
  - vm_compute. reflexivity.
Qed.

(** ** Reordering networks *)

Definition without_reorder (c : config) : config :=
  mkConfig (cf_addresses c) (cf_launches c) (cf_endian c) (cf_delays c) false.

(** C25: replays after reordering.  On a network that also reorders the datagrams of a
    link, a copy of a data message that arrives after its sequence message is taken for a
    new message, and a process may deliver the same message twice. *)
Theorem reordering_redelivers :
  exists c s, cf_reorder c = true /\ config_ok (without_reorder c) /\ reachable c s /\
    log_of s 1 = [(0, 0, 1, 0); (0, 0, 1, 0)].
Proof.
  exists (demo_reorder 1), (run (demo_reorder 1) replay_schedule). split_and!.
  - done.
  - by apply config_ok_check; vm_compute.
  - apply run_reachable. vm_compute. reflexivity.
  - vm_compute. reflexivity.
Qed.

(** C26: blocked queues after reordering.  On such a network a process may also stop
    delivering for good: all threads have finished, no server has anything left to
    read, and yet a multicast message is delivered by one process and not by the
    other. *)
Theorem reordering_blocks :
  exists c s, cf_reorder c = true /\ config_ok (without_reorder c) /\ reachable c s /\
    (forall t th, s_threads s !! t = Some th -> finished c th) /\
    (forall i j u w, exec c (LServe i j u w) s = None) /\
    log_of s 0 = [(0, 0, 1, 0); (0, 1, 3, 1)] /\ log_of s 1 = [(0, 0, 1, 0)].
Proof.
  exists (demo_reorder 2), (run (demo_reorder 2) block_schedule). split_and!.
  - done.
  - by apply config_ok_check; vm_compute.
  - apply run_reachable. vm_compute. reflexivity.
  - intros t th Ht%list_elem_of_lookup_2. revert th Ht. apply Forall_forall.
    apply (bool_decide_eq_true_1 _). vm_compute. reflexivity.
  - intros [|i] [|[|j]] u w; vm_compute; reflexivity.
  - vm_compute. reflexivity.
  - vm_compute. reflexivity.
Qed.

(** ** Forged messages *)

(** A datagram that anybody may send to the second process of [demo2]: a sequence message for
    the message of the first. *)
Definition forged_packet : list Z := SeqMsgToBuf Little (mkSeqMessage 0 0 17 9 0).

(** C27: forged messages.  Servers take a message of the algorithm for what it says, whoever sent it.
    After one forged sequence message the run goes on as always, all threads finish, and the
    two processes have delivered in different orders; so the theorems above need that datagrams
    from outside are no messages of the algorithm. *)
Theorem forged_message_breaks_order :
  config_ok demo2 /\
  exists s nd s', reachable demo2 s /\ s_nodes s !! 1%nat = Some nd /\
    is_noise (cf_endian demo2 1) (n_proc nd) (recv_buf forged_packet) (recv_len forged_packet)
      = false /\
    exec_all demo2 demo2_final (serve_foreign demo2 s 1 nd forged_packet 7 None) = Some s' /\
    (forall t th, s_threads s' !! t = Some th -> finished demo2 th) /\
    shown_key <$> log_of s' 0 = [mkPMK 0 17; mkPMK 1 23] /\
    shown_key <$> log_of s' 1 = [mkPMK 1 23; mkPMK 0 17].
Proof.
  split; [exact demo2_ok|].
  set (s := run demo2 demo2_data). set (nd := node_at s 1).
  set (s' := default s (exec_all demo2 demo2_final (serve_foreign demo2 s 1 nd forged_packet 7 None))).
  exists s, nd, s'. split_and!.
  - apply run_reachable. vm_compute. reflexivity.
  - vm_compute. reflexivity.
  - vm_compute. reflexivity.
  - vm_compute. reflexivity.
  - intros t th Ht%list_elem_of_lookup_2. revert th Ht. apply Forall_forall.
    apply (bool_decide_eq_true_1 _). vm_compute. reflexivity.
  - vm_compute. reflexivity.
  - vm_compute. reflexivity.
Qed.
