(* ===== verification/ComponentProps.v ===== *)
(** * Properties of the components

    The hold-back queue, the wire format, the handlers and the sender of a process, the
    UDP client and server, and addresses, each on its own. *)

From Stdlib Require Import ZArith Lia Sorted String.
From stdpp Require Import base list gmap strings.
From S2P Require Import Prelude Text Exceptions Wire StdSet HoldBack QueueSpec Net Udp.
From S2P Require Import Process Sender Multicast Server.

Open Scope Z_scope.

(** ** The hold-back queue *)

(** A queue with one message pending at number 3 and one finalised at number 5. *)
Definition sample_queue : HoldBackQueue :=
  let q1 := (InsertUndeliverable empty_queue (mkAckMessage 0 0 10 3 1) 100).1 in
  let q2 := (InsertUndeliverable q1 (mkAckMessage 0 1 20 4 1) 200).1 in
  (SetDeliverable 0 q2 (mkSeqMessage 3 1 20 5 0)).1.

Definition sample_abs : AbsQueue :=
  mkAQ {[mkPMK 0 10 := mkPMS 3 1]} {[mkPMK 1 20 := mkPMS 5 0]}.

Lemma sample_queue_wf : hbq_wf sample_queue.
Proof.
  unfold sample_queue.
  apply SetDeliverable_wf, InsertUndeliverable_wf, InsertUndeliverable_wf, empty_queue_wf.
Qed.

Lemma sample_represents : represents sample_queue sample_abs.
Proof.
  split_and!.
  - by apply (bool_decide_eq_true_1 _); vm_compute.
  - apply (bool_decide_eq_true_1 _). by vm_compute.
  - intros k s. unfold finalised. simpl. rewrite lookup_singleton_Some. split.
    + intros [<- <-]. exists 0. vm_compute. right. left.
    + intros [d Hd]. change (ordering_ sample_queue) with
        [mkPM (mkPMK 0 10) (mkPMS 3 1) 100 false; mkPM (mkPMK 1 20) (mkPMS 5 0) 0 true] in Hd.
      rewrite !elem_of_cons, elem_of_nil in Hd. naive_solver.
Qed.

(** C13: refinement of the hold-back queue.  [SetDeliverable], with its hash map, ordered
    set and scanning loop, does what the abstract queue does: it finalises a pending
    message and delivers, in the delivery order, exactly the finalised messages whose
    number is below every pending proposal; an unknown message changes nothing. *)
Theorem SetDeliverable_refines u q A m :
  hbq_wf q -> represents q A ->
  let '(q', out) := SetDeliverable u q m in
  let '(A', out') := aq_set_deliverable A (mkPMK (sm_sender m) (sm_msg_id m))
      (mkPMS (sm_final_seq m) (sm_final_seq_proposer m)) in
  represents q' A' /\ out = deliver_entry u <$> out'.
Proof. apply set_deliverable_simulates. Qed.

Lemma SetDeliverable_refines_witness :
  (SetDeliverable 0 sample_queue (mkSeqMessage 3 0 10 4 0)).2 =
    [mkSeqMessage 0 0 10 4 0; mkSeqMessage 0 1 20 5 0] /\
  (let '(q', out) := SetDeliverable 0 sample_queue (mkSeqMessage 3 0 10 4 0) in
   let '(A', out') := aq_set_deliverable sample_abs (mkPMK 0 10) (mkPMS 4 0) in
   represents q' A' /\ out = deliver_entry 0 <$> out').
Proof.
  split; [vm_compute; reflexivity|].
  exact (SetDeliverable_refines 0 sample_queue sample_abs (mkSeqMessage 3 0 10 4 0)
    sample_queue_wf sample_represents).
Defined.

(** Refinement of insertion.  A message the abstract queue does not know becomes
    pending with its proposed number, without an exception. *)
Theorem InsertUndeliverable_refines q A a d :
  hbq_wf q -> represents q A ->
  aq_pending A !! mkPMK (am_sender a) (am_msg_id a) = None ->
  aq_final A !! mkPMK (am_sender a) (am_msg_id a) = None ->
  (InsertUndeliverable q a d).2 = None /\
  represents (InsertUndeliverable q a d).1
    (aq_insert A (mkPMK (am_sender a) (am_msg_id a))
       (mkPMS (am_proposed_seq a) (am_proposer a))).
Proof. apply insert_undeliverable_simulates. Qed.

Lemma InsertUndeliverable_refines_witness :
  represents (InsertUndeliverable sample_queue (mkAckMessage 0 2 30 6 1) 300).1
    (aq_insert sample_abs (mkPMK 2 30) (mkPMS 6 1)).
Proof.
  exact (proj2 (InsertUndeliverable_refines sample_queue sample_abs
    (mkAckMessage 0 2 30 6 1) 300 sample_queue_wf sample_represents eq_refl eq_refl)).
Defined.

(** The operations of the queue that change it. *)
Inductive queue_op :=
| OpInsert (ack_msg : AckMessage) (data : Z)
| OpSetDeliverable (seq_msg : SeqMessage).

Definition apply_op (u : Z) (q : HoldBackQueue) (op : queue_op) : HoldBackQueue :=
  match op with
  | OpInsert a d => (InsertUndeliverable q a d).1
  | OpSetDeliverable m => (SetDeliverable u q m).1
  end.

(** C14: invariant of the hold-back queue.  After any sequence of operations, those that
    throw included, the ordered set is in order, the map records exactly the
    undeliverable messages of the set, and no deliverable message waits at the head. *)
Theorem queue_invariant u ops : hbq_wf (fold_left (apply_op u) ops empty_queue).
Proof.
  assert (forall q, hbq_wf q -> hbq_wf (fold_left (apply_op u) ops q)) as H;
    [|apply H, empty_queue_wf].
  induction ops as [|[a d|m] ops IH]; intros q Hq; simpl; [done| |]; apply IH.
  - by apply InsertUndeliverable_wf.
  - by apply SetDeliverable_wf.
Qed.

(** The comparator of pending messages.  [operator<] is a strict weak order, as
    [std::set] requires, and it confuses two entries only if they have the same key,
    number and status. *)
Theorem comparator_sound a b c :
  pm_lt a a = false /\
  (pm_lt a b = true -> pm_lt b c = true -> pm_lt a c = true) /\
  (pm_lt a b = false -> pm_lt b a = false -> pm_lt b c = false -> pm_lt c b = false ->
   pm_lt a c = false /\ pm_lt c a = false) /\
  (pm_lt a b = false /\ pm_lt b a = false <->
   pm_pmk a = pm_pmk b /\ pms_seq (pm_pms a) = pms_seq (pm_pms b) /\
   pm_deliverable a = pm_deliverable b).
Proof.
  split_and!.
  - apply (swo_irrefl a).
  - apply (swo_trans a b c).
  - apply (swo_incomp a b c).
  - apply pm_equiv_spec.
Qed.

(** Insert and lookup.  A data message whose acknowledgement was inserted is found
    with the number that was proposed, other messages are found as before, and inserting
    it again throws and changes nothing. *)
Theorem insert_lookup q a d u dm :
  hbq_wf q -> pending_seqs_ q !! mkPMK (am_sender a) (am_msg_id a) = None ->
  let q' := (InsertUndeliverable q a d).1 in
  Lookup u q' dm =
    (if pmk_eqb (mkPMK (dm_sender dm) (dm_msg_id dm)) (mkPMK (am_sender a) (am_msg_id a))
     then Some (mkAckMessage u (am_sender a) (am_msg_id a) (am_proposed_seq a)
                  (am_proposer a))
     else Lookup u q dm) /\
  forall a' d', am_sender a' = am_sender a -> am_msg_id a' = am_msg_id a ->
    InsertUndeliverable q' a' d' =
    (q', Some (invalid_argument "existing pending message in HoldBackQueue")).
Proof.
  intros Hwf Hk q'. pose proof (InsertUndeliverable_spec q a d Hwf) as Hs. simpl in Hs.
  rewrite Hk in Hs. destruct Hs as [Hs _].
  assert (pending_seqs_ q' = <[mkPMK (am_sender a) (am_msg_id a) :=
    mkPMS (am_proposed_seq a) (am_proposer a)]> (pending_seqs_ q)) as Hq'
    by (unfold q'; by rewrite Hs).
  split.
  - unfold Lookup. rewrite Hq'. unfold pmk_eqb. simpl.
    destruct (Z.eqb_spec (dm_sender dm) (am_sender a)) as [->|Hne];
      [destruct (Z.eqb_spec (dm_msg_id dm) (am_msg_id a)) as [->|Hne]|]; simpl.
    + by rewrite lookup_insert_eq.
    + by rewrite lookup_insert_ne by congruence.
    + by rewrite lookup_insert_ne by congruence.
  - intros a' d' Ha Hi. pose proof (InsertUndeliverable_wf q a d Hwf) as Hwf'. fold q' in Hwf'.
    pose proof (InsertUndeliverable_spec q' a' d' Hwf') as Hs'. simpl in Hs'.
    by rewrite Ha, Hi, Hq', lookup_insert_eq in Hs'.
Qed.

Lemma insert_lookup_witness :
  Lookup 7 (InsertUndeliverable sample_queue (mkAckMessage 0 2 30 6 1) 300).1
    (mkDataMessage 1 2 30 300) = Some (mkAckMessage 7 2 30 6 1).
Proof.
  exact (proj1 (insert_lookup sample_queue (mkAckMessage 0 2 30 6 1) 300 7
    (mkDataMessage 1 2 30 300) sample_queue_wf eq_refl)).
Defined.

(** Replayed sequence messages.  Once a message has been finalised, any further
    sequence message for it changes nothing and delivers nothing. *)
Theorem SetDeliverable_replay u q m m' :
  sm_sender m' = sm_sender m -> sm_msg_id m' = sm_msg_id m ->
  let q' := (SetDeliverable u q m).1 in
  SetDeliverable u q' m' = (q', []).
Proof.
  intros Hs Hi q'. apply SetDeliverable_unknown. rewrite Hs, Hi. unfold q', SetDeliverable.
  destruct (pending_seqs_ q !! _) eqn:E; [|done].
  destruct (deliver_loop _ _). apply lookup_delete_eq.
Qed.

Lemma SetDeliverable_replay_witness :
  let q' := (SetDeliverable 0 sample_queue (mkSeqMessage 3 0 10 4 0)).1 in
  SetDeliverable 0 q' (mkSeqMessage 3 0 10 9 1) = (q', []).
Proof.
  exact (SetDeliverable_replay 0 sample_queue (mkSeqMessage 3 0 10 4 0)
    (mkSeqMessage 3 0 10 9 1) eq_refl eq_refl).
Defined.

(** ** The wire format *)

(** C32: round trip of messages.  Every message is read back by the peer as it was sent,
    whatever the byte orders of the two hosts and whatever follows it in the buffer; the
    tag read is the one of its kind, whatever the struct's own tag was. *)
Theorem wire_roundtrip e e' dm am sm sam rest :
  DataMessage_u32 dm -> AckMessage_u32 am -> SeqMessage_u32 sm -> SeqAckMessage_u32 sam ->
  DataMsgFromBuf e' (DataMsgToBuf e dm ++ rest) sizeof_DataMessage = Some (stamp_data dm) /\
  AckMsgFromBuf e' (AckMsgToBuf e am ++ rest) sizeof_AckMessage = Some (stamp_ack am) /\
  SeqMsgFromBuf e' (SeqMsgToBuf e sm ++ rest) sizeof_SeqMessage = Some (stamp_seq sm) /\
  SeqAckMsgFromBuf e' (SeqAckMsgToBuf e sam ++ rest) sizeof_SeqAckMessage
    = Some (stamp_seqack sam).
Proof.
  intros Hd Ha Hs Hsa. split_and!.
  - by apply DataMsg_roundtrip.
  - by apply AckMsg_roundtrip.
  - by apply SeqMsg_roundtrip.
  - by apply SeqAckMsg_roundtrip.
Qed.

Lemma wire_roundtrip_witness :
  DataMsgFromBuf Little (DataMsgToBuf Big (mkDataMessage 99 1 305419896 7) ++ [0; 0]) 16
  = Some (mkDataMessage 1 1 305419896 7).
Proof.
  refine (proj1 (wire_roundtrip Big Little (mkDataMessage 99 1 305419896 7)
    (mkAckMessage 0 1 2 3 4) (mkSeqMessage 0 1 2 3 4) (mkSeqAckMessage 0 1 2) [0; 0] _ _ _ _));
    repeat split; vm_compute; done.
Defined.

(** Decoding is total and safe.  A datagram is decoded exactly when it has the size of
    the message, and every field of the result is a 32-bit number, whatever bytes it
    held. *)
Theorem decoders_safe e buf n :
  Forall is_byte buf ->
  (is_Some (DataMsgFromBuf e buf n) <-> n = sizeof_DataMessage) /\
  (is_Some (AckMsgFromBuf e buf n) <-> n = sizeof_AckMessage) /\
  (is_Some (SeqMsgFromBuf e buf n) <-> n = sizeof_SeqMessage) /\
  (is_Some (SeqAckMsgFromBuf e buf n) <-> n = sizeof_SeqAckMessage) /\
  (forall m, DataMsgFromBuf e buf n = Some m -> DataMessage_u32 m) /\
  (forall m, AckMsgFromBuf e buf n = Some m -> AckMessage_u32 m) /\
  (forall m, SeqMsgFromBuf e buf n = Some m -> SeqMessage_u32 m).
Proof.
  intros Hb. split_and!.
  - unfold DataMsgFromBuf. destruct (Nat.eqb_spec n sizeof_DataMessage); simpl;
      (split; [by intros [? ?]|by eauto]) || done.
  - unfold AckMsgFromBuf. destruct (Nat.eqb_spec n sizeof_AckMessage); simpl;
      (split; [by intros [? ?]|by eauto]) || done.
  - unfold SeqMsgFromBuf. destruct (Nat.eqb_spec n sizeof_SeqMessage); simpl;
      (split; [by intros [? ?]|by eauto]) || done.
  - unfold SeqAckMsgFromBuf. destruct (Nat.eqb_spec n sizeof_SeqAckMessage); simpl;
      (split; [by intros [? ?]|by eauto]) || done.
  - intros m Hm. by apply DataMsgFromBuf_inv in Hm as (_ & _ & ?).
  - intros m Hm. by apply AckMsgFromBuf_inv in Hm as (_ & _ & ?).
  - intros m Hm. by apply SeqMsgFromBuf_inv in Hm as (_ & _ & ?).
Qed.

Lemma decoders_safe_witness :
  is_Some (DataMsgFromBuf Little (replicate 16 255) 16) <-> 16%nat = sizeof_DataMessage.
Proof.
  refine (proj1 (decoders_safe Little (replicate 16 255) 16 _)).
  apply Forall_replicate. vm_compute. done.
Defined.

(** ** The handlers of a process *)

Definition sample_process : Process :=
  make_Process [mkAddress "a" 1; mkAddress "b" 2; mkAddress "c" 3] 1 false.

Lemma sample_process_wf : process_wf sample_process.
Proof. split; [apply empty_queue_wf|]. simpl. unfold is_u32, u32_modulus. lia. Qed.

(** C28: robust handlers.  Whatever bytes a datagram holds, the callback of the server
    keeps the process well formed, and it throws only when the reply cannot be sent: the
    two [throw]s of the queue cannot be reached. *)
Theorem OnReceive_robust e u sendto p buf n :
  Forall is_byte buf -> process_wf p ->
  let '(p', _, ex) := OnReceive e u sendto p buf n in
  process_wf p' /\ (ex = Send sendto \/ ex = None).
Proof. apply OnReceive_wf_lemma. Qed.

Lemma OnReceive_robust_witness :
  let '(p', _, ex) := OnReceive Little 7 (Some 9) sample_process (replicate 20 3) 20 in
  process_wf p' /\ (ex = Send (Some 9) \/ ex = None).
Proof.
  refine (OnReceive_robust Little 7 (Some 9) sample_process (replicate 20 3) 20 _
    sample_process_wf). apply Forall_replicate. vm_compute. done.
Defined.

(** C30: the server stays up.  As long as the operating system reports no error, the server
    of [TotalOrder] handles every datagram, never returns, and its process stays well
    formed, whatever the datagrams hold. *)
Theorem server_stays_up e u sendto start send_count draws p events :
  (forall k, start k = None) -> (forall k, sendto k = None) -> Forall clean_event events -> process_wf p ->
  let '(st, outcome) := (TotalOrder e u sendto start send_count draws p events).2 in
  outcome = Listening /\ process_wf (ss_proc st) /\ ss_handled st = length events.
Proof.
  intros Hst Hs He Hp. pose proof (Listen_clean e u sendto (mkServerState p [] 0) events Hs He Hp).
  rewrite TotalOrder_server by done. by destruct (Listen _ _ _ _).
Qed.

Lemma server_stays_up_witness :
  let events := [(RecvPacket [1; 2], mkSockEnv 5 0 0 0 0);
                 (RecvPacket (DataMsgToBuf Big (mkDataMessage 0 0 4 5)), mkSockEnv 5 0 0 0 0)] in
  let '(st, outcome) :=
    (TotalOrder Little (fun _ => 7) (fun _ => None) (fun _ => None) 1 (fun _ => (0, 1, 2)) sample_process
       events).2 in
  outcome = Listening /\ process_wf (ss_proc st) /\ ss_handled st = 2%nat.
Proof.
  intros events.
  refine (server_stays_up Little (fun _ => 7) (fun _ => None) (fun _ => None) 1 (fun _ => (0, 1, 2))
    sample_process events _ _ _ sample_process_wf); [done|done|].
  repeat constructor; vm_compute; done.
Defined.



(** What a process ignores.  A datagram without a whole tag, with a tag other than
    data or sequence message, of the wrong size for its tag, or naming a process that does
    not exist has no effect, apart from a text for the log. *)
Theorem OnReceive_ignores e u sendto p buf n :
  match MessageTypeFromBuf e buf n with
  | None => True
  | Some 1 =>
      match DataMsgFromBuf e buf n with
      | None => True
      | Some m => process_count p <= dm_sender m
      end
  | Some 3 =>
      match SeqMsgFromBuf e buf n with
      | None => True
      | Some m => process_count p <= sm_sender m \/ process_count p <= sm_final_seq_proposer m
      end
  | Some _ => True
  end ->
  exists texts, OnReceive e u sendto p buf n = (p, ALog <$> texts, None).
Proof.
  unfold OnReceive, kDataMessageType, kSeqMessageType.
  destruct (MessageTypeFromBuf e buf n) as [t|]; [|intros _; by eexists [_]]. intros H.
  destruct (Z.eqb_spec t 1) as [->|H1]; [|destruct (Z.eqb_spec t 3) as [->|H3]].
  - exists []. unfold HandleDataMsg. destruct (DataMsgFromBuf e buf n) as [m|]; [|done].
    destruct (ValidDataMsg m (process_count p)) eqn:Ev; [|done].
    apply ValidDataMsg_spec in Ev. lia.
  - exists []. unfold HandleSeqMsg. destruct (SeqMsgFromBuf e buf n) as [m|]; [|done].
    destruct (ValidSeqMsg m (process_count p)) eqn:Ev; [|done].
    apply ValidSeqMsg_spec in Ev. lia.
  - destruct (_ || _); by eexists [_].
Qed.

Lemma OnReceive_ignores_witness :
  exists texts,
    OnReceive Little 7 None sample_process (DataMsgToBuf Big (mkDataMessage 0 3 44 55)) 16 =
    (sample_process, ALog <$> texts, None).
Proof. apply OnReceive_ignores. vm_compute. done. Defined.

(** Clients.  When the constructor has made the clients, every process id has one, made
    for the address of that process; an id outside the list throws. *)
Theorem clients_complete {C} (make : Address -> Z -> result exn C) processes clients pid :
  ClientsForProcessList make processes = Ok clients ->
  match processes !! pid with
  | Some addr => exists c, ClientForId clients processes pid = Ok c /\
                   make addr kAckTimeout = Ok c
  | None => ClientForId clients processes pid = Throw (out_of_range "at"%string)
  end.
Proof.
  intros Hc. destruct (processes !! pid) as [addr|] eqn:E; [by apply ClientForId_ok|].
  unfold ClientForId. by rewrite E.
Qed.

Lemma clients_complete_witness :
  exists c, ClientForId {[mkAddress "a" 1 := 250000]} [mkAddress "a" 1] 0 = Ok c /\
    @Ok exn Z kAckTimeout = Ok c.
Proof.
  exact (clients_complete (fun _ t => Ok t) [mkAddress "a" 1]
    {[mkAddress "a" 1 := 250000]} 0 eq_refl).
Defined.

(** ** The multicast sender *)

(** The final number.  It is the largest proposal, and its proposer is the smallest
    process that proposed it. *)
Theorem final_is_max seqs x0 :
  x0 ∈ seqs -> 0 < x0 ->
  exists f i, select_final seqs = (f, Z.of_nat i) /\ seqs !! i = Some f /\
    (forall x, x ∈ seqs -> x <= f) /\
    (forall j x, (j < i)%nat -> seqs !! j = Some x -> x < f).
Proof.
  intros Hx Hpos. destruct (select_final_spec seqs x0 Hx Hpos) as (f & i & ? & ? & _ & ? & ?).
  by exists f, i.
Qed.

Lemma final_is_max_witness :
  select_final [3; 7; 7; 2] = (7, 1) /\
  exists f i, select_final [3; 7; 7; 2] = (f, Z.of_nat i) /\ [3; 7; 7; 2] !! i = Some f /\
    (forall x, x ∈ [3; 7; 7; 2] -> x <= f) /\
    (forall j x, (j < i)%nat -> [3; 7; 7; 2] !! j = Some x -> x < f).
Proof.
  split; [reflexivity|]. apply (final_is_max [3; 7; 7; 2] 3); [by left|lia].
Defined.

(** C31: collecting a proposal.  [SendDataMsg] keeps retransmitting while timeouts and
    datagrams that are not the acknowledgement of this message by this process arrive;
    it returns at the first acknowledgement that is, having recorded exactly its
    proposal. *)
Theorem SendDataMsg_collects e id pid m seqs answers :
  Forall (fun a => fatal a = false) answers ->
  let '(pkt, r) := SendDataMsg e id pid m seqs answers in
  pkt = DataMsgToBuf e m /\
  match omap (accepted (ack_proposal e id (dm_msg_id m) pid)) answers with
  | x :: _ => run_outcome r = Returned /\ run_state r = <[pid := x]> seqs
  | [] => run_outcome r = Waiting /\ run_state r = seqs /\ run_sent r = length answers
  end.
Proof.
  intros Hf. unfold SendDataMsg. split; [done|].
  apply (SendWithAck_unlimited_lemma (handle_ack e id (dm_msg_id m) pid)
    (ack_proposal e id (dm_msg_id m) pid) (fun x s => <[pid := x]> s)); [|done].
  intros st buf n. apply handle_ack_dec.
Qed.

Definition sample_answers : list net_answer :=
  [Answer (RecvError EAGAIN);
   Answer (RecvPacket (AckMsgToBuf Big (mkAckMessage 0 0 8 5 2)));   (* another message *)
   Answer (RecvPacket (AckMsgToBuf Big (mkAckMessage 0 0 9 6 2)))].

Lemma SendDataMsg_collects_witness :
  run_state (SendDataMsg Little 0 2 (mkDataMessage 0 0 9 1) [4; 4; 0] sample_answers).2 =
    [4; 4; 6].
Proof.
  refine (proj2 (proj2 (SendDataMsg_collects Little 0 2 (mkDataMessage 0 0 9 1) [4; 4; 0]
    sample_answers _))). repeat constructor.
Defined.

(** Distributing the final number.  [SendSeqMsg] returns exactly when an
    acknowledgement of this sequence message arrives, and retransmits until then. *)
Theorem SendSeqMsg_confirms e m answers :
  Forall (fun a => fatal a = false) answers ->
  let '(pkt, r) := SendSeqMsg e m answers in
  pkt = SeqMsgToBuf e m /\
  (run_outcome r = Returned <->
   exists p, Answer (RecvPacket p) ∈ answers /\ is_seqack e m (recv_buf p) (recv_len p) = Some tt) /\
  (run_outcome r = Returned \/ run_outcome r = Waiting /\ run_sent r = length answers).
Proof.
  intros Hf. unfold SendSeqMsg.
  pose proof (SendWithAck_unlimited_lemma (isValidAck e m) (is_seqack e m) (fun _ s => s)
    (fun st buf n => isValidAck_dec e m st buf n) tt answers Hf) as H. cbv zeta in H.
  assert ((exists p, Answer (RecvPacket p) ∈ answers /\
            is_seqack e m (recv_buf p) (recv_len p) = Some tt) <->
          omap (accepted (is_seqack e m)) answers <> []) as ->.
  { split.
    - intros (p & Hp & Hd) Hn.
      assert (tt ∈ omap (accepted (is_seqack e m)) answers) as Hin
        by (apply list_elem_of_omap; by exists (Answer (RecvPacket p))).
      rewrite Hn in Hin. by apply elem_of_nil in Hin.
    - intros Hn. destruct (omap _ answers) as [|[] l] eqn:E; [done|].
      assert (tt ∈ omap (accepted (is_seqack e m)) answers) as Hin by (rewrite E; by left).
      apply list_elem_of_omap in Hin as ([errno|[p|errno]] & Hx & Ha); try done. eauto. }
  destruct (omap _ answers); [destruct H as (-> & _ & ?)|destruct H as (-> & _)];
    (split; [done|]); (split; [done|auto]).
Qed.

Lemma SendSeqMsg_confirms_witness :
  let answers := [Answer (RecvError EAGAIN);
                  Answer (RecvPacket (SeqAckMsgToBuf Big (mkSeqAckMessage 0 1 9)))] in
  run_outcome (SendSeqMsg Little (mkSeqMessage 0 1 9 6 2) answers).2 = Returned /\
  exists p, Answer (RecvPacket p) ∈ answers /\
    is_seqack Little (mkSeqMessage 0 1 9 6 2) (recv_buf p) (recv_len p) = Some tt.
Proof.
  intros answers. split; [vm_compute; reflexivity|].
  refine (proj1 (proj1 (proj2 (SendSeqMsg_confirms Little (mkSeqMessage 0 1 9 6 2) answers _))) _);
    [repeat constructor|vm_compute; reflexivity].
Defined.

(** C17: a multicast.  When every exchange is eventually acknowledged, whatever timeouts and
    foreign datagrams come before, [LaunchMulticastSender] ends: it has sent the data message
    to every process, at least once each, and then the sequence message to every process;
    the final number it announces is the largest proposal it was sent. *)
Theorem multicast_completes {C} (make : Address -> Z -> result exn C) e clients processes
    id uninit uninit' msg_id data D S proposals :
  let data_msg := mkDataMessage uninit id msg_id data in
  let sm := mkSeqMessage uninit' id msg_id (select_final proposals).1
              (select_final proposals).2 in
  let r := LaunchMulticastSender e clients processes id uninit uninit' msg_id data D S in
  ClientsForProcessList make processes = Ok clients ->
  length proposals = length processes -> Exists (fun x => 0 < x) proposals ->
  (forall pid x, proposals !! pid = Some x ->
     answered (ack_proposal e id msg_id pid) (D pid) x) ->
  (forall pid, (pid < length processes)%nat -> answered (is_seqack e sm) (S pid) tt) ->
  sr_outcome r = SenderDone /\ sr_job r = JSeq sm /\
  sm_final_seq sm ∈ proposals /\ (forall x, x ∈ proposals -> x <= sm_final_seq sm) /\
  exists ns ms, length ns = length processes /\ length ms = length processes /\
    Forall (fun k => 0 < k)%nat (ns ++ ms) /\
    sr_sent r = rounds (DataMsgToBuf e data_msg) 0 ns ++ rounds (SeqMsgToBuf e sm) 0 ms.
Proof.
  intros data_msg sm r Hc Hlen (x0 & Hx0 & Hpos)%Exists_exists HD HS.
  destruct (LaunchMulticastSender_ends e clients processes id uninit uninit' msg_id data D S
    (fun k => ClientForId_total make _ _ k Hc) proposals Hlen HD HS) as (H1 & H2 & H3).
  split_and!; [done|done| | |done].
  all: destruct (select_final_spec proposals x0 Hx0 Hpos) as (f & i & Hs & Hi & _ & Hle & _);
    unfold sm; rewrite Hs; simpl.
  - by eapply list_elem_of_lookup_2.
  - done.
Qed.

Definition multicast_data_answers (pid : nat) : list net_answer :=
  [Answer (RecvError EAGAIN);
   Answer (RecvPacket (AckMsgToBuf Big (mkAckMessage 0 1 9 (4 - Z.of_nat pid) (Z.of_nat pid))))].
Definition multicast_seq_answers (pid : nat) : list net_answer :=
  [Answer (RecvPacket (SeqAckMsgToBuf Big (mkSeqAckMessage 0 1 9)))].

Lemma multicast_completes_witness :
  let processes := [mkAddress "a" 1; mkAddress "b" 2] in
  exists clients, ClientsForProcessList (fun _ _ => Ok tt) processes = Ok clients /\
  let r := LaunchMulticastSender Little clients processes 1 0 0 9 77
             multicast_data_answers multicast_seq_answers in
  sr_job r = JSeq (mkSeqMessage 0 1 9 4 0) /\ sr_outcome r = SenderDone.
Proof.
  intros processes.
  destruct (ClientsForProcessList_ok (fun _ _ => Ok tt) processes) as [clients Hcl];
    [by exists tt|].
  exists clients. split; [exact Hcl|].
  destruct (multicast_completes (fun _ _ => Ok tt) Little clients processes 1 0 0 9 77
    multicast_data_answers multicast_seq_answers [4; 3] Hcl) as (H1 & H2 & _).
  - vm_compute. reflexivity.
  - constructor. lia.
  - intros [|[|pid]] x Hx; simpl in Hx; simplify_eq; split;
      [repeat constructor|vm_compute; reflexivity|repeat constructor|vm_compute; reflexivity].
  - intros pid _. split; [repeat constructor|vm_compute; reflexivity].
  - split; [exact H2|exact H1].
Defined.

(** ** UDP *)

(** Limited retransmission.  With a limit, [SendWithAck] sends at most that many
    datagrams, and it has ended when that many answers have come. *)
Theorem SendWithAck_limited {St} (validAck : St -> list Z -> nat -> St * ServerAction)
    attempts st answers :
  0 < attempts < u32_modulus ->
  let r := SendWithAck validAck attempts st answers in
  Z.of_nat (run_sent r) <= attempts /\
  (attempts <= Z.of_nat (length answers) -> run_outcome r <> Waiting).
Proof.
  intros Ha. unfold SendWithAck.
  rewrite (proj2 (Z.eqb_neq attempts kUnlimitedAttempts)) by (unfold kUnlimitedAttempts; lia).
  apply (swa_loop_limited validAck attempts 1 st 0 [] answers). lia.
Qed.

Lemma SendWithAck_limited_witness :
  let r := SendWithAck (fun (st : unit) _ _ => (st, Continue)) 2 tt
             [Answer (RecvError EAGAIN); Answer (RecvPacket [1]); Answer (RecvPacket [2])] in
  run_outcome r = Returned /\ Z.of_nat (run_sent r) <= 2.
Proof.
  intros r. split; [vm_compute; reflexivity|].
  refine (proj1 (SendWithAck_limited (fun (st : unit) _ _ => (st, Continue)) 2 tt
    [Answer (RecvError EAGAIN); Answer (RecvPacket [1]); Answer (RecvPacket [2])] _)).
  unfold u32_modulus. lia.
Defined.

(** Back-off.  The multipliers of the waits between retransmissions are 1, 2, 4, ... up
    to 64 and then stay 64: one doubling per timeout, none for unwanted datagrams. *)
Theorem backoff_doubles {St} (validAck : St -> list Z -> nat -> St * ServerAction)
    attempts st answers :
  exists k, run_waits (SendWithAck validAck attempts st answers) =
            (fun i => Z.min 64 (2 ^ Z.of_nat i)) <$> seq 0 k.
Proof.
  apply (swa_loop_waits validAck (attempts =? kUnlimitedAttempts) attempts 0 st 0 answers).
Qed.

(** No overflow in the back-off: with the multipliers of the loop and any draw below
    2^25 milliseconds, the wait is the exact product, although it is computed in 32
    bits. *)
Theorem WaitBackoff_exact draw k :
  draw < 2 ^ 25 -> WaitBackoff draw (backoff_after k) = Z.max 0 draw * backoff_after k.
Proof.
  intros Hd. unfold WaitBackoff, backoff_after.
  assert (0 < 2 ^ Z.of_nat k) by (apply Z.pow_pos_nonneg; lia).
  destruct (Z.leb_spec draw 0); [rewrite Z.max_l by lia; lia|].
  set (m := Z.min 64 (2 ^ Z.of_nat k)). assert (1 <= m <= 64) by lia.
  assert (0 < draw * m < 2147483648) by nia.
  unfold i32. rewrite u32_small by (unfold is_u32, u32_modulus; lia).
  rewrite (proj2 (Z.ltb_lt _ _)) by lia. rewrite !Z.max_r by lia. done.
Qed.

Lemma WaitBackoff_exact_witness : WaitBackoff 12 (backoff_after 9) = 768.
Proof. exact (WaitBackoff_exact 12 9 eq_refl). Defined.

(** A non-negative timeout is split into whole seconds and the
    remaining microseconds, below one million, without loss; no timeout is set for zero. *)
Theorem socket_timeout env t :
  0 <= t -> 0 <= se_socket env -> se_reuseaddr env = 0 -> se_rcvtimeo env = 0 ->
  exists s, CreateSocket env t = Ok s /\ sockfd s = se_socket env /\
    match rcvtimeo s with
    | None => t = 0
    | Some tv => tv_sec tv * 1000000 + tv_usec tv = t /\ 0 <= tv_usec tv < 1000000
    end.
Proof.
  intros Ht H1 H2 H3. unfold CreateSocket. rewrite (proj2 (Z.ltb_ge _ _)) by lia.
  rewrite H2, H3. simpl. destruct (Z.ltb_spec 0 t); eexists; (split; [done|]); simpl;
    (split; [done|]); [|lia].
  by destruct (split_timeout_spec t Ht) as (? & _ & ?).
Qed.

Lemma socket_timeout_witness :
  exists s, CreateSocket (mkSockEnv 3 0 0 0 0) 2250000 = Ok s /\ sockfd s = 3 /\
    match rcvtimeo s with
    | None => 2250000 = 0
    | Some tv => tv_sec tv * 1000000 + tv_usec tv = 2250000 /\ 0 <= tv_usec tv < 1000000
    end.
Proof. apply (socket_timeout (mkSockEnv 3 0 0 0 0) 2250000); simpl; lia. Defined.

(** ** Addresses *)

(** Round trip of addresses.  An address whose host name has no colon is read back from
    its printed form, whatever the default port. *)
Theorem address_roundtrip a dflt :
  plain_host (hostname a) -> 0 <= port a < 65536 ->
  AddressWithDefaultPort (print_Address a) dflt = Ok a.
Proof. apply Address_roundtrip_lemma. Qed.

Lemma address_roundtrip_witness :
  AddressWithDefaultPort "vm1:1234" None = Ok (mkAddress "vm1" 1234).
Proof.
  refine (address_roundtrip (mkAddress "vm1" 1234) None _ _); [|simpl; lia].
  intros l r H. simpl in H. repeat (destruct l as [|? l]; [discriminate|]; injection H as _ H).
  by destruct l.
Defined.

(** The port is not validated: a port number outside 16 bits is accepted and reduced
    modulo 65536. *)
Theorem port_truncated :
  AddressWithDefaultPort "host:70000" None = Ok (mkAddress "host" 4464) /\
  AddressWithDefaultPort "host:-1" None = Ok (mkAddress "host" 65535).
Proof. split; vm_compute; reflexivity. Qed.
