(* ===== verification/Wrap.v ===== *)
(** * Wrapping of help texts

    [args::Glyphs] and [args::Wrap] (src/include/args.h): a text is broken into lines of
    at most a given number of glyphs at whitespace, and existing line breaks are kept. *)

From Stdlib Require Import ZArith Lia Ascii String.
From stdpp Require Import base list strings.
From S2P Require Import Prelude Text.

Open Scope nat_scope.

(** UTF-8 continuation bytes do not count. *)
Definition is_glyph (c : ascii) : bool :=
  negb (Z.land (char_code c) 192 =? 128)%Z.

Fixpoint Glyphs (s : string) : nat :=
  match s with
  | EmptyString => 0
  | String c s' => if is_glyph c then S (Glyphs s') else Glyphs s'
  end.

(** The loop of [Wrap] over the items read from the stream. *)
Fixpoint wrap_loop (width currentwidth : nat) (line : string) (linesize : nat)
    (items : list string) : list string :=
  match items with
  | [] => if 0 <? linesize then [line] else []
  | item :: items' =>
      let itemsize := Glyphs item in
      if (currentwidth <? linesize + 1 + itemsize) && (0 <? linesize) then
        line ::
          (if 0 <? itemsize then wrap_loop width width item itemsize items'
           else wrap_loop width width EmptyString 0 items')
      else if 0 <? itemsize then
        if 0 <? linesize then
          wrap_loop width currentwidth (line +:+ String " "%char item)
            (linesize + 1 + itemsize) items'
        else wrap_loop width currentwidth (line +:+ item) (linesize + itemsize) items'
      else wrap_loop width currentwidth line linesize items'
  end.

(** A text without line breaks; the stream yields its words and then, once, nothing. *)
Definition wrap_line (s : string) (width firstlinewidth : nat) : list string :=
  let first := if firstlinewidth =? 0 then width else firstlinewidth in
  wrap_loop width first EmptyString 0 (stream_words s ++ [EmptyString]).

Definition newline : ascii := "010"%char.

(** The pieces between line breaks. *)
Fixpoint break_lines (s : string) : string * list string :=
  match s with
  | EmptyString => (EmptyString, [])
  | String c s' =>
      let '(l, ls) := break_lines s' in
      if bool_decide (c = newline) then (EmptyString, l :: ls) else (String c l, ls)
  end.

(** [Wrap]: the pieces are wrapped one by one; only a text without line breaks has a first
    line of its own width. *)
Definition Wrap (s : string) (width firstlinewidth : nat) : list string :=
  match break_lines s with
  | (l, []) => wrap_line l width firstlinewidth
  | (l, ls) => concat ((fun x => wrap_line x width 0) <$> l :: ls)
  end.

(** ** Words and lines *)

Fixpoint no_space (s : string) : bool :=
  match s with EmptyString => true | String c s' => negb (is_space c) && no_space s' end.

(** Words joined by single spaces. *)
Fixpoint join_words (ws : list string) : string :=
  match ws with
  | [] => EmptyString
  | [w] => w
  | w :: ws' => w +:+ String " "%char (join_words ws')
  end.

Definition is_word (w : string) : Prop := no_space w = true /\ 0 < Glyphs w.

Lemma string_app_assoc (a b c : string) : a +:+ (b +:+ c) = (a +:+ b) +:+ c.
Proof. induction a as [|x a IH]; [done|]. rewrite !string_app_cons. by rewrite IH. Qed.

Lemma Glyphs_app a b : Glyphs (a +:+ b) = Glyphs a + Glyphs b.
Proof.
  induction a as [|c a IH]; [done|]. rewrite string_app_cons. simpl. rewrite IH.
  by destruct (is_glyph c).
Qed.

Lemma join_words_snoc ws w :
  ws <> [] -> join_words (ws ++ [w]) = join_words ws +:+ String " "%char w.
Proof.
  induction ws as [|x ws IH]; [done|]. intros _. destruct ws as [|y ws]; [done|].
  simpl app. change (join_words (x :: y :: ws ++ [w])) with
    (x +:+ String " "%char (join_words ((y :: ws) ++ [w]))).
  rewrite IH by done. change (join_words (x :: y :: ws)) with
    (x +:+ String " "%char (join_words (y :: ws))).
  rewrite <- string_app_assoc. by rewrite string_app_cons.
Qed.

Lemma Glyphs_join ws :
  ws <> [] -> Glyphs (join_words ws) + 1 = sum_list (Glyphs <$> ws) + length ws.
Proof.
  induction ws as [|x ws IH]; [done|]. intros _. destruct ws as [|y ws].
  { simpl. lia. }
  change (join_words (x :: y :: ws)) with (x +:+ String " "%char (join_words (y :: ws))).
  change (sum_list (Glyphs <$> x :: y :: ws)) with (Glyphs x + sum_list (Glyphs <$> y :: ws)).
  change (length (x :: y :: ws)) with (S (length (y :: ws))).
  specialize (IH ltac:(done)). rewrite Glyphs_app.
  change (Glyphs (String " "%char (join_words (y :: ws))))
    with (S (Glyphs (join_words (y :: ws)))). lia.
Qed.

Lemma join_words_pos ws :
  Forall (fun x => 0 < Glyphs x) ws -> (ws <> [] <-> 0 < Glyphs (join_words ws)).
Proof.
  intros Hws. split.
  - intros Hne. pose proof (Glyphs_join ws Hne) as Hg.
    destruct ws as [|w ws]; [done|]. apply Forall_cons in Hws as [Hw _].
    change (sum_list (Glyphs <$> w :: ws)) with (Glyphs w + sum_list (Glyphs <$> ws)) in Hg.
    simpl length in Hg. lia.
  - intros H ->. simpl in H. lia.
Qed.

(** A line of the output: its words, short enough unless it is a single word. *)
Definition line_ok (width : nat) (ws : list string) : Prop :=
  ws <> [] /\ (length ws <= 1 \/ Glyphs (join_words ws) <= width).

(** Lines, the first of width [cur] and the others of width [width]: each is short enough, and
    the first word of the next one would not have fitted. *)
Fixpoint greedy (width cur : nat) (parts : list (list string)) : Prop :=
  match parts with
  | [] => True
  | ws :: rest =>
      line_ok cur ws /\
      match rest with
      | (w :: _) :: _ => cur < Glyphs (join_words ws) + 1 + Glyphs w
      | _ => True
      end /\
      greedy width width rest
  end.

(** Adding a word to the current line. *)
Lemma push_word width cur ws item items :
  Forall (fun x => 0 < Glyphs x) ws ->
  (if 0 <? Glyphs (join_words ws) then
     wrap_loop width cur (join_words ws +:+ String " "%char item)
       (Glyphs (join_words ws) + 1 + Glyphs item) items
   else wrap_loop width cur (join_words ws +:+ item) (Glyphs (join_words ws) + Glyphs item) items)
  = wrap_loop width cur (join_words (ws ++ [item])) (Glyphs (join_words (ws ++ [item]))) items.
Proof.
  intros Hws. pose proof (join_words_pos ws Hws) as Hiff.
  destruct (Nat.ltb_spec 0 (Glyphs (join_words ws))) as [Hl|Hl].
  - apply Hiff in Hl. rewrite join_words_snoc by done. f_equal. rewrite Glyphs_app. simpl. lia.
  - assert (ws = []) as -> by (destruct ws; [done|]; pose proof (proj1 Hiff ltac:(done)); lia).
    done.
Qed.

(** The loop breaks the remaining words into lines, starting with the words [ws] of the
    current one; words without a glyph are dropped. *)
Lemma wrap_loop_spec width cur ws items :
  Forall (fun x => 0 < Glyphs x) ws -> (ws = [] \/ line_ok cur ws) ->
  exists parts,
    wrap_loop width cur (join_words ws) (Glyphs (join_words ws)) items = join_words <$> parts /\
    concat parts = ws ++ filter (fun x => 0 < Glyphs x) items /\
    greedy width cur parts /\
    (ws <> [] -> exists ext rest, parts = (ws ++ ext) :: rest).
Proof.
  revert cur ws. induction items as [|item items IH]; intros cur ws Hws Hok;
    pose proof (join_words_pos ws Hws) as Hiff; simpl.
  { destruct Hok as [->|Hok]; [by exists []|].
    rewrite (proj2 (Nat.ltb_lt _ _)) by apply Hiff, Hok.
    exists [ws]. simpl. rewrite !app_nil_r. split_and!; try done.
    intros _. exists [], []. by rewrite app_nil_r. }
  destruct (Nat.ltb_spec 0 (Glyphs item)) as [Hi|Hi];
    [rewrite filter_cons_True by done|rewrite filter_cons_False by lia];
    destruct ((cur <? _) && _) eqn:Eb.
  - apply andb_true_iff in Eb as [Hb%Nat.ltb_lt Hl%Nat.ltb_lt]. apply Hiff in Hl.
    assert (line_ok width [item]) as Hone by (split; [done|]; left; simpl; lia).
    destruct (IH width [item]) as (parts & Hp & Hc & Hf & Hx); [by repeat constructor|by right|].
    destruct (Hx ltac:(done)) as (ext & rest & ->).
    simpl in Hp. rewrite Hp. exists (ws :: ([item] ++ ext) :: rest). rewrite !fmap_cons.
    split; [done|]. split; [exact (f_equal (app ws) Hc)|]. split; [|intros _; exists [], (([item] ++ ext) :: rest); by rewrite app_nil_r].
    split; [by destruct Hok|]. by split.
  - rewrite push_word by done.
    destruct (IH cur (ws ++ [item])) as (parts & Hp & Hc & Hf & Hx).
    + apply Forall_app. split; [done|by repeat constructor].
    + right. split; [by destruct ws|]. destruct Hok as [->|[Hne _]]; [by left|right].
      rewrite join_words_snoc, Glyphs_app by done. simpl.
      apply andb_false_iff in Eb as [Eb%Nat.ltb_ge|Eb%Nat.ltb_ge]; [lia|].
      apply Hiff in Hne. lia.
    + exists parts. rewrite Hp, Hc, <- app_assoc. split_and!; try done.
      intros _. destruct Hx as (ext & rest & ->); [by destruct ws|].
      exists ([item] ++ ext), rest. by rewrite app_assoc.
  - apply andb_true_iff in Eb as [Hb%Nat.ltb_lt Hl%Nat.ltb_lt]. apply Hiff in Hl.
    destruct (IH width []) as (parts & Hp & Hc & Hf & _); [constructor|by left|].
    simpl in Hp. rewrite Hp. exists (ws :: parts). simpl. rewrite Hc.
    split; [done|]. split; [done|]. split; [|intros _; exists [], parts; by rewrite app_nil_r].
    split; [by destruct Hok|]. split; [|done]. destruct parts as [|[|w ws'] parts]; try done. lia.
  - by apply IH.
Qed.

(** ** What the stream reads *)

Lemma words_go_word cur w s :
  no_space w = true -> words_go cur (w +:+ s) = words_go (cur +:+ w) s.
Proof.
  revert cur. induction w as [|c w IH]; intros cur Hw.
  { by rewrite string_app_nil_r. }
  simpl in Hw. apply andb_true_iff in Hw as [Hc%negb_true_iff Hw].
  rewrite string_app_cons. simpl. rewrite Hc, IH by done.
  by rewrite <- string_app_assoc.
Qed.

Lemma stream_words_cons w c s :
  no_space w = true -> w <> EmptyString -> is_space c = true ->
  stream_words (w +:+ String c s) = w :: stream_words s.
Proof.
  intros Hw Hne Hc. unfold stream_words. rewrite words_go_word by done. simpl.
  rewrite Hc. by destruct w.
Qed.

Lemma stream_words_one w : no_space w = true -> w <> EmptyString -> stream_words w = [w].
Proof.
  intros Hw Hne. unfold stream_words. rewrite <- (string_app_nil_r w) at 1.
  rewrite words_go_word by done. by destruct w.
Qed.

Lemma stream_words_join ws :
  Forall (fun w => no_space w = true /\ w <> EmptyString) ws ->
  stream_words (join_words ws) = ws.
Proof.
  induction 1 as [|w ws [Hw Hne] Hws IH]; [done|]. destruct ws as [|x ws].
  { by apply stream_words_one. }
  change (join_words (w :: x :: ws)) with (w +:+ String " "%char (join_words (x :: ws))).
  by rewrite stream_words_cons, IH.
Qed.

Lemma no_space_snoc s c :
  no_space s = true -> is_space c = false -> no_space (s +:+ String c EmptyString) = true.
Proof.
  intros Hs Hc. induction s as [|d s IH]; [simpl; by rewrite Hc|].
  simpl in Hs. apply andb_true_iff in Hs as [Hd Hs]. rewrite string_app_cons. simpl.
  rewrite Hd. by apply IH.
Qed.

Lemma words_go_words cur s :
  no_space cur = true ->
  Forall (fun w => no_space w = true /\ w <> EmptyString) (words_go cur s).
Proof.
  revert cur. induction s as [|c s IH]; intros cur Hcur; simpl.
  - destruct cur; [constructor|by repeat constructor].
  - destruct (is_space c) eqn:Hc.
    + destruct cur; [by apply IH|]. constructor; [done|by apply IH].
    + apply IH. by apply no_space_snoc.
Qed.

Lemma break_lines_words cur s :
  words_go cur s =
  words_go cur (break_lines s).1 ++ concat (stream_words <$> (break_lines s).2).
Proof.
  revert cur. induction s as [|c s IH]; intros cur; simpl; [by rewrite app_nil_r|].
  destruct (break_lines s) as [l ls]. simpl in IH.
  destruct (bool_decide_reflect (c = newline)) as [->|Hne]; simpl.
  - rewrite !IH. by destruct cur.
  - destruct (is_space c); [|apply IH]. destruct cur; [apply IH|]. simpl. by rewrite IH.
Qed.

(** ** Wrapping keeps the words *)

(** The lines of a text, the first of width [cur] and the others of width [width]: words joined
    by single spaces, short enough unless it is one word, and broken only where the next word
    would not have fitted. *)
Fixpoint fits (width cur : nat) (lines : list string) : Prop :=
  match lines with
  | [] => True
  | l :: rest =>
      l = join_words (stream_words l) /\
      (length (stream_words l) <= 1 \/ Glyphs l <= cur) /\
      match rest with
      | [] => True
      | l' :: _ =>
          match stream_words l' with w :: _ => cur < Glyphs l + 1 + Glyphs w | [] => False end
      end /\
      fits width width rest
  end.

Definition has_glyph (w : string) : Prop := 0 < Glyphs w.
#[export] Instance has_glyph_dec w : Decision (has_glyph w).
Proof. unfold has_glyph. apply _. Defined.

Lemma greedy_fits width cur parts :
  Forall (Forall (fun w => no_space w = true /\ w <> EmptyString)) parts ->
  greedy width cur parts -> fits width cur (join_words <$> parts).
Proof.
  intros Hw. revert cur. induction Hw as [|ws parts Hws Hw IH]; intros cur; [done|].
  intros ([Hne Hlen] & Hnext & Hrest). rewrite fmap_cons. cbn [fits].
  rewrite stream_words_join by done. split_and!; [done|done| |by apply IH].
  destruct Hw as [|ws' parts' Hws' Hw']; [done|]. rewrite fmap_cons. simpl.
  rewrite stream_words_join by done. destruct Hrest as ([Hne' _] & _). by destruct ws'.
Qed.

Lemma wrap_line_ok s width first :
  concat (stream_words <$> wrap_line s width first) = filter has_glyph (stream_words s) /\
  fits width (if first =? 0 then width else first) (wrap_line s width first).
Proof.
  unfold wrap_line.
  destruct (wrap_loop_spec width (if first =? 0 then width else first) []
    (stream_words s ++ [EmptyString])) as (parts & Hp & Hc & Hok & _);
    [constructor|by left|].
  simpl in Hp. rewrite Hp. simpl in Hc. rewrite filter_app, filter_cons_False in Hc by (simpl; lia).
  simpl in Hc. rewrite app_nil_r in Hc.
  assert (Forall (Forall (fun w => no_space w = true /\ w <> EmptyString)) parts) as Hwords.
  { apply Forall_concat. rewrite Hc. apply Forall_forall. intros w [_ Hin]%list_elem_of_filter.
    revert w Hin. apply Forall_forall. by apply words_go_words. }
  split; [|by apply greedy_fits].
  assert (stream_words <$> (join_words <$> parts) = parts) as ->; [|exact Hc].
  clear -Hwords. induction Hwords as [|ws parts Hws _ IH]; [done|]. rewrite !fmap_cons, IH.
  by rewrite stream_words_join.
Qed.

Lemma wrap_lines_words ls width :
  concat (stream_words <$> concat ((fun x => wrap_line x width 0) <$> ls)) =
  filter has_glyph (concat (stream_words <$> ls)).
Proof.
  induction ls as [|x ls IH]; [done|]. rewrite !fmap_cons. simpl.
  rewrite fmap_app, concat_app, IH, filter_app. f_equal. apply wrap_line_ok.
Qed.

Lemma Wrap_words s width first :
  concat (stream_words <$> Wrap s width first) = filter has_glyph (stream_words s).
Proof.
  pose proof (break_lines_words EmptyString s) as Hb.
  unfold Wrap. destruct (break_lines s) as [l ls]. simpl in Hb.
  fold (stream_words s) (stream_words l) in Hb. rewrite Hb. clear Hb. destruct ls as [|l2 ls].
  - simpl. rewrite app_nil_r. apply wrap_line_ok.
  - apply (wrap_lines_words (l :: l2 :: ls)).
Qed.

(** A text without line breaks. *)
Definition unbroken (s : string) : Prop := forall l r, s <> l +:+ String newline r.

Lemma unbroken_lines s : unbroken s -> break_lines s = (s, []).
Proof.
  induction s as [|c s IH]; intros Hs; [done|]. simpl.
  rewrite IH by (intros l r ->; by apply (Hs (String c l) r)).
  rewrite bool_decide_eq_false_2; [done|]. intros ->. by apply (Hs EmptyString s).
Qed.

Lemma Wrap_fits s width first :
  unbroken s -> fits width (if first =? 0 then width else first) (Wrap s width first).
Proof. intros Hs. unfold Wrap. rewrite unbroken_lines by done. apply wrap_line_ok. Qed.

(** The recursion of the source on the first line break. *)
Lemma Wrap_newline a b width first :
  unbroken a ->
  Wrap (a +:+ String newline b) width first = Wrap a width 0 ++ Wrap b width 0.
Proof.
  intros Ha.
  assert (break_lines (a +:+ String newline b) = (a, (break_lines b).1 :: (break_lines b).2)) as H2.
  { induction a as [|c a IH]; [simpl; by destruct (break_lines b)|].
    rewrite string_app_cons. simpl. rewrite IH by (intros l r ->; by apply (Ha (String c l) r)).
    rewrite bool_decide_eq_false_2; [done|]. intros ->. by apply (Ha EmptyString a). }
  unfold Wrap. rewrite (unbroken_lines a Ha), H2. destruct (break_lines b) as [l [|l2 ls]]; simpl; by rewrite ?app_nil_r.
Qed.
