(* ===== verification/Args.v ===== *)
(** * Arguments and groups of the command line parser

    The classes of src/include/args.h that make up a command line: matchers, flags of every
    class, positionals of every class, and groups with their validators.  Flags and
    positionals live in a store and the children of a group refer to them by index, as the
    source refers to them by pointer.  Of the value readers those of [int] and
    [std::string] are modelled, as the program has no others.  A call that throws ends the
    parse, and the status it leaves behind is not modelled: after an exception main prints
    the menu only, which shows no status and no value. *)

From Stdlib Require Import ZArith Lia Ascii String.
From stdpp Require Import base list strings.
From S2P Require Import Prelude Text Exceptions.

Open Scope Z_scope.

(** ** Flags *)

(** What is matched: a character of a short argument or the name of a long one. *)
Inductive flag_arg :=
| AShort (c : ascii)
| ALong (s : string).

(** [EitherFlag]: the initialisers of a matcher. *)
Inductive EitherFlag :=
| EShort (shortFlag : ascii)
| ELong (longFlag : string).

(** [EitherFlag::GetLong] and [EitherFlag::GetShort]; the sets keep the order of first
    insertion here, which no theorem relies on. *)
Definition GetLong (flags : list EitherFlag) : list string :=
  omap (fun f => match f with ELong s => Some s | EShort _ => None end) flags.
Definition GetShort (flags : list EitherFlag) : list ascii :=
  omap (fun f => match f with EShort c => Some c | ELong _ => None end) flags.

Record Matcher := mkMatcher {
  shortFlags : list ascii;
  longFlags : list string
}.

Definition make_Matcher (flags : list EitherFlag) : Matcher :=
  mkMatcher (remove_dups (GetShort flags)) (remove_dups (GetLong flags)).

(** The constructor from separate short and long flags. *)
Definition make_Matcher_from (shortIn : list ascii) (longIn : list string) : Matcher :=
  mkMatcher (remove_dups shortIn) (remove_dups longIn).

(** [Matcher::Match]. *)
Definition Matcher_Match (m : Matcher) (arg : flag_arg) : bool :=
  match arg with
  | AShort c => bool_decide (c ∈ shortFlags m)
  | ALong s => bool_decide (s ∈ longFlags m)
  end.

(** ** Values

    The types the value classes are instantiated with: [int] and [std::string]. *)

Inductive value_type := TInt | TString.

Inductive value :=
| VInt (z : Z)
| VString (s : string).

#[export] Instance value_eq_dec : EqDecision value.
Proof. solve_decision. Defined.

Definition type_of (v : value) : value_type :=
  match v with VInt _ => TInt | VString _ => TString end.

(** [os << v]. *)
Definition print_value (v : value) : string :=
  match v with VInt z => print_signed z | VString s => s end.

(** [stream >> destination] for an [int]: the value stored, and what is left of the
    text.  Nothing is stored when only whitespace is left; 0 is stored when no digit
    follows; an out-of-range number is clamped. *)
Definition stream_int (destination : Z) (s : string) : Z * string :=
  match skip_spaces s with
  | EmptyString => (destination, EmptyString)
  | s1 =>
      let '(sg, s2) := read_sign s1 in
      let '(v, k, rest) := read_digits 0 0 s2 in
      if (k =? 0)%nat then (0, rest)
      else
        let r := sg * v in
        ((if INT_MAX <? r then INT_MAX else if r <? INT_MIN then INT_MIN else r), rest)
  end.

(** [ValueReader::operator()], and its specialisation to strings. *)
Definition ValueReader (name text : string) (destination : value) : result exn value :=
  match destination with
  | VInt d =>
      let '(r, rest) := stream_int d text in
      match rest with
      | EmptyString => Ok (VInt r)
      | _ => Throw (ParseError ("Argument '" +:+ name +:+
               "' received invalid value type '" +:+ text +:+ "'"))
      end
  | VString _ => Ok (VString text)
  end.

(** The map of a mapping class, by the pairs it holds, and [map.find]. *)
Notation value_map := (list (value * value)).

Fixpoint map_find (key : value) (m : value_map) : option value :=
  match m with
  | [] => None
  | (k, v) :: m' => if bool_decide (k = key) then Some v else map_find key m'
  end.

(** The four mapping classes read a key and look it up; [fresh] is the content of their
    local variable [key] before it is read. *)
Definition read_mapped (name text : string) (fresh : value) (m : value_map)
  : result exn value :=
  (let! key := ValueReader name text fresh in
   match map_find key m with
   | Some v => Ok v
   | None => Throw (MapError ("Could not find key '" +:+ print_value key +:+
               "' in map for arg '" +:+ name +:+ "'"))
   end)%tom.

(** What an argument holds: nothing, a count, a value, or the values of a list class. *)
Inductive stored :=
| NoValue
| Count (count : Z)
| One (v : value)
| Many (values : list value).

Definition values_of (s : stored) : list value :=
  match s with Many l => l | _ => [] end.

(** The classes of flags: [Flag], [HelpFlag], [CounterFlag], [ValueFlag<T>],
    [ValueFlagList<T>], [MapFlag<K, T>] and [MapFlagList<K, T>].  [fresh] is what the
    uninitialised local variable of [ParseValue] holds (the empty string for a
    [std::string]; any number for an [int], taken to be the same in every call of one
    flag), so that it also gives the type read. *)
Inductive flag_kind :=
| KFlag
| KHelp
| KCounter (startcount : Z)
| KValue (T : value_type)
| KValueList (fresh : value)
| KMap (fresh : value) (T : value_type) (map : value_map)
| KMapList (fresh : value) (T : value_type) (map : value_map).

Record FlagBase := mkFlag {
  fl_name : string;
  fl_help : string;
  fl_matcher : Matcher;
  fl_extraError : bool;
  fl_kickout : bool;
  fl_kind : flag_kind;
  fl_matched : bool;
  fl_value : stored
}.

Definition set_matched (f : FlagBase) (b : bool) : FlagBase :=
  mkFlag (fl_name f) (fl_help f) (fl_matcher f) (fl_extraError f) (fl_kickout f)
    (fl_kind f) b (fl_value f).
Definition set_value (f : FlagBase) (v : stored) : FlagBase :=
  mkFlag (fl_name f) (fl_help f) (fl_matcher f) (fl_extraError f) (fl_kickout f)
    (fl_kind f) (fl_matched f) v.

Definition arg_text (arg : flag_arg) : string :=
  match arg with AShort c => String c EmptyString | ALong s => s end.

(** [FlagBase::Match]: the flag after the call when it matches. *)
Definition FlagBase_Match (f : FlagBase) (arg : flag_arg) : result exn (option FlagBase) :=
  if Matcher_Match (fl_matcher f) arg then
    if fl_extraError f && fl_matched f then
      Throw (ExtraError ("Flag '" +:+ arg_text arg +:+
        "' was passed multiple times, but is only allowed to be passed once"))
    else Ok (Some (set_matched f true))
  else Ok None.

(** The overrides of [Match]: a [HelpFlag] throws when it matches, a [CounterFlag] counts
    its matches. *)
Definition HelpFlag_Match (f : FlagBase) (arg : flag_arg) : result exn (option FlagBase) :=
  (let! r := FlagBase_Match f arg in
   match r with
   | Some _ => Throw (Help (arg_text arg))
   | None => Ok None
   end)%tom.

(** [++count] on an [int]; beyond the largest value, where the language defines nothing, the
    wrap-around of the machine is taken. *)
Definition increment (f : FlagBase) : FlagBase :=
  match fl_value f with Count n => set_value f (Count (i32 (n + 1))) | _ => f end.

Definition CounterFlag_Match (f : FlagBase) (arg : flag_arg)
  : result exn (option FlagBase) :=
  (let! me := FlagBase_Match f arg in Ok (increment <$> me))%tom.

(** The virtual [Match]. *)
Definition Flag_Match (f : FlagBase) (arg : flag_arg) : result exn (option FlagBase) :=
  match fl_kind f with
  | KHelp => HelpFlag_Match f arg
  | KCounter _ => CounterFlag_Match f arg
  | _ => FlagBase_Match f arg
  end.

(** [dynamic_cast<ValueFlagBase *>]. *)
Definition takes_value (f : FlagBase) : bool :=
  match fl_kind f with
  | KFlag | KHelp | KCounter _ => false
  | KValue _ | KValueList _ | KMap _ _ _ | KMapList _ _ _ => true
  end.

(** The overrides of [ParseValue]. *)
Definition ValueFlag_ParseValue (f : FlagBase) (text : string) : result exn FlagBase :=
  match fl_value f with
  | One v => (let! v' := ValueReader (fl_name f) text v in Ok (set_value f (One v')))%tom
  | _ => Ok f
  end.

Definition ValueFlagList_ParseValue (fresh : value) (f : FlagBase) (text : string)
  : result exn FlagBase :=
  (let! v := ValueReader (fl_name f) text fresh in
   Ok (set_value f (Many (values_of (fl_value f) ++ [v]))))%tom.

Definition MapFlag_ParseValue (fresh : value) (m : value_map) (f : FlagBase) (text : string)
  : result exn FlagBase :=
  (let! v := read_mapped (fl_name f) text fresh m in Ok (set_value f (One v)))%tom.

Definition MapFlagList_ParseValue (fresh : value) (m : value_map) (f : FlagBase)
    (text : string) : result exn FlagBase :=
  (let! v := read_mapped (fl_name f) text fresh m in
   Ok (set_value f (Many (values_of (fl_value f) ++ [v]))))%tom.

(** The virtual [ParseValue]. *)
Definition Flag_ParseValue (f : FlagBase) (text : string) : result exn FlagBase :=
  match fl_kind f with
  | KFlag | KHelp | KCounter _ => Ok f
  | KValue _ => ValueFlag_ParseValue f text
  | KValueList fresh => ValueFlagList_ParseValue fresh f text
  | KMap fresh _ m => MapFlag_ParseValue fresh m f text
  | KMapList fresh _ m => MapFlagList_ParseValue fresh m f text
  end.

(** The virtual [Name]: the list classes add three dots. *)
Definition flag_Name (f : FlagBase) : string :=
  match fl_kind f with
  | KValueList _ | KMapList _ _ _ => fl_name f +:+ "..."
  | _ => fl_name f
  end.

(** [Base::Reset] and its overrides: the status, the count, and the values of the list
    classes; a single value keeps what it was last assigned. *)
Definition Base_Reset (f : FlagBase) : FlagBase := set_matched f false.

Definition CounterFlag_Reset (startcount : Z) (f : FlagBase) : FlagBase :=
  set_value (Base_Reset f) (Count startcount).

Definition ValueFlagList_Reset (f : FlagBase) : FlagBase :=
  set_value (Base_Reset f) (Many []).

Definition MapFlagList_Reset (f : FlagBase) : FlagBase :=
  set_value (Base_Reset f) (Many []).

Definition Flag_Reset (f : FlagBase) : FlagBase :=
  match fl_kind f with
  | KCounter startcount => CounterFlag_Reset startcount f
  | KValueList _ => ValueFlagList_Reset f
  | KMapList _ _ _ => MapFlagList_Reset f
  | _ => Base_Reset f
  end.

(** [KickOut]. *)
Definition flag_KickOut (f : FlagBase) (kickout_ : bool) : FlagBase :=
  mkFlag (fl_name f) (fl_help f) (fl_matcher f) (fl_extraError f) kickout_
    (fl_kind f) (fl_matched f) (fl_value f).

(** ** Positionals *)

(** [Positional<T>], [PositionalList<T>], [MapPositional<K, T>] and
    [MapPositionalList<K, T>]. *)
Inductive positional_kind :=
| PValue (T : value_type)
| PValueList (fresh : value)
| PMap (fresh : value) (T : value_type) (map : value_map)
| PMapList (fresh : value) (T : value_type) (map : value_map).

Record PositionalBase := mkPositional {
  po_name : string;
  po_help : string;
  po_kickout : bool;
  po_kind : positional_kind;
  po_ready : bool;
  po_matched : bool;
  po_value : stored
}.

(** A positional after it took a value: [ready] is what it becomes. *)
Definition took (p : PositionalBase) (ready : bool) (v : stored) : PositionalBase :=
  mkPositional (po_name p) (po_help p) (po_kickout p) (po_kind p) ready true v.

(** The overrides of [ParseValue]: a single positional is ready no longer, a list stays
    ready. *)
Definition Positional_ParseValue (p : PositionalBase) (text : string)
  : result exn PositionalBase :=
  match po_value p with
  | One v => (let! v' := ValueReader (po_name p) text v in Ok (took p false (One v')))%tom
  | s => Ok (took p false s)
  end.

Definition PositionalList_ParseValue (fresh : value) (p : PositionalBase) (text : string)
  : result exn PositionalBase :=
  (let! v := ValueReader (po_name p) text fresh in
   Ok (took p (po_ready p) (Many (values_of (po_value p) ++ [v]))))%tom.

Definition MapPositional_ParseValue (fresh : value) (m : value_map) (p : PositionalBase)
    (text : string) : result exn PositionalBase :=
  (let! v := read_mapped (po_name p) text fresh m in Ok (took p false (One v)))%tom.

Definition MapPositionalList_ParseValue (fresh : value) (m : value_map)
    (p : PositionalBase) (text : string) : result exn PositionalBase :=
  (let! v := read_mapped (po_name p) text fresh m in
   Ok (took p (po_ready p) (Many (values_of (po_value p) ++ [v]))))%tom.

(** The virtual [ParseValue]. *)
Definition Pos_ParseValue (p : PositionalBase) (text : string) : result exn PositionalBase :=
  match po_kind p with
  | PValue _ => Positional_ParseValue p text
  | PValueList fresh => PositionalList_ParseValue fresh p text
  | PMap fresh _ m => MapPositional_ParseValue fresh m p text
  | PMapList fresh _ m => MapPositionalList_ParseValue fresh m p text
  end.

(** The virtual [Name]. *)
Definition pos_Name (p : PositionalBase) : string :=
  match po_kind p with
  | PValueList _ | PMapList _ _ _ => po_name p +:+ "..."
  | _ => po_name p
  end.

(** [PositionalBase::Reset] and its overrides. *)
Definition PositionalBase_Reset (p : PositionalBase) : PositionalBase :=
  mkPositional (po_name p) (po_help p) (po_kickout p) (po_kind p) true false (po_value p).

Definition PositionalList_Reset (p : PositionalBase) : PositionalBase :=
  mkPositional (po_name p) (po_help p) (po_kickout p) (po_kind p) true false (Many []).

Definition MapPositionalList_Reset (p : PositionalBase) : PositionalBase :=
  mkPositional (po_name p) (po_help p) (po_kickout p) (po_kind p) true false (Many []).

Definition Pos_Reset (p : PositionalBase) : PositionalBase :=
  match po_kind p with
  | PValueList _ => PositionalList_Reset p
  | PMapList _ _ _ => MapPositionalList_Reset p
  | _ => PositionalBase_Reset p
  end.

(** [KickOut]. *)
Definition pos_KickOut (p : PositionalBase) (kickout_ : bool) : PositionalBase :=
  mkPositional (po_name p) (po_help p) kickout_ (po_kind p) (po_ready p) (po_matched p)
    (po_value p).

(** ** Groups *)

Inductive Validator :=
| Xor | AtLeastOne | AtMostOne | All | AllOrNone | AllChildGroups
| DontCare | CareTooMuch | NoneMatched.

Inductive child :=
| ChFlag (i : nat)
| ChPositional (i : nat)
| ChGroup (help : string) (validator : Validator) (children : list child).

(** [Group::Add]: a reference to a group is the path of positions from the parser to it. *)
Fixpoint Group_Add (path : list nat) (c : child) (cs : list child) : list child :=
  match path with
  | [] => cs ++ [c]
  | k :: path' =>
      alter (fun g => match g with
                      | ChGroup help v l => ChGroup help v (Group_Add path' c l)
                      | _ => g
                      end) k cs
  end.

(** [Group::Match]: the first flag that matches, with its new state. *)
Fixpoint child_match (flags : list FlagBase) (arg : flag_arg) (c : child)
  : result exn (option (nat * FlagBase)) :=
  match c with
  | ChFlag i =>
      match flags !! i with
      | None => Ok None
      | Some f =>
          (let! r := Flag_Match f arg in
           Ok (match r with Some f' => Some (i, f') | None => None end))%tom
      end
  | ChPositional _ => Ok None
  | ChGroup _ _ cs =>
      (fix go (l : list child) : result exn (option (nat * FlagBase)) :=
         match l with
         | [] => Ok None
         | c' :: l' =>
             match child_match flags arg c' with
             | Throw e => Throw e
             | Ok (Some r) => Ok (Some r)
             | Ok None => go l'
             end
         end) cs
  end.

Fixpoint Group_Match (flags : list FlagBase) (arg : flag_arg) (cs : list child)
  : result exn (option (nat * FlagBase)) :=
  match cs with
  | [] => Ok None
  | c :: cs' =>
      match child_match flags arg c with
      | Throw e => Throw e
      | Ok (Some r) => Ok (Some r)
      | Ok None => Group_Match flags arg cs'
      end
  end.

(** [Group::GetNextPositional]: the index of the first ready positional. *)
Fixpoint next_positional (pos : list PositionalBase) (c : child) : option nat :=
  match c with
  | ChFlag _ => None
  | ChPositional i =>
      match pos !! i with
      | Some p => if po_ready p then Some i else None
      | None => None
      end
  | ChGroup _ _ cs =>
      (fix go (l : list child) : option nat :=
         match l with
         | [] => None
         | c' :: l' =>
             match next_positional pos c' with Some i => Some i | None => go l' end
         end) cs
  end.

Fixpoint GetNextPositional (pos : list PositionalBase) (cs : list child) : option nat :=
  match cs with
  | [] => None
  | c :: cs' =>
      match next_positional pos c with Some i => Some i | None => GetNextPositional pos cs' end
  end.

(** [MatchedChildren], on the children seen as which of them are groups, which are matched. *)
Definition MatchedChildren (ms : list (bool * bool)) : nat :=
  length (filter (fun m => m.2 = true) ms).

(** The validators. *)
Definition validate (v : Validator) (ms : list (bool * bool)) : bool :=
  let matched := MatchedChildren ms in
  match v with
  | Xor => (matched =? 1)%nat
  | AtLeastOne => (1 <=? matched)%nat
  | AtMostOne => (matched <=? 1)%nat
  | All => (length ms =? matched)%nat
  | AllOrNone => (length ms =? matched)%nat || (matched =? 0)%nat
  | AllChildGroups => forallb (fun m => negb (m.1 && negb m.2)) ms
  | DontCare => true
  | CareTooMuch => false
  | NoneMatched => (matched =? 0)%nat
  end.

Definition is_group (c : child) : bool :=
  match c with ChGroup _ _ _ => true | _ => false end.

(** [Matched]: of a flag, a positional, or the validator of a group. *)
Fixpoint child_matched (flags : list FlagBase) (pos : list PositionalBase) (c : child) : bool :=
  match c with
  | ChFlag i => match flags !! i with Some f => fl_matched f | None => false end
  | ChPositional i => match pos !! i with Some p => po_matched p | None => false end
  | ChGroup _ v cs =>
      validate v ((fix go (l : list child) : list (bool * bool) :=
        match l with
        | [] => []
        | c' :: l' => (is_group c', child_matched flags pos c') :: go l'
        end) cs)
  end.
