(* ===== verification/ArgParse.v ===== *)
(** * The command line parser

    [ArgumentParser] of src/include/args.h: its settings, the constructors that add
    arguments to it, and [ParseArgs] with [ParseCLI]. *)

From Stdlib Require Import ZArith Lia Ascii String.
From stdpp Require Import base list strings.
From S2P Require Import Prelude Text Exceptions Args.

Open Scope Z_scope.

Record ArgumentParser := mkParser {
  ap_prog : string;
  ap_proglinePostfix : string;
  ap_description : string;
  ap_epilog : string;
  ap_longprefix : string;
  ap_shortprefix : string;
  ap_longseparator : string;
  ap_terminator : string;
  ap_allowJoinedShortValue : bool;
  ap_allowJoinedLongValue : bool;
  ap_allowSeparateShortValue : bool;
  ap_allowSeparateLongValue : bool;
  ap_flags : list FlagBase;
  ap_positionals : list PositionalBase;
  ap_children : list child
}.

Definition set_flags (p : ArgumentParser) (l : list FlagBase) : ArgumentParser :=
  mkParser (ap_prog p) (ap_proglinePostfix p) (ap_description p) (ap_epilog p)
    (ap_longprefix p) (ap_shortprefix p) (ap_longseparator p) (ap_terminator p)
    (ap_allowJoinedShortValue p) (ap_allowJoinedLongValue p)
    (ap_allowSeparateShortValue p) (ap_allowSeparateLongValue p)
    l (ap_positionals p) (ap_children p).
Definition set_positionals (p : ArgumentParser) (l : list PositionalBase) : ArgumentParser :=
  mkParser (ap_prog p) (ap_proglinePostfix p) (ap_description p) (ap_epilog p)
    (ap_longprefix p) (ap_shortprefix p) (ap_longseparator p) (ap_terminator p)
    (ap_allowJoinedShortValue p) (ap_allowJoinedLongValue p)
    (ap_allowSeparateShortValue p) (ap_allowSeparateLongValue p)
    (ap_flags p) l (ap_children p).

(** The constructor. *)
Definition make_ArgumentParser (description epilog : string) : ArgumentParser :=
  mkParser "" "" description epilog "--" "-" "=" "--" true true true true [] [] [].

(** ** Settings *)

(** The setters. *)
Definition Prog (p : ArgumentParser) (prog_ : string) : ArgumentParser :=
  mkParser prog_ (ap_proglinePostfix p) (ap_description p) (ap_epilog p)
    (ap_longprefix p) (ap_shortprefix p) (ap_longseparator p) (ap_terminator p)
    (ap_allowJoinedShortValue p) (ap_allowJoinedLongValue p)
    (ap_allowSeparateShortValue p) (ap_allowSeparateLongValue p)
    (ap_flags p) (ap_positionals p) (ap_children p).

Definition ProglinePostfix (p : ArgumentParser) (proglinePostfix_ : string) : ArgumentParser :=
  mkParser (ap_prog p) proglinePostfix_ (ap_description p) (ap_epilog p)
    (ap_longprefix p) (ap_shortprefix p) (ap_longseparator p) (ap_terminator p)
    (ap_allowJoinedShortValue p) (ap_allowJoinedLongValue p)
    (ap_allowSeparateShortValue p) (ap_allowSeparateLongValue p)
    (ap_flags p) (ap_positionals p) (ap_children p).

Definition Description (p : ArgumentParser) (description_ : string) : ArgumentParser :=
  mkParser (ap_prog p) (ap_proglinePostfix p) description_ (ap_epilog p)
    (ap_longprefix p) (ap_shortprefix p) (ap_longseparator p) (ap_terminator p)
    (ap_allowJoinedShortValue p) (ap_allowJoinedLongValue p)
    (ap_allowSeparateShortValue p) (ap_allowSeparateLongValue p)
    (ap_flags p) (ap_positionals p) (ap_children p).

Definition Epilog (p : ArgumentParser) (epilog_ : string) : ArgumentParser :=
  mkParser (ap_prog p) (ap_proglinePostfix p) (ap_description p) epilog_
    (ap_longprefix p) (ap_shortprefix p) (ap_longseparator p) (ap_terminator p)
    (ap_allowJoinedShortValue p) (ap_allowJoinedLongValue p)
    (ap_allowSeparateShortValue p) (ap_allowSeparateLongValue p)
    (ap_flags p) (ap_positionals p) (ap_children p).

Definition LongPrefix (p : ArgumentParser) (longprefix_ : string) : ArgumentParser :=
  mkParser (ap_prog p) (ap_proglinePostfix p) (ap_description p) (ap_epilog p)
    longprefix_ (ap_shortprefix p) (ap_longseparator p) (ap_terminator p)
    (ap_allowJoinedShortValue p) (ap_allowJoinedLongValue p)
    (ap_allowSeparateShortValue p) (ap_allowSeparateLongValue p)
    (ap_flags p) (ap_positionals p) (ap_children p).

Definition ShortPrefix (p : ArgumentParser) (shortprefix_ : string) : ArgumentParser :=
  mkParser (ap_prog p) (ap_proglinePostfix p) (ap_description p) (ap_epilog p)
    (ap_longprefix p) shortprefix_ (ap_longseparator p) (ap_terminator p)
    (ap_allowJoinedShortValue p) (ap_allowJoinedLongValue p)
    (ap_allowSeparateShortValue p) (ap_allowSeparateLongValue p)
    (ap_flags p) (ap_positionals p) (ap_children p).

Definition assign_longseparator (p : ArgumentParser) (longseparator_ : string) : ArgumentParser :=
  mkParser (ap_prog p) (ap_proglinePostfix p) (ap_description p) (ap_epilog p)
    (ap_longprefix p) (ap_shortprefix p) longseparator_ (ap_terminator p)
    (ap_allowJoinedShortValue p) (ap_allowJoinedLongValue p)
    (ap_allowSeparateShortValue p) (ap_allowSeparateLongValue p)
    (ap_flags p) (ap_positionals p) (ap_children p).

Definition LongSeparator (p : ArgumentParser) (longseparator_ : string)
  : result exn ArgumentParser :=
  match longseparator_ with
  | EmptyString => Throw (UsageError "longseparator can not be set to empty")
  | _ => Ok (assign_longseparator p longseparator_)
  end.

Definition Terminator (p : ArgumentParser) (terminator_ : string) : ArgumentParser :=
  mkParser (ap_prog p) (ap_proglinePostfix p) (ap_description p) (ap_epilog p)
    (ap_longprefix p) (ap_shortprefix p) (ap_longseparator p) terminator_
    (ap_allowJoinedShortValue p) (ap_allowJoinedLongValue p)
    (ap_allowSeparateShortValue p) (ap_allowSeparateLongValue p)
    (ap_flags p) (ap_positionals p) (ap_children p).

Definition SetArgumentSeparations (p : ArgumentParser) (joinedShort joinedLong separateShort
    separateLong : bool) : ArgumentParser :=
  mkParser (ap_prog p) (ap_proglinePostfix p) (ap_description p) (ap_epilog p)
    (ap_longprefix p) (ap_shortprefix p) (ap_longseparator p) (ap_terminator p)
    joinedShort joinedLong separateShort separateLong
    (ap_flags p) (ap_positionals p) (ap_children p).

Definition GetArgumentSeparations (p : ArgumentParser) : bool * bool * bool * bool :=
  (ap_allowJoinedShortValue p, ap_allowJoinedLongValue p,
   ap_allowSeparateShortValue p, ap_allowSeparateLongValue p).

(** ** The constructors of arguments

    Each adds the new object to the group it is given. *)

Definition add_child (p : ArgumentParser) (group : list nat) (c : child) : ArgumentParser :=
  mkParser (ap_prog p) (ap_proglinePostfix p) (ap_description p) (ap_epilog p)
    (ap_longprefix p) (ap_shortprefix p) (ap_longseparator p) (ap_terminator p)
    (ap_allowJoinedShortValue p) (ap_allowJoinedLongValue p)
    (ap_allowSeparateShortValue p) (ap_allowSeparateLongValue p)
    (ap_flags p) (ap_positionals p) (Group_Add group c (ap_children p)).

Definition add_flag (p : ArgumentParser) (group : list nat) (f : FlagBase) : ArgumentParser :=
  set_flags (add_child p group (ChFlag (length (ap_flags p)))) (ap_flags p ++ [f]).

Definition add_positional (p : ArgumentParser) (group : list nat) (o : PositionalBase)
  : ArgumentParser :=
  set_positionals (add_child p group (ChPositional (length (ap_positionals p))))
    (ap_positionals p ++ [o]).

Definition add_Group (p : ArgumentParser) (group : list nat) (help : string) (v : Validator)
  : ArgumentParser := add_child p group (ChGroup help v []).

(** The base class: not matched, not kicking out. *)
Definition make_FlagBase (name help : string) (m : Matcher) (extraError : bool)
    (k : flag_kind) (v : stored) : FlagBase :=
  mkFlag name help m extraError false k false v.

Definition add_Flag (p : ArgumentParser) (group : list nat) (name help : string)
    (m : Matcher) (extraError : bool) : ArgumentParser :=
  add_flag p group (make_FlagBase name help m extraError KFlag NoValue).

Definition add_HelpFlag (p : ArgumentParser) (group : list nat) (name help : string)
    (m : Matcher) : ArgumentParser :=
  add_flag p group (make_FlagBase name help m false KHelp NoValue).

Definition add_CounterFlag (p : ArgumentParser) (group : list nat) (name help : string)
    (m : Matcher) (startcount : Z) : ArgumentParser :=
  add_flag p group (make_FlagBase name help m false (KCounter startcount) (Count startcount)).

Definition add_ValueFlag (p : ArgumentParser) (group : list nat) (name help : string)
    (m : Matcher) (defaultValue : value) (extraError : bool) : ArgumentParser :=
  add_flag p group
    (make_FlagBase name help m extraError (KValue (type_of defaultValue)) (One defaultValue)).

Definition add_ValueFlagList (p : ArgumentParser) (group : list nat) (name help : string)
    (m : Matcher) (fresh : value) (defaultValues : list value) : ArgumentParser :=
  add_flag p group
    (make_FlagBase name help m false (KValueList fresh) (Many defaultValues)).

Definition add_MapFlag (p : ArgumentParser) (group : list nat) (name help : string)
    (m : Matcher) (fresh : value) (map : value_map) (defaultValue : value)
    (extraError : bool) : ArgumentParser :=
  add_flag p group
    (make_FlagBase name help m extraError (KMap fresh (type_of defaultValue) map)
       (One defaultValue)).

Definition add_MapFlagList (p : ArgumentParser) (group : list nat) (name help : string)
    (m : Matcher) (fresh : value) (T : value_type) (map : value_map)
    (defaultValues : list value) : ArgumentParser :=
  add_flag p group
    (make_FlagBase name help m false (KMapList fresh T map) (Many defaultValues)).

(** The base class: ready and not matched. *)
Definition make_PositionalBase (name help : string) (k : positional_kind) (v : stored)
  : PositionalBase := mkPositional name help false k true false v.

Definition add_Positional (p : ArgumentParser) (group : list nat) (name help : string)
    (defaultValue : value) : ArgumentParser :=
  add_positional p group
    (make_PositionalBase name help (PValue (type_of defaultValue)) (One defaultValue)).

Definition add_PositionalList (p : ArgumentParser) (group : list nat) (name help : string)
    (fresh : value) (defaultValues : list value) : ArgumentParser :=
  add_positional p group
    (make_PositionalBase name help (PValueList fresh) (Many defaultValues)).

Definition add_MapPositional (p : ArgumentParser) (group : list nat) (name help : string)
    (fresh : value) (map : value_map) (defaultValue : value) : ArgumentParser :=
  add_positional p group
    (make_PositionalBase name help (PMap fresh (type_of defaultValue) map)
       (One defaultValue)).

Definition add_MapPositionalList (p : ArgumentParser) (group : list nat)
    (name help : string) (fresh : value) (T : value_type) (map : value_map)
    (defaultValues : list value) : ArgumentParser :=
  add_positional p group
    (make_PositionalBase name help (PMapList fresh T map) (Many defaultValues)).

(** ** Status *)

Definition Matched (p : ArgumentParser) : bool :=
  validate AllChildGroups
    ((fun c => (is_group c, child_matched (ap_flags p) (ap_positionals p) c))
       <$> ap_children p).

(** [Group::Reset], which reaches every argument. *)
Definition Reset (p : ArgumentParser) : ArgumentParser :=
  set_positionals (set_flags p (Flag_Reset <$> ap_flags p)) (Pos_Reset <$> ap_positionals p).

(** ** Parsing *)

(** [s] without the prefix [pre], if it has it. *)
Fixpoint strip_prefix (pre s : string) : option string :=
  match pre, s with
  | EmptyString, _ => Some s
  | String a pre', String b s' => if bool_decide (a = b) then strip_prefix pre' s' else None
  | String _ _, EmptyString => None
  end.

(** [s.find(sep)] and the two parts around the first occurrence. *)
Fixpoint find_sub (sep s : string) : option (string * string) :=
  match strip_prefix sep s with
  | Some after => Some (EmptyString, after)
  | None =>
      match s with
      | EmptyString => None
      | String c s' =>
          match find_sub sep s' with
          | Some (before, after) => Some (String c before, after)
          | None => None
          end
      end
  end.

(** The text after a prefix when something follows it: the conditions of the long and of
    the short branch. *)
Definition prefixed (pre chunk : string) : option string :=
  match strip_prefix pre chunk with
  | Some EmptyString => None
  | r => r
  end.

Definition requires_argument (arg : string) : exn :=
  ParseError ("Flag '" +:+ arg +:+ "' requires an argument but received none").
Definition joined_disallowed (arg : string) : exn :=
  ParseError ("Flag '" +:+ arg +:+ "' was passed a joined argument, but these are disallowed").
Definition separate_disallowed (arg : string) : exn :=
  ParseError ("Flag '" +:+ arg +:+
    "' was passed a separate argument, but these are disallowed").

(** A flag of the store takes a value. *)
Definition store_value (p : ArgumentParser) (i : nat) (f : FlagBase) (value : string)
  : result exn ArgumentParser :=
  (let! f' := Flag_ParseValue f value in Ok (set_flags p (<[i := f']> (ap_flags p))))%tom.

(** The answer of the long and of the short branch: the parser, whether the next argument
    was consumed as a value, and whether parsing is kicked out. *)
Notation step_result := (result exn (ArgumentParser * bool * bool)).

(** The long branch of [ParseArgs]; [rest] are the arguments that follow. *)
Definition parse_long (p : ArgumentParser) (chunk argchunk : string) (rest : list string)
  : step_result :=
  let separated :=
    match ap_longseparator p with
    | EmptyString => None
    | sep => find_sub sep argchunk
    end in
  let arg := match separated with Some (a, _) => a | None => argchunk end in
  (let! r := Group_Match (ap_flags p) (ALong arg) (ap_children p) in
   match r with
   | None => Throw (ParseError ("Flag could not be matched: " +:+ arg))
   | Some (i, f) =>
       if takes_value f then
         match separated with
         | Some (_, value) =>
             if ap_allowJoinedLongValue p then
               let! p' := store_value p i f value in Ok (p', false, fl_kickout f)
             else Throw (joined_disallowed arg)
         | None =>
             match rest with
             | [] => Throw (requires_argument arg)
             | value :: _ =>
                 if ap_allowSeparateLongValue p then
                   let! p' := store_value p i f value in Ok (p', true, fl_kickout f)
                 else Throw (separate_disallowed arg)
             end
         end
       else
         match separated with
         | Some _ =>
             Throw (ParseError ("Passed an argument into a non-argument flag: " +:+ chunk))
         | None => Ok (set_flags p (<[i := f]> (ap_flags p)), false, fl_kickout f)
         end
   end)%tom.

(** The short branch: the loop over the characters of the argument.  A value flag ends
    it. *)
Fixpoint parse_short (p : ArgumentParser) (chars : string) (rest : list string)
  : step_result :=
  match chars with
  | EmptyString => Ok (p, false, false)
  | String c value =>
      match Group_Match (ap_flags p) (AShort c) (ap_children p) with
      | Throw e => Throw e
      | Ok None =>
          Throw (ParseError ("Flag could not be matched: '" +:+ String c EmptyString +:+ "'"))
      | Ok (Some (i, f)) =>
          if takes_value f then
            (match value with
             | EmptyString =>
                 match rest with
                 | [] => Throw (requires_argument (String c EmptyString))
                 | v :: _ =>
                     if ap_allowSeparateShortValue p then
                       let! p' := store_value p i f v in Ok (p', true, false)
                     else Throw (separate_disallowed (String c EmptyString))
                 end
             | _ =>
                 if ap_allowJoinedShortValue p then
                   let! p' := store_value p i f value in Ok (p', false, false)
                 else Throw (joined_disallowed (String c EmptyString))
             end)%tom
          else
            let p' := set_flags p (<[i := f]> (ap_flags p)) in
            if fl_kickout f then Ok (p', false, true) else parse_short p' value rest
      end
  end.

(** The positional branch. *)
Definition parse_positional (p : ArgumentParser) (chunk : string) : step_result :=
  match GetNextPositional (ap_positionals p) (ap_children p) with
  | Some i =>
      match ap_positionals p !! i with
      | Some o =>
          (let! o' := Pos_ParseValue o chunk in
           Ok (set_positionals p (<[i := o']> (ap_positionals p)), false, po_kickout o))%tom
      | None => Ok (p, false, false)
      end
  | None =>
      Throw (ParseError
        ("Passed in argument, but no positional arguments were ready to receive it: "
         +:+ chunk))
  end.

(** One argument that is not the terminator: a long flag, short flags, or a positional. *)
Definition parse_chunk (p : ArgumentParser) (terminated : bool) (chunk : string)
    (rest : list string) : step_result :=
  match (if terminated then None else prefixed (ap_longprefix p) chunk),
        (if terminated then None else prefixed (ap_shortprefix p) chunk) with
  | Some argchunk, _ => parse_long p chunk argchunk rest
  | None, Some argchunk => parse_short p argchunk rest
  | None, None => parse_positional p chunk
  end.

(** The loop over the arguments: the parser after it and the arguments not parsed. *)
Fixpoint parse_loop (p : ArgumentParser) (terminated : bool) (args : list string)
  : result exn (ArgumentParser * list string) :=
  match args with
  | [] =>
      if Matched p then Ok (p, [])
      else Throw (ValidationError "Group validation failed somewhere!")
  | chunk :: rest =>
      if negb terminated && bool_decide (chunk = ap_terminator p) then
        parse_loop p true rest
      else
        match parse_chunk p terminated chunk rest with
        | Throw e => Throw e
        | Ok (p', consumed, kicked) =>
            match consumed, rest with
            | true, _ :: rest' =>
                if kicked then Ok (p', rest') else parse_loop p' terminated rest'
            | _, _ => if kicked then Ok (p', rest) else parse_loop p' terminated rest
            end
        end
  end.

(** [ArgumentParser::ParseArgs]. *)
Definition ParseArgs (p : ArgumentParser) (args : list string)
  : result exn (ArgumentParser * list string) := parse_loop (Reset p) false args.

(** The program name is taken from the command line unless it was set. *)
Definition set_prog (p : ArgumentParser) (argv : list string) : ArgumentParser :=
  match ap_prog p, argv with
  | EmptyString, prog :: _ => Prog p prog
  | _, _ => p
  end.

(** [ArgumentParser::ParseCLI]: the parser, and whether all arguments were parsed. *)
Definition ParseCLI (p : ArgumentParser) (argv : list string)
  : result exn (ArgumentParser * bool) :=
  (let! r := ParseArgs (set_prog p argv) (drop 1 argv) in
   Ok (r.1, match r.2 with [] => true | _ => false end))%tom.

(** ** Lemmas *)

(** Steps of the loop that go on. *)
Lemma parse_loop_joined p t chunk rest p' :
  negb t && bool_decide (chunk = ap_terminator p) = false ->
  parse_chunk p t chunk rest = Ok (p', false, false) ->
  parse_loop p t (chunk :: rest) = parse_loop p' t rest.
Proof. intros Ht Hs. cbn [parse_loop]. by rewrite Ht, Hs. Qed.

Lemma parse_loop_separate p t chunk v rest p' :
  negb t && bool_decide (chunk = ap_terminator p) = false ->
  parse_chunk p t chunk (v :: rest) = Ok (p', true, false) ->
  parse_loop p t (chunk :: v :: rest) = parse_loop p' t rest.
Proof. intros Ht Hs. cbn [parse_loop]. by rewrite Ht, Hs. Qed.

Lemma parse_loop_end p t :
  Matched p = true -> parse_loop p t [] = Ok (p, []).
Proof. intros H. cbn [parse_loop]. by rewrite H. Qed.
