(* ===== verification/ArgsHelp.v ===== *)
(** * The help menu

    [ArgumentParser::Help] and the functions it gathers its text with
    (src/include/args.h).  The widths are [unsigned int]s of [HelpParams]; with the
    default values no subtraction goes below zero, and [nat] subtraction is exact. *)

From Stdlib Require Import ZArith Lia Ascii String.
From stdpp Require Import base list strings.
From S2P Require Import Prelude Text Exceptions Wrap Args ArgParse.

Open Scope nat_scope.

(** [ArgumentParser::HelpParams]. *)
Record HelpParams := mkHelpParams {
  hp_width : nat;
  hp_progindent : nat;
  hp_progtailindent : nat;
  hp_descriptionindent : nat;
  hp_flagindent : nat;
  hp_helpindent : nat;
  hp_eachgroupindent : nat;
  hp_gutter : nat;
  hp_showTerminator : bool;
  hp_showProglineOptions : bool;
  hp_showProglinePositionals : bool
}.

Definition default_help_params : HelpParams :=
  mkHelpParams 120 2 4 4 6 40 2 1 true true true.

(** ** Descriptions *)

(** [Matcher::GetFlagStrings], without and with the name of a value. *)
Definition GetFlagStrings (m : Matcher) (shortPrefix longPrefix : string) : list string :=
  ((fun c => shortPrefix +:+ String c EmptyString) <$> shortFlags m) ++
  ((fun s => longPrefix +:+ s) <$> longFlags m).

Definition GetFlagStrings_named (m : Matcher) (shortPrefix longPrefix name shortSeparator
    longSeparator : string) : list string :=
  let bracedname := "[" +:+ name +:+ "]" in
  ((fun c => shortPrefix +:+ String c EmptyString +:+ shortSeparator +:+ bracedname)
     <$> shortFlags m) ++
  ((fun s => longPrefix +:+ s +:+ longSeparator +:+ bracedname) <$> longFlags m).

Fixpoint comma_list (l : list string) : string :=
  match l with
  | [] => EmptyString
  | [x] => x
  | x :: l' => x +:+ ", " +:+ comma_list l'
  end.

(** The virtual [GetDescription] of flags and value flags. *)
Definition flag_GetDescription (f : FlagBase) (shortPrefix longPrefix shortSeparator
    longSeparator : string) : string * string :=
  (comma_list
     (if takes_value f then
        GetFlagStrings_named (fl_matcher f) shortPrefix longPrefix (flag_Name f)
          shortSeparator longSeparator
      else GetFlagStrings (fl_matcher f) shortPrefix longPrefix),
   fl_help f).

(** [NamedBase::GetDescription], which positionals inherit. *)
Definition pos_GetDescription (p : PositionalBase) : string * string :=
  (pos_Name p, po_help p).

(** [Group::GetChildDescriptions]: flags, help and indent of every child. *)
Fixpoint child_descriptions (flags : list FlagBase) (pos : list PositionalBase)
    (shortPrefix longPrefix shortSeparator longSeparator : string) (indent : nat) (c : child)
  : list (string * string * nat) :=
  match c with
  | ChFlag i =>
      match flags !! i with
      | Some f =>
          [(flag_GetDescription f shortPrefix longPrefix shortSeparator longSeparator, indent)]
      | None => []
      end
  | ChPositional i =>
      match pos !! i with Some p => [(pos_GetDescription p, indent)] | None => [] end
  | ChGroup help _ cs =>
      let header := match help with EmptyString => [] | _ => [(help, EmptyString, indent)] end in
      let indent' := match help with EmptyString => indent | _ => S indent end in
      header ++
      (fix go (l : list child) : list (string * string * nat) :=
         match l with
         | [] => []
         | c' :: l' =>
             child_descriptions flags pos shortPrefix longPrefix shortSeparator longSeparator
               indent' c' ++ go l'
         end) cs
  end.

Definition GetChildDescriptions (p : ArgumentParser) : list (string * string * nat) :=
  concat (child_descriptions (ap_flags p) (ap_positionals p) (ap_shortprefix p)
    (ap_longprefix p) (if ap_allowJoinedShortValue p then EmptyString else " ")
    (if ap_allowJoinedLongValue p then ap_longseparator p else " ") 0 <$> ap_children p).

(** [Group::HasFlag]. *)
Fixpoint child_has_flag (c : child) : bool :=
  match c with
  | ChFlag _ => true
  | ChPositional _ => false
  | ChGroup _ _ cs =>
      (fix go (l : list child) : bool :=
         match l with [] => false | c' :: l' => child_has_flag c' || go l' end) cs
  end.

Definition HasFlag (p : ArgumentParser) : bool := existsb child_has_flag (ap_children p).

(** [Group::GetPosNames]. *)
Fixpoint child_pos_names (pos : list PositionalBase) (c : child) : list string :=
  match c with
  | ChFlag _ => []
  | ChPositional i => match pos !! i with Some p => [pos_Name p] | None => [] end
  | ChGroup _ _ cs =>
      (fix go (l : list child) : list string :=
         match l with [] => [] | c' :: l' => child_pos_names pos c' ++ go l' end) cs
  end.

Definition GetPosNames (p : ArgumentParser) : list string :=
  concat (child_pos_names (ap_positionals p) <$> ap_children p).

(** ** The menu *)

Definition nl : string := String newline EmptyString.

(** [std::string(n, ' ')]. *)
Fixpoint spaces (n : nat) : string :=
  match n with O => EmptyString | S n' => String " "%char (spaces n') end.

Definition indented (n : nat) (lines : list string) : string :=
  fold_right (fun l acc => spaces n +:+ l +:+ nl +:+ acc) EmptyString lines.

Definition progname_line (hp : HelpParams) (p : ArgumentParser) : string :=
  ap_prog p +:+
  (if HasFlag p && hp_showProglineOptions hp then " {OPTIONS}" else EmptyString) +:+
  (if hp_showProglinePositionals hp then
     fold_right (fun n acc => " [" +:+ n +:+ "]" +:+ acc) EmptyString (GetPosNames p)
   else EmptyString) +:+
  (match ap_proglinePostfix p with
   | EmptyString => EmptyString
   | post => " " +:+ post
   end).

(** The lines of the flags, joined by line breaks; the size of the last one. *)
Definition flag_lines (hp : HelpParams) (groupindent : nat) (flags : list string)
  : string * nat :=
  (fold_right (fun l acc =>
     spaces (groupindent + hp_flagindent hp) +:+ l +:+
     match acc with EmptyString => EmptyString | _ => nl +:+ acc end) EmptyString flags,
   match last flags with Some l => Glyphs l | None => 0 end).

(** One entry of the menu: the flags, and the help to the right of them if there is room
    for it. *)
Definition help_entry (hp : HelpParams) (desc : string * string * nat) : string :=
  let '(flag_text, help_text, level) := desc in
  let groupindent := level * hp_eachgroupindent hp in
  let flags :=
    Wrap flag_text (hp_width hp - (hp_flagindent hp + hp_helpindent hp + hp_gutter hp)) 0 in
  let info := Wrap help_text (hp_width hp - (hp_helpindent hp + groupindent)) 0 in
  let '(text, flagssize) := flag_lines hp groupindent flags in
  text +:+
  match info with
  | first :: others =>
      if hp_helpindent hp <? hp_flagindent hp + flagssize + hp_gutter hp then
        nl +:+ indented (groupindent + hp_helpindent hp) info
      else
        spaces (hp_helpindent hp - (hp_flagindent hp + flagssize)) +:+ first +:+ nl +:+
        indented (groupindent + hp_helpindent hp) others
  | [] => nl
  end.

(** [ArgumentParser::Help]. *)
Definition Help_text (hp : HelpParams) (p : ArgumentParser) : string :=
  let description_text := Wrap (ap_description p) (hp_width hp - hp_descriptionindent hp) 0 in
  let epilog_text := Wrap (ap_epilog p) (hp_width hp - hp_descriptionindent hp) 0 in
  let proglines :=
    Wrap (progname_line hp p) (hp_width hp - (hp_progindent hp + 4))
      (hp_width hp - hp_progindent hp) in
  (match proglines with
   | first :: others =>
       spaces (hp_progindent hp) +:+ first +:+ nl +:+ indented (hp_progtailindent hp) others
   | [] => EmptyString
   end) +:+
  nl +:+ indented (hp_descriptionindent hp) description_text +:+ nl +:+
  spaces (hp_progindent hp) +:+ "OPTIONS:" +:+ nl +:+ nl +:+
  fold_right (fun d acc => help_entry hp d +:+ acc) EmptyString (GetChildDescriptions p) +:+
  (if HasFlag p && negb (bool_decide (GetPosNames p = [])) && hp_showTerminator hp then
     indented (hp_flagindent hp)
       (Wrap (String "034"%char EmptyString +:+ ap_terminator p +:+
              String "034"%char EmptyString +:+
              " can be used to terminate flag options and force all " +:+
              "following arguments to be treated as positional options")
          (hp_width hp - hp_flagindent hp) 0)
   else EmptyString) +:+
  nl +:+ indented (hp_descriptionindent hp) epilog_text.

(** [ArgumentParser::Help] into a string, and the parser written to a stream. *)
Definition Help_string (p : ArgumentParser) : string := Help_text default_help_params p.

Definition print_ArgumentParser (os : string) (p : ArgumentParser) : string :=
  os +:+ Help_text default_help_params p.
