(* ===== verification/ArgsProps.v ===== *)
(** * Properties of the command line parser

    Types: a parse keeps the classes, names and settings of all arguments and stores values
    of the declared types only.  Behaviour: what repeated flags, list classes and the
    terminator collect, for any parser they are added to. *)

From Stdlib Require Import ZArith Lia Ascii String.
From stdpp Require Import base list strings.
From S2P Require Import Prelude Text Exceptions Wrap Args ArgParse ArgsHelp.

Open Scope Z_scope.

(** ** Groups by induction *)

Section ChildInd.
Context (P : child -> Prop).
Hypothesis Hflag : forall i, P (ChFlag i).
Hypothesis Hpos : forall i, P (ChPositional i).
Hypothesis Hgroup : forall help v cs, Forall P cs -> P (ChGroup help v cs).

Fixpoint child_nested_ind (c : child) : P c :=
  match c with
  | ChFlag i => Hflag i
  | ChPositional i => Hpos i
  | ChGroup help v cs =>
      Hgroup help v cs
        ((fix go (l : list child) : Forall P l :=
            match l with
            | [] => List.Forall_nil P
            | c' :: l' => List.Forall_cons P c' l' (child_nested_ind c') (go l')
            end) cs)
  end.

End ChildInd.

Lemma child_match_group flags arg help v cs :
  child_match flags arg (ChGroup help v cs) = Group_Match flags arg cs.
Proof.
  cbn [child_match]. induction cs as [|c cs IH]; [done|]. cbn [Group_Match].
  destruct (child_match flags arg c) as [[r|]|e]; [done|exact IH|done].
Qed.

Lemma next_positional_group pos help v cs :
  next_positional pos (ChGroup help v cs) = GetNextPositional pos cs.
Proof.
  cbn [next_positional]. induction cs as [|c cs IH]; [done|]. cbn [GetNextPositional].
  destruct (next_positional pos c); [done|exact IH].
Qed.

(** [Match] answers with a flag of the store, in the state its own [Match] leaves it. *)
Definition match_ok (flags : list FlagBase) (arg : flag_arg)
    (r : result exn (option (nat * FlagBase))) : Prop :=
  forall i f', r = Ok (Some (i, f')) ->
    exists f, flags !! i = Some f /\ Flag_Match f arg = Ok (Some f').

Lemma Group_Match_ok flags arg cs :
  Forall (fun c => match_ok flags arg (child_match flags arg c)) cs ->
  match_ok flags arg (Group_Match flags arg cs).
Proof.
  induction 1 as [|c cs Hc _ IH]; [done|]. cbn [Group_Match].
  destruct (child_match flags arg c) as [[r|]|e]; [exact Hc|exact IH|done].
Qed.

Lemma child_match_ok flags arg c : match_ok flags arg (child_match flags arg c).
Proof.
  induction c as [i|i|help v cs IH] using child_nested_ind.
  - intros j f'. cbn [child_match]. destruct (flags !! i) as [f|] eqn:Hi; [|done].
    destruct (Flag_Match f arg) as [[g|]|e] eqn:Hm; cbn; intros [= <- <-]. by exists f.
  - done.
  - rewrite child_match_group. by apply Group_Match_ok.
Qed.

Lemma Group_Match_spec flags arg cs i f' :
  Group_Match flags arg cs = Ok (Some (i, f')) ->
  exists f, flags !! i = Some f /\ Flag_Match f arg = Ok (Some f').
Proof. apply Group_Match_ok. apply Forall_forall. intros c _. apply child_match_ok. Qed.

(** ** Shapes and types *)

(** What a parse never changes of a flag, of a positional, of the parser. *)
Definition flag_static (f : FlagBase) :=
  (fl_name f, fl_help f, fl_matcher f, fl_extraError f, fl_kickout f, fl_kind f).
Definition pos_static (o : PositionalBase) :=
  (po_name o, po_help o, po_kickout o, po_kind o).
Definition shape (p : ArgumentParser) :=
  (flag_static <$> ap_flags p, pos_static <$> ap_positionals p,
   set_positionals (set_flags p []) []).

(** A value of type [T]; integers are in the range of [int]. *)
Definition typed (T : value_type) (v : value) : Prop :=
  type_of v = T /\ match v with VInt z => INT_MIN <= z <= INT_MAX | VString _ => True end.

Definition map_typed (K T : value_type) (m : value_map) : Prop :=
  Forall (fun kv => typed K kv.1 /\ typed T kv.2) m.

Definition flag_typed (f : FlagBase) : Prop :=
  match fl_kind f, fl_value f with
  | KFlag, NoValue | KHelp, NoValue => True
  | KCounter startcount, Count n => INT_MIN <= startcount <= INT_MAX /\ INT_MIN <= n <= INT_MAX
  | KValue T, One v => typed T v
  | KValueList fresh, Many l =>
      typed (type_of fresh) fresh /\ Forall (typed (type_of fresh)) l
  | KMap fresh T m, One v =>
      typed (type_of fresh) fresh /\ map_typed (type_of fresh) T m /\ typed T v
  | KMapList fresh T m, Many l =>
      typed (type_of fresh) fresh /\ map_typed (type_of fresh) T m /\ Forall (typed T) l
  | _, _ => False
  end.

Definition pos_typed (o : PositionalBase) : Prop :=
  match po_kind o, po_value o with
  | PValue T, One v => typed T v
  | PValueList fresh, Many l =>
      typed (type_of fresh) fresh /\ Forall (typed (type_of fresh)) l
  | PMap fresh T m, One v =>
      typed (type_of fresh) fresh /\ map_typed (type_of fresh) T m /\ typed T v
  | PMapList fresh T m, Many l =>
      typed (type_of fresh) fresh /\ map_typed (type_of fresh) T m /\ Forall (typed T) l
  | _, _ => False
  end.

Definition parser_typed (p : ArgumentParser) : Prop :=
  Forall flag_typed (ap_flags p) /\ Forall pos_typed (ap_positionals p).

(** ** Reading values *)

Lemma stream_int_range d s :
  INT_MIN <= d <= INT_MAX -> INT_MIN <= (stream_int d s).1 <= INT_MAX.
Proof.
  intros Hd. unfold stream_int. destruct (skip_spaces s) as [|c r]; [done|].
  destruct (read_sign (String c r)) as [sg s2]. destruct (read_digits 0 0 s2) as [[v k] rest].
  destruct (k =? 0)%nat; simpl; [unfold INT_MIN, INT_MAX; lia|].
  destruct (Z.ltb_spec INT_MAX (sg * v)); simpl; [unfold INT_MIN, INT_MAX; lia|].
  destruct (Z.ltb_spec (sg * v) INT_MIN); simpl; unfold INT_MIN, INT_MAX in *; lia.
Qed.

Lemma ValueReader_typed T name s d v :
  typed T d -> ValueReader name s d = Ok v -> typed T v.
Proof.
  intros [HT Hd]. destruct d as [z|d]; simpl; [|by intros [= <-]].
  pose proof (stream_int_range z s Hd) as Hr. destruct (stream_int z s) as [r rest].
  destruct rest; [|done]. intros [= <-]. by split.
Qed.

Lemma map_find_In k m v : map_find k m = Some v -> exists k', (k', v) ∈ m.
Proof.
  induction m as [|[k' v'] m IH]; simpl; [done|]. destruct (bool_decide (k' = k)).
  - intros [= ->]. exists k'. by left.
  - intros [k'' Hk]%IH. exists k''. by right.
Qed.

Lemma read_mapped_typed K T name s fresh m v :
  map_typed K T m -> read_mapped name s fresh m = Ok v -> typed T v.
Proof.
  intros Hm. unfold read_mapped. destruct (ValueReader _ _ _) as [k|]; [|done]. simpl.
  destruct (map_find k m) as [t|] eqn:E; [|done]. intros [= <-].
  apply map_find_In in E as [k' Hin]. apply (proj1 (Forall_forall _ _) Hm _ Hin).
Qed.

Lemma list_typed_app T l v : Forall (typed T) l -> typed T v -> Forall (typed T) (l ++ [v]).
Proof. intros. by apply Forall_app_2; [|constructor]. Qed.
#[export] Hint Resolve list_typed_app ValueReader_typed read_mapped_typed : tom.

(** ** Flags and positionals evolve *)

Definition flag_evolves (f f' : FlagBase) : Prop :=
  flag_static f' = flag_static f /\ (flag_typed f -> flag_typed f').
Definition pos_evolves (o o' : PositionalBase) : Prop :=
  pos_static o' = pos_static o /\ (pos_typed o -> pos_typed o').

Lemma Flag_Match_evolves f arg f' : Flag_Match f arg = Ok (Some f') -> flag_evolves f f'.
Proof.
  unfold Flag_Match, HelpFlag_Match, CounterFlag_Match, FlagBase_Match.
  destruct (fl_kind f) eqn:Hk, (Matcher_Match _ _), (fl_extraError f && fl_matched f);
    cbn; intros [= <-]; split; try done; unfold increment; simpl;
    destruct (fl_value f) eqn:Hv; try done; unfold flag_typed; simpl; rewrite ?Hk, ?Hv; try done.
  intros [? _]. split; [done|]. apply i32_range.
Qed.

Lemma Flag_Reset_evolves f : flag_evolves f (Flag_Reset f).
Proof.
  unfold flag_evolves, flag_typed, Flag_Reset. destruct (fl_kind f) eqn:Hk; simpl; rewrite ?Hk;
    (split; [done|]); destruct (fl_value f); try done; naive_solver.
Qed.

Lemma Flag_ParseValue_evolves f s f' : Flag_ParseValue f s = Ok f' -> flag_evolves f f'.
Proof.
  unfold Flag_ParseValue, flag_evolves. destruct (fl_kind f) eqn:Hk; try (by intros [= <-]).
  - unfold ValueFlag_ParseValue. destruct (fl_value f) eqn:Hv; try (by intros [= <-]).
    destruct (ValueReader _ _ _) eqn:E; [|done]. intros [= <-]. split; [done|].
    unfold flag_typed. simpl. rewrite Hk, Hv. intros Ht. by eapply ValueReader_typed.
  - unfold ValueFlagList_ParseValue. destruct (ValueReader _ _ _) eqn:E; [|done].
    intros [= <-]. split; [done|]. unfold flag_typed. simpl. rewrite Hk.
    destruct (fl_value f); try done. intros [Hf Hl]. eauto with tom.
  - unfold MapFlag_ParseValue. destruct (read_mapped _ _ _ _) eqn:E; [|done].
    intros [= <-]. split; [done|]. unfold flag_typed. simpl. rewrite Hk.
    destruct (fl_value f); try done. intros (Hf & Hm & _). eauto with tom.
  - unfold MapFlagList_ParseValue. destruct (read_mapped _ _ _ _) eqn:E; [|done].
    intros [= <-]. split; [done|]. unfold flag_typed. simpl. rewrite Hk.
    destruct (fl_value f); try done. intros (Hf & Hm & Hl). eauto 6 with tom.
Qed.

Lemma Pos_Reset_evolves o : pos_evolves o (Pos_Reset o).
Proof.
  unfold pos_evolves, pos_typed, Pos_Reset. destruct (po_kind o) eqn:Hk; simpl; rewrite ?Hk;
    (split; [done|]); destruct (po_value o); try done; naive_solver.
Qed.

Lemma Pos_ParseValue_evolves o s o' : Pos_ParseValue o s = Ok o' -> pos_evolves o o'.
Proof.
  unfold Pos_ParseValue, pos_evolves. destruct (po_kind o) eqn:Hk.
  - unfold Positional_ParseValue. destruct (po_value o) eqn:Hv;
      try (intros [= <-]; split; [done|]; unfold pos_typed; simpl; by rewrite Hk, Hv).
    destruct (ValueReader _ _ _) eqn:E; [|done]. intros [= <-]. split; [done|].
    unfold pos_typed. simpl. rewrite Hk, Hv. intros Ht. by eapply ValueReader_typed.
  - unfold PositionalList_ParseValue. destruct (ValueReader _ _ _) eqn:E; [|done].
    intros [= <-]. split; [done|]. unfold pos_typed. simpl. rewrite Hk.
    destruct (po_value o); try done. intros [Hf Hl]. eauto with tom.
  - unfold MapPositional_ParseValue. destruct (read_mapped _ _ _ _) eqn:E; [|done].
    intros [= <-]. split; [done|]. unfold pos_typed. simpl. rewrite Hk.
    destruct (po_value o); try done. intros (Hf & Hm & _). eauto with tom.
  - unfold MapPositionalList_ParseValue. destruct (read_mapped _ _ _ _) eqn:E; [|done].
    intros [= <-]. split; [done|]. unfold pos_typed. simpl. rewrite Hk.
    destruct (po_value o); try done. intros (Hf & Hm & Hl). eauto 6 with tom.
Qed.

(** ** Parsers evolve *)

Definition evolves (p p' : ArgumentParser) : Prop :=
  shape p' = shape p /\ (parser_typed p -> parser_typed p').

#[export] Instance evolves_preorder : PreOrder evolves.
Proof.
  split; [done|]. intros p1 p2 p3 [H1 T1] [H2 T2]. split; [congruence|auto].
Qed.

Lemma Forall_insert_typed {A} (P : A -> Prop) (l : list A) i x x' :
  l !! i = Some x -> (P x -> P x') -> Forall P l -> Forall P (<[i := x']> l).
Proof.
  intros Hi Hx Hl. apply Forall_insert; [done|]. apply Hx. by eapply Forall_lookup_1.
Qed.

Lemma fmap_insert_same {A B} (g : A -> B) (l : list A) i x x' :
  l !! i = Some x -> g x' = g x -> g <$> <[i := x']> l = g <$> l.
Proof.
  intros Hi Hg. rewrite list_fmap_insert, Hg. apply list_insert_id.
  by rewrite list_lookup_fmap, Hi.
Qed.

Lemma set_flag_evolves p i f f' :
  ap_flags p !! i = Some f -> flag_evolves f f' ->
  evolves p (set_flags p (<[i := f']> (ap_flags p))).
Proof.
  intros Hi [Hs Ht]. split.
  - unfold shape. simpl. by rewrite (fmap_insert_same flag_static _ _ f).
  - intros [H1 H2]. split; [|done]. by eapply Forall_insert_typed.
Qed.

Lemma set_pos_evolves p i o o' :
  ap_positionals p !! i = Some o -> pos_evolves o o' ->
  evolves p (set_positionals p (<[i := o']> (ap_positionals p))).
Proof.
  intros Hi [Hs Ht]. split.
  - unfold shape. simpl. by rewrite (fmap_insert_same pos_static _ _ o).
  - intros [H1 H2]. split; [done|]. by eapply Forall_insert_typed.
Qed.

Lemma Reset_evolves p : evolves p (Reset p).
Proof.
  split.
  - unfold shape. simpl. rewrite <- !list_fmap_compose. f_equal. f_equal;
      apply list_fmap_ext; intros i x _; simpl; apply Flag_Reset_evolves || apply Pos_Reset_evolves.
  - intros [H1 H2]. split; simpl; apply Forall_fmap; eapply Forall_impl; [done| |done|];
      intros x; apply Flag_Reset_evolves || apply Pos_Reset_evolves.
Qed.

Lemma store_value_evolves p i f f' s p' :
  ap_flags p !! i = Some f -> flag_evolves f f' -> store_value p i f' s = Ok p' ->
  evolves p p'.
Proof.
  intros Hi [Hs Ht]. unfold store_value. destruct (Flag_ParseValue f' s) as [g|] eqn:E; [|done].
  apply Flag_ParseValue_evolves in E as [Hs' Ht']. intros [= <-].
  eapply set_flag_evolves; [done|]. split; [congruence|auto].
Qed.

(** The answer of a branch of the parse: the parser has evolved, and the next argument is
    consumed only when there is one. *)
Definition step_ok (p : ArgumentParser) (rest : list string) (r : step_result) : Prop :=
  forall p' consumed kicked, r = Ok (p', consumed, kicked) ->
    evolves p p' /\ (consumed = true -> rest <> []).

Lemma store_step_ok p i f f' s rest consumed kicked :
  ap_flags p !! i = Some f -> flag_evolves f f' -> (consumed = true -> rest <> []) ->
  step_ok p rest
    (let! p' := store_value p i f' s in Ok (p', consumed, kicked))%tom.
Proof.
  intros Hi Hf Hr p' b k. destruct (store_value p i f' s) as [q|] eqn:E; [|done].
  intros [= <- <- <-]. split; [by eapply store_value_evolves|done].
Qed.

Lemma parse_long_ok p chunk argchunk rest : step_ok p rest (parse_long p chunk argchunk rest).
Proof.
  unfold parse_long. cbv zeta.
  set (sep := match ap_longseparator p with EmptyString => None | _ => _ end).
  destruct (Group_Match _ _ _) as [[[i f']|]|e] eqn:Hm; simpl; [|done..].
  apply Group_Match_spec in Hm as (f & Hi & Hf%Flag_Match_evolves).
  destruct (takes_value f').
  - destruct sep as [[a v]|].
    + destruct (ap_allowJoinedLongValue p); [|done]. by eapply store_step_ok.
    + destruct rest as [|v rest]; [done|].
      destruct (ap_allowSeparateLongValue p); [|done]. by eapply store_step_ok.
  - destruct sep; [done|]. intros p' b k [= <- <- <-]. split; [|done].
    by eapply set_flag_evolves.
Qed.

Lemma step_ok_trans p q rest r : evolves p q -> step_ok q rest r -> step_ok p rest r.
Proof.
  intros Hpq Hq p' b k Hr. destruct (Hq p' b k Hr) as [He Hc]. split; [|done].
  by transitivity q.
Qed.

Lemma parse_short_ok p chars rest : step_ok p rest (parse_short p chars rest).
Proof.
  revert p. induction chars as [|c value IH]; intros p; cbn [parse_short].
  { intros p' b k [= <- <- <-]. by split. }
  destruct (Group_Match _ _ _) as [[[i f']|]|e] eqn:Hm; [|done..].
  apply Group_Match_spec in Hm as (f & Hi & Hf%Flag_Match_evolves).
  destruct (takes_value f').
  - destruct value as [|c' value].
    + destruct rest as [|v rest]; [done|].
      destruct (ap_allowSeparateShortValue p); [|done]. by eapply store_step_ok.
    + destruct (ap_allowJoinedShortValue p); [|done]. by eapply store_step_ok.
  - assert (evolves p (set_flags p (<[i := f']> (ap_flags p)))) as He
      by (by eapply set_flag_evolves).
    destruct (fl_kickout f').
    + intros p' b k [= <- <- <-]. by split.
    + eapply step_ok_trans; [exact He|apply IH].
Qed.

Lemma parse_positional_ok p chunk rest : step_ok p rest (parse_positional p chunk).
Proof.
  unfold parse_positional. destruct (GetNextPositional _ _) as [i|]; [|done].
  destruct (ap_positionals p !! i) as [o|] eqn:Hi; [|intros p' b k [= <- <- <-]; by split].
  destruct (Pos_ParseValue o chunk) as [o'|] eqn:E; simpl; [|done].
  intros p' b k [= <- <- <-]. split; [|done].
  eapply set_pos_evolves; [done|]. by eapply Pos_ParseValue_evolves.
Qed.

Lemma parse_chunk_ok p t chunk rest : step_ok p rest (parse_chunk p t chunk rest).
Proof.
  unfold parse_chunk. destruct (if t then None else prefixed (ap_longprefix p) chunk).
  - apply parse_long_ok.
  - destruct (if t then None else prefixed (ap_shortprefix p) chunk);
      [apply parse_short_ok|apply parse_positional_ok].
Qed.

Lemma parse_loop_ok n p t args p' rest :
  (length args <= n)%nat -> parse_loop p t args = Ok (p', rest) ->
  evolves p p' /\ rest `suffix_of` args.
Proof.
  revert p t args. induction n as [|n IH]; intros p t args Hn.
  { destruct args; [|simpl in Hn; lia]. cbn [parse_loop]. destruct (Matched p); intros [= <- <-]. done. }
  destruct args as [|chunk args]; cbn [parse_loop].
  { destruct (Matched p); intros [= <- <-]. done. }
  simpl in Hn. destruct (negb t && _).
  { intros H. destruct (IH p true args ltac:(lia) H) as [He Hs]. split; [done|].
    by apply suffix_cons_r. }
  destruct (parse_chunk p t chunk args) as [[[q consumed] kicked]|e] eqn:Hc; [|done].
  destruct (parse_chunk_ok p t chunk args _ _ _ Hc) as [Hq Hne].
  assert (Hgo : forall more, more `suffix_of` args -> (length more <= n)%nat ->
    (if kicked then Ok (q, more) else parse_loop q t more) = Ok (p', rest) ->
    evolves p p' /\ rest `suffix_of` chunk :: args).
  { intros more Hm Hl. destruct kicked.
    - intros [= <- <-]. split; [done|]. by apply suffix_cons_r.
    - intros H. destruct (IH q t more Hl H) as [He Hs]. split; [by transitivity q|].
      apply suffix_cons_r. by transitivity more. }
  destruct consumed, args as [|v args]; try (apply Hgo; [done|simpl in *; lia]).
  apply Hgo; [by apply suffix_cons_r|simpl in *; lia].
Qed.

(** ** The menu *)

Lemma fmap_lookup_eq {A B} (g : A -> B) (l l' : list A) i :
  g <$> l = g <$> l' -> g <$> (l !! i) = g <$> (l' !! i).
Proof. intros H. by rewrite <- !list_lookup_fmap, H. Qed.

Lemma flag_description_static f f' sp lp ss ls :
  flag_static f = flag_static f' ->
  flag_GetDescription f sp lp ss ls = flag_GetDescription f' sp lp ss ls.
Proof.
  unfold flag_static. intros [= H1 H2 H3 H4 H5 H6].
  unfold flag_GetDescription, takes_value, flag_Name. by rewrite H1, H2, H3, H6.
Qed.

Lemma pos_Name_static o o' : pos_static o = pos_static o' -> pos_Name o = pos_Name o'.
Proof.
  unfold pos_static. intros [= H1 H2 H3 H4]. unfold pos_Name. by rewrite H1, H4.
Qed.

Lemma pos_description_static o o' :
  pos_static o = pos_static o' -> pos_GetDescription o = pos_GetDescription o'.
Proof.
  intros H. unfold pos_GetDescription. rewrite (pos_Name_static o o' H).
  unfold pos_static in H. by injection H as _ -> _ _.
Qed.

Lemma child_descriptions_static fs fs' ps ps' sp lp ss ls indent c :
  flag_static <$> fs = flag_static <$> fs' -> pos_static <$> ps = pos_static <$> ps' ->
  child_descriptions fs ps sp lp ss ls indent c = child_descriptions fs' ps' sp lp ss ls indent c.
Proof.
  intros Hf Hp. revert indent. induction c as [i|i|help v cs IH] using child_nested_ind;
    intros indent; cbn [child_descriptions].
  - pose proof (fmap_lookup_eq flag_static fs fs' i Hf) as H.
    destruct (fs !! i) as [f|], (fs' !! i) as [f'|]; try done. apply (inj Some) in H.
    by rewrite (flag_description_static f f').
  - pose proof (fmap_lookup_eq pos_static ps ps' i Hp) as H.
    destruct (ps !! i) as [o|], (ps' !! i) as [o'|]; try done. apply (inj Some) in H.
    by rewrite (pos_description_static o o').
  - f_equal. induction IH as [|c cs Hc _ IHcs]; [done|]. by rewrite Hc, IHcs.
Qed.

Lemma child_pos_names_static ps ps' c :
  pos_static <$> ps = pos_static <$> ps' -> child_pos_names ps c = child_pos_names ps' c.
Proof.
  intros Hp. induction c as [i|i|help v cs IH] using child_nested_ind; cbn [child_pos_names].
  - done.
  - pose proof (fmap_lookup_eq pos_static ps ps' i Hp) as H.
    destruct (ps !! i) as [o|], (ps' !! i) as [o'|]; try done. apply (inj Some) in H.
    by rewrite (pos_Name_static o o').
  - induction IH as [|c cs Hc _ IHcs]; [done|]. by rewrite Hc, IHcs.
Qed.

(** The menu depends on the shape of the parser only. *)
Lemma Help_text_shape hp p p' : shape p' = shape p -> Help_text hp p' = Help_text hp p.
Proof.
  unfold shape. intros [= Hf Hp H1 H2 H3 H4 H5 H6 H7 H8 H9 H10 H11 H12 H13].
  assert (GetPosNames p' = GetPosNames p) as Hn.
  { unfold GetPosNames. rewrite H13. f_equal. apply list_fmap_ext. intros i c _.
    by apply child_pos_names_static. }
  assert (GetChildDescriptions p' = GetChildDescriptions p) as Hd.
  { unfold GetChildDescriptions. rewrite H5, H6, H7, H9, H10, H13. f_equal. apply list_fmap_ext.
    intros i c _. by apply child_descriptions_static. }
  unfold Help_text, progname_line, HasFlag.
  by rewrite Hn, Hd, H1, H2, H3, H4, H8, H13.
Qed.

(** ** What repeated arguments collect *)

(** A flag answers to [arg]. *)
Definition answers_to (arg : flag_arg) (f : FlagBase) : Prop :=
  Matcher_Match (fl_matcher f) arg = true.

Lemma Flag_Match_silent f arg : ~ answers_to arg f -> Flag_Match f arg = Ok None.
Proof.
  unfold answers_to, Flag_Match, HelpFlag_Match, CounterFlag_Match, FlagBase_Match.
  intros Hn. destruct (Matcher_Match _ _); [done|]. by destruct (fl_kind f).
Qed.

(** The children refer to the first [n] flags of the store only. *)
Fixpoint refs_below (n : nat) (c : child) : bool :=
  match c with
  | ChFlag i => (i <? n)%nat
  | ChPositional _ => true
  | ChGroup _ _ cs =>
      (fix go (l : list child) : bool :=
         match l with [] => true | c' :: l' => refs_below n c' && go l' end) cs
  end.

(** Flags that do not answer are passed over. *)
Lemma Group_Match_silent flags arg n cs cs' :
  (forall i f, (i < n)%nat -> flags !! i = Some f -> ~ answers_to arg f) ->
  Forall (fun c => refs_below n c = true) cs ->
  Group_Match flags arg (cs ++ cs') = Group_Match flags arg cs'.
Proof.
  intros Hs. assert (Hc : forall c, refs_below n c = true -> child_match flags arg c = Ok None).
  { intros c. induction c as [i|i|help v l IH] using child_nested_ind.
    - cbn [refs_below child_match]. intros Hi%Nat.ltb_lt. destruct (flags !! i) as [f|] eqn:Hf; [|done].
      by rewrite (Flag_Match_silent f arg (Hs i f Hi Hf)).
    - done.
    - rewrite child_match_group. cbn [refs_below]. induction IH as [|c l Hc _ IHl]; [done|].
      intros [H1 H2]%andb_true_iff. cbn [Group_Match]. rewrite (Hc H1). by apply IHl. }
  induction 1 as [|c cs Hr _ IH]; [done|]. simpl. by rewrite (Hc c Hr).
Qed.

(** A parser without groups passes its validation. *)
Lemma Matched_no_groups p :
  Forall (fun c => is_group c = false) (ap_children p) -> Matched p = true.
Proof.
  unfold Matched, validate. intros H. induction H as [|c cs Hc _ IH]; [done|].
  rewrite fmap_cons. cbn [forallb fst snd]. by rewrite Hc, IH.
Qed.

Section LastFlag.
(** A parser [p0] to which a flag has been added, as the states of a parse in which only
    that flag has matched: [g] is the flag. *)
Context (p0 : ArgumentParser) (p : ArgumentParser).
Notation n := (length (ap_flags p0)).
Notation earlier := (Flag_Reset <$> ap_flags p0).
Hypothesis Hchildren : ap_children p = ap_children p0 ++ [ChFlag n].
Hypothesis Hrefs : Forall (fun c => refs_below n c = true) (ap_children p0).
Hypothesis Hgroups : Forall (fun c => is_group c = false) (ap_children p0).

Definition state_of (g : FlagBase) : ArgumentParser := set_flags p (earlier ++ [g]).

Lemma state_update g g' :
  set_flags (state_of g) (<[n := g']> (ap_flags (state_of g))) = state_of g'.
Proof.
  unfold state_of. simpl. unfold set_flags. simpl. f_equal.
  rewrite insert_app_r_alt; rewrite ?length_fmap; [|lia]. by rewrite Nat.sub_diag.
Qed.

Lemma state_matched g : Matched (state_of g) = true.
Proof.
  apply Matched_no_groups. simpl. rewrite Hchildren. apply Forall_app_2; [done|by constructor].
Qed.

Lemma state_match arg g g' :
  (forall f, f ∈ ap_flags p0 -> ~ answers_to arg f) -> Flag_Match g arg = Ok (Some g') ->
  Group_Match (ap_flags (state_of g)) arg (ap_children (state_of g)) = Ok (Some (n, g')).
Proof.
  intros Hs Hg. simpl. rewrite Hchildren, (Group_Match_silent _ _ n); [|..|done].
  - cbn [Group_Match child_match]. rewrite lookup_app_r; rewrite ?length_fmap; [|done].
    rewrite Nat.sub_diag. simpl. by rewrite Hg.
  - intros i f Hi. rewrite lookup_app_l by (by rewrite length_fmap).
    intros (f0 & -> & Hf)%list_lookup_fmap_Some. apply list_elem_of_lookup_2 in Hf.
    unfold answers_to. replace (fl_matcher (Flag_Reset f0)) with (fl_matcher f0); [by apply Hs|].
    unfold Flag_Reset. by destruct (fl_kind f0).
Qed.

Lemma state_lookup g : ap_flags (state_of g) !! n = Some g.
Proof. simpl. rewrite lookup_app_r; rewrite ?length_fmap; [|done]. by rewrite Nat.sub_diag. Qed.

End LastFlag.

(** The state in which a parse starts. *)
Lemma Reset_state p0 p g :
  ap_flags p = ap_flags p0 ++ [g] -> Reset p = state_of p0 (Reset p) (Flag_Reset g).
Proof.
  intros H. unfold state_of, Reset, set_positionals, set_flags. simpl. f_equal.
  by rewrite H, fmap_app.
Qed.

(** ** Properties *)

(** C34: types.  A parse that succeeds keeps the class, the name and the settings of every
    argument, so that the menu is the same; it stores only values of the declared types, with
    integers in the range of [int]; and what it has not parsed is an end of the
    command line. *)
Theorem ParseArgs_typed p args p' rest :
  parser_typed p -> ParseArgs p args = Ok (p', rest) ->
  parser_typed p' /\ shape p' = shape p /\ Help_string p' = Help_string p /\
  rest `suffix_of` args.
Proof.
  intros Ht Hp. unfold ParseArgs in Hp.
  destruct (parse_loop_ok (length args) _ _ _ _ _ ltac:(done) Hp) as [He Hs].
  assert (evolves p p') as [H1 H2] by (etrans; [apply Reset_evolves|exact He]).
  split_and!; [auto|done|by apply Help_text_shape|done].
Qed.

(** A parser with arguments of several classes. *)
Definition sample_parser : ArgumentParser :=
  let p0 := make_ArgumentParser "sample" EmptyString in
  let p1 := add_CounterFlag p0 [] "verbose" "" (make_Matcher [EShort "v"%char]) 0 in
  let p2 := add_MapFlag p1 [] "mode" "" (make_Matcher [ELong "mode"]) (VString EmptyString)
              [(VString "fast", VInt 1); (VString "safe", VInt 2)] (VInt 0) false in
  let p3 := add_ValueFlagList p2 [] "size" "" (make_Matcher [EShort "s"%char]) (VInt 0) [] in
  let p4 := add_Group p3 [] "files" AtLeastOne in
  add_PositionalList p4 [3%nat] "file" "" (VString EmptyString) [].

Lemma sample_parser_typed : parser_typed sample_parser.
Proof. repeat constructor; vm_compute; try done. Qed.

Lemma ParseArgs_typed_witness :
  let args := ["-vv"; "--mode=safe"; "-s"; "99999999999"; "-vs7"; "a"; "--"; "-v"] in
  exists p', ParseArgs sample_parser args = Ok (p', []) /\
    fl_value <$> ap_flags p' =
      [Count 3; One (VInt 2); Many [VInt 2147483647; VInt 7]] /\
    po_value <$> ap_positionals p' = [Many [VString "a"; VString "-v"]] /\
    parser_typed p'.
Proof.
  intros args. eexists. split; [vm_compute; reflexivity|].
  split; [vm_compute; reflexivity|]. split; [vm_compute; reflexivity|].
  refine (proj1 (ParseArgs_typed sample_parser args _ [] sample_parser_typed _)).
  vm_compute. reflexivity.
Defined.

(** The texts of the errors. *)
Lemma sample_errors :
  ParseArgs sample_parser ["--mode=slow"; "a"] =
    Throw (MapError "Could not find key 'slow' in map for arg 'mode'") /\
  ParseArgs sample_parser ["-sx"; "a"] =
    Throw (ParseError "Argument 'size' received invalid value type 'x'") /\
  ParseArgs sample_parser ["-v"] = Throw (ValidationError "Group validation failed somewhere!").
Proof. vm_compute. auto. Qed.

(** A parser without groups whose children are in its store. *)
Definition plain_parser (p : ArgumentParser) : Prop :=
  Forall (fun c => refs_below (length (ap_flags p)) c = true) (ap_children p) /\
  Forall (fun c => is_group c = false) (ap_children p).

Lemma strip_prefix_app pre s : strip_prefix pre (pre +:+ s) = Some s.
Proof.
  induction pre as [|c pre IH]; [done|]. rewrite string_app_cons. simpl.
  by rewrite bool_decide_eq_true_2.
Qed.

Lemma prefixed_app pre s : s <> EmptyString -> prefixed pre (pre +:+ s) = Some s.
Proof. intros Hs. unfold prefixed. rewrite strip_prefix_app. by destruct s. Qed.

(** [k] times the character [c]. *)
Fixpoint chars (k : nat) (c : ascii) : string :=
  match k with O => EmptyString | S k' => String c (chars k' c) end.

Section Counter.
Context (p0 : ArgumentParser) (name help : string) (m : Matcher) (start : Z) (c : ascii).
Notation p := (Reset (add_CounterFlag p0 [] name help m start)).
Notation counter b z := (mkFlag name help m false false (KCounter start) b (Count z)).
Hypothesis Hplain : plain_parser p0.
Hypothesis Hc : c ∈ shortFlags m.
Hypothesis Hfree : forall f, f ∈ ap_flags p0 -> ~ answers_to (AShort c) f.

Lemma counter_chars b z k rest :
  INT_MIN <= z -> z + Z.of_nat k <= INT_MAX ->
  exists b', parse_short (state_of p0 p (counter b z)) (chars k c) rest =
    Ok (state_of p0 p (counter b' (z + Z.of_nat k)), false, false).
Proof.
  revert b z. induction k as [|k IH]; intros b z Hlo Hhi; cbn [chars parse_short].
  { exists b. by rewrite Z.add_0_r. }
  rewrite (state_match p0 p eq_refl (proj1 Hplain) (AShort c) _ (counter true (z + 1)) Hfree).
  - cbn [takes_value fl_kind fl_kickout]. rewrite state_update.
    destruct (IH true (z + 1)) as [b' ->]; [lia..|]. exists b'.
    by replace (z + 1 + Z.of_nat k) with (z + Z.of_nat (S k)) by lia.
  - unfold Flag_Match, CounterFlag_Match, FlagBase_Match. simpl.
    rewrite bool_decide_eq_true_2 by done. simpl. unfold increment. simpl.
    rewrite i32_small; [done|]. unfold INT_MIN, INT_MAX in *. lia.
Qed.

Lemma counter_loop b z ks :
  INT_MIN <= z -> z + Z.of_nat (sum_list ks) <= INT_MAX ->
  (forall k, k ∈ ks -> (0 < k)%nat /\
     ap_shortprefix p0 +:+ chars k c <> ap_terminator p0 /\
     prefixed (ap_longprefix p0) (ap_shortprefix p0 +:+ chars k c) = None) ->
  exists b', parse_loop (state_of p0 p (counter b z)) false
    ((fun k => ap_shortprefix p0 +:+ chars k c) <$> ks) =
    Ok (state_of p0 p (counter b' (z + Z.of_nat (sum_list ks))), []).
Proof.
  revert b z. induction ks as [|k ks IH]; intros b z Hlo Hhi Hks; [|simpl in Hhi].
  { exists b. rewrite Z.add_0_r. apply parse_loop_end.
    by apply (state_matched p0 p eq_refl (proj2 Hplain)). }
  destruct (Hks k) as (Hk & Hterm & Hlong); [by left|].
  destruct (counter_chars b z k ((fun k => ap_shortprefix p0 +:+ chars k c) <$> ks)) as [b1 Hstep];
    [lia..|].
  rewrite fmap_cons, (parse_loop_joined _ _ _ _ (state_of p0 p (counter b1 (z + Z.of_nat k)))).
  - destruct (IH b1 (z + Z.of_nat k)) as [b' ->]; [lia|lia|intros j Hj; apply Hks; by right|].
    exists b'.
    by replace (z + Z.of_nat k + Z.of_nat (sum_list ks)) with (z + Z.of_nat (sum_list (k :: ks)))
      by (simpl; lia).
  - simpl. by rewrite bool_decide_eq_false_2.
  - unfold parse_chunk. simpl ap_longprefix. simpl ap_shortprefix.
    rewrite Hlong, prefixed_app by (by destruct k; [lia|]). exact Hstep.
Qed.

End Counter.

(** Counters: a counter flag added to any parser without groups counts all its occurrences,
    however they are distributed over the arguments, as long as the count fits an [int]. *)
Theorem counter_flag_counts p0 name help m start c ks :
  plain_parser p0 -> c ∈ shortFlags m ->
  (forall f, f ∈ ap_flags p0 -> ~ answers_to (AShort c) f) ->
  INT_MIN <= start -> start + Z.of_nat (sum_list ks) <= INT_MAX ->
  (forall k, k ∈ ks -> (0 < k)%nat /\
     ap_shortprefix p0 +:+ chars k c <> ap_terminator p0 /\
     prefixed (ap_longprefix p0) (ap_shortprefix p0 +:+ chars k c) = None) ->
  exists p' f,
    ParseArgs (add_CounterFlag p0 [] name help m start)
      ((fun k => ap_shortprefix p0 +:+ chars k c) <$> ks) = Ok (p', []) /\
    ap_flags p' !! length (ap_flags p0) = Some f /\
    fl_value f = Count (start + Z.of_nat (sum_list ks)).
Proof.
  intros Hp Hc Hf Hlo Hhi Hks. unfold ParseArgs. rewrite (Reset_state p0 (add_CounterFlag p0 [] name help m start) _ eq_refl).
  destruct (counter_loop p0 name help m start c Hp Hc Hf false start ks Hlo Hhi Hks) as [b' H].
  eexists _, _. split; [exact H|]. split; [apply state_lookup|done].
Qed.

Lemma counter_flag_counts_witness :
  exists p' f,
    ParseArgs (add_CounterFlag (make_ArgumentParser "" "") [] "verbose" ""
                 (make_Matcher [EShort "v"%char]) 10) ["-v"; "-vvv"] = Ok (p', []) /\
    ap_flags p' !! 0%nat = Some f /\ fl_value f = Count 14.
Proof.
  refine (counter_flag_counts (make_ArgumentParser "" "") "verbose" ""
    (make_Matcher [EShort "v"%char]) 10 "v"%char [1; 3]%nat _ _ _ _ _ _).
  - by split.
  - by left.
  - by intros f Hf%elem_of_nil.
  - done.
  - done.
  - apply Forall_forall. repeat constructor; vm_compute; done.
Defined.

Section ListFlag.
Context (p0 : ArgumentParser) (name help : string) (m : Matcher) (fresh : string).
Context (defaults : list value) (a : string).
Notation p := (Reset (add_ValueFlagList p0 [] name help m (VString fresh) defaults)).
Notation listed b l :=
  (mkFlag name help m false false (KValueList (VString fresh)) b (Many (VString <$> l))).
Hypothesis Hplain : plain_parser p0.
Hypothesis Ha : a ∈ longFlags m.
Hypothesis Hfree : forall f, f ∈ ap_flags p0 -> ~ answers_to (ALong a) f.
Hypothesis Hname : a <> EmptyString /\ ap_longprefix p0 +:+ a <> ap_terminator p0.
Hypothesis Hsep : ap_longseparator p0 = EmptyString \/ find_sub (ap_longseparator p0) a = None.
Hypothesis Hallowed : ap_allowSeparateLongValue p0 = true.

Lemma list_step b l v rest :
  parse_chunk (state_of p0 p (listed b l)) false (ap_longprefix p0 +:+ a) (v :: rest) =
  Ok (state_of p0 p (listed true (l ++ [v])), true, false).
Proof.
  unfold parse_chunk. simpl ap_longprefix. rewrite prefixed_app by apply Hname.
  unfold parse_long. cbv zeta. change (ap_longseparator (state_of p0 p (listed b l)))
    with (ap_longseparator p0).
  assert (match ap_longseparator p0 with
          | EmptyString => None | sep => find_sub sep a end = None) as ->.
  { destruct (ap_longseparator p0); [done|]. by destruct Hsep. }
  rewrite (state_match p0 p eq_refl (proj1 Hplain) (ALong a) _ (listed true l) Hfree).
  - cbn -[state_of add_ValueFlagList Reset]. unfold store_value.
    change (ap_allowSeparateLongValue (state_of p0 p (listed b l)))
      with (ap_allowSeparateLongValue p0). rewrite Hallowed.
    cbn -[state_of add_ValueFlagList Reset set_flags fmap]. rewrite state_update.
    unfold set_value. cbn -[state_of add_ValueFlagList Reset set_flags fmap].
    by rewrite fmap_app.
  - unfold Flag_Match, FlagBase_Match. simpl. by rewrite bool_decide_eq_true_2.
Qed.

Lemma list_loop b l vs :
  exists b', parse_loop (state_of p0 p (listed b l)) false
    (concat ((fun v => [ap_longprefix p0 +:+ a; v]) <$> vs)) =
    Ok (state_of p0 p (listed b' (l ++ vs)), []).
Proof.
  revert b l. induction vs as [|v vs IH]; intros b l.
  { exists b. rewrite app_nil_r. apply parse_loop_end.
    by apply (state_matched p0 p eq_refl (proj2 Hplain)). }
  rewrite fmap_cons. cbn [concat app].
  rewrite (parse_loop_separate _ _ _ _ _ (state_of p0 p (listed true (l ++ [v])))).
  - destruct (IH true (l ++ [v])) as [b' ->]. exists b'. by rewrite <- app_assoc.
  - simpl. by rewrite bool_decide_eq_false_2 by apply Hname.
  - apply list_step.
Qed.

End ListFlag.

(** List flags: a list flag added to any parser without groups collects the values of all
    its occurrences in order, whatever they look like, and drops its default values. *)
Theorem list_flag_collects p0 name help m fresh defaults a vs :
  plain_parser p0 -> a ∈ longFlags m ->
  (forall f, f ∈ ap_flags p0 -> ~ answers_to (ALong a) f) ->
  a <> EmptyString /\ ap_longprefix p0 +:+ a <> ap_terminator p0 ->
  ap_longseparator p0 = EmptyString \/ find_sub (ap_longseparator p0) a = None ->
  ap_allowSeparateLongValue p0 = true ->
  exists p' f,
    ParseArgs (add_ValueFlagList p0 [] name help m (VString fresh) defaults)
      (concat ((fun v => [ap_longprefix p0 +:+ a; v]) <$> vs)) = Ok (p', []) /\
    ap_flags p' !! length (ap_flags p0) = Some f /\ fl_value f = Many (VString <$> vs).
Proof.
  intros Hp Ha Hf Hn Hs Hl. unfold ParseArgs.
  rewrite (Reset_state p0 (add_ValueFlagList p0 [] name help m (VString fresh) defaults) _ eq_refl).
  destruct (list_loop p0 name help m fresh defaults a Hp Ha Hf Hn Hs Hl false [] vs) as [b' H].
  eexists _, _. split; [exact H|]. split; [apply state_lookup|done].
Qed.

Lemma list_flag_collects_witness :
  exists p' f,
    ParseArgs (add_ValueFlagList (make_ArgumentParser "" "") [] "tag" ""
                 (make_Matcher [ELong "tag"]) (VString EmptyString) [VString "old"])
      ["--tag"; "x"; "--tag"; "--"] = Ok (p', []) /\
    ap_flags p' !! 0%nat = Some f /\ fl_value f = Many [VString "x"; VString "--"].
Proof.
  refine (list_flag_collects (make_ArgumentParser "" "") "tag" "" (make_Matcher [ELong "tag"])
    EmptyString [VString "old"] "tag" ["x"; "--"] _ _ _ _ _ _).
  - by split.
  - by left.
  - by intros f Hf%elem_of_nil.
  - by split.
  - right. vm_compute. reflexivity.
  - reflexivity.
Defined.

Section Terminator.
Context (p0 : ArgumentParser) (name help fresh : string) (defaults : list value).
Notation p := (Reset (add_PositionalList p0 [] name help (VString fresh) defaults)).
Notation collected b l :=
  (mkPositional name help false (PValueList (VString fresh)) true b (Many (VString <$> l))).
Notation state b l := (set_positionals p [collected b l]).
Hypothesis Hflags : Forall (fun c => exists i, c = ChFlag i) (ap_children p0).
Hypothesis Hnone : ap_positionals p0 = [].

Lemma next_is_list o :
  po_ready o = true ->
  GetNextPositional [o] (ap_children p0 ++ [ChPositional 0]) = Some 0%nat.
Proof.
  intros Ho. induction Hflags as [|c cs [i ->] H IH]; simpl; [by rewrite Ho|by apply IH].
Qed.

Lemma terminated_loop b l words :
  exists b', parse_loop (state b l) true words = Ok (state b' (l ++ words), []).
Proof.
  assert (Hch : ap_children p = ap_children p0 ++ [ChPositional 0]) by (simpl; by rewrite Hnone).
  revert b l. induction words as [|w words IH]; intros b l.
  { exists b. rewrite app_nil_r. apply parse_loop_end, Matched_no_groups.
    change (ap_children (state b l)) with (ap_children p). rewrite Hch.
    apply Forall_app_2; [|by constructor]. eapply Forall_impl; [exact Hflags|].
    by intros c [i ->]. }
  rewrite (parse_loop_joined _ _ _ _ (state true (l ++ [w]))).
  - destruct (IH true (l ++ [w])) as [b' ->]. exists b'. by rewrite <- app_assoc.
  - done.
  - unfold parse_chunk, parse_positional.
    change (ap_children (state b l)) with (ap_children p). rewrite Hch.
    change (ap_positionals (state b l)) with [collected b l].
    rewrite next_is_list by done. cbn -[set_positionals Reset fmap].
    by rewrite fmap_app.
Qed.

End Terminator.

(** The terminator.  After the terminator every argument, also one that looks like a flag,
    goes to the positional list, in order, and no flag is matched. *)
Theorem terminator_collects p0 name help fresh defaults words :
  Forall (fun c => exists i, c = ChFlag i) (ap_children p0) -> ap_positionals p0 = [] ->
  exists p',
    ParseArgs (add_PositionalList p0 [] name help (VString fresh) defaults)
      (ap_terminator p0 :: words) = Ok (p', []) /\
    po_value <$> ap_positionals p' = [Many (VString <$> words)] /\
    ap_flags p' = Flag_Reset <$> ap_flags p0.
Proof.
  intros Hf Hn. unfold ParseArgs. cbn [parse_loop negb andb].
  change (ap_terminator (Reset _)) with (ap_terminator p0). rewrite bool_decide_eq_true_2 by done.
  destruct (terminated_loop p0 name help fresh defaults Hf Hn false [] words) as [b' H].
  eexists. split; [etrans; [|exact H]|done].
  f_equal. unfold Reset, set_positionals, set_flags. simpl. by rewrite Hn.
Qed.

Lemma terminator_collects_witness :
  exists p',
    ParseArgs (add_PositionalList
      (add_HelpFlag (make_ArgumentParser "" "") [] "help" "" (make_Matcher [ELong "help"]))
      [] "file" "" (VString EmptyString) []) ["--"; "a"; "--help"; "--"] = Ok (p', []) /\
    po_value <$> ap_positionals p' = [Many [VString "a"; VString "--help"; VString "--"]].
Proof.
  destruct (terminator_collects
    (add_HelpFlag (make_ArgumentParser "" "") [] "help" "" (make_Matcher [ELong "help"]))
    "file" "" EmptyString [] ["a"; "--help"; "--"]) as (p' & H1 & H2 & _).
  - repeat constructor. by eexists.
  - reflexivity.
  - exists p'. by split.
Defined.
