(* ===== verification/Main.v ===== *)
(** * The program

    src/src/main.cc: the command line, the process list of the hostfile, the choice of
    the process id, and main itself with its exit codes.  The host name, the file system,
    the sockets and what the network delivers are arguments. *)

From Stdlib Require Import ZArith Lia Ascii String.
From stdpp Require Import base list gmap strings.
From S2P Require Import Prelude Text Exceptions Wire Net Udp Client HoldBack Process Sender Server.
From S2P Require Import ThreadGroup Multicast Args ArgParse ArgsHelp Printing.

Open Scope Z_scope.

(** ** The hostfile *)

Fixpoint processes_of (hosts : list string) (default_port : option Z)
  : result exn (list Address) :=
  match hosts with
  | [] => Ok []
  | host :: hosts' =>
      match AddressWithDefaultPort host default_port with
      | Ok addr => (let! l := processes_of hosts' default_port in Ok (addr :: l))%tom
      | Throw (invalid_argument w) => Throw (UsageError w)
      | Throw e => Throw e
      end
  end.

(** [GetProcesses]: [file] is the content of the hostfile if it can be opened. *)
Definition GetProcesses (file : option string) (default_port : option Z)
  : result exn (list Address) :=
  match file with
  | None => Throw (runtime_error "could not open hostfile")
  | Some text => processes_of (stream_words text) default_port
  end.

(** ** The process id *)

(** [CheckProcessId]; [my_id] is an [int]. *)
Definition CheckProcessId (this_host : string) (processes : list Address) (my_id : Z)
  : result exn unit :=
  if (my_id <? 0) || (Z.of_nat (length processes) <=? my_id) then
    Throw (ValidationError "--id value not found in hostfile")
  else
    match processes !! Z.to_nat my_id with
    | None => Throw (out_of_range "at")
    | Some addr =>
        if bool_decide (hostname addr = this_host) then Ok tt
        else Throw (ValidationError "--id value is not the hostname of this host")
    end.

(** The loop of [GetProcessId]: [found] is -1 or the index found so far. *)
Fixpoint find_process (this_host : string) (i : Z) (processes : list Address) (found : Z)
  : result exn Z :=
  match processes with
  | [] => Ok found
  | addr :: rest =>
      if bool_decide (hostname addr = this_host) then
        if 0 <=? found then
          Throw (UsageError
            "when running multiple processes on the same host, use the --id flag")
        else find_process this_host (i + 1) rest i
      else find_process this_host (i + 1) rest found
  end.

Definition GetProcessId (this_host : string) (processes : list Address) : result exn Z :=
  (let! found := find_process this_host 0 processes (-1) in
   if found =? -1 then Throw (ValidationError "current hostname not found in hostfile")
   else Ok found)%tom.

(** ** The command line *)

Definition program_desc : string :=
  "An implementation of the ISIS Total Order Multicast Algorithm.".

Definition help_desc : string := "Display this help menu.".
Definition port_desc : string :=
  "The port identifies on which port the process will be listening on for " +:+
  "incoming messages. It can take any integer from 1024 to 65535. Can be " +:+
  "overridden by specifying a port on a host in the hostfile using " +:+
  "<hostname>:<port> notation. Not required if all hosts have specified " +:+
  "ports in the hostfile. Required otherwise.".
Definition hostfile_desc : string :=
  "The hostfile is the path to a file that contains the list of hostnames " +:+
  "that the processes are running on. It should be in the following format." +:+ nl +:+
  "`" +:+ nl +:+
  "xinu01.cs.purdue.edu" +:+ nl +:+
  "xinu02.cs.purdue.edu" +:+ nl +:+
  "..." +:+ nl +:+
  "`" +:+ nl +:+
  "All the processes will listen on the port, specified by the port flag. " +:+
  "Alternatively, hosts can specify an alternate port using " +:+
  "<hostname>:<port> notation, like:" +:+ nl +:+
  "`" +:+ nl +:+
  "xinu01.cs.purdue.edu:1234" +:+ nl +:+
  "xinu01.cs.purdue.edu:1235" +:+ nl +:+
  "..." +:+ nl +:+
  "`" +:+ nl +:+
  "This makes it possible to run multiple processes on the same host. " +:+
  "The line number indicates the identifier of the process.".
Definition id_desc : string :=
  "The optional id specifier of this process. Only needed if multiple " +:+
  "processes in the hostfile are running on the same host, otherwise it can " +:+
  "be deduced from the hostfile. 0-indexed.".
Definition count_desc : string :=
  "The count indicates the number of messages the process needs to " +:+
  "multicast. The value of count is non-negative. The process should remain " +:+
  "operational once started, even if the count is 0 or the process finishes " +:+
  "multicasting all its messages.".
Definition delays_desc : string :=
  "When set, the delays flag indicates that random delays should be " +:+
  "introduced when sending messages between processes.".
Definition verbose_desc : string := "Sets the logging level to verbose.".

(** The parser that main sets up: flags 0 to 6 of its store. *)
Definition main_parser : ArgumentParser :=
  let p0 := make_ArgumentParser program_desc EmptyString in
  let p1 := add_HelpFlag p0 [] "help" help_desc (make_Matcher [ELong "help"]) in
  let p2 := add_ValueFlag p1 [] "port" port_desc
              (make_Matcher [EShort "p"%char; ELong "port"]) (VInt 0) false in
  let p3 := add_ValueFlag p2 [] "hostfile" hostfile_desc
              (make_Matcher [EShort "h"%char; ELong "hostfile"]) (VString EmptyString) false in
  let p4 := add_ValueFlag p3 [] "id" id_desc
              (make_Matcher [EShort "i"%char; ELong "id"]) (VInt 0) false in
  let p5 := add_ValueFlag p4 [] "count" count_desc
              (make_Matcher [EShort "c"%char; ELong "count"]) (VInt 0) false in
  let p6 := add_Flag p5 [] "delays" delays_desc
              (make_Matcher [EShort "d"%char; ELong "delays"]) false in
  add_Flag p6 [] "verbose" verbose_desc
    (make_Matcher [EShort "v"%char; ELong "verbose"]) false.

(** A flag in a condition, and [args::get]. *)
Definition flag_matched (p : ArgumentParser) (i : nat) : bool :=
  match ap_flags p !! i with Some f => fl_matched f | None => false end.
Definition get_int (p : ArgumentParser) (i : nat) : Z :=
  match ap_flags p !! i with
  | Some f => match fl_value f with One (VInt z) => z | _ => 0 end
  | None => 0
  end.
Definition get_string (p : ArgumentParser) (i : nat) : string :=
  match ap_flags p !! i with
  | Some f => match fl_value f with One (VString s) => s | _ => EmptyString end
  | None => EmptyString
  end.

(** What main has found out when it creates the process. *)
Record setup := mkSetup {
  su_processes : list Address;
  su_id : Z;
  su_port : Z;
  su_delays : bool;
  su_count : Z;       (* as the unsigned argument of TotalOrder *)
  su_verbose : bool
}.

(** From the parsed command line to the process. *)
Definition main_setup (this_host : string) (read_file : string -> option string)
    (p : ArgumentParser) : result exn setup :=
  if negb (flag_matched p 2) then Throw (UsageError "--hostfile is a required flag")
  else if negb (flag_matched p 4) then Throw (UsageError "--count is a required flag")
  else
    let hostfile_val := get_string p 2 in
    let count_val := get_int p 4 in
    let default_port := if flag_matched p 1 then Some (u16 (get_int p 1)) else None in
    (let! processes := GetProcesses (read_file hostfile_val) default_port in
     let! id_val :=
       (if flag_matched p 3 then
          let! _ := CheckProcessId this_host processes (get_int p 3) in Ok (get_int p 3)
        else GetProcessId this_host processes) in
     match processes !! Z.to_nat id_val with
     | None => Throw (out_of_range "at")
     | Some addr =>
         Ok (mkSetup processes id_val (port addr) (flag_matched p 5) (u32 count_val)
               (flag_matched p 6))
     end)%tom.

(** The environment of a run. *)
Record environment := mkEnv {
  env_host : string;                              (* the name of the host *)
  env_host_name_max : nat;                        (* HOST_NAME_MAX *)
  env_stack : string;                             (* what follows the name buffer *)
  env_files : string -> option string;
  env_gethostbyname : string -> option (list Z);
  env_client : Address -> sock_env;               (* the socket of each client *)
  env_server : sock_env;                          (* the sockets of the server *)
  env_endian : endian;
  env_uninit : nat -> Z;
  env_sendto : nat -> option Z;
  env_start : nat -> option string;               (* the error of starting a thread *)
  env_draws : nat -> Z * Z * Z;
  env_answers : nat -> Z * (nat -> list net_answer) * (nat -> list net_answer);
  env_events : list (recv_result * sock_env)      (* while the process runs *)
}.

Definition env_hostname (env : environment) : string :=
  GetHostname (env_host_name_max env) (env_host env) (env_stack env).

(** The constructor of [Process] and [TotalOrder]: the clients, the threads launched and
    the run of the server. *)
Definition run_process (env : environment) (s : setup)
  : result exn (gmap Address Client * ThreadGroup thread * (server_state * listen_outcome)) :=
  (let! clients := ClientsForProcessList
       (fun a => make_Client (env_endian env) (env_gethostbyname env) (env_client env a) a)
       (su_processes s) in
   let! _ := make_Server (env_server env) kNoTimeout in
   let '(g, r) :=
     TotalOrder (env_endian env) (env_uninit env) (env_sendto env) (env_start env)
       (Z.to_nat (su_count s)) (env_draws env)
       (make_Process (su_processes s) (su_id s) (su_delays s)) (env_events env) in
   Ok (clients, g, r))%tom.

(** How thread [i] stands, on what the network answers to it. *)
Definition thread_outcome (env : environment) (s : setup) (clients : gmap Address Client)
    (i : nat) : sender_outcome :=
  let '(u, msg_id, data) := env_draws env i in
  let '(u', data_answers, seq_answers) := env_answers env i in
  sr_outcome (LaunchMulticastSender (env_endian env) clients (su_processes s) (su_id s)
                u u' msg_id data data_answers seq_answers).

Definition has_ended (o : sender_outcome) : bool :=
  match o with SenderDone => true | _ => false end.

Definition has_thrown (o : sender_outcome) : bool :=
  match o with SenderThrew _ => true | _ => false end.

(** The lines printed by the callback of main. *)
Definition delivered_lines (id_val : Z) (acts : list action) : string :=
  fold_right (fun a acc => match a with
                           | ADeliver m => deliver_line id_val m +:+ acc
                           | _ => acc
                           end) EmptyString acts.

(** What the logger writes to the error stream, when it is enabled. *)
Definition logged (verbose : bool) (acts : list action) : string :=
  log_output (fold_left (fun l a => match a with ALog text => log_write l text | _ => l end)
                acts (log_enable make_Logger verbose)).

Definition red_start : string := String "027"%char "[1;31m".
Definition red_end : string := String "027"%char "[0m".

(** How a run of main ends, if it does: an exception that leaves a thread ends the program
    at once; the server runs; or the server has thrown and the destructor of the thread
    group waits for thread [k]. *)
Inductive main_outcome :=
| Exited (code : Z) (out err : string)
| Aborted (out err : string)
| Serving (out err : string)
| JoiningThread (k : nat) (out err : string).

(** The catch clauses; [out] and [err] are what has been printed before. *)
Definition main_catch (p : ArgumentParser) (out err : string) (e : exn) : main_outcome :=
  match e with
  | Help _ => Exited 0 (print_ArgumentParser out p) err
  | UsageError w =>
      Exited 1 out
        (print_ArgumentParser
           (err +:+ nl +:+ "  " +:+ red_start +:+ w +:+ red_end +:+ nl +:+ nl) p)
  | _ => Exited 1 out (err +:+ red_start +:+ what e +:+ red_end +:+ nl)
  end.

(** Once the process has been created.  An exception of the server or of a launch unwinds
    through the destructors of the process, the thread group first, before it is caught. *)
Definition main_run (named : ArgumentParser) (env : environment) (s : setup)
    (clients : gmap Address Client) (g : ThreadGroup thread) (st : server_state)
    (outcome : listen_outcome) : main_outcome :=
  let out := delivered_lines (su_id s) (ss_actions st) in
  let err := logged (su_verbose s) (ss_actions st) in
  let threads := mkThreadGroup (thread_outcome env s clients <$> seq 0 (length (threads_ g))) in
  if existsb has_thrown (threads_ threads) then Aborted out err
  else
    match outcome, (JoinAll has_ended threads).2 with
    | Listening, _ => Serving out err
    | _, WaitsFor k => JoiningThread k out err
    | ListenThrew e, Joined => main_catch named out err e
    | ListenReturned, Joined => Exited 0 out err
    end.

(** [main].  The menu shows the program name, which [ParseCLI] assigns first. *)
Definition main (argv : list string) (env : environment) : main_outcome :=
  let p0 := main_parser in
  let named := set_prog p0 argv in
  match ParseCLI p0 argv with
  | Throw e => main_catch named EmptyString EmptyString e
  | Ok (p, _) =>
      match main_setup (env_hostname env) (env_files env) p with
      | Throw e => main_catch named EmptyString EmptyString e
      | Ok s =>
          match run_process env s with
          | Throw e => main_catch named EmptyString EmptyString e
          | Ok (clients, g, (st, outcome)) => main_run named env s clients g st outcome
          end
      end
  end.

(** ** Lemmas on the process id *)

Lemma find_process_spec this_host i processes found :
  -1 <= found < i ->
  match find_process this_host i processes found with
  | Ok r =>
      (r = found /\ (forall a, a ∈ processes -> hostname a <> this_host)) \/
      (found = -1 /\ exists k a, r = i + Z.of_nat k /\ processes !! k = Some a /\
         hostname a = this_host /\
         forall k' a', processes !! k' = Some a' -> hostname a' = this_host -> k' = k)
  | Throw (UsageError _) =>
      (0 <= found /\ exists a, a ∈ processes /\ hostname a = this_host) \/
      (exists k k' a a', k <> k' /\ processes !! k = Some a /\ processes !! k' = Some a' /\
         hostname a = this_host /\ hostname a' = this_host)
  | Throw _ => False
  end.
Proof.
  revert i found. induction processes as [|addr rest IH]; intros i found Hf; simpl.
  { left. split; [done|]. by intros a ?%elem_of_nil. }
  destruct (bool_decide_reflect (hostname addr = this_host)) as [Hh|Hh].
  - destruct (Z.leb_spec 0 found) as [Hp|Hn].
    { left. split; [done|]. exists addr. split; [by left|done]. }
    specialize (IH (i + 1) i ltac:(lia)).
    destruct (find_process this_host (i + 1) rest i) as [r|e].
    + destruct IH as [[-> Hno]|[? _]]; [|lia]. right. split; [lia|].
      exists 0%nat, addr. split_and!; [lia|done|done|].
      intros [|k'] a' Hk' Ha'; [done|]. simpl in Hk'.
      apply list_elem_of_lookup_2 in Hk'. by destruct (Hno a').
    + destruct e; try done. destruct IH as [[_ (a & [k Hk]%list_elem_of_lookup & Ha)]|IH].
      * right. by exists 0%nat, (S k), addr, a.
      * destruct IH as (k & k' & a & a' & Hne & H1 & H2 & H3 & H4). right.
        exists (S k), (S k'), a, a'. split_and!; try done. lia.
  - specialize (IH (i + 1) found ltac:(lia)).
    destruct (find_process this_host (i + 1) rest found) as [r|e].
    + destruct IH as [[-> Hno]|(-> & k & a & -> & Hk & Ha & Hu)].
      * left. split; [done|]. intros a [->|Hin]%elem_of_cons; [done|by apply Hno].
      * right. split; [done|]. exists (S k), a. split_and!; [lia|done|done|].
        intros [|k'] a' Hk' Ha'; [by simplify_eq/=|]. f_equal. by apply (Hu k' a').
    + destruct e; try done. destruct IH as [[Hp (a & Hin & Ha)]|IH].
      * left. split; [done|]. exists a. split; [by right|done].
      * destruct IH as (k & k' & a & a' & Hne & H1 & H2 & H3 & H4). right.
        exists (S k), (S k'), a, a'. split_and!; try done. lia.
Qed.

(** Which exceptions the two functions throw. *)
Lemma GetProcessId_shape this_host processes :
  match GetProcessId this_host processes with
  | Throw (UsageError _) | Throw (ValidationError _) | Ok _ => True
  | Throw _ => False
  end.
Proof.
  unfold GetProcessId.
  pose proof (find_process_spec this_host 0 processes (-1) ltac:(lia)) as H.
  destruct (find_process this_host 0 processes (-1)) as [r|e]; simpl.
  - by destruct (r =? -1).
  - by destruct e.
Qed.

Lemma CheckProcessId_shape this_host processes my_id :
  match CheckProcessId this_host processes my_id with
  | Throw (ValidationError _) | Ok _ => True
  | Throw _ => False
  end.
Proof.
  unfold CheckProcessId. destruct (Z.ltb_spec my_id 0); simpl; [done|].
  destruct (Z.leb_spec (Z.of_nat (length processes)) my_id); simpl; [done|].
  destruct (lookup_lt_is_Some_2 processes (Z.to_nat my_id)) as [a Ha]; [lia|].
  rewrite Ha. by destruct (bool_decide _).
Qed.
