(* ===== verification/MainProps.v ===== *)
(** * Properties of the program around the algorithm

    The choice of the process id, the hostfile, the exit codes, and what is printed, with the
    wrapping of help texts. *)

From Stdlib Require Import ZArith Lia Ascii String.
From stdpp Require Import base list gmap strings.
From S2P Require Import Prelude Text Exceptions Wire StdSet Net Udp Client HoldBack Process Sender.
From S2P Require Import ThreadGroup Multicast Server Wrap Args ArgParse ArgsHelp ArgsProps Printing Main.

Open Scope Z_scope.

(** ** The process id *)

(** [GetProcessId] returns the index of the only process on this host, reports a usage error
    when there are several, and a validation error when there is none. *)
Lemma GetProcessId_spec this_host processes :
  match GetProcessId this_host processes with
  | Ok r => exists k a, r = Z.of_nat k /\ processes !! k = Some a /\ hostname a = this_host /\
      forall k' a', processes !! k' = Some a' -> hostname a' = this_host -> k' = k
  | Throw (UsageError _) =>
      exists k k' a a', k <> k' /\ processes !! k = Some a /\ processes !! k' = Some a' /\
        hostname a = this_host /\ hostname a' = this_host
  | Throw (ValidationError _) => forall a, a ∈ processes -> hostname a <> this_host
  | Throw _ => False
  end.
Proof.
  unfold GetProcessId.
  pose proof (find_process_spec this_host 0 processes (-1) ltac:(lia)) as H.
  destruct (find_process this_host 0 processes (-1)) as [r|e]; simpl.
  - destruct H as [[-> Hno]|(_ & k & a & -> & Hk & Ha & Hu)]; simpl; [done|].
    rewrite (proj2 (Z.eqb_neq _ _)) by lia. by exists k, a.
  - destruct e; try done. by destruct H as [[? _]|H]; [lia|].
Qed.

Definition ambiguous_text : string :=
  "when running multiple processes on the same host, use the --id flag".
Definition not_here_text : string := "current hostname not found in hostfile".

Lemma GetProcessId_texts this_host processes :
  match GetProcessId this_host processes with
  | Throw (UsageError w) => w = ambiguous_text
  | Throw (ValidationError w) => w = not_here_text
  | _ => True
  end.
Proof.
  unfold GetProcessId.
  assert (H : forall l i found, match find_process this_host i l found with
    | Throw e => e = UsageError ambiguous_text | Ok _ => True end).
  { induction l as [|a l IH]; intros i found; simpl; [done|].
    destruct (bool_decide _); [destruct (0 <=? found); [done|]|]; apply IH. }
  specialize (H processes 0 (-1)). destruct (find_process _ _ _ _) as [r|e]; simpl.
  - by destruct (r =? -1).
  - by subst e.
Qed.

(** [CheckProcessId] accepts exactly the ids of the process list that are on this host. *)
Lemma CheckProcessId_spec this_host processes my_id :
  match CheckProcessId this_host processes my_id with
  | Ok _ => exists a, 0 <= my_id /\ processes !! Z.to_nat my_id = Some a /\
                      hostname a = this_host
  | Throw (ValidationError _) =>
      my_id < 0 \/ forall a, processes !! Z.to_nat my_id = Some a -> hostname a <> this_host
  | Throw _ => False
  end.
Proof.
  unfold CheckProcessId. destruct (Z.ltb_spec my_id 0); simpl; [by left|].
  destruct (Z.leb_spec (Z.of_nat (length processes)) my_id); simpl.
  - right. intros a Ha. apply lookup_lt_Some in Ha. lia.
  - destruct (lookup_lt_is_Some_2 processes (Z.to_nat my_id)) as [a Ha]; [lia|].
    rewrite Ha. destruct (bool_decide_reflect (hostname a = this_host)).
    + by exists a.
    + right. intros a' Ha'. by simplify_eq.
Qed.

(** The process id.  An id that is deduced is the index of the only process on this
    host, with a usage error when there are several and a validation error when there is
    none; an id that is given is accepted exactly if it is in the list and on this host. *)
Theorem process_id_correct this_host processes my_id :
  match GetProcessId this_host processes with
  | Ok r => exists k a, r = Z.of_nat k /\ processes !! k = Some a /\ hostname a = this_host /\
      forall k' a', processes !! k' = Some a' -> hostname a' = this_host -> k' = k
  | Throw (UsageError _) =>
      exists k k' a a', k <> k' /\ processes !! k = Some a /\ processes !! k' = Some a' /\
        hostname a = this_host /\ hostname a' = this_host
  | Throw (ValidationError _) => forall a, a ∈ processes -> hostname a <> this_host
  | Throw _ => False
  end /\
  match CheckProcessId this_host processes my_id with
  | Ok _ => exists a, 0 <= my_id /\ processes !! Z.to_nat my_id = Some a /\
                      hostname a = this_host
  | Throw (ValidationError _) =>
      my_id < 0 \/ forall a, processes !! Z.to_nat my_id = Some a -> hostname a <> this_host
  | Throw _ => False
  end.
Proof. split; [apply GetProcessId_spec|apply CheckProcessId_spec]. Qed.

(** ** The hostfile *)

Lemma print_digits_no_space fuel n acc :
  0 <= n -> no_space acc = true -> no_space (print_digits fuel n acc) = true.
Proof.
  revert n acc. induction fuel as [|fuel IH]; intros n acc Hn Ha; simpl; [done|].
  assert (no_space (String (digit_char (n mod 10)) acc) = true) as Hd.
  { simpl. rewrite digit_not_space; [done|].
    apply is_digit_digit_char, Z.mod_pos_bound. lia. }
  destruct (n <? 10); [done|]. apply IH; [apply Z.div_pos; lia|done].
Qed.

Lemma no_space_app a b : no_space a = true -> no_space b = true -> no_space (a +:+ b) = true.
Proof.
  intros Ha Hb. induction a as [|c a IH]; [done|]. simpl in Ha.
  apply andb_true_iff in Ha as [Hc Ha]. rewrite string_app_cons. simpl. rewrite Hc. by apply IH.
Qed.

Lemma print_Address_word a :
  no_space (hostname a) = true -> 0 <= port a ->
  no_space (print_Address a) = true /\ print_Address a <> EmptyString.
Proof.
  intros Hh Hp. unfold print_Address. split.
  - apply no_space_app; [done|]. simpl. by apply print_digits_no_space.
  - by destruct (hostname a).
Qed.

(** A line of a hostfile: the host, and the port if the line gives one. *)
Definition host_line : Type := string * option Z.

Definition line_text (l : host_line) : string :=
  match l.2 with Some p => print_Address (mkAddress l.1 p) | None => l.1 end.

(** The text of a hostfile. *)
Definition hostfile_text (lines : list host_line) : string :=
  fold_right (fun l acc => line_text l +:+ nl +:+ acc) EmptyString lines.

Definition host_line_ok (l : host_line) : Prop :=
  no_space l.1 = true /\ l.1 <> EmptyString /\ plain_host l.1 /\
  match l.2 with Some p => 0 <= p < 65536 | None => True end.

(** The address a line stands for, given the default port. *)
Definition line_address (default_port : option Z) (l : host_line) : option Address :=
  mkAddress l.1 <$> (match l.2 with Some p => Some p | None => default_port end).

Definition no_port_text : string := "port not specified in address and no default port provided".

Lemma hostfile_words lines :
  Forall host_line_ok lines -> stream_words (hostfile_text lines) = line_text <$> lines.
Proof.
  induction 1 as [|[h po] l (Hs & Hne & _ & Hp) Hl IH]; [done|]. simpl hostfile_text.
  assert (no_space (line_text (h, po)) = true /\ line_text (h, po) <> EmptyString) as [Hw Hw'].
  { destruct po as [p|]; [|done]. apply print_Address_word; simpl in *; [done|lia]. }
  change (nl +:+ hostfile_text l) with (String newline (hostfile_text l)).
  rewrite stream_words_cons by done. by rewrite IH.
Qed.

Lemma line_address_read default_port l :
  host_line_ok l ->
  AddressWithDefaultPort (line_text l) default_port =
  match line_address default_port l with
  | Some a => Ok a
  | None => Throw (invalid_argument no_port_text)
  end.
Proof.
  destruct l as [h [p|]]; intros (_ & _ & Hh & Hp); unfold line_text; cbn [fst snd].
  - by rewrite Address_roundtrip_lemma.
  - unfold AddressWithDefaultPort. rewrite split_at_none by exact Hh. by destruct default_port.
Qed.

(** A hostfile is read line by line; a line without a port needs the default port. *)
Lemma GetProcesses_lines lines default_port :
  Forall host_line_ok lines ->
  GetProcesses (Some (hostfile_text lines)) default_port =
  match mapM (line_address default_port) lines with
  | Some l => Ok l
  | None => Throw (UsageError no_port_text)
  end.
Proof.
  intros H. simpl. rewrite hostfile_words by done.
  induction H as [|l lines Hl _ IH]; [done|]. rewrite fmap_cons.
  cbn [processes_of]. rewrite line_address_read by done. simpl.
  destruct (line_address default_port l); [|done]. rewrite IH. simpl.
  by destruct (mapM (line_address default_port) lines).
Qed.

(** A line that gives host and port of an address. *)
Definition full_line (a : Address) : host_line := (hostname a, Some (port a)).

(** Round trip of the hostfile.  A file with one printed address per line is read back
    as the list of these addresses, in order, whatever the default port. *)
Theorem hostfile_roundtrip processes default_port :
  Forall host_line_ok (full_line <$> processes) ->
  GetProcesses (Some (hostfile_text (full_line <$> processes))) default_port = Ok processes.
Proof.
  intros H. rewrite GetProcesses_lines by done. clear H.
  assert (mapM (line_address default_port) (full_line <$> processes) = Some processes) as ->; [|done].
  induction processes as [|[h p] l IH]; [done|]. rewrite fmap_cons. simpl. by rewrite IH.
Qed.

Lemma hostfile_roundtrip_witness :
  GetProcesses (Some (hostfile_text (full_line <$> [mkAddress "a" 1234; mkAddress "b" 80]))) None =
  Ok [mkAddress "a" 1234; mkAddress "b" 80].
Proof.
  refine (hostfile_roundtrip [mkAddress "a" 1234; mkAddress "b" 80] None _).
  repeat constructor; simpl; try lia; try done; intros l r H;
    destruct l as [|x l]; try discriminate; injection H as _ H; by destruct l.
Defined.

(** A host without a port and without a default port makes the whole
    file a usage error, a file that cannot be opened a runtime error. *)
Theorem hostfile_errors host rest :
  no_space host = true -> host <> EmptyString -> plain_host host ->
  GetProcesses (Some (host +:+ nl +:+ rest)) None =
    Throw (UsageError "port not specified in address and no default port provided") /\
  GetProcesses None None = Throw (runtime_error "could not open hostfile").
Proof.
  intros Hs Hne Hp. split; [|done]. unfold GetProcesses.
  change (nl +:+ rest) with (String newline rest).
  rewrite stream_words_cons by done. simpl. unfold AddressWithDefaultPort.
  by rewrite split_at_none.
Qed.

Lemma hostfile_errors_witness :
  GetProcesses (Some ("vm1" +:+ nl +:+ "vm2:99")) None =
    Throw (UsageError "port not specified in address and no default port provided").
Proof.
  refine (proj1 (hostfile_errors "vm1" "vm2:99" eq_refl _ _)); [done|].
  intros l r H. repeat (destruct l as [|? l]; [discriminate|]; injection H as _ H).
  by destruct l.
Defined.

(** ** The command line *)

(** The reader of integer flags reads back a printed number. *)
Lemma stream_int_print d n :
  0 <= n <= INT_MAX -> stream_int d (print_unsigned n) = (n, EmptyString).
Proof.
  unfold INT_MAX. intros Hn. unfold stream_int.
  destruct (print_digits_head 20 n EmptyString) as (c & r & Hc & Hd); [lia|lia|].
  change (print_digits 20 n EmptyString) with (print_unsigned n) in Hc.
  rewrite Hc. assert (skip_spaces (String c r) = String c r) as ->
    by (simpl; by rewrite digit_not_space).
  rewrite read_sign_digit by done. rewrite <- Hc.
  destruct (read_print_unsigned n EmptyString) as [j Hj]; [lia|done|].
  rewrite string_app_nil_r in Hj. rewrite Hj. cbn [Nat.eqb].
  unfold INT_MAX, INT_MIN. rewrite (proj2 (Z.ltb_ge _ _)) by lia.
  rewrite (proj2 (Z.ltb_ge _ _)) by lia. f_equal. lia.
Qed.

(** The values that main reads with [args::get] have the types it reads them as, the
    integers in the range of [int]. *)
Lemma main_values argv p b :
  ParseCLI main_parser argv = Ok (p, b) ->
  exists port host id count, fl_value <$> ap_flags p =
    [NoValue; One (VInt port); One (VString host); One (VInt id); One (VInt count);
     NoValue; NoValue] /\
    Forall (fun z => INT_MIN <= z <= INT_MAX) [port; id; count].
Proof.
  unfold ParseCLI, ParseArgs. intros H.
  destruct (parse_loop _ _ _) as [[p1 rest]|] eqn:Hl; [|done]. injection H as -> _.
  apply (parse_loop_ok (length (drop 1 argv))) in Hl as [[Hsh Hty] _]; [|done].
  assert (Ht : parser_typed (Reset (set_prog main_parser argv))).
  { apply Reset_evolves. unfold set_prog. destruct argv; repeat constructor; vm_compute; done. }
  destruct (Hty Ht) as [Hfl _]. unfold shape in Hsh. injection Hsh as Hst _ _ _ _ _ _ _ _ _ _ _ _ _ _.
  assert (Hk : fl_kind <$> ap_flags p =
    [KHelp; KValue TInt; KValue TString; KValue TInt; KValue TInt; KFlag; KFlag]).
  { apply (f_equal (fmap (snd : _ -> flag_kind))) in Hst. rewrite <- !list_fmap_compose in Hst.
    etrans; [exact Hst|]. by destruct argv. }
  clear -Hfl Hk. revert Hfl Hk. generalize (ap_flags p). intros l Hfl Hk.
  do 7 (destruct l as [|[? ? ? ? ? ? ? ?] l]; [done|]). destruct l; [|done].
  injection Hk as -> -> -> -> -> -> ->. repeat rewrite Forall_cons in Hfl.
  destruct Hfl as (H0 & H1 & H2 & H3 & H4 & H5 & H6 & _).
  unfold flag_typed, typed in *. simpl in *.
  repeat match goal with H : match ?v with _ => _ end |- _ => destruct v; try done end.
  repeat match goal with
  | H : type_of ?v = _ /\ _ |- _ => destruct v, H as [? ?]; try done
  end.
  eexists _, _, _, _. split; [reflexivity|]. by repeat (apply Forall_cons; split).
Qed.

(** A host that is the only process of its hostfile, with a network that stays silent. *)
Definition sample_env : environment :=
  mkEnv "vm1" 64%nat EmptyString (fun _ => Some "vm1:80") (fun _ => Some [127; 0; 0; 1])
    (fun _ => mkSockEnv 3 0 0 0 0) (mkSockEnv 3 0 0 0 0)
    Little (fun _ => 0) (fun _ => None) (fun _ => None) (fun _ => (0, 0, 0))
    (fun _ => (0, fun _ => [], fun _ => [])) [].

(** ** Exit codes *)

(** Every exception but the request for help. *)
Definition not_help (e : exn) : Prop := match e with Help _ => False | _ => True end.

Lemma bind_not_help {A B} (m : result exn A) (f : A -> result exn B) :
  (forall e, m = Throw e -> not_help e) ->
  (forall a e, f a = Throw e -> not_help e) ->
  forall e, result_bind m f = Throw e -> not_help e.
Proof. intros Hm Hf e. destruct m; simpl; [apply Hf|intros [= <-]; by apply Hm]. Qed.

Lemma OnReceive_not_help e u w p buf n x :
  (OnReceive e u w p buf n).2 = Some x -> not_help x.
Proof.
  assert (Hs : forall y, Send w = Some y -> not_help y) by (intros y; destruct w; by intros [= <-]).
  unfold OnReceive. destruct (MessageTypeFromBuf e buf n); [|done].
  destruct (_ =? kDataMessageType); [|destruct (_ =? kSeqMessageType); [|by destruct (_ || _)]].
  - unfold HandleDataMsg. destruct (DataMsgFromBuf e buf n); [|done].
    destruct (negb _); [done|]. destruct (Lookup _ _ _).
    + unfold SendAckMsg. destruct (Send w) eqn:E; [|done]. intros [= <-]. by apply Hs.
    + unfold NextSeqNum. simpl. unfold InsertUndeliverable. simpl.
      destruct (bool_decide _); [by intros [= <-]|].
      destruct (set_count _ _ _); [by intros [= <-]|].
      unfold SendAckMsg. destruct (Send w) eqn:E; [|done]. intros [= <-]. by apply Hs.
  - unfold HandleSeqMsg. destruct (SeqMsgFromBuf e buf n); [|done].
    destruct (negb _); [done|]. unfold SendSeqAckMsg. destruct (Send w) eqn:E.
    + intros [= <-]. by apply Hs.
    + by destruct (SetDeliverable _ _ _).
Qed.

Lemma CreateSocket_not_help env t e : CreateSocket env t = Throw e -> not_help e.
Proof. unfold CreateSocket. repeat case_test; intros; by simplify_eq. Qed.

Lemma Listen_not_help e u w st events x :
  (Listen (server_callback e u w) None st events).2 = ListenThrew x -> not_help x.
Proof.
  revert st. induction events as [|[[pkt|errno] env] events IH]; intros st; simpl; [done| |].
  - destruct (CreateSocket env kNoTimeout) as [s|ex] eqn:Es.
    + destruct (server_callback e u w st _ _) as [st' r] eqn:Ec. unfold server_callback in Ec.
      pose proof (OnReceive_not_help e (u (ss_handled st)) (w (ss_handled st)) (ss_proc st) (recv_buf pkt)
        (recv_len pkt)) as Hn.
      destruct (OnReceive _ _ _ _ _ _) as [[p acts] [y|]]; injection Ec as <- <-; [|apply IH].
      intros [= <-]. by apply Hn.
    + intros [= <-]. by apply CreateSocket_not_help in Es.
  - by destruct (IsErrnoTimeout errno); intros [= <-].
Qed.

Lemma processes_of_not_help hosts dflt e : processes_of hosts dflt = Throw e -> not_help e.
Proof.
  revert e. induction hosts as [|h hosts IH]; intros e; simpl; [done|].
  assert (Ha : forall x, AddressWithDefaultPort h dflt = Throw x -> not_help x).
  { intros x. unfold AddressWithDefaultPort. repeat case_test; intros; by simplify_eq. }
  destruct (AddressWithDefaultPort h dflt) as [a|x].
  - destruct (processes_of hosts dflt); [done|]. intros [= <-]. by apply IH.
  - specialize (Ha x eq_refl). destruct x; intros [= <-]; done.
Qed.

Lemma main_setup_not_help host files p e : main_setup host files p = Throw e -> not_help e.
Proof.
  unfold main_setup. do 2 (destruct (negb _); [by intros [= <-]|]).
  apply bind_not_help; [|intros l; apply bind_not_help].
  - intros x. unfold GetProcesses. destruct (files _); [apply processes_of_not_help|].
    by intros [= <-].
  - intros x. destruct (flag_matched p 3).
    + apply bind_not_help; [|done]. intros y Hy.
      pose proof (CheckProcessId_shape host l (get_int p 3)) as Hc. rewrite Hy in Hc. by destruct y.
    + intros Hy. pose proof (GetProcessId_shape host l) as Hc. rewrite Hy in Hc. by destruct x.
  - intros i x. destruct (l !! Z.to_nat i); [done|]. by intros [= <-].
Qed.

Lemma emplace_not_help {C} (make : Address -> result exn C) l m e :
  (forall a x, make a = Throw x -> not_help x) ->
  emplace_clients make l m = Throw e -> not_help e.
Proof.
  intros Hm. revert m e. induction l as [|a l IH]; intros m; simpl; [done|].
  apply bind_not_help; [apply Hm|]. intros c x. apply IH.
Qed.

Lemma make_Client_not_help e ghbn env a t x :
  make_Client e ghbn env a t = Throw x -> not_help x.
Proof.
  unfold make_Client. apply bind_not_help; [intros y; apply CreateSocket_not_help|].
  intros s. apply bind_not_help; [|done]. intros y. unfold make_SocketAddress.
  destruct (ghbn _); [done|]. by intros [= <-].
Qed.

Lemma run_process_not_help env s e : run_process env s = Throw e -> not_help e.
Proof.
  unfold run_process. apply bind_not_help; [|intros cs; apply bind_not_help].
  - intros x. apply emplace_not_help. intros a y. apply make_Client_not_help.
  - intros x. unfold make_Server. apply bind_not_help.
    + intros y. apply CreateSocket_not_help.
    + intros sk y. destruct (_ <? 0); [by intros [= <-]|done].
  - intros sv x. by destruct (TotalOrder _ _ _ _ _ _ _ _).
Qed.

Lemma main_catch_not_help p out log e :
  not_help e -> exists err, main_catch p out log e = Exited 1 out err.
Proof. destruct e; simpl; try done; eauto. Qed.

(** What main has set up when it runs the algorithm. *)
Definition started (argv : list string) (env : environment) (s : setup)
    (clients : gmap Address Client) (g : ThreadGroup thread) (st : server_state)
    (outcome : listen_outcome) : Prop :=
  exists p b, ParseCLI main_parser argv = Ok (p, b) /\
    main_setup (env_hostname env) (env_files env) p = Ok s /\
    run_process env s = Ok (clients, g, (st, outcome)).

Lemma started_outcome argv env s clients g st outcome :
  started argv env s clients g st outcome ->
  match outcome with
  | ListenReturned => False
  | ListenThrew e => not_help e
  | Listening => True
  end.
Proof.
  intros (p & b & _ & _ & Hr). unfold run_process in Hr.
  destruct (ClientsForProcessList _ _); [|done]. simpl in Hr.
  destruct (make_Server _ _); [|done]. simpl in Hr. unfold TotalOrder in Hr.
  pose proof (launch_loop_spec (env_start env) (env_draws env)
    (make_Process (su_processes s) (su_id s) (su_delays s)) (Z.to_nat (su_count s)) 0
    make_ThreadGroup) as Hl.
  destruct (launch_loop _ _ _ _ _ _) as [g0 [x|]].
  - injection Hr as <- <- <- <-. by destruct Hl as (m & _ & _ & _ & w & _ & ->).
  - injection Hr as <- <- Hr.
    pose proof (Listen_never_returns (env_endian env) (env_uninit env) (env_sendto env)
      (mkServerState (make_Process (su_processes s) (su_id s) (su_delays s)) [] 0)
      (env_events env)) as Hn.
    pose proof (Listen_not_help (env_endian env) (env_uninit env) (env_sendto env)
      (mkServerState (make_Process (su_processes s) (su_id s) (su_delays s)) [] 0)
      (env_events env)) as Hh.
    rewrite Hr in Hn, Hh. destruct outcome; [by destruct Hn|by apply Hh|done].
Qed.

(** The threads, as main sees them. *)
Lemma thread_lookup (f : nat -> sender_outcome) n k o :
  (f <$> seq 0 n) !! k = Some o -> (k < n)%nat /\ f k = o.
Proof. intros (i & -> & [-> ?]%lookup_seq)%list_lookup_fmap_Some. done. Qed.

(** Once the process runs. *)
Lemma main_run_spec named argv env s clients g st outcome :
  started argv env s clients g st outcome ->
  match main_run named env s clients g st outcome with
  | Exited code _ _ =>
      code = 1 /\
      forall k, (k < length (threads_ g))%nat -> thread_outcome env s clients k = SenderDone
  | Aborted _ _ =>
      exists k ex, (k < length (threads_ g))%nat /\
        thread_outcome env s clients k = SenderThrew ex
  | Serving _ _ => outcome = Listening
  | JoiningThread k _ _ =>
      (exists ex, outcome = ListenThrew ex) /\ (k < length (threads_ g))%nat /\
      thread_outcome env s clients k = SenderWaiting
  end.
Proof.
  intros Hst. pose proof (started_outcome _ _ _ _ _ _ _ Hst) as Ho.
  unfold main_run. cbv zeta. simpl threads_.
  set (ths := thread_outcome env s clients <$> seq 0 (length (threads_ g))).
  destruct (existsb has_thrown ths) eqn:Et.
  { apply existsb_exists in Et as (o & Hin & Hthr).
    apply list_elem_of_In, list_elem_of_lookup in Hin as (k & Hk).
    destruct (thread_lookup _ _ _ _ Hk) as [Hlt Hok]. destruct o as [|ex|]; try done.
    by exists k, ex. }
  pose proof (JoinAll_spec has_ended (mkThreadGroup ths)) as Hj.
  destruct outcome as [|ex|]; [done| |done].
  destruct (JoinAll has_ended (mkThreadGroup ths)) as [g' [|k]]; simpl in Hj |- *.
  - destruct (main_catch_not_help named (delivered_lines (su_id s) (ss_actions st))
      (logged (su_verbose s) (ss_actions st)) ex Ho) as [err ->].
    split; [done|]. destruct Hj as [_ Hall]. intros k Hk.
    assert (ths !! k = Some (thread_outcome env s clients k)) as Hl.
    { unfold ths. rewrite list_lookup_fmap, lookup_seq_lt by done. done. }
    pose proof (proj1 (Forall_lookup _ _) Hall _ _ Hl) as He.
    by destruct (thread_outcome env s clients k).
  - destruct Hj as (_ & o & Hk & He). destruct (thread_lookup _ _ _ _ Hk) as [Hlt Hok].
    split_and!; [by exists ex|done|]. rewrite Hok. destruct o as [|ex'|]; [done| |done].
    assert (existsb has_thrown ths = true); [|congruence].
    apply existsb_exists. exists (SenderThrew ex'). split; [|done].
    apply list_elem_of_In. by eapply list_elem_of_lookup_2.
Qed.

(** What main comes to, read off its outcome. *)
Lemma main_outcomes argv env :
  match main argv env with
  | Exited code out err =>
      if code =? 0 then
        (exists f, ParseCLI main_parser argv = Throw (Help f)) /\
        out = Help_string (set_prog main_parser argv) /\ err = EmptyString
      else
        code = 1 /\
        forall s clients g st outcome, started argv env s clients g st outcome ->
          forall k, (k < length (threads_ g))%nat -> thread_outcome env s clients k = SenderDone
  | Aborted _ _ =>
      exists s clients g st outcome k ex, started argv env s clients g st outcome /\
        (k < length (threads_ g))%nat /\ thread_outcome env s clients k = SenderThrew ex
  | Serving _ _ =>
      exists s clients g st, started argv env s clients g st Listening
  | JoiningThread k _ _ =>
      exists s clients g st ex, started argv env s clients g st (ListenThrew ex) /\
        (k < length (threads_ g))%nat /\ thread_outcome env s clients k = SenderWaiting
  end.
Proof.
  unfold main. destruct (ParseCLI main_parser argv) as [[p b]|e] eqn:Ep.
  2: { destruct e; simpl; try (split; [done|]; intros ????? (? & ? & ? & _); congruence).
       eauto. }
  destruct (main_setup _ _ p) as [s|e] eqn:Es.
  2: { apply main_setup_not_help in Es as Hn.
       destruct (main_catch_not_help (set_prog main_parser argv) EmptyString EmptyString e Hn)
         as [err ->]. split; [done|]. intros ????? (? & ? & ? & ? & _). congruence. }
  destruct (run_process env s) as [[[clients g] [st outcome]]|e] eqn:Er.
  2: { apply run_process_not_help in Er as Hn.
       destruct (main_catch_not_help (set_prog main_parser argv) EmptyString EmptyString e Hn)
         as [err ->]. split; [done|]. intros ????? (? & ? & ? & ? & ?). congruence. }
  assert (Hst : started argv env s clients g st outcome) by (by exists p, b).
  pose proof (main_run_spec (set_prog main_parser argv) _ _ _ _ _ _ _ Hst) as H.
  destruct (main_run _ _ _ _ _ _ _) as [code out err| | |k out err].
  - destruct H as [-> Hall]. split; [done|].
    intros s' cl' g' st' o' (p' & b' & Hp' & Hs' & Hr').
    rewrite Ep in Hp'. injection Hp' as <- <-. rewrite Es in Hs'. injection Hs' as <-.
    rewrite Er in Hr'. by injection Hr' as <- <- <- <-.
  - destruct H as (k & ex & H1 & H2). by exists s, clients, g, st, outcome, k, ex.
  - subst. by exists s, clients, g, st.
  - destruct H as ([ex ->] & H1 & H2). by exists s, clients, g, st, ex.
Qed.

(** C33: exit codes.  main exits with code 0 exactly when the command line asks for help, in
    which case it prints the menu.  Every error exits with code 1; when threads had been
    launched, only after all of them have ended.  Otherwise main does not return: a
    thread has thrown and the program is aborted, the server runs, or the server
    has failed and main waits for a thread that has not ended. *)
Theorem main_exit_codes argv env :
  ((exists out err, main argv env = Exited 0 out err) <->
   exists f, ParseCLI main_parser argv = Throw (Help f)) /\
  match main argv env with
  | Exited code out err =>
      if code =? 0 then
        (exists f, ParseCLI main_parser argv = Throw (Help f)) /\
        out = Help_string (set_prog main_parser argv) /\ err = EmptyString
      else
        code = 1 /\
        forall s clients g st outcome, started argv env s clients g st outcome ->
          forall k, (k < length (threads_ g))%nat -> thread_outcome env s clients k = SenderDone
  | Aborted _ _ =>
      exists s clients g st outcome k ex, started argv env s clients g st outcome /\
        (k < length (threads_ g))%nat /\ thread_outcome env s clients k = SenderThrew ex
  | Serving _ _ =>
      exists s clients g st, started argv env s clients g st Listening
  | JoiningThread k _ _ =>
      exists s clients g st ex, started argv env s clients g st (ListenThrew ex) /\
        (k < length (threads_ g))%nat /\ thread_outcome env s clients k = SenderWaiting
  end.
Proof.
  pose proof (main_outcomes argv env) as Ho. split; [split|exact Ho].
  - intros (out & err & Hm). rewrite Hm in Ho. by destruct Ho as [? _].
  - intros [f Hf]. unfold main. rewrite Hf. simpl. by eexists _, _.
Qed.

(** Ways a run can go: help, an error on the command line, a server that runs, and a server
    that fails while a thread waits for its acknowledgement. *)
Lemma main_runs :
  main ["prog"; "--help"] sample_env =
    Exited 0 (Help_string (set_prog main_parser ["prog"])) EmptyString /\
  match main ["prog"; "-h"; "hosts"] sample_env with
  | Exited code out err => code = 1 /\ out = EmptyString
  | _ => False
  end /\
  main ["prog"; "-h"; "hosts"; "-c"; "1"] sample_env = Serving EmptyString EmptyString /\
  main ["prog"; "-h"; "hosts"; "-c"; "1"]
    (mkEnv "vm1" 64%nat EmptyString (fun _ => Some "vm1:80") (fun _ => Some [127; 0; 0; 1])
      (fun _ => mkSockEnv 3 0 0 0 0) (mkSockEnv 3 0 0 0 0)
      Little (fun _ => 0) (fun _ => None) (fun _ => None) (fun _ => (0, 0, 0))
      (fun _ => (0, fun _ => [], fun _ => [])) [(RecvError 5, mkSockEnv 3 0 0 0 0)]) =
  JoiningThread 0 EmptyString EmptyString.
Proof. vm_compute. auto. Qed.

(** ** Output *)

(** The printed log.  The line a process prints for a delivered message determines its
    sender, id, final number and proposer, so comparing the outputs of two processes
    compares what they delivered. *)
Theorem deliver_line_injective id_val m m' :
  SeqMessage_u32 m -> SeqMessage_u32 m' ->
  deliver_line id_val m = deliver_line id_val m' ->
  sm_sender m = sm_sender m' /\ sm_msg_id m = sm_msg_id m' /\
  sm_final_seq m = sm_final_seq m' /\ sm_final_seq_proposer m = sm_final_seq_proposer m'.
Proof. apply deliver_line_inj_lemma. Qed.

Lemma deliver_line_injective_witness :
  deliver_line 2 (mkSeqMessage 0 1 77 5 3) =
    "2: Processed message 77 from sender 1 with seq (5, 3)" +:+ nl /\
  sm_msg_id (mkSeqMessage 0 1 77 5 3) = sm_msg_id (mkSeqMessage 9 1 77 5 3).
Proof.
  split; [vm_compute; reflexivity|].
  refine (proj1 (proj2 (deliver_line_injective 2 (mkSeqMessage 0 1 77 5 3)
    (mkSeqMessage 9 1 77 5 3) _ _ eq_refl))); repeat split; vm_compute; done.
Defined.

(** The texts the logger prints for data, acknowledgement and
    sequence messages determine the messages. *)
Theorem log_texts_injective dm dm' am am' sm sm' :
  is_u32 (dm_type dm) -> is_u32 (dm_type dm') -> DataMessage_u32 dm -> DataMessage_u32 dm' ->
  is_u32 (am_type am) -> is_u32 (am_type am') -> AckMessage_u32 am -> AckMessage_u32 am' ->
  is_u32 (sm_type sm) -> is_u32 (sm_type sm') -> SeqMessage_u32 sm -> SeqMessage_u32 sm' ->
  (print_DataMessage dm = print_DataMessage dm' -> dm = dm') /\
  (print_AckMessage am = print_AckMessage am' -> am = am') /\
  (print_SeqMessage sm = print_SeqMessage sm' -> sm = sm').
Proof.
  intros. split_and!; [by apply print_DataMessage_inj|by apply print_AckMessage_inj|
    by apply print_SeqMessage_inj].
Qed.

Lemma log_texts_injective_witness :
  print_DataMessage (mkDataMessage 1 2 3 4) = "{type: 1, sender: 2, msg_id: 3, data: 4}" /\
  (print_DataMessage (mkDataMessage 1 2 3 4) = print_DataMessage (mkDataMessage 1 2 3 4) ->
   mkDataMessage 1 2 3 4 = mkDataMessage 1 2 3 4).
Proof.
  split; [vm_compute; reflexivity|].
  refine (proj1 (log_texts_injective (mkDataMessage 1 2 3 4) (mkDataMessage 1 2 3 4)
    (mkAckMessage 2 1 1 1 1) (mkAckMessage 2 1 1 1 1) (mkSeqMessage 3 1 1 1 1)
    (mkSeqMessage 3 1 1 1 1) _ _ _ _ _ _ _ _ _ _ _ _)); repeat split; vm_compute; done.
Defined.

(** C40: wrapping of help texts.  The lines that [Wrap] makes hold the words of the text in
    their order; only words without a glyph are dropped.  Of a text without line breaks every
    line is its words joined by single spaces; the first line is at most [firstlinewidth] glyphs
    long (the width when that is 0) and every other line at most the width, unless it is a
    single word; and a line ends only where the next word would not have fitted.  At
    a line break the parts of a text are wrapped one by one. *)
Theorem wrap_keeps_words text width firstlinewidth :
  concat (stream_words <$> Wrap text width firstlinewidth) =
    filter has_glyph (stream_words text) /\
  (unbroken text ->
   fits width (if (firstlinewidth =? 0)%nat then width else firstlinewidth)
     (Wrap text width firstlinewidth)) /\
  (forall rest, unbroken text ->
   Wrap (text +:+ String newline rest) width firstlinewidth = Wrap text width 0 ++ Wrap rest width 0).
Proof.
  split_and!.
  - apply Wrap_words.
  - apply Wrap_fits.
  - intros rest. apply Wrap_newline.
Qed.

Lemma wrap_keeps_words_witness :
  Wrap "one two three four" 9 4 = ["one"; "two three"; "four"] /\
  fits 9 4 (Wrap "one two three four" 9 4).
Proof.
  split; [vm_compute; reflexivity|].
  refine (proj1 (proj2 (wrap_keeps_words "one two three four" 9 4)) _).
  intros l r H. repeat (destruct l as [|? l]; [discriminate|]; injection H as _ H).
  by destruct l.
Defined.
