(* ===== verification/CommandLine.v ===== *)
(** * Command lines and hostfiles

    The way from the command line and the hostfile to the process: options written as a
    command line, and processes written as a hostfile, are what main sets up; what is no option
    is rejected; counts are taken whatever their range. *)

From Stdlib Require Import ZArith Lia Ascii String.
From stdpp Require Import base list gmap strings.
From S2P Require Import Prelude Text Exceptions Net Args ArgParse ArgsHelp ArgsProps Main MainProps.

Open Scope Z_scope.

(** ** Options *)

(** The four ways to pass a value: [--name v], [--name=v], [-c v] and [-cv]. *)
Inductive form := Long | LongJoined | Short | ShortJoined.

Definition value_args (f : form) (name : string) (c : ascii) (v : string) : list string :=
  match f with
  | Long => ["--" +:+ name; v]
  | LongJoined => ["--" +:+ name +:+ "=" +:+ v]
  | Short => [String "-" (String c EmptyString); v]
  | ShortJoined => [String "-" (String c v)]
  end.

(** One option of a command line. *)
Inductive opt :=
| OptPort (f : form) (n : Z)
| OptHostfile (f : form) (h : string)
| OptId (f : form) (n : Z)
| OptCount (f : form) (n : Z)
| OptDelays (short : bool)
| OptVerbose (short : bool).

Definition opt_args (o : opt) : list string :=
  match o with
  | OptPort f n => value_args f "port" "p" (print_unsigned n)
  | OptHostfile f h => value_args f "hostfile" "h" h
  | OptId f n => value_args f "id" "i" (print_unsigned n)
  | OptCount f n => value_args f "count" "c" (print_unsigned n)
  | OptDelays short => [if short then "-d" else "--delays"]
  | OptVerbose short => [if short then "-v" else "--verbose"]
  end.

(** Numbers fit an [int]; an empty value cannot be joined to a short flag. *)
Definition opt_ok (o : opt) : Prop :=
  match o with
  | OptPort _ n | OptId _ n | OptCount _ n => 0 <= n <= INT_MAX
  | OptHostfile f h => f = ShortJoined -> h <> EmptyString
  | _ => True
  end.

(** The parser of main while it parses: which flags have been matched, and the values read. *)
Record parsed := mkParsed {
  pa_port : bool * Z;
  pa_hostfile : bool * string;
  pa_id : bool * Z;
  pa_count : bool * Z;
  pa_delays : bool;
  pa_verbose : bool
}.

Definition main_state (prog : string) (a : parsed) : ArgumentParser :=
  let p := set_prog main_parser [prog] in
  set_flags p
    (zip_with (fun f x => set_value (set_matched f x.1) x.2) (ap_flags p)
       [(false, NoValue); ((pa_port a).1, One (VInt (pa_port a).2));
        ((pa_hostfile a).1, One (VString (pa_hostfile a).2));
        ((pa_id a).1, One (VInt (pa_id a).2)); ((pa_count a).1, One (VInt (pa_count a).2));
        (pa_delays a, NoValue); (pa_verbose a, NoValue)]).

Definition nothing : parsed :=
  mkParsed (false, 0) (false, EmptyString) (false, 0) (false, 0) false false.

(** What an option adds; a later one overrides an earlier one. *)
Definition apply_opt (a : parsed) (o : opt) : parsed :=
  let '(mkParsed po ho io co d v) := a in
  match o with
  | OptPort _ n => mkParsed (true, n) ho io co d v
  | OptHostfile _ h => mkParsed po (true, h) io co d v
  | OptId _ n => mkParsed po ho (true, n) co d v
  | OptCount _ n => mkParsed po ho io (true, n) d v
  | OptDelays _ => mkParsed po ho io co true v
  | OptVerbose _ => mkParsed po ho io co d true
  end.

Lemma main_state_start prog args :
  ParseCLI main_parser (prog :: args) =
  (let! r := parse_loop (main_state prog nothing) false args in
   Ok (r.1, match r.2 with [] => true | _ => false end))%tom.
Proof.
  assert (Reset (set_prog main_parser (prog :: args)) = main_state prog nothing) as Hs
    by (vm_compute; reflexivity).
  unfold ParseCLI, ParseArgs. rewrite Hs. cbn [drop]. reflexivity.
Qed.

Lemma main_state_matched prog a : Matched (main_state prog a) = true.
Proof. by destruct a as [[] [] [] [] ? ?]. Qed.

(** A number is not the empty string. *)
Lemma print_unsigned_cons n : 0 <= n <= INT_MAX -> exists c r, print_unsigned n = String c r.
Proof.
  intros Hn. destruct (print_digits_head 20 n EmptyString) as (c & r & Hc & _);
    [lia|unfold INT_MAX in Hn; lia|]. by exists c, r.
Qed.

(** A number is read into a flag in any of the forms; [Hw] is how its text is read. *)
Ltac number_step Hw :=
  (apply parse_loop_separate || apply parse_loop_joined);
  [reflexivity|cbv -[stream_int]; rewrite Hw; reflexivity].

(** One option after the other. *)
Lemma opt_step prog a o rest :
  opt_ok o ->
  parse_loop (main_state prog a) false (opt_args o ++ rest) =
  parse_loop (main_state prog (apply_opt a o)) false rest.
Proof.
  destruct a as [[mp pv] [mh hv] [mi iv] [mc cv] d v].
  destruct o as [f n|f h|f n|f n|[]|[]]; cbn [opt_args opt_ok apply_opt]; intros Hok.
  2: { destruct f; cbn [value_args app].
       1-3: (apply parse_loop_separate || apply parse_loop_joined);
            [reflexivity|vm_compute; reflexivity].
       destruct h as [|c h]; [by destruct Hok|].
       apply parse_loop_joined; [reflexivity|vm_compute; reflexivity]. }
  4-7: apply parse_loop_joined; [reflexivity|vm_compute; reflexivity].
  - pose proof (stream_int_print pv n Hok) as Hw.
    destruct (print_unsigned_cons n Hok) as (c & r & Hp). rewrite Hp in *.
    destruct f; cbn [value_args app]; number_step Hw.
  - pose proof (stream_int_print iv n Hok) as Hw.
    destruct (print_unsigned_cons n Hok) as (c & r & Hp). rewrite Hp in *.
    destruct f; cbn [value_args app]; number_step Hw.
  - pose proof (stream_int_print cv n Hok) as Hw.
    destruct (print_unsigned_cons n Hok) as (c & r & Hp). rewrite Hp in *.
    destruct f; cbn [value_args app]; number_step Hw.
Qed.

Lemma options_steps prog opts a rest :
  Forall opt_ok opts ->
  parse_loop (main_state prog a) false (concat (opt_args <$> opts) ++ rest) =
  parse_loop (main_state prog (fold_left apply_opt opts a)) false rest.
Proof.
  intros Hok. revert a. induction Hok as [|o opts Ho Hok IH]; intros a; [done|].
  rewrite fmap_cons. cbn [concat fold_left]. rewrite <- app_assoc, opt_step by done. apply IH.
Qed.

Lemma parse_options prog opts :
  Forall opt_ok opts ->
  ParseCLI main_parser (prog :: concat (opt_args <$> opts)) =
  Ok (main_state prog (fold_left apply_opt opts nothing), true).
Proof.
  intros Hok. rewrite main_state_start.
  rewrite <- (app_nil_r (concat (opt_args <$> opts))), options_steps by done.
  by rewrite parse_loop_end by apply main_state_matched.
Qed.

(** C36: the command line.  Any sequence of options, in any order and each in any of its forms,
    is read as what the options say one after the other, a later one overriding an
    earlier one; nothing is left over. *)
Theorem command_line_options prog opts :
  Forall opt_ok opts ->
  ParseCLI main_parser (prog :: concat (opt_args <$> opts)) =
  Ok (main_state prog (fold_left apply_opt opts nothing), true).
Proof. apply parse_options. Qed.

Lemma command_line_options_witness :
  concat (opt_args <$> [OptCount ShortJoined 3; OptDelays true; OptHostfile LongJoined "hosts"]) =
    ["-c3"; "-d"; "--hostfile=hosts"] /\
  ParseCLI main_parser ["prog"; "-c3"; "-d"; "--hostfile=hosts"] =
  Ok (main_state "prog" (mkParsed (false, 0) (true, "hosts") (false, 0) (true, 3) true false), true).
Proof.
  split; [vm_compute; reflexivity|].
  refine (command_line_options "prog"
    [OptCount ShortJoined 3; OptDelays true; OptHostfile LongJoined "hosts"] _).
  repeat constructor; unfold INT_MAX; (lia || done).
Defined.

(** ** From the options to the process *)

Lemma parsed_counts opts a :
  Forall opt_ok opts -> 0 <= (pa_count a).2 <= INT_MAX ->
  0 <= (pa_count (fold_left apply_opt opts a)).2 <= INT_MAX.
Proof.
  intros Hok. revert a. induction Hok as [|o opts Ho Hok IH]; intros a Ha; [done|].
  cbn [fold_left]. apply IH. by destruct a, o.
Qed.

(** What main asks the parser for. *)
Lemma main_state_sees prog a :
  flag_matched (main_state prog a) 1 = (pa_port a).1 /\
  get_int (main_state prog a) 1 = (pa_port a).2 /\
  flag_matched (main_state prog a) 2 = (pa_hostfile a).1 /\
  get_string (main_state prog a) 2 = (pa_hostfile a).2 /\
  flag_matched (main_state prog a) 3 = (pa_id a).1 /\
  get_int (main_state prog a) 3 = (pa_id a).2 /\
  flag_matched (main_state prog a) 4 = (pa_count a).1 /\
  get_int (main_state prog a) 4 = (pa_count a).2 /\
  flag_matched (main_state prog a) 5 = pa_delays a /\
  flag_matched (main_state prog a) 6 = pa_verbose a.
Proof. by destruct a. Qed.

(** The default port of a command line, as an [unsigned short]. *)
Definition default_port (a : parsed) : option Z :=
  if (pa_port a).1 then Some (u16 (pa_port a).2) else None.

(** What main makes of the options when the hostfile consists of [lines]. *)
Definition setup_spec (this_host : string) (lines : list host_line) (a : parsed)
    (r : result exn setup) : Prop :=
  let processes := mapM (line_address (default_port a)) lines in
  let here l k := exists addr, l !! k = Some addr /\ hostname addr = this_host in
  match r with
  | Ok s =>
      (pa_hostfile a).1 = true /\ (pa_count a).1 = true /\
      processes = Some (su_processes s) /\ su_delays s = pa_delays a /\
      su_count s = (pa_count a).2 /\ su_verbose s = pa_verbose a /\
      (exists k addr, su_id s = Z.of_nat k /\ su_processes s !! k = Some addr /\
         hostname addr = this_host /\ su_port s = port addr) /\
      if (pa_id a).1 then su_id s = (pa_id a).2
      else forall k, here (su_processes s) k -> su_id s = Z.of_nat k
  | Throw e =>
      if negb (pa_hostfile a).1 then e = UsageError "--hostfile is a required flag"
      else if negb (pa_count a).1 then e = UsageError "--count is a required flag"
      else
        match processes with
        | None => e = UsageError no_port_text
        | Some l =>
            if (pa_id a).1 then
              e = ValidationError "--id value not found in hostfile" /\
                ((pa_id a).2 < 0 \/ Z.of_nat (length l) <= (pa_id a).2) \/
              e = ValidationError "--id value is not the hostname of this host" /\
                0 <= (pa_id a).2 < Z.of_nat (length l) /\ ~ here l (Z.to_nat (pa_id a).2)
            else
              e = UsageError ambiguous_text /\ (exists k k', k <> k' /\ here l k /\ here l k') \/
              e = ValidationError not_here_text /\ (forall k, ~ here l k)
        end
  end.

Lemma main_setup_spec prog this_host files lines a :
  Forall host_line_ok lines -> 0 <= (pa_count a).2 <= INT_MAX ->
  ((pa_hostfile a).1 = true -> files (pa_hostfile a).2 = Some (hostfile_text lines)) ->
  setup_spec this_host lines a (main_setup this_host files (main_state prog a)).
Proof.
  intros Hp Hn Hf.
  destruct (main_state_sees prog a) as (E1 & E2 & E3 & E4 & E5 & E6 & E7 & E8 & E9 & E10).
  unfold main_setup. rewrite E1, E2, E3, E4, E5, E6, E7, E8, E9, E10.
  unfold setup_spec. fold (default_port a). destruct (pa_hostfile a) as [[] h]; [|done].
  destruct (pa_count a) as [[] n]; [|done]. cbn [fst snd negb] in *. rewrite Hf by done.
  assert (u32 n = n) as Hu by (apply u32_small; unfold is_u32, u32_modulus, INT_MAX in *; lia).
  rewrite Hu, GetProcesses_lines by done.
  destruct (mapM (line_address (default_port a)) lines) as [l|]; [|done]. cbn [result_bind].
  destruct (pa_id a) as [[] id]; cbn [fst snd].
  - unfold CheckProcessId.
    destruct (Z.ltb_spec id 0); [by left; split; [|left]|].
    destruct (Z.leb_spec (Z.of_nat (length l)) id); [by left; split; [|right]|]. cbn [orb].
    destruct (lookup_lt_is_Some_2 l (Z.to_nat id)) as [addr Hk]; [lia|]. rewrite Hk.
    destruct (bool_decide_reflect (hostname addr = this_host)) as [Ha|Ha]; cbn [result_bind].
    + rewrite Hk. split_and!; try done. exists (Z.to_nat id), addr. simpl; split_and!; (done || lia).
    + right. split; [done|]. split; [lia|]. intros (b & Hb & Hb'). congruence.
  - pose proof (GetProcessId_spec this_host l) as Hg. pose proof (GetProcessId_texts this_host l) as Ht.
    destruct (GetProcessId this_host l) as [id'|ex]; cbn [result_bind].
    + destruct Hg as (k & addr & -> & Hk & Ha & Hu'). rewrite Nat2Z.id, Hk.
      split_and!; try done; [by exists k, addr|]. intros k' (a' & Hk' & Ha').
      by rewrite (Hu' k' a').
    + destruct ex; try done; subst.
      * destruct Hg as (k & k' & b & b' & Hne & H1 & H2 & H3 & H4). left.
        split; [done|]. exists k, k'. split_and!; [done|by exists b|by exists b'].
      * right. split; [done|]. intros k (addr & Hk & Ha).
        by apply (Hg addr); [eapply list_elem_of_lookup_2|].
Qed.

(** C38: the way to the process.  For a hostfile whose lines give a host with or without a port,
    and any sequence of options, main runs the process the options ask for: with the processes of
    the file, on the port of --port where a line gives none; with the last count and the flags
    given; with the id given or else that of the only process on this host, and the port of
    that process.  Otherwise the error says what is wrong, in this order: no hostfile, no count,
    a line without a port and no default port, an id that is not in the file or not on this
    host, or without an id several processes on this host or none. *)
Theorem options_setup prog opts this_host files lines :
  Forall opt_ok opts -> Forall host_line_ok lines ->
  let a := fold_left apply_opt opts nothing in
  ((pa_hostfile a).1 = true -> files (pa_hostfile a).2 = Some (hostfile_text lines)) ->
  exists p, ParseCLI main_parser (prog :: concat (opt_args <$> opts)) = Ok (p, true) /\
    setup_spec this_host lines a (main_setup this_host files p).
Proof.
  intros Hok Hp a Hf. exists (main_state prog a). split.
  - by apply parse_options.
  - apply main_setup_spec; try done. apply parsed_counts; [done|]. simpl. unfold INT_MAX. lia.
Qed.

(** The second line gets the port of the command line. *)
Lemma options_setup_witness :
  let lines := [("vm1", Some 80); ("vm2", None)] in
  exists p, ParseCLI main_parser ["prog"; "-hf"; "--count"; "5"; "-v"; "-p"; "81"] = Ok (p, true) /\
    main_setup "vm2" (fun _ => Some (hostfile_text lines)) p =
      Ok (mkSetup [mkAddress "vm1" 80; mkAddress "vm2" 81] 1 81 false 5 true) /\
    setup_spec "vm2" lines (mkParsed (true, 81) (true, "f") (false, 0) (true, 5) false true)
      (main_setup "vm2" (fun _ => Some (hostfile_text lines)) p).
Proof.
  intros lines.
  destruct (options_setup "prog"
    [OptHostfile ShortJoined "f"; OptCount Long 5; OptVerbose true; OptPort Short 81]
    "vm2" (fun _ => Some (hostfile_text lines)) lines) as (p & Hp & Hs).
  - repeat constructor; unfold INT_MAX; (lia || done).
  - repeat constructor; simpl; try lia; try done; intros l r H;
      repeat (destruct l as [|? l]; [discriminate|]; injection H as _ H); by destruct l.
  - done.
  - exists p. split; [exact Hp|]. split; [|exact Hs].
    assert (p = main_state "prog"
      (mkParsed (true, 81) (true, "f") (false, 0) (true, 5) false true)) as ->.
    { assert (Ok (p, true) = Ok (E := exn) (main_state "prog"
        (mkParsed (true, 81) (true, "f") (false, 0) (true, 5) false true), true)) as Heq;
        [|by injection Heq].
      rewrite <- Hp. vm_compute. reflexivity. }
    vm_compute. reflexivity.
Defined.

(** ** Counts *)

(** A number as it may be written: a sign or none, and digits. *)
Definition sign_text (sign : option bool) : string :=
  match sign with None => EmptyString | Some true => "-" | Some false => "+" end.
Definition sign_value (sign : option bool) : Z :=
  match sign with Some true => -1 | _ => 1 end.
Definition digits_text (ds : list Z) : string :=
  fold_right (fun d s => String (digit_char d) s) EmptyString ds.
Definition digits_value (ds : list Z) : Z := fold_left (fun v d => v * 10 + d) ds 0.

Lemma read_digits_text v k ds :
  Forall (fun d => 0 <= d < 10) ds ->
  read_digits v k (digits_text ds) =
  (fold_left (fun v d => v * 10 + d) ds v, (k + length ds)%nat, EmptyString).
Proof.
  intros Hds. revert v k. induction Hds as [|d ds Hd _ IH]; intros v k; simpl.
  { by rewrite Nat.add_0_r. }
  rewrite is_digit_digit_char by done. rewrite IH. unfold digit_value.
  rewrite char_code_digit by done. rewrite Nat.add_succ_r. f_equal. f_equal. f_equal. lia.
Qed.

(** How an [int] is read: 0 without a digit, and clamped to its range. *)
Definition clamp (v : Z) : Z := if INT_MAX <? v then INT_MAX else if v <? INT_MIN then INT_MIN else v.

Lemma stream_int_text d0 sign ds :
  Forall (fun d => 0 <= d < 10) ds -> sign_text sign +:+ digits_text ds <> EmptyString ->
  stream_int d0 (sign_text sign +:+ digits_text ds) =
  (clamp (sign_value sign * digits_value ds), EmptyString).
Proof.
  intros Hds Hne. pose proof (read_digits_text 0 0 ds Hds) as Hr.
  assert (Hfin : forall sg, (let '(v, k, rest) := read_digits 0 0 (digits_text ds) in
    if (k =? 0)%nat then (0, rest) else (clamp (sg * v), rest)) =
    (clamp (sg * digits_value ds), EmptyString)).
  { intros sg. rewrite Hr. destruct ds as [|d ds]; [|done]. simpl. by rewrite Z.mul_0_r. }
  unfold stream_int. destruct sign as [[]|]; cbn [sign_text sign_value].
  - exact (Hfin (-1)).
  - exact (Hfin 1).
  - specialize (Hfin 1). cbn [sign_text] in Hne.
    change (EmptyString +:+ digits_text ds) with (digits_text ds) in *.
    destruct ds as [|d ds]; [done|]. apply Forall_cons in Hds as [Hd _].
    pose proof (is_digit_digit_char d Hd) as Hdig. cbn [digits_text fold_right] in *.
    fold (digits_text ds) in *. cbn [skip_spaces]. rewrite digit_not_space by done.
    rewrite read_sign_digit by done. exact Hfin.
Qed.

Definition with_count (a : parsed) (n : Z) : parsed :=
  mkParsed (pa_port a) (pa_hostfile a) (pa_id a) (true, n) (pa_delays a) (pa_verbose a).

Definition launches (s : setup) (n : Z) : setup :=
  mkSetup (su_processes s) (su_id s) (su_port s) (su_delays s) n (su_verbose s).

(** A count in any text that can be read as a number. *)
Lemma count_step prog a f text n :
  text <> EmptyString -> stream_int (pa_count a).2 text = (n, EmptyString) ->
  parse_loop (main_state prog a) false (value_args f "count" "c" text) =
  Ok (main_state prog (with_count a n), []).
Proof.
  intros Hne Hw. rewrite <- (parse_loop_end _ false) by apply main_state_matched.
  destruct a as [[mp pv] [mh hv] [mi iv] [mc cv] d v]. cbn [pa_count snd] in Hw.
  destruct text as [|c r]; [done|]. destruct f; cbn [value_args]; number_step Hw.
Qed.

(** C39: counts are not validated.  A count may be any sign and digits after any options: main
    accepts it, and launches as many senders as the number clamped to the range of [int] and
    converted to [unsigned]; so a sign without digits counts as 0, a number that is too
    large as 2147483647, and a negative number [v] as the huge [v + 2^32]. *)
Theorem count_not_validated prog opts f sign ds this_host files :
  Forall opt_ok opts -> Forall (fun d => 0 <= d < 10) ds ->
  sign_text sign +:+ digits_text ds <> EmptyString ->
  let a := fold_left apply_opt opts nothing in
  let v := sign_value sign * digits_value ds in
  let n := if v <? INT_MIN then 2147483648
           else if v <? 0 then v + 4294967296
           else if INT_MAX <? v then INT_MAX else v in
  exists p,
    ParseCLI main_parser
      (prog :: concat (opt_args <$> opts) ++
               value_args f "count" "c" (sign_text sign +:+ digits_text ds)) = Ok (p, true) /\
    main_setup this_host files p =
    (let! s := main_setup this_host files (main_state prog (with_count a 0)) in
     Ok (launches s n))%tom.
Proof.
  intros Hok Hds Hne a v n. exists (main_state prog (with_count a (clamp v))). split.
  - rewrite main_state_start, options_steps by done. fold a.
    by rewrite (count_step prog a f _ (clamp v)) by (done || by apply stream_int_text).
  - assert (u32 (clamp v) = n) as Hu.
    { unfold n, clamp, INT_MIN, INT_MAX in *.
      destruct (Z.ltb_spec v (-2147483648)), (Z.ltb_spec 2147483647 v), (Z.ltb_spec v 0);
        try lia; try done.
      - unfold u32. rewrite <- (Z.mod_add v 1) by done. apply Z.mod_small. unfold u32_modulus. lia.
      - apply u32_small. unfold is_u32, u32_modulus. lia. }
    rewrite <- Hu. unfold main_setup.
    destruct (main_state_sees prog (with_count a (clamp v)))
      as (E1 & E2 & E3 & E4 & E5 & E6 & E7 & E8 & E9 & E10).
    rewrite E1, E2, E3, E4, E5, E6, E7, E8, E9, E10.
    destruct (main_state_sees prog (with_count a 0))
      as (F1 & F2 & F3 & F4 & F5 & F6 & F7 & F8 & F9 & F10).
    rewrite F1, F2, F3, F4, F5, F6, F7, F8, F9, F10.
    cbn [with_count pa_port pa_hostfile pa_id pa_count pa_delays pa_verbose fst snd negb].
    destruct (pa_hostfile a) as [[] h]; [|done]. cbn [negb fst snd].
    destruct (GetProcesses _ _) as [l|e]; [|done]. cbn [result_bind].
    destruct (if (pa_id a).1 then _ else _) as [id|e]; [|done]. cbn [result_bind].
    by destruct (l !! Z.to_nat id).
Qed.

Lemma count_not_validated_witness :
  let files _ := Some (hostfile_text [("vm1", Some 80)]) in
  exists p, ParseCLI main_parser ["prog"; "-hf"; "--count=-1"] = Ok (p, true) /\
    main_setup "vm1" files p = Ok (mkSetup [mkAddress "vm1" 80] 0 80 false 4294967295 false).
Proof.
  intros files.
  destruct (count_not_validated "prog" [OptHostfile ShortJoined "f"] LongJoined (Some true) [1]
    "vm1" files) as (p & Hp & Hs).
  - repeat constructor. done.
  - repeat constructor; lia.
  - done.
  - exists p. split; [exact Hp|]. rewrite Hs. vm_compute. reflexivity.
Defined.

(** ** Command lines that are rejected *)

Definition main_longs : list string :=
  ["help"; "port"; "hostfile"; "id"; "count"; "delays"; "verbose"].
Definition main_shorts : list ascii :=
  ["p"%char; "h"%char; "i"%char; "c"%char; "d"%char; "v"%char].

(** The flags that take a value, and those that take a number. *)
Definition value_flags : list (string * ascii) :=
  [("port", "p"%char); ("hostfile", "h"%char); ("id", "i"%char); ("count", "c"%char)].
Definition number_flags : list (string * ascii) :=
  [("port", "p"%char); ("id", "i"%char); ("count", "c"%char)].

(** The name in the text after the long prefix. *)
Definition long_name (argchunk : string) : string :=
  match find_sub "=" argchunk with Some (name, _) => name | None => argchunk end.

(** A text that is neither a flag nor the terminator. *)
Definition is_word (w : string) : bool :=
  match w with
  | EmptyString | String "-" EmptyString => true
  | String c _ => negb (bool_decide (c = "-"%char))
  end.

Definition unexpected (w : string) : exn :=
  ParseError ("Passed in argument, but no positional arguments were ready to receive it: " +:+ w).

(** Arguments that main rejects, and the exception. *)
Inductive rejected : list string -> exn -> Prop :=
| rej_help rest : rejected ("--help" :: rest) (Help "help")
| rej_long a rest :
    a <> EmptyString -> long_name a ∉ main_longs ->
    rejected (("--" +:+ a) :: rest) (ParseError ("Flag could not be matched: " +:+ long_name a))
| rej_short c a rest :
    c <> "-"%char -> c ∉ main_shorts ->
    rejected (String "-" (String c a) :: rest)
      (ParseError ("Flag could not be matched: '" +:+ String c EmptyString +:+ "'"))
| rej_no_value_long name c :
    (name, c) ∈ value_flags -> rejected ["--" +:+ name] (requires_argument name)
| rej_no_value_short name c :
    (name, c) ∈ value_flags ->
    rejected [String "-" (String c EmptyString)] (requires_argument (String c EmptyString))
| rej_number f name c w rest :
    (name, c) ∈ number_flags -> (forall d, (stream_int d w).2 <> EmptyString) ->
    rejected (value_args f name c w ++ rest)
      (ParseError ("Argument '" +:+ name +:+ "' received invalid value type '" +:+ w +:+ "'"))
| rej_value name v rest :
    name ∈ ["delays"; "verbose"] ->
    rejected (("--" +:+ name +:+ "=" +:+ v) :: rest)
      (ParseError ("Passed an argument into a non-argument flag: --" +:+ name +:+ "=" +:+ v))
| rej_word w rest : is_word w = true -> rejected (w :: rest) (unexpected w)
| rej_after_terminator w rest : rejected ("--" :: w :: rest) (unexpected w).

(** An argument at which the loop ends with an exception. *)
Lemma parse_loop_throws p t chunk rest e :
  negb t && bool_decide (chunk = ap_terminator p) = false ->
  parse_chunk p t chunk rest = Throw e -> parse_loop p t (chunk :: rest) = Throw e.
Proof. intros Ht Hs. cbn [parse_loop]. by rewrite Ht, Hs. Qed.

Ltac throw_step := apply parse_loop_throws; [reflexivity|vm_compute; reflexivity].

(** No flag of main answers to another name. *)
Lemma main_state_silent prog a arg :
  match arg with ALong s => s ∉ main_longs | AShort c => c ∉ main_shorts end ->
  Group_Match (ap_flags (main_state prog a)) arg (ap_children (main_state prog a)) = Ok None.
Proof.
  intros Hn. rewrite <- (app_nil_r (ap_children _)).
  apply (Group_Match_silent _ arg 7); [|vm_compute; repeat constructor].
  assert (forall f, f ∈ ap_flags (main_state prog a) -> Matcher_Match (fl_matcher f) arg = false)
    as Hall.
  { apply Forall_forall. destruct arg as [c|s]; unfold main_shorts, main_longs in Hn;
      repeat rewrite not_elem_of_cons in Hn; destruct_and! Hn; cbn;
      repeat apply Forall_cons_2; try apply Forall_nil_2; apply bool_decide_eq_false_2; set_solver. }
  intros i f _ Hf. unfold answers_to. rewrite (Hall f); [done|]. by eapply list_elem_of_lookup_2.
Qed.

Lemma no_positional prog a w : parse_positional (main_state prog a) w = Throw (unexpected w).
Proof. reflexivity. Qed.

Lemma word_step prog a w rest :
  is_word w = true ->
  parse_loop (main_state prog a) false (w :: rest) = Throw (unexpected w).
Proof.
  intros Hw. destruct w as [|c w]; [by apply parse_loop_throws|].
  destruct (decide (c = "-"%char)) as [->|Hc].
  { destruct w; [by apply parse_loop_throws|]. done. }
  assert (forall x, bool_decide (String c w = String "-" x) = false) as Ht
    by (intros x; apply bool_decide_eq_false_2; congruence).
  assert (forall x, strip_prefix (String "-" x) (String c w) = None) as Hs.
  { intros x. cbn [strip_prefix]. by rewrite bool_decide_eq_false_2 by congruence. }
  apply parse_loop_throws; [apply Ht|]. unfold parse_chunk, prefixed.
  change (ap_longprefix (main_state prog a)) with "--".
  change (ap_shortprefix (main_state prog a)) with "-". by rewrite !Hs.
Qed.

Lemma number_rejected prog a f name c w rest :
  (name, c) ∈ number_flags -> (forall d, (stream_int d w).2 <> EmptyString) ->
  parse_loop (main_state prog a) false (value_args f name c w ++ rest) =
  Throw (ParseError ("Argument '" +:+ name +:+ "' received invalid value type '" +:+ w +:+ "'")).
Proof.
  destruct a as [[mp pv] [mh hv] [mi iv] [mc cv] d v]. intros Hin Hw.
  assert (exists k u, w = String k u) as (k & u & Heq).
  { destruct w as [|k u]; [by destruct (Hw 0)|eauto]. }
  assert (Hr : forall d, exists z k' r, stream_int d w = (z, String k' r)).
  { intros d0. specialize (Hw d0). destruct (stream_int d0 w) as [z [|k' r]]; [done|eauto]. }
  clear Hw. unfold number_flags in Hin. rewrite !elem_of_cons in Hin.
  destruct Hin as [Hin|[Hin|[Hin|?%elem_of_nil]]]; [..|done]; injection Hin as -> ->.
  1: destruct (Hr pv) as (z & k' & r & Hz).
  2: destruct (Hr iv) as (z & k' & r & Hz).
  3: destruct (Hr cv) as (z & k' & r & Hz).
  all: rewrite Heq in *; destruct f; cbn [value_args app]; (apply parse_loop_throws;
         [reflexivity|cbv -[stream_int]; rewrite Hz; reflexivity]).
Qed.

Lemma rejected_parse prog a args e :
  rejected args e -> parse_loop (main_state prog a) false args = Throw e.
Proof.
  destruct 1 as [rest|n rest Hn Hl|c n rest Hc Hs|name c Hin|name c Hin|f name c w rest Hin Hw
    |name v rest Hin|w rest Hw|w rest].
  - throw_step.
  - destruct n as [|c n]; [done|]. apply parse_loop_throws; [reflexivity|].
    change (parse_chunk (main_state prog a) false ("--" +:+ String c n) rest)
      with (parse_long (main_state prog a) ("--" +:+ String c n) (String c n) rest).
    unfold parse_long. change (ap_longseparator (main_state prog a)) with "=".
    cbv beta iota zeta.
    change (match find_sub "=" (String c n) with Some (x, _) => x | None => String c n end)
      with (long_name (String c n)).
    by rewrite (main_state_silent prog a (ALong (long_name (String c n))) Hl).
  - assert (bool_decide (String "-" (String c n) = "--") = false) as Ht
      by (apply bool_decide_eq_false_2; congruence).
    apply parse_loop_throws; [exact Ht|].
    assert (strip_prefix "--" (String "-" (String c n)) = None) as Hp.
    { cbn [strip_prefix]. by rewrite bool_decide_eq_true_2, bool_decide_eq_false_2 by congruence. }
    unfold parse_chunk, prefixed. change (ap_longprefix (main_state prog a)) with "--".
    change (ap_shortprefix (main_state prog a)) with "-". rewrite Hp.
    cbn [strip_prefix]. rewrite bool_decide_eq_true_2 by done. cbn [parse_short].
    by rewrite (main_state_silent prog a (AShort c) Hs).
  - unfold value_flags in Hin. rewrite !elem_of_cons in Hin.
    destruct Hin as [Hin|[Hin|[Hin|[Hin|?%elem_of_nil]]]]; [..|done]; injection Hin as -> ->;
      throw_step.
  - unfold value_flags in Hin. rewrite !elem_of_cons in Hin.
    destruct Hin as [Hin|[Hin|[Hin|[Hin|?%elem_of_nil]]]]; [..|done]; injection Hin as -> ->;
      throw_step.
  - by apply number_rejected.
  - rewrite !elem_of_cons in Hin.
    destruct Hin as [->|[->|?%elem_of_nil]]; [..|done];
      throw_step.
  - by apply word_step.
  - reflexivity.
Qed.


