(* ===== verification/CommandRef.v ===== *)
(** * A reference parser for the command line of main

    What the general parser of src/include/args.h, with the flags that main adds to it, makes
    of any command line, as a parser written for these flags only. *)

From Stdlib Require Import ZArith Lia Ascii String.
From stdpp Require Import base list gmap strings.
From S2P Require Import Prelude Text Exceptions Args ArgParse ArgsProps Main MainProps CommandLine.

Open Scope Z_scope.

(** ** The reference parser *)

Inductive main_flag := FPort | FHostfile | FId | FCount | FDelays | FVerbose | FHelp.

Definition flag_of_long (s : string) : option main_flag :=
  if bool_decide (s = "help") then Some FHelp
  else if bool_decide (s = "port") then Some FPort
  else if bool_decide (s = "hostfile") then Some FHostfile
  else if bool_decide (s = "id") then Some FId
  else if bool_decide (s = "count") then Some FCount
  else if bool_decide (s = "delays") then Some FDelays
  else if bool_decide (s = "verbose") then Some FVerbose
  else None.

Definition flag_of_short (c : ascii) : option main_flag :=
  if bool_decide (c = "p"%char) then Some FPort
  else if bool_decide (c = "h"%char) then Some FHostfile
  else if bool_decide (c = "i"%char) then Some FId
  else if bool_decide (c = "c"%char) then Some FCount
  else if bool_decide (c = "d"%char) then Some FDelays
  else if bool_decide (c = "v"%char) then Some FVerbose
  else None.

(** A number is read over the value the flag has. *)
Definition read_number (name : string) (old : Z) (text : string) : result exn (bool * Z) :=
  match stream_int old text with
  | (z, EmptyString) => Ok (true, z)
  | _ =>
      Throw (ParseError ("Argument '" +:+ name +:+ "' received invalid value type '" +:+ text
                         +:+ "'"))
  end.

(** A flag without a value, and the value a flag is given; [None] when the flag is of the
    other kind. *)
Definition raise_flag (f : main_flag) (a : parsed) : option parsed :=
  let '(mkParsed po ho io co d v) := a in
  match f with
  | FDelays => Some (mkParsed po ho io co true v)
  | FVerbose => Some (mkParsed po ho io co d true)
  | _ => None
  end.

Definition give_value (f : main_flag) (text : string) (a : parsed) : result exn parsed :=
  let '(mkParsed po ho io co d v) := a in
  match f with
  | FPort => let! x := read_number "port" po.2 text in Ok (mkParsed x ho io co d v)
  | FHostfile => Ok (mkParsed po (true, text) io co d v)
  | FId => let! x := read_number "id" io.2 text in Ok (mkParsed po ho x co d v)
  | FCount => let! x := read_number "count" co.2 text in Ok (mkParsed po ho io x d v)
  | _ => Ok a
  end%tom.

(** An argument after [--]: whether the next one was consumed as its value. *)
Definition read_long (a : parsed) (argchunk : string) (rest : list string)
  : result exn (parsed * bool) :=
  let separated := find_sub "=" argchunk in
  let name := match separated with Some (n, _) => n | None => argchunk end in
  match flag_of_long name with
  | None => Throw (ParseError ("Flag could not be matched: " +:+ name))
  | Some FHelp => Throw (Help name)
  | Some f =>
      match raise_flag f a, separated, rest with
      | Some _, Some _, _ =>
          Throw (ParseError ("Passed an argument into a non-argument flag: --" +:+ argchunk))
      | Some a', None, _ => Ok (a', false)
      | None, Some (_, text), _ => let! a' := give_value f text a in Ok (a', false)
      | None, None, [] => Throw (requires_argument name)
      | None, None, text :: _ => let! a' := give_value f text a in Ok (a', true)
      end
  end%tom.

(** The characters after [-]. *)
Fixpoint read_short (a : parsed) (chars : string) (rest : list string)
  : result exn (parsed * bool) :=
  match chars with
  | EmptyString => Ok (a, false)
  | String c more =>
      match flag_of_short c with
      | None =>
          Throw (ParseError ("Flag could not be matched: '" +:+ String c EmptyString +:+ "'"))
      | Some f =>
          match raise_flag f a, more, rest with
          | Some a', _, _ => read_short a' more rest
          | None, EmptyString, [] => Throw (requires_argument (String c EmptyString))
          | None, EmptyString, text :: _ => let! a' := give_value f text a in Ok (a', true)
          | None, _, _ => let! a' := give_value f more a in Ok (a', false)
          end
      end
  end%tom.

(** One argument that is not [--]. *)
Definition read_arg (a : parsed) (chunk : string) (rest : list string)
  : result exn (parsed * bool) :=
  match chunk with
  | String c1 (String c2 more) =>
      if bool_decide (c1 = "-"%char) then
        if bool_decide (c2 = "-"%char) then read_long a more rest
        else read_short a (String c2 more) rest
      else Throw (unexpected chunk)
  | _ => Throw (unexpected chunk)
  end.

(** The command line; after [--] nothing may follow. *)
Fixpoint read_args (a : parsed) (args : list string) : result exn parsed :=
  match args with
  | [] => Ok a
  | chunk :: rest =>
      if bool_decide (chunk = "--") then
        match rest with [] => Ok a | w :: _ => Throw (unexpected w) end
      else
        match read_arg a chunk rest with
        | Throw e => Throw e
        | Ok (a', consumed) =>
            match consumed, rest with
            | true, _ :: rest' => read_args a' rest'
            | _, _ => read_args a' rest
            end
        end
  end.

(** ** Equivalence *)

(** The answer of the general parser for an answer of the reference parser. *)
Definition lift_step (prog : string) (r : result exn (parsed * bool)) : step_result :=
  match r with
  | Ok (a, consumed) => Ok (main_state prog a, consumed, false)
  | Throw e => Throw e
  end.

Lemma flag_of_long_none s : flag_of_long s = None <-> s ∉ main_longs.
Proof.
  unfold flag_of_long, main_longs. repeat case_bool_decide; subst; split; try done;
    intros Hx; set_solver.
Qed.

Lemma flag_of_short_none c : flag_of_short c = None <-> c ∉ main_shorts.
Proof.
  unfold flag_of_short, main_shorts. repeat case_bool_decide; subst; split; try done;
    intros Hx; set_solver.
Qed.

(** The flags of main one by one; [Hs] is what [tac] knows of the name. *)
Ltac long_cases s :=
  destruct (decide (s ∈ main_longs)) as [Hin|Hin];
  [unfold main_longs in Hin; rewrite !elem_of_cons in Hin;
   destruct Hin as [Hin|[Hin|[Hin|[Hin|[Hin|[Hin|[Hin|Hin%elem_of_nil]]]]]]]; [..|done];
   try subst s|].

(** Both parsers read the same number. *)
Ltac same_number old text :=
  destruct (stream_int old text) as [? [|? ?]] eqn:Hz; cbv -[stream_int]; rewrite Hz; reflexivity.

Lemma parse_long_reference prog a argchunk rest :
  parse_long (main_state prog a) ("--" +:+ argchunk) argchunk rest =
  lift_step prog (read_long a argchunk rest).
Proof.
  unfold parse_long. change (ap_longseparator (main_state prog a)) with "=".
  cbv beta iota zeta. unfold read_long. cbv zeta.
  destruct (find_sub "=" argchunk) as [[n text]|].
  - long_cases n.
    8: { rewrite (main_state_silent prog a (ALong n) Hin).
         by rewrite (proj2 (flag_of_long_none n) Hin). }
    all: destruct a as [[mp pv] [mh hv] [mi iv] [mc cv] d v].
    2: same_number pv text.
    3: same_number iv text.
    3: same_number cv text.
    all: vm_compute; reflexivity.
  - long_cases argchunk.
    8: { rewrite (main_state_silent prog a (ALong argchunk) Hin).
         by rewrite (proj2 (flag_of_long_none argchunk) Hin). }
    all: destruct a as [[mp pv] [mh hv] [mi iv] [mc cv] d v].
    2: destruct rest as [|text rest]; [vm_compute; reflexivity|same_number pv text].
    3: destruct rest as [|text rest]; [vm_compute; reflexivity|same_number iv text].
    3: destruct rest as [|text rest]; [vm_compute; reflexivity|same_number cv text].
    all: destruct rest as [|text rest]; vm_compute; reflexivity.
Qed.

Ltac short_cases c :=
  destruct (decide (c ∈ main_shorts)) as [Hin|Hin];
  [unfold main_shorts in Hin; rewrite !elem_of_cons in Hin;
   destruct Hin as [Hin|[Hin|[Hin|[Hin|[Hin|[Hin|Hin%elem_of_nil]]]]]]; [..|done]; subst c|].

(** A flag without a value, in a group of short flags. *)
Ltac raise_step S :=
  cbn [parse_short];
  match goal with
  | |- context [Group_Match ?fl ?arg ?cs] =>
      let r := eval vm_compute in (Group_Match fl arg cs) in
      replace (Group_Match fl arg cs) with r by (vm_compute; reflexivity)
  end;
  cbv beta iota zeta delta [takes_value fl_kind fl_kickout];
  match goal with
  | |- parse_short ?p _ _ = _ => replace p with S by (vm_compute; reflexivity)
  end.

Lemma parse_short_reference prog a chars rest :
  parse_short (main_state prog a) chars rest = lift_step prog (read_short a chars rest).
Proof.
  revert a. induction chars as [|c more IH]; intros a; [done|].
  short_cases c.
  7: { cbn [parse_short read_short]. rewrite (main_state_silent prog a (AShort c) Hin).
       by rewrite (proj2 (flag_of_short_none c) Hin). }
  all: destruct a as [[mp pv] [mh hv] [mi iv] [mc cv] d v].
  5: { raise_step (main_state prog (mkParsed (mp, pv) (mh, hv) (mi, iv) (mc, cv) true v)).
       apply IH. }
  5: { raise_step (main_state prog (mkParsed (mp, pv) (mh, hv) (mi, iv) (mc, cv) d true)).
       apply IH. }
  1: destruct more as [|k more];
       [destruct rest as [|text rest]; [vm_compute; reflexivity|same_number pv text]
       |same_number pv (String k more)].
  2: destruct more as [|k more];
       [destruct rest as [|text rest]; [vm_compute; reflexivity|same_number iv text]
       |same_number iv (String k more)].
  2: destruct more as [|k more];
       [destruct rest as [|text rest]; [vm_compute; reflexivity|same_number cv text]
       |same_number cv (String k more)].
  destruct more as [|k more]; [destruct rest as [|text rest]|]; vm_compute; reflexivity.
Qed.

Lemma parse_chunk_reference prog a chunk rest :
  chunk <> "--" ->
  parse_chunk (main_state prog a) false chunk rest = lift_step prog (read_arg a chunk rest).
Proof.
  intros Hne. unfold parse_chunk, prefixed.
  change (ap_longprefix (main_state prog a)) with "--".
  change (ap_shortprefix (main_state prog a)) with "-".
  destruct chunk as [|c1 chunk]; [done|]. cbn [strip_prefix].
  destruct (decide (c1 = "-"%char)) as [->|Hc1].
  2: { rewrite bool_decide_eq_false_2 by congruence. rewrite no_positional. unfold read_arg.
       destruct chunk as [|c2 more]; [done|]. by rewrite bool_decide_eq_false_2. }
  rewrite bool_decide_eq_true_2 by done. destruct chunk as [|c2 more]; [done|].
  unfold read_arg. rewrite (bool_decide_eq_true_2 ("-"%char = "-"%char) eq_refl).
  destruct (decide (c2 = "-"%char)) as [->|Hc2].
  - rewrite !bool_decide_eq_true_2 by done. destruct more as [|c3 more]; [done|].
    apply parse_long_reference.
  - rewrite !bool_decide_eq_false_2 by congruence. apply parse_short_reference.
Qed.

Lemma read_args_reference prog args a :
  parse_loop (main_state prog a) false args =
  match read_args a args with
  | Ok a' => Ok (main_state prog a', [])
  | Throw e => Throw e
  end.
Proof.
  revert a. induction args as [args IH] using (induction_ltof1 _ length). unfold ltof in IH.
  intros a. destruct args as [|chunk rest].
  { by rewrite parse_loop_end by apply main_state_matched. }
  cbn [parse_loop read_args]. change (ap_terminator (main_state prog a)) with "--".
  cbn [negb andb]. case_bool_decide as Ht.
  { destruct rest as [|w rest]; [by rewrite parse_loop_end by apply main_state_matched|].
    apply parse_loop_throws; [reflexivity|apply no_positional]. }
  rewrite parse_chunk_reference by done.
  destruct (read_arg a chunk rest) as [[a' consumed]|e]; [|done]. cbn [lift_step].
  destruct consumed, rest as [|w rest]; apply IH; simpl; lia.
Qed.

(** C35: the command line parser.  On every command line the general parser, with the flags of
    main, does what the parser written for these flags only does: the same values and
    flags when it accepts, and the same exception when it does not. *)
Theorem command_line_reference prog args :
  ParseCLI main_parser (prog :: args) =
  match read_args nothing args with
  | Ok a => Ok (main_state prog a, true)
  | Throw e => Throw e
  end.
Proof.
  rewrite main_state_start, read_args_reference. by destruct (read_args nothing args).
Qed.

(** Groups of short flags, the terminator, and a value that is not a number. *)
Lemma read_args_examples :
  read_args nothing ["-dvc5"; "--hostfile=a=b"; "--"] =
    Ok (mkParsed (false, 0) (true, "a=b") (false, 0) (true, 5) true true) /\
  read_args nothing ["-d"; "--count"; "5x"; "-v"] =
    Throw (ParseError "Argument 'count' received invalid value type '5x'") /\
  read_args nothing ["-d-v"] = Throw (ParseError "Flag could not be matched: '-'").
Proof. vm_compute. auto. Qed.
