(* ===== verification/Deployment.v ===== *)
(** * Deployments: main on every host

    The composition of the program around the algorithm with the system of processes.  A
    deployment is one run of [main] (src/src/main.cc) per line of the hostfile; what the
    command lines and the hosts determine is a configuration of the system, and
    after every run of the system [main] on each host, on the datagrams and answers that the
    run has brought to its process, has printed what the process has delivered. *)

From Stdlib Require Import ZArith Lia Ascii String.
From stdpp Require Import functions base list gmap strings.
From S2P Require Import Prelude Text Exceptions ThreadGroup Wire StdSet HoldBack Net Udp Client Process Sender.
From S2P Require Import Random Multicast Server System RunFacts History Projection SystemInv SystemSteps TotalOrder.
From S2P Require Import Progress Liveness Runs Wrap Args ArgParse ArgsHelp Printing Main MainProps CommandLine.

Open Scope Z_scope.

(** ** Hosts *)

(** A host: the command line, the environment, and what main makes of them before it creates
    the process. *)
Record host := mkHost {
  h_argv : list string;
  h_env : environment;
  h_setup : setup
}.

Definition host_setup (argv : list string) (env : environment) : result exn setup :=
  match ParseCLI main_parser argv with
  | Throw e => Throw e
  | Ok (p, _) => main_setup (env_hostname env) (env_files env) p
  end.

(** The launches of the process of host [i]. *)
Definition host_launches (i : nat) (h : host) : list launch_cfg :=
  (fun k => let '(u, msg_id, data) := env_draws (h_env h) k in mkLaunch i msg_id data u)
    <$> seq 0 (Z.to_nat (su_count (h_setup h))).

(** The launches of all processes, from host [n] on. *)
Fixpoint launches_from (n : nat) (hosts : list host) : list launch_cfg :=
  match hosts with
  | [] => []
  | h :: rest => host_launches n h ++ launches_from (S n) rest
  end.

(** The configuration of the system that the hosts make up. *)
Definition deployment (processes : list Address) (hosts : list host) : config :=
  mkConfig processes (launches_from 0 hosts)
    (fun i => match hosts !! i with Some h => env_endian (h_env h) | None => Little end)
    (fun i => match hosts !! i with Some h => su_delays (h_setup h) | None => false end)
    false.

(** The clients of a process. *)
Definition host_clients (h : host) : result exn (gmap Address Client) :=
  ClientsForProcessList
    (fun a => make_Client (env_endian (h_env h)) (env_gethostbyname (h_env h))
                (env_client (h_env h) a) a) (su_processes (h_setup h)).

(** A host that runs process [i] of the list: its command line is accepted and means that
    process, and the operating system gives it its sockets and threads. *)
Record host_ok (processes : list Address) (i : nat) (h : host) : Prop := {
  ho_setup : host_setup (h_argv h) (h_env h) = Ok (h_setup h);
  ho_processes : su_processes (h_setup h) = processes;
  ho_id : su_id (h_setup h) = Z.of_nat i;
  ho_clients : exists clients, host_clients h = Ok clients;
  ho_server : exists sk, make_Server (env_server (h_env h)) kNoTimeout = Ok sk;
  ho_start k : env_start (h_env h) k = None;
  (* every thread draws from its own engine *)
  ho_draws : exists (E : Type) (R : RandomEngine E), forall k, exists device,
    (env_draws (h_env h) k).1.2 = (message_draws (E := E) device).1 /\
    (env_draws (h_env h) k).2 = (message_draws (E := E) device).2
}.

(** One host per process; the addresses are distinct, no process draws the same message id
    twice, and there are fewer than 2^32 proposals to make. *)
Record deployed (processes : list Address) (hosts : list host) : Prop := {
  dp_hosts : length hosts = length processes;
  dp_ok i h : hosts !! i = Some h -> host_ok processes i h;
  dp_addresses : NoDup processes;
  dp_ids i h : hosts !! i = Some h -> NoDup (lc_msg_id <$> host_launches i h);
  dp_bound :
    Z.of_nat (length processes) *
    fold_right (fun h n => su_count (h_setup h) + n) 0 hosts < u32_modulus;
  dp_count : Z.of_nat (length processes) < u32_modulus
}.

(** ** Runs of main *)

(** What a run of main depends on besides its host: how the network and the memory it does
    not initialise answer while the process runs. *)
Definition with_world (env : environment) (uninit : nat -> Z) (sendto : nat -> option Z)
    (answers : nat -> Z * (nat -> list net_answer) * (nat -> list net_answer))
    (events : list (recv_result * sock_env)) : environment :=
  mkEnv (env_host env) (env_host_name_max env) (env_stack env) (env_files env)
    (env_gethostbyname env) (env_client env) (env_server env) (env_endian env)
    uninit sendto (env_start env) (env_draws env) answers events.

(** Launch [k] of host [i] is this thread of the system. *)
Definition thread_index (hosts : list host) (i k : nat) : nat :=
  length (launches_from 0 (take i hosts)) + k.

(** The environment of main on host [i] after the run [ls]: its server has received the
    datagrams, and its threads have got the answers, that the labels of the run brought to
    them; [errno] is the error of [recvfrom] in a server that has failed. *)
Definition host_world (processes : list Address) (hosts : list host) (errno : Z)
    (ls : list label) (i : nat) (h : host) : environment :=
  let c := deployment processes hosts in
  let hs := server_history c i ls in
  with_world (h_env h) (turn_uninit hs) (turn_sendto hs)
    (fun k =>
       let t := thread_index hosts i k in
       (thread_uninit t ls, data_answers (thread_history c t ls),
        seq_answers (thread_history c t ls)))
    (turn_events errno hs).

(** The line for a delivered message, without the id of the process that prints it. *)
Definition line_of (x : Z * Z * Z * Z) : string :=
  let '(sender, msg_id, final_seq, proposer) := x in
  ": Processed message " +:+ print_unsigned msg_id +:+ " from sender " +:+
  print_unsigned sender +:+ " with seq (" +:+ print_unsigned final_seq +:+ ", " +:+
  print_unsigned proposer +:+ ")" +:+ end_of_line.

(** Lines, each printed by process [id_val]. *)
Definition printed (id_val : Z) (lines : list string) : string :=
  fold_right (fun l acc => (print_signed id_val +:+ l) +:+ acc) EmptyString lines.

(** ** The process id *)

(** What a successful setup has checked: the process it runs is on this host. *)
Lemma main_setup_host this_host files p s :
  main_setup this_host files p = Ok s ->
  exists a, 0 <= su_id s /\ su_processes s !! Z.to_nat (su_id s) = Some a /\
    hostname a = this_host /\ su_port s = port a /\ is_u32 (su_count s).
Proof.
  unfold main_setup. do 2 (destruct (negb _); [done|]). intros H.
  destruct (GetProcesses _ _) as [l|]; [|done]. cbn [result_bind] in H.
  assert (Hid : forall id, (if flag_matched p 3 then
      let! _ := CheckProcessId this_host l (get_int p 3) in Ok (get_int p 3)
      else GetProcessId this_host l)%tom = Ok id ->
    exists a, 0 <= id /\ l !! Z.to_nat id = Some a /\ hostname a = this_host).
  { intros id. destruct (flag_matched p 3).
    - pose proof (CheckProcessId_spec this_host l (get_int p 3)) as Hc.
      destruct (CheckProcessId _ _ _); [|done]. simpl. by intros [= <-].
    - pose proof (GetProcessId_spec this_host l) as Hg. intros Hr. rewrite Hr in Hg.
      destruct Hg as (k & a & -> & Hk & Ha & _). exists a. rewrite Nat2Z.id. by split; [lia|]. }
  destruct (if flag_matched p 3 then _ else _) as [id|] eqn:Ei; [|done]. cbn [result_bind] in H.
  destruct (Hid id eq_refl) as (a & H0 & Hk & Ha). rewrite Hk in H.
  injection H as <-. exists a. split_and!; try done; apply Z.mod_pos_bound; done.
Qed.

(** When the hosts have different names, every process runs as the line of the hostfile that
    names its host, with or without the id flag. *)
Lemma host_id_by_name argv env s processes i a :
  host_setup argv env = Ok s -> su_processes s = processes ->
  NoDup (hostname <$> processes) ->
  processes !! i = Some a -> hostname a = env_hostname env ->
  su_id s = Z.of_nat i.
Proof.
  unfold host_setup. destruct (ParseCLI _ _) as [[p b]|]; [|done].
  intros (a' & H0 & Hk & Ha' & _ & _)%main_setup_host <- Hnd Hi Ha.
  enough (Z.to_nat (su_id s) = i) by lia.
  eapply (NoDup_lookup (hostname <$> su_processes s)); [done|..];
    rewrite list_lookup_fmap, ?Hk, ?Hi; simpl; by rewrite ?Ha', ?Ha.
Qed.

(** On hosts with different names and a common hostfile, any command line that gives the
    hostfile and a count, a default port if a line needs it, and the id only if it is the right
    one, starts the process of this host. *)
Lemma host_from_options prog opts env lines processes i addr :
  let a := fold_left apply_opt opts nothing in
  Forall opt_ok opts -> Forall host_line_ok lines ->
  mapM (line_address (default_port a)) lines = Some processes -> NoDup (hostname <$> processes) ->
  (pa_hostfile a).1 = true -> env_files env (pa_hostfile a).2 = Some (hostfile_text lines) ->
  (pa_count a).1 = true -> ((pa_id a).1 = true -> (pa_id a).2 = Z.of_nat i) ->
  processes !! i = Some addr -> hostname addr = env_hostname env ->
  host_setup (prog :: concat (opt_args <$> opts)) env =
  Ok (mkSetup processes (Z.of_nat i) (port addr) (pa_delays a) (pa_count a).2 (pa_verbose a)).
Proof.
  intros a Hok Hp Hm Hnd Hh Hf Hc Hid Hi Ha. unfold host_setup. rewrite parse_options by done.
  fold a. pose proof (main_setup_spec prog (env_hostname env) (env_files env) lines a Hp) as Hs.
  assert (0 <= (pa_count a).2 <= INT_MAX) as Hn
    by (apply parsed_counts; [done|]; simpl; unfold INT_MAX; lia).
  assert (Huniq : forall k x, processes !! k = Some x -> hostname x = env_hostname env -> k = i).
  { intros k x Hk Hx. eapply (NoDup_lookup (hostname <$> processes)); [done|..];
      rewrite list_lookup_fmap, ?Hk, ?Hi; simpl; by rewrite ?Hx, ?Ha. }
  specialize (Hs Hn (fun _ => Hf)). unfold setup_spec in Hs. rewrite Hm, Hh, Hc in Hs.
  destruct (main_setup _ _ _) as [[pl id pt d n v]|ex]; simpl in Hs.
  - destruct Hs as (_ & _ & [= <-] & -> & -> & -> & (k & x & -> & Hk & Hx & ->) & _).
    pose proof (Huniq k x Hk Hx) as ->. rewrite Hi in Hk. by injection Hk as ->.
  - exfalso. destruct (pa_id a) as [[] id]; simpl in Hs, Hid.
    + rewrite Hid in Hs by done. apply lookup_lt_Some in Hi as Hlt.
      destruct Hs as [[_ [?|?]]|(_ & _ & Hno)]; [lia..|]. apply Hno. rewrite Nat2Z.id. by exists addr.
    + destruct Hs as [(_ & k & k' & Hne & (x & Hx & Hx') & (y & Hy & Hy'))|[_ Hno]].
      * apply Hne. by rewrite (Huniq k x Hx Hx'), (Huniq k' y Hy Hy').
      * apply (Hno i). by exists addr.
Qed.

(** ** The configuration *)

Lemma elem_of_host_launches i h l :
  l ∈ host_launches i h <->
  exists k, (k < Z.to_nat (su_count (h_setup h)))%nat /\
    l = (let '(u, msg_id, data) := env_draws (h_env h) k in mkLaunch i msg_id data u).
Proof.
  unfold host_launches. rewrite list_elem_of_fmap. setoid_rewrite elem_of_seq.
  split; intros (k & ? & ?); exists k; split; done || lia.
Qed.

Lemma host_launches_proc i h l : l ∈ host_launches i h -> lc_proc l = i.
Proof.
  rewrite elem_of_host_launches. intros (k & _ & ->). by destruct (env_draws _ _) as [[u m] d].
Qed.

Lemma elem_of_launches_from n hosts l :
  l ∈ launches_from n hosts <->
  exists i h, hosts !! i = Some h /\ l ∈ host_launches (n + i) h.
Proof.
  revert n. induction hosts as [|h hosts IH]; intros n; simpl.
  { split; [by intros ?%elem_of_nil|]. by intros (i & h & ? & _). }
  rewrite elem_of_app, IH. split.
  - intros [Hl|(i & x & Hi & Hl)].
    + exists 0%nat, h. by rewrite Nat.add_0_r.
    + exists (S i), x. by rewrite Nat.add_succ_r.
  - intros ([|i] & x & Hi & Hl).
    + injection Hi as ->. left. by rewrite Nat.add_0_r in Hl.
    + right. exists i, x. by rewrite Nat.add_succ_r in Hl.
Qed.

(** The launches of one process, among those of all. *)
Lemma filter_host_launches i n h :
  filter (fun l => lc_proc l = i) (host_launches n h) =
  if decide (i = n) then host_launches n h else [].
Proof.
  assert (Forall (fun l => lc_proc l = n) (host_launches n h)) as Hall
    by (apply Forall_forall, host_launches_proc).
  case_decide; induction Hall as [|l ls Hl Hls IH]; try done.
  - rewrite filter_cons_True by congruence. by rewrite IH.
  - rewrite filter_cons_False by congruence. exact IH.
Qed.

Lemma filter_launches_from i n hosts :
  filter (fun l => lc_proc l = i) (launches_from n hosts) =
  if decide (n <= i)%nat then
    match hosts !! (i - n)%nat with Some h => host_launches i h | None => [] end
  else [].
Proof.
  revert n. induction hosts as [|h hosts IH]; intros n; [by case_decide|].
  simpl launches_from. rewrite filter_app, filter_host_launches, IH.
  destruct (decide (i = n)) as [->|Hne].
  - rewrite decide_False by lia. rewrite decide_True by lia. by rewrite Nat.sub_diag, app_nil_r.
  - destruct (decide (n <= i)%nat).
    + rewrite decide_True by lia. by replace (i - n)%nat with (S (i - S n)) by lia.
    + by rewrite decide_False by lia.
Qed.

(** main while no thread has thrown. *)
Lemma main_run_quiet named env s clients g st outcome :
  (forall k, (k < length (threads_ g))%nat ->
     thread_outcome env s clients k = SenderDone \/
     thread_outcome env s clients k = SenderWaiting) ->
  let o := main_run named env s clients g st outcome in
  let out := delivered_lines (su_id s) (ss_actions st) in
  match outcome with
  | Listening => exists err, o = Serving out err
  | ListenThrew ex =>
      not_help ex -> exists err, o = Exited 1 out err \/ exists k, o = JoiningThread k out err
  | ListenReturned => True
  end.
Proof.
  intros Hth. cbv zeta. unfold main_run. simpl threads_.
  set (ths := thread_outcome env s clients <$> seq 0 (length (threads_ g))).
  assert (existsb has_thrown ths = false) as ->.
  { apply not_true_is_false. intros (x & Hx & Ht)%existsb_exists.
    apply list_elem_of_In, list_elem_of_lookup in Hx as (k & [Hk <-]%thread_lookup).
    destruct (Hth k Hk) as [Ho|Ho]; by rewrite Ho in Ht. }
  destruct outcome as [|ex|]; [done| |by eexists]. intros Hn.
  destruct (JoinAll has_ended _) as [g' [|k]]; simpl; [|eexists; right; by eexists].
  destruct (main_catch_not_help named (delivered_lines (su_id s) (ss_actions st))
    (logged (su_verbose s) (ss_actions st)) ex Hn) as [err ->]. exists err. by left.
Qed.

(** What main has written to the output stream. *)
Definition main_stdout (o : main_outcome) : string :=
  match o with
  | Exited _ out _ | Aborted out _ | Serving out _ | JoiningThread _ out _ => out
  end.

Lemma main_run_stdout named env s clients g st outcome :
  match outcome with ListenThrew ex => not_help ex | _ => True end ->
  main_stdout (main_run named env s clients g st outcome) =
  delivered_lines (su_id s) (ss_actions st).
Proof.
  intros Hn. unfold main_run. cbv zeta. destruct (existsb _ _); [done|].
  destruct (JoinAll has_ended _) as [g' [|k]]; destruct outcome as [|ex|]; try done. simpl.
  by destruct (main_catch_not_help named (delivered_lines (su_id s) (ss_actions st))
    (logged (su_verbose s) (ss_actions st)) ex Hn) as [err ->].
Qed.

Section Deployment.
Context (processes : list Address) (hosts : list host).
Hypothesis Hdep : deployed processes hosts.

Local Notation c := (deployment processes hosts).

Lemma elem_of_launches l :
  l ∈ cf_launches c <-> exists i h, hosts !! i = Some h /\ l ∈ host_launches i h.
Proof. apply (elem_of_launches_from 0). Qed.

Lemma su_count_nonneg : Forall (fun h => 0 <= su_count (h_setup h)) hosts.
Proof.
  apply Forall_lookup. intros i h Hi.
  pose proof (ho_setup _ _ _ (dp_ok _ _ Hdep _ _ Hi)) as H. unfold host_setup in H.
  destruct (ParseCLI _ _) as [[p b]|]; [|done].
  by apply main_setup_host in H as (a & _ & _ & _ & _ & H & _).
Qed.

Lemma launches_length :
  Z.of_nat (length (cf_launches c)) = fold_right (fun h n => su_count (h_setup h) + n) 0 hosts.
Proof.
  pose proof su_count_nonneg as Hn. simpl. generalize 0%nat. clear Hdep.
  induction Hn as [|h l Hh Hl IH]; intros n; [done|]. simpl.
  rewrite length_app, Nat2Z.inj_add, IH. unfold host_launches.
  rewrite length_fmap, length_seq. lia.
Qed.

Lemma NoDup_launches_from n l :
  (forall i h, l !! i = Some h -> NoDup (lc_msg_id <$> host_launches (n + i) h)) ->
  NoDup ((fun x => (lc_proc x, lc_msg_id x)) <$> launches_from n l).
Proof.
  revert n. induction l as [|h l IH]; intros n Hids; [constructor|].
  simpl. rewrite fmap_app. apply NoDup_app. split_and!.
  - eapply NoDup_fmap_1 with (f := snd). rewrite <- list_fmap_compose.
    specialize (Hids 0%nat h eq_refl). by rewrite Nat.add_0_r in Hids.
  - intros [pi m] (x & Hx & Hin)%list_elem_of_fmap (y & Hy & Hin')%list_elem_of_fmap.
    apply host_launches_proc in Hin.
    apply elem_of_launches_from in Hin' as (i & h' & _ & Hin'%host_launches_proc).
    simplify_eq/=. lia.
  - apply IH. intros i x Hi. specialize (Hids (S i) x Hi). by rewrite Nat.add_succ_r in Hids.
Qed.

(** A deployment is a configuration for which the theorems on the system hold. *)
Lemma deployment_ok : config_ok c.
Proof.
  split; [done|apply Hdep|apply Hdep| | |apply NoDup_launches_from, Hdep].
  - rewrite Nat2Z.inj_mul, launches_length. apply Hdep.
  - intros l (i & h & Hi & Hl)%elem_of_launches. split.
    { rewrite (host_launches_proc _ _ _ Hl). unfold cf_count. simpl.
      rewrite <- (dp_hosts _ _ Hdep). by eapply lookup_lt_Some. }
    apply elem_of_host_launches in Hl as (k & _ & ->).
    destruct (ho_draws _ _ _ (dp_ok _ _ Hdep _ _ Hi)) as (E & R & Hd).
    destruct (Hd k) as (device & H1 & H2).
    destruct (env_draws (h_env h) k) as [[u m] d]. simpl in *. subst.
    apply message_draws_u32.
Qed.

(** The launches of process [i] are those of host [i], in order. *)
Lemma deployment_launches i h :
  hosts !! i = Some h -> filter (fun l => lc_proc l = i) (cf_launches c) = host_launches i h.
Proof.
  intros Hi. simpl. rewrite filter_launches_from, decide_True by lia.
  by rewrite Nat.sub_0_r, Hi.
Qed.

Lemma deployment_nodes i h :
  hosts !! i = Some h ->
  s_nodes (init_sys c) !! i =
  Some (mkNode (make_Process (su_processes (h_setup h)) (su_id (h_setup h))
                  (su_delays (h_setup h))) [] Running).
Proof.
  intros Hi. destruct (dp_ok _ _ Hdep _ _ Hi) as [_ -> -> _ _ _ _]. simpl.
  rewrite list_lookup_fmap, lookup_seq_lt.
  2: { unfold cf_count. simpl. rewrite <- (dp_hosts _ _ Hdep). by eapply lookup_lt_Some. }
  simpl. unfold init_node. simpl. by rewrite Hi.
Qed.

(** The threads that main launches on host [i] are the threads of process [i]. *)
Lemma deployment_threads i h clients g st outcome :
  hosts !! i = Some h -> started (h_argv h) (h_env h) (h_setup h) clients g st outcome ->
  filter (fun th => t_proc th = i) (s_threads (init_sys c)) = threads_ g.
Proof.
  intros Hi (p & b & _ & _ & Hr). destruct (dp_ok _ _ Hdep _ _ Hi) as [_ Hp Hid _ _ Hs _].
  unfold run_process in Hr. destruct (ClientsForProcessList _ _); [|done]. simpl in Hr.
  destruct (make_Server _ _); [|done]. simpl in Hr. unfold TotalOrder in Hr.
  pose proof (launch_loop_spec (env_start (h_env h)) (env_draws (h_env h))
    (make_Process (su_processes (h_setup h)) (su_id (h_setup h)) (su_delays (h_setup h)))
    (Z.to_nat (su_count (h_setup h))) 0 make_ThreadGroup) as Hl.
  destruct (launch_loop _ _ _ _ _ _) as [g0 [x|]].
  { destruct Hl as (m & _ & _ & _ & w & Hw & _). by rewrite Hs in Hw. }
  assert (g0 = g) as -> by congruence. destruct Hl as (m & _ & -> & ->).
  simpl. rewrite Hp, Hid, Nat2Z.id.
  rewrite filter_fmap. cbn [compose t_proc launch].
  transitivity ((fun l => launch (cf_count c) (lc_proc l) (lc_uninit l) (lc_msg_id l) (lc_data l))
    <$> filter (fun l => lc_proc l = i) (cf_launches c)); [done|].
  rewrite (deployment_launches i h Hi). unfold host_launches. rewrite <- list_fmap_compose.
  apply list_fmap_ext. intros k k' _. simpl. by destruct (env_draws (h_env h) k') as [[u m] d].
Qed.

(** ** main in the system *)

Lemma delivered_lines_printed id_val acts :
  delivered_lines id_val acts = printed id_val (line_of <$> (shown <$> deliveries acts)).
Proof.
  induction acts as [|a acts IH]; [done|]. destruct a; [exact IH| |exact IH].
  cbn [delivered_lines deliveries fold_right omap list_omap].
  fold (delivered_lines id_val acts). rewrite IH. cbn [fmap list_fmap printed fold_right].
  unfold deliver_line, line_of, shown. by rewrite !string_app_assoc.
Qed.

Lemma launches_from_split n l i h :
  l !! i = Some h ->
  launches_from n l =
  launches_from n (take i l) ++ host_launches (n + i) h ++ launches_from (n + S i) (drop (S i) l).
Proof.
  revert n i. induction l as [|x l IH]; intros n [|i] Hi; try done; simpl in Hi |- *.
  - injection Hi as ->. rewrite drop_0. by rewrite Nat.add_0_r, Nat.add_1_r.
  - rewrite (IH (S n) i Hi), <- app_assoc. by rewrite !Nat.add_succ_r, !Nat.add_succ_l.
Qed.

(** The threads of host [i] in the system. *)
Lemma thread_index_launch i h k u m d :
  hosts !! i = Some h -> (k < Z.to_nat (su_count (h_setup h)))%nat ->
  env_draws (h_env h) k = (u, m, d) ->
  cf_launches c !! thread_index hosts i k = Some (mkLaunch i m d u).
Proof.
  intros Hi Hk Hd. simpl. rewrite (launches_from_split 0 hosts i h Hi).
  unfold thread_index. rewrite lookup_app_r by lia. rewrite Nat.add_comm, Nat.add_sub.
  rewrite lookup_app_l by (unfold host_launches; by rewrite length_fmap, length_seq).
  unfold host_launches. rewrite list_lookup_fmap, lookup_seq_lt by done. simpl. by rewrite Hd.
Qed.

(** How a thread of process [i] stands after a run, as its code on the answers it has got. *)
Lemma deployment_thread errno ls s i h k clients :
  exec_all c ls (init_sys c) = Some s -> is_up s i = true ->
  hosts !! i = Some h -> (k < Z.to_nat (su_count (h_setup h)))%nat ->
  host_clients h = Ok clients ->
  let o := thread_outcome (host_world processes hosts errno ls i h) (h_setup h) clients k in
  o = SenderDone \/ o = SenderWaiting.
Proof.
  intros He Hup Hi Hk Hcl. destruct (dp_ok _ _ Hdep _ _ Hi) as [_ Hp Hid _ _ _ _].
  destruct (env_draws (h_env h) k) as [[u m] d] eqn:Hd.
  pose proof (thread_index_launch i h k u m d Hi Hk Hd) as Hl.
  set (t := thread_index hosts i k) in *.
  assert (is_Some (s_threads s !! t)) as [th Hth].
  { apply lookup_lt_is_Some. rewrite <- (length_fmap (fun th => data_key (t_msg th))).
    rewrite (reachable_keys c s (run_reach _ _ _ He)), length_fmap. by eapply lookup_lt_Some. }
  unfold host_clients in Hcl. rewrite Hp in Hcl.
  pose proof (sender_at_run c t _ clients ls s th (fun pid => ClientForId_total _ _ _ pid Hcl)
    (run_sender c t _ ls s th Hl He Hth)) as (_ & _ & Ho).
  unfold thread_outcome, host_world. fold t. simpl. rewrite Hd, Hp, Hid.
  unfold sender_code in Ho. simpl in Ho. rewrite Hi, Hup in Ho.
  destruct (sr_outcome _); [by left|done|by right].
Qed.

(** What main has come to when its process is in the state of [nd]: it has written the lines of
    the deliveries and nothing else, whether it still serves, waits for its threads, has exited
    or was aborted. *)
Definition main_at (nd : node) (id_val : Z) (o : main_outcome) : Prop :=
  let out := printed id_val (line_of <$> delivered nd) in
  main_stdout o = out /\
  match n_status nd with
  | Running => exists err, o = Serving out err
  | Joining => exists err, o = Exited 1 out err \/ exists k, o = JoiningThread k out err
  | Down => True
  end.

(** The process that main creates on host [i] runs its server on [events]. *)
Lemma host_run i h clients uninit sendto answers events :
  hosts !! i = Some h -> host_clients h = Ok clients ->
  exists g, length (threads_ g) = Z.to_nat (su_count (h_setup h)) /\
    run_process (with_world (h_env h) uninit sendto answers events) (h_setup h) =
    Ok (clients, g,
        Listen (server_callback (env_endian (h_env h)) uninit sendto) None
          (mkServerState (make_Process processes (Z.of_nat i) (su_delays (h_setup h))) [] 0)
          events).
Proof.
  intros Hi Hcl. destruct (dp_ok _ _ Hdep _ _ Hi) as [_ Hp Hid _ [sk Hsk] Hst _].
  unfold run_process. unfold host_clients in Hcl. simpl. rewrite Hcl. simpl. rewrite Hsk. simpl.
  rewrite Hp, Hid. set (p := make_Process processes (Z.of_nat i) (su_delays (h_setup h))).
  pose proof (TotalOrder_server (env_endian (h_env h)) uninit sendto (env_start (h_env h))
    (Z.to_nat (su_count (h_setup h))) (env_draws (h_env h)) p events Hst) as Ht.
  unfold TotalOrder in *.
  pose proof (launch_loop_spec (env_start (h_env h)) (env_draws (h_env h)) p
    (Z.to_nat (su_count (h_setup h))) 0 make_ThreadGroup) as Hl.
  destruct (launch_loop _ _ _ _ _ _) as [g [x|]].
  { destruct Hl as (m & _ & _ & _ & y & Hy & _). by rewrite Hst in Hy. }
  exists g. split; [|done]. destruct Hl as (m & _ & -> & ->). simpl.
  by rewrite length_fmap, length_seq.
Qed.

(** After every run [main] on host [i] has come to what the system says of process [i]. *)
Lemma main_in_system errno ls s i h nd :
  exec_all c ls (init_sys c) = Some s -> hosts !! i = Some h -> s_nodes s !! i = Some nd ->
  main_at nd (Z.of_nat i) (main (h_argv h) (host_world processes hosts errno ls i h)).
Proof.
  intros He Hi Hnd. destruct (dp_ok _ _ Hdep _ _ Hi) as [Hset _ Hid [clients Hcl] _ _ _].
  pose proof (run_server c errno ls s i nd He Hnd) as Hsrv. simpl in Hsrv. rewrite Hi in Hsrv.
  set (env := host_world processes hosts errno ls i h) in *.
  destruct (host_run i h clients (env_uninit env) (env_sendto env) (env_answers env) (env_events env)
    Hi Hcl) as (g & Hlen & Hrun). change (with_world _ _ _ _ _) with env in Hrun.
  unfold host_setup in Hset. unfold main. destruct (ParseCLI _ _) as [[p b]|]; [|done].
  change (env_hostname env) with (env_hostname (h_env h)).
  change (env_files env) with (env_files (h_env h)). rewrite Hset, Hrun.
  unfold server_at in Hsrv. simpl env_uninit. simpl env_sendto. simpl env_events.
  destruct (Listen _ _ _ _) as [st o] eqn:El. destruct Hsrv as (_ & Hlog & Hstat).
  simpl in Hlog, Hstat.
  pose proof (main_run_quiet (set_prog main_parser (h_argv h)) env (h_setup h) clients g st o) as Hq.
  assert (Hnh : match o with ListenThrew ex => not_help ex | _ => True end).
  { destruct o as [|ex|]; try done.
    eapply (Listen_not_help (env_endian (h_env h))). by rewrite El. }
  pose proof (main_run_stdout (set_prog main_parser (h_argv h)) env (h_setup h) clients g st o Hnh)
    as Hout.
  rewrite delivered_lines_printed, Hlog, Hid in Hq, Hout. fold (delivered nd) in Hq, Hout.
  unfold main_at. split; [exact Hout|].
  assert (Hth : n_status nd <> Down -> forall k, (k < length (threads_ g))%nat ->
    thread_outcome env (h_setup h) clients k = SenderDone \/
    thread_outcome env (h_setup h) clients k = SenderWaiting).
  { intros Hup k Hk. apply (deployment_thread errno ls s); try done; [|by rewrite <- Hlen].
    unfold is_up. rewrite Hnd. by destruct (n_status nd). }
  destruct (n_status nd); [by subst; apply Hq, Hth| |done].
  destruct Hstat as [ex ->]. apply Hq; [by apply Hth|done].
Qed.

End Deployment.

(** ** Properties *)



(** ** A sample deployment *)

(** Two hosts of different endianness; the first multicasts one message. *)
Definition sample_processes : list Address := [mkAddress "vm1" 80; mkAddress "vm2" 80].

Definition sample_draws (k : nat) : Z * Z * Z :=
  let '(msg_id, data) := message_draws (fun n => Z.of_nat (k * 5 + n)) in (7, msg_id, data).

Definition sample_argv (count : string) : list string :=
  ["isis"; "-h"; "hosts"; "-c"; count; "-d"].

Definition sample_env_of (name : string) (e : endian) : environment :=
  mkEnv name 64%nat EmptyString (fun _ => Some ("vm1:80" +:+ nl +:+ "vm2:80"))
    (fun _ => Some [127; 0; 0; 1]) (fun _ => good_socket) good_socket e
    (fun _ => 0) (fun _ => None) (fun _ => None) sample_draws
    (fun _ => (0, fun _ => [], fun _ => [])) [].

Definition sample_host1 : host :=
  mkHost (sample_argv "1") (sample_env_of "vm1" Little)
    (mkSetup sample_processes 0 80 true 1 false).
Definition sample_host2 : host :=
  mkHost (sample_argv "0") (sample_env_of "vm2" Big)
    (mkSetup sample_processes 1 80 true 0 false).

Definition sample_hosts : list host := [sample_host1; sample_host2].

Lemma sample_host_ok i argv name e s :
  host_setup argv (sample_env_of name e) = Ok s ->
  su_processes s = sample_processes -> su_id s = Z.of_nat i ->
  host_ok sample_processes i (mkHost argv (sample_env_of name e) s).
Proof.
  intros Hs Hp Hid. split; [done..| | |done|].
  - apply ClientsForProcessList_ok. intros a. by eexists.
  - by eexists.
  - exists Z, minstd_engine. intros k. exists (fun n => Z.of_nat (k * 5 + n)).
    cbn [h_env sample_env_of env_draws]. unfold sample_draws.
    by destruct (message_draws (fun n => Z.of_nat (k * 5 + n))).
Qed.

Lemma sample_deployed : deployed sample_processes sample_hosts.
Proof.
  split; [done| | | |vm_compute; reflexivity|done].
  - intros [|[|i]] h Hi; [injection Hi as <-..|done];
      (apply sample_host_ok; [vm_compute; reflexivity|done|done]).
  - apply (bool_decide_eq_true_1 _). vm_compute. reflexivity.
  - intros [|[|i]] h Hi; [injection Hi as <-..|done];
      apply (bool_decide_eq_true_1 _); vm_compute; reflexivity.
Qed.

(** The message is ordered; the second process has delivered it already. *)
Definition sample_data : list label :=
  exchange 0 0 0 ++ exchange 0 0 1 ++ [LFinish 0 0].
Definition sample_mid : sys :=
  run (deployment sample_processes sample_hosts) (sample_data ++ exchange 0 0 0).

Lemma sample_mid_run :
  exec_all (deployment sample_processes sample_hosts) (sample_data ++ exchange 0 0 0)
    (init_sys (deployment sample_processes sample_hosts)) = Some sample_mid.
Proof. apply run_exec. vm_compute. reflexivity. Qed.


